(* ===== verification/_CoqProject ===== *)
-Q . S2P
Prelude.v
CLib.v
Types.v
World.v
Logic.v
Helper.v
Log.v
Db.v
DbSpec.v
Exec.v
ExecSpec.v
Runner.v
IpDetect.v
IpDetectSpec.v
ExtractSpec.v
Reconcile.v
ReconcileSpec.v
ReconcileProps.v
RetrySpec.v
HealthSpec.v
ConvergeSpec.v
UbusIf.v
UbusSpec.v
Registry.v
RegisterSpec.v
MethodsSpec.v
UbusProps.v
ServeSpec.v
Daemon.v
DaemonSpec.v
TruncationSpec.v
ServiceSpec.v
ReplySpec.v
QuietSpec.v
