(* ===== verification/Prelude.v ===== *)
(** * tumgrd: a verification of the tunnel manager daemon

    [tumgrd] is a single-threaded OpenWrt daemon.  It keeps a table of nodes in
    SQLite; a node is a tunnel end on some server.  It is driven by the methods
    of a ubus object, by network events and by two timers.  A pass over a node
    ("reconcile") finds the public address of the router, tells the server
    about it with [tuctl_client], resets the local kernel module with [ktuctl],
    and rotates the secret key of the node when its lifetime is over.  This
    development models the whole of src/src/*.c, and proves what
    the parts promise and what the daemon as a whole promises.

    ** The model

    The program is embedded shallowly.  [World] holds the state of the process
    and of what it shares with the outside ([world]: the trace of effects, the
    database, the SIGALRM deadline, the file descriptors, the globals of
    runner.c and ipdetect.c), and two monads: [M], state passing with [None] for
    a call that never returns, and [X], the body of a function up to its label
    [err_cleanup], with the locals that the clean-up sees ([try2] and [try2_p] are those
    of try.h, [fail] is [goto err_cleanup] with a code, [run] leaves the block).

    Everything the kernel, libc, SQLite, libubus and libuci answer is a field
    of the class [Env], a function of the number of calls made so far, so that
    every theorem holds for every sequence of answers, failures included.  Where
    a theorem speaks of a fault ([sql_fault]) it is a call that failed between
    the two worlds, not anywhere in the stream.  A call may be interrupted
    (EINTR) or block for ever ([SHang]); a blocking call under an armed alarm
    returns EINTR, one on a socket with a timeout fails, and at every call the
    SIGALRM handler may run.  What the process does to the outside is an event
    of the trace: [EvSpawn] has the arguments and the environment of a child and
    the input that it is to be given, [EvWrite] the bytes that went into its
    pipe, [EvConnect] and [EvRequest] the mark of the socket.  The SQL
    statements are functions on the list of rows, translated from their text.
    C integers are [Z] with their wrap-around written out; a [char] array is the
    C string it holds, and the bounds of copies are those of the arrays.

    ** The files

    - [Prelude]: C strings, machine integers, list lemmas, the tactic that
      writes a record field.
    - [CLib]: what the source uses of libc: ctype, string.h, strtol and
      strtoul, the conversions of printf.
    - [Types]: the structs of db.h and tumgrd.h, the row of the table, its key.
    - [World]: environment, state, monads, file descriptors.
    - [Logic]: weakest preconditions [wp] and [wpx], relations that every run of
      an operation respects ([Respects]), total correctness ([Total]), and the
      instances by which these are found from the shape of the code.
    - [Helper]: helper.c.
    - [Log]: log.h, log_impl.c and [log_trimmed] of helper.c.
    - [Db]: db.c, with the finite map ([to_map]) that the table stands for and
      one specification per statement; [DbSpec]: its contract.
    - [Exec]: the watchdog and [exec_with_stdio] of runner.c; [ExecSpec]: its
      contract, and the interface ([Exec], [ExecLaws], [ExecReturns]) against
      which everything that runs a command is verified; [supervised_exec] is
      the implementation and discharges the laws.
    - [Runner]: the argument lists, scripts and sequences of commands of
      runner.c.
    - [IpDetect] and [IpDetectSpec]: ipdetect.c; [ExtractSpec]: the reference of
      the search for an address.
    - [Reconcile]: reconcile.c; [ReconcileSpec]: the phases of a pass;
      [ReconcileProps]: what a pass and a pass over all nodes promise;
      [RetrySpec]: a rotation over the passes it takes; [HealthSpec]: that a
      pass succeeds when nothing outside fails; [ConvergeSpec]: that a pass over
      the whole table then leaves nothing to repair.
    - [UbusIf]: ubus_if.c; [UbusSpec], [RegisterSpec], [MethodsSpec]: its
      handlers; [UbusProps]: what they promise.  [Registry]: the abstract state
      of the daemon, what is asked for each key, and a request as a function on
      it.  [ServeSpec]: the requests that are served.
    - [Daemon]: main.c and the event loop; [DaemonSpec]: the whole daemon, and
      the induction over what arrives ([serving_run_ind]) that the last three
      files share.  [TruncationSpec]: what becomes of a uid that is too long.
      [ServiceSpec]: the daemon as a registry; [ReplySpec]: the types of its
      replies; [QuietSpec]: when it does nothing, and how it comes to that.

    A definition has the name of the C function it translates.  A function that
    is long in C is cut at its comments into blocks that are composed in the
    same order ([tumgrd_reconcile_one] is [settle_rotation], [detect_and_decide],
    [apply_node], [finish_rotation], and [mark_failed] after the label).  Output
    arguments are returned in a pair with the return code.

    ** What is proved

    - The database ([DbSpec]): the operations refine a finite map from primary
      keys to rows; whatever fails, the constraints of the schema hold and every
      rotation can be resumed; a table of an earlier release is migrated; a row
      that is read fits its struct.
    - The supervised child ([ExecSpec]): it returns even if the child hangs,
      leaks no descriptor, writes the input and nothing else, signals only its
      own child and never after it has been reaped, and succeeds if and only if
      the child exits with 0 and is not signalled.
    - The commands ([Runner]): which commands are run, in which order, and what
      the outcome of each, its exit status, its marker and a timeout, leads to;
      that a comment cannot add a line to a script; that the logged command
      lines have no secrets.
    - Keys ([Helper]): a generated key is the bytes that were read from
      /dev/urandom during the call.  The properties above it ([ReconcileProps],
      [RegisterSpec]) speak of these bytes.
    - The address ([IpDetectSpec], [ExtractSpec]): URLs, the address in a
      response, which is the one that a search of its words finds, that every
      socket has the mark and the timeouts, and that a silent server cannot hold
      the daemon.
    - The pass ([ReconcileProps]): its outcome case by case, and why it is
      skipped or not; a key changes only when it is due, is on disk before it is
      used, and survives a failure; a pass over all nodes visits each of them.
    - Several passes ([RetrySpec]): a rotation is retried with one key until
      the server, the local client and the row have it.
    - Progress ([HealthSpec], [ConvergeSpec]): in a healthy system every pass
      succeeds, and one pass over all nodes leaves every row applied, with no
      rotation and no error.
    - The bus ([UbusProps], [ServeSpec]): the outcome of each method, case by
      case; in a healthy system every registration that is admissible, on a free
      port, is served; the connection is given back.
    - The daemon ([DaemonSpec]): an accepted command line gives a configuration
      in range; in every reachable state of the loop the table is well formed
      and the next event can be handled; [main] returns and gives back what it
      took.
    - The service ([ServiceSpec], [ReplySpec]): the event loop refines a
      transition system on the registry whose observations are the replies, and
      every reply has the record type of its method.
    - Rest ([QuietSpec]): one forced pass in a healthy system leaves nothing to
      be done, and from then on the timer and the calls that force nothing run
      no command and write no row.

    Where the code does something that its authors hardly meant, the theorem
    says so: [long_uid_is_lost], [logged_script_shows_the_key],
    [bus_failure_is_ignored], [interrupted_backfill_is_lost],
    [failed_detection_leaves_link_local], [parse_interval_accepts_negative],
    [usage_omits_trace].

    ** Fuel and hypotheses

    Loops that consume a buffer ([read_loop], [write_loop], [urandom_loop],
    [send_loop], [recv_loop]) take as many rounds as there are bytes left, which
    is enough since every round that does not end the loop moves at least one
    byte.  Loops on EINTR ([retry]) run for [env_fuel] rounds, which is part of
    the environment: giving up stands for being interrupted for ever, and a
    theorem of termination assumes that fewer interruptions come in a row.  The
    hypotheses of termination, collected in [Responsive], are: of the kernel,
    that it takes the two timeouts of a socket ([TimeoutsTaken]), that a child
    that was killed can be reaped and that writes to a pipe do not for ever take
    nothing ([ChildResponsive]), that /dev/urandom does not block
    ([UrandomResponsive]), and that calls on sockets are not interrupted for
    ever ([NetSettles]).  Of a server or a child nothing is assumed: it may be
    silent for ever, as in [silent_env].  [find_token] and [groups] have a round for each byte and for
    each group.  Numbers of at most 20 digits are printed by [fmt_u].  Each of
    these hypotheses holds in the concrete environments [ready_env],
    [online_env], [silent_env], [recovering_env] and [healthy_env], in which the
    witnesses run.

    Where what a request says must fit the arrays of the node the theorem says
    so ([request_fits]): the program does not check it, see [TruncationSpec].
    The other texts of a request are stored cut to their arrays, and the registry
    has them so ([request_on]).  Rows that differ in
    ip_version alone tie in the ORDER BY clause of a listing; SQL leaves their
    order open, and the model takes that of the table.  A set-up call of
    posix_spawn that fails does so with ENOMEM.

    ** Not modelled

    - The log messages of the operations, and that the usage text is printed:
      output only.  What a message looks like and when it is seen is in [Log],
      the masking of secrets is [log_argv], the text itself [usage].
    - The bodies of SQLite, libubox, libubus, libuci and libc.  Of inet_pton,
      strtol and the like the documented behaviour is a definition of [CLib] or
      [IpDetect].  [getopt_long] and [blobmsg_parse] give the model their
      results: a list of options, a table of attributes.
    - Which signals end the loop: [uloop_run] takes the events that arrive
      before the signal.
    - Closing and freeing of what is not a descriptor or a connection (statements,
      blobs, address lists, [tumgrd_db_free_nodes]).
    - The shell client, the init script, the packaging and build files. *)

From stdpp Require Export base tactics list list_numbers strings sorting gmap.
From Stdlib Require Export ZArith Lia.
From Stdlib Require Ascii String.
Export (notations) Stdlib.Strings.Ascii.

#[global] Set Default Goal Selector "!".

(** ** C strings

    A [char] array is modelled by the C string it holds: the bytes before the
    first NUL.  String literals of the source are written as such and coerced. *)
Abbreviation ascii := Stdlib.Strings.Ascii.ascii.
Abbreviation cstr := (list ascii).
Coercion literal (s : string) : cstr := Stdlib.Strings.String.list_ascii_of_string s.

Declare Scope c_scope.
Delimit Scope c_scope with c.

(** The byte NUL, and the C string found at the start of a byte buffer. *)
Definition NUL : ascii := Stdlib.Strings.Ascii.ascii_of_nat 0.

Fixpoint upto_nul (bs : list ascii) : cstr :=
  match bs with
  | [] => []
  | c :: bs' => if decide (c = NUL) then [] else c :: upto_nul bs'
  end.

Definition nonul (s : cstr) : Prop := Forall (fun c => c <> NUL) s.

Definition byte_val (c : ascii) : Z := Z.of_N (Stdlib.Strings.Ascii.N_of_ascii c).
Definition byte_of (z : Z) : ascii := Stdlib.Strings.Ascii.ascii_of_N (Z.to_N z).

(** ** Machine integers *)
Definition INT32_MAX : Z := 2147483647.
Definition INT64_MAX : Z := 9223372036854775807.
Definition UINT32_MAX : Z := 4294967295.

(** Conversion to a [w]-bit unsigned and signed (two's complement) integer. *)
Definition wrap_u (w : Z) (z : Z) : Z := Z.modulo z (2 ^ w).
Definition wrap_s (w : Z) (z : Z) : Z :=
  let u := Z.modulo z (2 ^ w) in if (u <? 2 ^ (w - 1))%Z then u else (u - 2 ^ w)%Z.

Abbreviation int32 := (wrap_s 32).
Abbreviation uint32 := (wrap_u 32).
Abbreviation int64 := (wrap_s 64).
Abbreviation uint64 := (wrap_u 64).

Lemma wrap_u_range w z : (0 <= w)%Z -> (0 <= wrap_u w z < 2 ^ w)%Z.
Proof. intros Hw. unfold wrap_u. apply Z.mod_pos_bound. lia. Qed.

Lemma wrap_u_id w z : (0 <= z < 2 ^ w)%Z -> wrap_u w z = z.
Proof. intros Hz. unfold wrap_u. by apply Z.mod_small. Qed.

Lemma wrap_s_range w z : (0 < w)%Z -> (- 2 ^ (w - 1) <= wrap_s w z < 2 ^ (w - 1))%Z.
Proof.
  intros Hw. unfold wrap_s.
  assert (2 ^ w = 2 * 2 ^ (w - 1))%Z as Hd.
  { rewrite <- Z.pow_succ_r by lia. f_equal. lia. }
  pose proof (Z.mod_pos_bound z (2 ^ w) ltac:(lia)) as Hm.
  destruct (Z.ltb_spec (z mod 2 ^ w) (2 ^ (w - 1))); lia.
Qed.

Lemma wrap_s_id w z : (0 < w)%Z -> (- 2 ^ (w - 1) <= z < 2 ^ (w - 1))%Z -> wrap_s w z = z.
Proof.
  intros Hw Hz. unfold wrap_s.
  assert (2 ^ w = 2 * 2 ^ (w - 1))%Z as Hd.
  { rewrite <- Z.pow_succ_r by lia. f_equal. lia. }
  destruct (Z.ltb_spec z 0).
  - replace (z mod 2 ^ w)%Z with (z + 2 ^ w)%Z.
    + destruct (Z.ltb_spec (z + 2 ^ w) (2 ^ (w - 1))); lia.
    + apply (Z.mod_unique _ _ (-1)%Z); lia.
  - rewrite Z.mod_small by lia. destruct (Z.ltb_spec z (2 ^ (w - 1))); lia.
Qed.

(** A signed value survives a cast to unsigned and back. *)
Lemma wrap_s_u w z : (0 <= w)%Z -> wrap_s w (wrap_u w z) = wrap_s w z.
Proof. intros Hw. unfold wrap_s, wrap_u. by rewrite Zmod_mod. Qed.
