(* ===== verification/CLib.v ===== *)
(** * CLib: the C library functions the sources call

    Executable definitions of what the program uses of libc on C strings and
    numbers, in the C locale: character classes, comparisons, searches, the
    [strtoul] family and the integer conversions of [printf].  [strtoul] takes
    the width of [unsigned long], which is 32 or 64 bits on the targets the
    build files name. *)

From S2P Require Import Prelude.

(** ** Character classes and comparisons *)
Definition is_space (c : ascii) : bool :=
  let z := byte_val c in ((9 <=? z) && (z <=? 13) || (z =? 32))%Z.

Definition is_digit (c : ascii) : bool :=
  let z := byte_val c in ((48 <=? z) && (z <=? 57))%Z.

Definition is_alpha (c : ascii) : bool :=
  let z := byte_val c in ((65 <=? z) && (z <=? 90) || (97 <=? z) && (z <=? 122))%Z.

Definition is_alnum (c : ascii) : bool := is_alpha c || is_digit c.

Definition to_lower (c : ascii) : ascii :=
  let z := byte_val c in if ((65 <=? z) && (z <=? 90))%Z then byte_of (z + 32) else c.

Definition strcmp_eq (a b : cstr) : bool := bool_decide (a = b).
Definition strcasecmp_eq (a b : cstr) : bool := bool_decide (to_lower <$> a = to_lower <$> b).

(** [strncmp(s, lit, n) == 0] for a literal of [n] bytes. *)
Fixpoint has_prefix (lit s : cstr) : bool :=
  match lit, s with
  | [], _ => true
  | _ :: _, [] => false
  | c :: lit', d :: s' => bool_decide (c = d) && has_prefix lit' s'
  end.

(** ** Searches *)
Fixpoint strchr (s : cstr) (c : ascii) : option cstr :=
  match s with
  | [] => None
  | d :: s' => if decide (d = c) then Some s else strchr s' c
  end.

(** The part of [s] before the last [c], when there is one. *)
Fixpoint before_last (s : cstr) (c : ascii) : option cstr :=
  match s with
  | [] => None
  | d :: s' =>
      match before_last s' c with
      | Some p => Some (d :: p)
      | None => if decide (d = c) then Some [] else None
      end
  end.

Fixpoint strstr (hay needle : cstr) : option cstr :=
  if has_prefix needle hay then Some hay
  else match hay with
       | [] => None
       | _ :: hay' => strstr hay' needle
       end.

(** The longest prefix of bytes in a class, and what follows it. *)
Fixpoint span (p : ascii -> bool) (s : cstr) : cstr * cstr :=
  match s with
  | [] => ([], [])
  | c :: s' => if p c then let '(a, b) := span p s' in (c :: a, b) else ([], s)
  end.

(** ** [strtoul], [strtol], [strtoll] *)
Definition digit_val (c : ascii) : option Z :=
  let z := byte_val c in
  if ((48 <=? z) && (z <=? 57))%Z then Some (z - 48)%Z
  else if ((65 <=? z) && (z <=? 90))%Z then Some (z - 55)%Z
  else if ((97 <=? z) && (z <=? 122))%Z then Some (z - 87)%Z
  else None.

Definition digit_in (base : Z) (c : ascii) : bool :=
  match digit_val c with Some d => (d <? base)%Z | None => false end.

Definition digits_value (base : Z) (ds : cstr) : Z :=
  foldl (fun acc c => acc * base + default 0 (digit_val c))%Z 0%Z ds.

(** The subject sequence: sign, base and digits, and the rest of the input.
    [None] when there is no conversion ([endptr == input]). *)
Record subject := mkSubject { sj_neg : bool; sj_mag : Z; sj_rest : cstr }.

Definition split_sign (s : cstr) : bool * cstr :=
  match s with
  | c :: s' => if decide (c = "-"%char) then (true, s')
               else if decide (c = "+"%char) then (false, s') else (false, s)
  | [] => (false, [])
  end.

Definition is_x (c : ascii) : bool := bool_decide (c = "x"%char) || bool_decide (c = "X"%char).

Definition split_base (base : Z) (s : cstr) : Z * cstr :=
  if (base =? 0)%Z then
    match s with
    | z :: x :: h :: s' =>
        if bool_decide (z = "0"%char) && is_x x && digit_in 16 h then (16%Z, h :: s')
        else if bool_decide (z = "0"%char) then (8%Z, s) else (10%Z, s)
    | z :: _ => if bool_decide (z = "0"%char) then (8%Z, s) else (10%Z, s)
    | [] => (10%Z, [])
    end
  else (base, s).

Definition parse_subject (base : Z) (s : cstr) : option subject :=
  let '(_, s1) := span is_space s in
  let '(neg, s2) := split_sign s1 in
  let '(b, s3) := split_base base s2 in
  let '(ds, rest) := span (digit_in b) s3 in
  match ds with
  | [] => None
  | _ :: _ => Some (mkSubject neg (digits_value b ds) rest)
  end.

(** A conversion's value and whether it set [errno] to [ERANGE]. *)
Definition strtoul_value (long_bits : Z) (j : subject) : Z * bool :=
  let max := (2 ^ long_bits - 1)%Z in
  if (max <? sj_mag j)%Z then (max, true)
  else (wrap_u long_bits (if sj_neg j then - sj_mag j else sj_mag j)%Z, false).

Definition strtol_value (long_bits : Z) (j : subject) : Z * bool :=
  let v := (if sj_neg j then - sj_mag j else sj_mag j)%Z in
  let max := (2 ^ (long_bits - 1) - 1)%Z in
  let min := (- 2 ^ (long_bits - 1))%Z in
  if (max <? v)%Z then (max, true) else if (v <? min)%Z then (min, true) else (v, false).

(** ** Integer conversions of [printf] *)
Definition dec_digit (d : Z) : ascii := byte_of (48 + d).

Fixpoint dec_loop (fuel : nat) (n : Z) (acc : cstr) : cstr :=
  match fuel with
  | O => acc
  | S f =>
      let acc' := dec_digit (n mod 10) :: acc in
      if (n <? 10)%Z then acc' else dec_loop f (n / 10) acc'
  end.

(** [%u]: twenty digits are enough for every 64-bit value. *)
Definition fmt_u (n : Z) : cstr := dec_loop 20 n [].
Definition fmt_d (n : Z) : cstr := if (n <? 0)%Z then "-"%char :: fmt_u (- n) else fmt_u n.

Definition hex_digit (d : Z) : ascii := if (d <? 10)%Z then byte_of (48 + d) else byte_of (87 + d).

(** [%02x] of one byte. *)
Definition fmt_02x (c : ascii) : cstr :=
  [hex_digit (byte_val c / 16); hex_digit (byte_val c mod 16)].

(** ** Lemmas *)
Lemma byte_val_range c : (0 <= byte_val c < 256)%Z.
Proof.
  unfold byte_val. pose proof (Stdlib.Strings.Ascii.N_ascii_bounded c). lia.
Qed.

Lemma byte_val_of z : (0 <= z < 256)%Z -> byte_val (byte_of z) = z.
Proof.
  intros Hz. unfold byte_val, byte_of.
  rewrite Stdlib.Strings.Ascii.N_ascii_embedding by lia. lia.
Qed.

Lemma byte_of_val c : byte_of (byte_val c) = c.
Proof.
  unfold byte_val, byte_of. rewrite N2Z.id.
  apply Stdlib.Strings.Ascii.ascii_N_embedding.
Qed.

Lemma has_prefix_spec lit s : has_prefix lit s = true <-> exists r, s = lit ++ r.
Proof.
  revert s. induction lit as [|c lit IH]; intros s; simpl.
  - split; [by exists s|done].
  - destruct s as [|d s]; [by split; [|intros [r ?]]|].
    rewrite andb_true_iff, bool_decide_eq_true, IH. split.
    + intros [-> [r ->]]. by exists r.
    + intros [r ?]. simplify_eq/=. eauto.
Qed.

Lemma has_prefix_app lit r : has_prefix lit (lit ++ r) = true.
Proof. apply has_prefix_spec. by exists r. Qed.

Lemma strstr_spec hay needle :
  is_Some (strstr hay needle) <-> exists a b, hay = a ++ needle ++ b.
Proof.
  induction hay as [|c hay IH]; simpl.
  - destruct (has_prefix needle []) eqn:Hp.
    + apply has_prefix_spec in Hp as [r Hr]. split; [|by eauto].
      intros _. exists [], r. done.
    + split; [by intros [? ?]|]. intros (a & b & H).
      destruct a, needle; simplify_eq/=.
  - destruct (has_prefix needle (c :: hay)) eqn:Hp.
    + apply has_prefix_spec in Hp as [r Hr]. split; [|by eauto].
      intros _. exists [], r. done.
    + rewrite IH. split.
      * intros (a & b & ->). by exists (c :: a), b.
      * intros (a & b & H). destruct a as [|d a]; simplify_eq/=; [|by eauto].
        rewrite H, has_prefix_app in Hp. done.
Qed.

Lemma strstr_suffix hay needle t : strstr hay needle = Some t -> exists a, hay = a ++ t /\ has_prefix needle t = true.
Proof.
  revert t. induction hay as [|c hay IH]; intros t; simpl.
  - destruct (has_prefix needle []) eqn:Hp; [|done].
    intros [= <-]. by exists [].
  - destruct (has_prefix needle (c :: hay)) eqn:Hp.
    + intros [= <-]. by exists [].
    + intros (a & -> & Ht)%IH. by exists (c :: a).
Qed.

Lemma strchr_spec s c t :
  strchr s c = Some t <-> exists a, s = a ++ t /\ (exists t', t = c :: t') /\ c ∉ a.
Proof.
  revert t. induction s as [|d s IH]; intros t; simpl.
  - split; [done|]. intros (a & H & (t' & ->) & _). by destruct a.
  - destruct (decide (d = c)) as [->|Hne].
    + split.
      * intros [= <-]. exists []. split; [done|]. split; [by eauto|]. apply not_elem_of_nil.
      * intros (a & H & (t' & ->) & Hn). destruct a as [|e a]; simplify_eq/=; [done|].
        by destruct Hn; left.
    + rewrite IH. split.
      * intros (a & -> & Ht & Hn). exists (d :: a). split; [done|]. split; [done|].
        rewrite not_elem_of_cons. by split.
      * intros (a & H & (t' & ->) & Hn). destruct a as [|e a]; simplify_eq/=.
        exists a. rewrite not_elem_of_cons in Hn. split; [done|]. split; [by eauto|]. tauto.
Qed.

Lemma span_app p s : let '(a, b) := span p s in s = a ++ b.
Proof.
  induction s as [|c s IH]; simpl; [done|]. destruct (p c); [|done].
  destruct (span p s). by subst.
Qed.

Lemma span_fst_forall p s : Forall (fun c => p c = true) (span p s).1.
Proof.
  induction s as [|c s IH]; simpl; [constructor|].
  destruct (p c) eqn:Hp; [|constructor]. destruct (span p s); simpl in *. by constructor.
Qed.

Lemma span_snd_head p s c t : (span p s).2 = c :: t -> p c = false.
Proof.
  induction s as [|d s IH]; simpl; [done|].
  destruct (p d) eqn:Hp; [destruct (span p s); simpl in *; by apply IH|].
  intros [= -> ->]. done.
Qed.

Lemma span_all p a b :
  Forall (fun c => p c = true) a -> (forall c t, b = c :: t -> p c = false) ->
  span p (a ++ b) = (a, b).
Proof.
  intros Ha Hb. induction Ha as [|c a Hc Ha IH]; simpl.
  - destruct b as [|c t]; [done|]. simpl. by rewrite (Hb c t).
  - by rewrite Hc, IH.
Qed.

(** *** Decimal output and the [strtoul] family are inverse *)
Lemma dec_digit_val d : (0 <= d < 10)%Z -> digit_val (dec_digit d) = Some d.
Proof.
  intros Hd. unfold digit_val, dec_digit. rewrite byte_val_of by lia.
  destruct (Z.leb_spec 48 (48 + d)), (Z.leb_spec (48 + d) 57); simpl; try lia. f_equal. lia.
Qed.

Lemma dec_digit_is_digit d : (0 <= d < 10)%Z -> is_digit (dec_digit d) = true.
Proof.
  intros Hd. unfold is_digit, dec_digit. rewrite byte_val_of by lia.
  apply andb_true_iff. rewrite !Z.leb_le. lia.
Qed.

Lemma digits_value_snoc base ds c :
  digits_value base (ds ++ [c]) = (digits_value base ds * base + default 0 (digit_val c))%Z.
Proof. unfold digits_value. by rewrite foldl_snoc. Qed.

Lemma dec_loop_spec fuel n acc :
  fuel <> 0 -> (0 <= n < 10 ^ Z.of_nat fuel)%Z ->
  exists ds, dec_loop fuel n acc = ds ++ acc /\ ds <> [] /\
    Forall (fun c => is_digit c = true) ds /\ digits_value 10 ds = n /\
    (0 < n -> head ds <> Some "0"%char)%Z.
Proof.
  revert n acc. induction fuel as [|f IH]; intros n acc Hf Hn; [done|].
  pose proof (Z.mod_pos_bound n 10 ltac:(lia)) as Hm.
  simpl. destruct (Z.ltb_spec n 10).
  - rewrite Z.mod_small by lia. exists [dec_digit n]. split; [done|]. split; [done|].
    split; [apply Forall_singleton, dec_digit_is_digit; lia|]. split.
    + unfold digits_value. simpl. rewrite dec_digit_val by lia. done.
    + intros Hpos [= Heq]. apply (f_equal byte_val) in Heq. unfold dec_digit in Heq.
      rewrite byte_val_of in Heq by lia. change (byte_val "0") with 48%Z in Heq. lia.
  - destruct (IH (n / 10)%Z (dec_digit (n mod 10) :: acc)) as (ds & -> & Hne & Hd & Hv & Hh).
    + intros ->. simpl in Hn. lia.
    + split; [apply Z.div_pos; lia|]. apply Z.div_lt_upper_bound; [lia|].
      rewrite <- Z.pow_succ_r by lia. rewrite <- Nat2Z.inj_succ. apply Hn.
    + exists (ds ++ [dec_digit (n mod 10)]). rewrite <- app_assoc. split; [done|].
      split; [by destruct ds|]. split.
      { apply Forall_app. split; [done|]. apply Forall_singleton, dec_digit_is_digit; lia. }
      split.
      * rewrite digits_value_snoc, Hv, dec_digit_val by lia. simpl.
        pose proof (Z.div_mod n 10 ltac:(lia)). lia.
      * intros _. destruct ds as [|d ds]; [done|]. simpl in *. apply Hh.
        apply Z.div_str_pos. lia.
Qed.

Lemma fmt_u_spec n :
  (0 <= n < 10 ^ 20)%Z ->
  fmt_u n <> [] /\ Forall (fun c => is_digit c = true) (fmt_u n) /\
  digits_value 10 (fmt_u n) = n /\ (0 < n -> head (fmt_u n) <> Some "0"%char)%Z.
Proof.
  intros Hn. destruct (dec_loop_spec 20 n [] ltac:(done) Hn) as (ds & Heq & H).
  unfold fmt_u. rewrite Heq, app_nil_r. done.
Qed.

Lemma dec_loop_length fuel n acc k :
  k <> 0 -> (0 <= n < 10 ^ Z.of_nat k)%Z -> length (dec_loop fuel n acc) <= k + length acc.
Proof.
  revert n acc k. induction fuel as [|f IH]; intros n acc k Hk Hn; cbn [dec_loop]; [lia|].
  destruct (Z.ltb_spec n 10); [cbn; lia|].
  destruct k as [|[|k]]; [done|change (10 ^ Z.of_nat 1)%Z with 10%Z in Hn; lia|].
  rewrite (IH _ _ (S k)); [cbn; lia|done|].
  replace (Z.of_nat (S (S k))) with (Z.succ (Z.of_nat (S k))) in Hn by lia.
  rewrite Z.pow_succ_r in Hn by lia. split; [apply Z.div_pos; lia|apply Z.div_lt_upper_bound; lia].
Qed.

Lemma fmt_u_length n k : k <> 0 -> (0 <= n < 10 ^ Z.of_nat k)%Z -> length (fmt_u n) <= k.
Proof. intros Hk Hn. pose proof (dec_loop_length 20 n [] k Hk Hn) as H. cbn [length] in H. unfold fmt_u. lia. Qed.

(** Ten digits and a sign hold every [int]. *)
Lemma fmt_d_length z : (- 2 ^ 31 <= z < 2 ^ 31)%Z -> length (fmt_d z) <= 11.
Proof.
  intros Hz. unfold fmt_d. destruct (Z.ltb_spec z 0); cbn [length].
  - pose proof (fmt_u_length (- z) 10 ltac:(done) ltac:(lia)). lia.
  - pose proof (fmt_u_length z 10 ltac:(done) ltac:(lia)). lia.
Qed.

Lemma is_digit_digit_in c : is_digit c = true -> digit_in 10 c = true.
Proof.
  unfold is_digit, digit_in, digit_val. simpl. intros Hd. rewrite Hd.
  apply andb_true_iff in Hd as [?%Z.leb_le ?%Z.leb_le]. apply Z.ltb_lt. lia.
Qed.

Lemma is_digit_not_space c : is_digit c = true -> is_space c = false.
Proof.
  unfold is_digit, is_space. intros [H1%Z.leb_le H2%Z.leb_le]%andb_true_iff.
  apply orb_false_iff. rewrite andb_false_iff, !Z.leb_gt, Z.eqb_neq. lia.
Qed.

Lemma is_digit_val c : is_digit c = true -> (48 <= byte_val c <= 57)%Z.
Proof. unfold is_digit. by intros [?%Z.leb_le ?%Z.leb_le]%andb_true_iff. Qed.

Lemma split_sign_digit c s : is_digit c = true -> split_sign (c :: s) = (false, c :: s).
Proof.
  intros Hc%is_digit_val. simpl.
  destruct (decide (c = "-"%char)) as [->|]; [by vm_compute in Hc; destruct Hc|].
  destruct (decide (c = "+"%char)) as [->|]; [by vm_compute in Hc; destruct Hc|done].
Qed.

Lemma split_base_nonzero base s :
  (base = 0 \/ base = 10)%Z -> head s <> Some "0"%char -> split_base base s = (10%Z, s).
Proof.
  intros Hb Hh. unfold split_base. destruct Hb as [->| ->]; simpl; [|done].
  destruct s as [|z [|x [|h s]]]; [done|..]; simpl in Hh;
    rewrite !(bool_decide_eq_false_2 (z = "0"%char)) by congruence; done.
Qed.

(** A decimal number printed with [%u] is read back by the [strtoul] family
    in base 0 or 10; in base 0 zero alone would be octal, so it is excluded. *)
Lemma parse_subject_fmt_u base n rest :
  (base = 0 \/ base = 10)%Z -> (0 < n < 10 ^ 20)%Z ->
  (forall c t, rest = c :: t -> digit_in 10 c = false) ->
  parse_subject base (fmt_u n ++ rest) = Some (mkSubject false n rest).
Proof.
  intros Hb Hn Hrest. destruct (fmt_u_spec n ltac:(lia)) as (Hne & Hd & Hv & Hh).
  specialize (Hh ltac:(lia)). unfold parse_subject.
  destruct (fmt_u n) as [|c ds] eqn:Hf; [done|].
  pose proof (Forall_inv Hd) as Hc. simpl in Hc.
  change ((c :: ds) ++ rest) with (c :: (ds ++ rest)). simpl span at 1.
  rewrite is_digit_not_space by done. rewrite split_sign_digit by done.
  rewrite split_base_nonzero by done.
  change (c :: (ds ++ rest)) with ((c :: ds) ++ rest).
  rewrite span_all; [by rewrite Hv| |done].
  eapply List.Forall_impl; [|exact Hd]. apply is_digit_digit_in.
Qed.

Lemma strtoul_value_id long_bits n rest :
  (0 <= n < 2 ^ long_bits)%Z -> strtoul_value long_bits (mkSubject false n rest) = (n, false).
Proof.
  intros Hn. unfold strtoul_value. simpl.
  destruct (Z.ltb_spec (2 ^ long_bits - 1) n); [lia|]. by rewrite wrap_u_id.
Qed.

Lemma strtol_value_id long_bits n rest :
  (0 <= n < 2 ^ (long_bits - 1))%Z -> strtol_value long_bits (mkSubject false n rest) = (n, false).
Proof.
  intros Hn. unfold strtol_value. simpl.
  destruct (Z.ltb_spec (2 ^ (long_bits - 1) - 1) n); [lia|].
  destruct (Z.ltb_spec n (- 2 ^ (long_bits - 1))); [lia|done].
Qed.
