(* ===== verification/Types.v ===== *)
(** * Types: the data of db.h and tumgrd.h

    The node record, the daemon configuration, the constants and the rows of
    the SQL table [nodes]. *)

From S2P Require Import Prelude CLib.

(** ** struct tumgrd_node *)
Record node := mkNode {
  uid : cstr;
  description : cstr;
  client_comment : cstr;
  created_at : Z;
  server_host : cstr;
  server_port : Z;
  psk : cstr;
  client_port : Z;
  has_memlimit : Z;
  memlimit : Z;
  ip_check_url : cstr;
  ip_version : cstr;
  current_ip : cstr;
  last_updated : Z;
  status : cstr;
  xor_key : cstr;
  lifetime : Z;
  last_applied_at : Z;
  rotation_state : Z;
  xor_key_pending : cstr
}.

(** [memset(node, 0, sizeof *node)]. *)
Definition node_zero : node :=
  mkNode [] [] [] 0 [] 0 [] 0 0 0 [] [] [] 0 [] [] 0 0 0 [].

Definition eta_node (n : node) : node :=
  mkNode (uid n) (description n) (client_comment n) (created_at n) (server_host n)
    (server_port n) (psk n) (client_port n) (has_memlimit n) (memlimit n) (ip_check_url n)
    (ip_version n) (current_ip n) (last_updated n) (status n) (xor_key n) (lifetime n)
    (last_applied_at n) (rotation_state n) (xor_key_pending n).

(** Assignment to one field: the record with the projection abstracted. *)
Ltac set_field eta p v x :=
  let t := eval cbv beta delta [eta] in (eta x) in
  let t := eval pattern (p x) in t in
  match t with ?F _ => let r := eval cbv beta in (F v) in exact r end.

Definition set_uid (v : cstr) (n : node) : node := ltac:(set_field eta_node uid v n).
Definition set_description (v : cstr) (n : node) : node := ltac:(set_field eta_node description v n).
Definition set_client_comment (v : cstr) (n : node) : node := ltac:(set_field eta_node client_comment v n).
Definition set_created_at (v : Z) (n : node) : node := ltac:(set_field eta_node created_at v n).
Definition set_server_host (v : cstr) (n : node) : node := ltac:(set_field eta_node server_host v n).
Definition set_server_port (v : Z) (n : node) : node := ltac:(set_field eta_node server_port v n).
Definition set_psk (v : cstr) (n : node) : node := ltac:(set_field eta_node psk v n).
Definition set_client_port (v : Z) (n : node) : node := ltac:(set_field eta_node client_port v n).
Definition set_has_memlimit (v : Z) (n : node) : node := ltac:(set_field eta_node has_memlimit v n).
Definition set_memlimit (v : Z) (n : node) : node := ltac:(set_field eta_node memlimit v n).
Definition set_ip_check_url (v : cstr) (n : node) : node := ltac:(set_field eta_node ip_check_url v n).
Definition set_ip_version (v : cstr) (n : node) : node := ltac:(set_field eta_node ip_version v n).
Definition set_last_updated (v : Z) (n : node) : node := ltac:(set_field eta_node last_updated v n).
Definition set_status (v : cstr) (n : node) : node := ltac:(set_field eta_node status v n).
Definition set_xor_key (v : cstr) (n : node) : node := ltac:(set_field eta_node xor_key v n).
Definition set_lifetime (v : Z) (n : node) : node := ltac:(set_field eta_node lifetime v n).
Definition set_last_applied_at (v : Z) (n : node) : node := ltac:(set_field eta_node last_applied_at v n).
Definition set_rotation_state (v : Z) (n : node) : node := ltac:(set_field eta_node rotation_state v n).
Definition set_xor_key_pending (v : cstr) (n : node) : node := ltac:(set_field eta_node xor_key_pending v n).

(** Array sizes of the [char] members. *)
Definition SZ_UID : nat := 128.
Definition SZ_TEXT : nat := 256.
Definition SZ_IP_VERSION : nat := 16.
Definition SZ_CURRENT_IP : nat := 64.
Definition SZ_STATUS : nat := 32.
Definition SZ_XOR_KEY : nat := 129.

(** ** struct tumgrd_config *)
Record config := mkConfig {
  db_path : cstr;
  socket_path : option cstr;
  log_level : cstr;
  interval_sec : Z;
  enable_xor : bool;
  use_client_ip : bool;
  fwmark : Z;
  default_lifetime : Z
}.

(** ** Constants *)
Definition TUMGRD_DB_PATH : cstr := "/lib/tumgrd/tumgrd.db".
Definition TUMGRD_DEFAULT_IP_CHECK_URL : cstr := "http://ip.3322.net/".
Definition TUMGRD_DEFAULT_IP_CHECK_HOST : cstr := "ip.3322.net".
Definition TUMGRD_DEFAULT_IP_CHECK_PATH : cstr := "/".
Definition TUMGRD_DEFAULT_IP_CHECK_PORT : Z := 80.
Definition TUMGRD_IPDETECT_FWMARK : Z := 2.
Definition TUMGRD_STATUS_ACTIVE : cstr := "active".
Definition TUMGRD_STATUS_ERROR : cstr := "error".
Definition TUMGRD_STATUS_SYNCING : cstr := "syncing".

Definition TUMGRD_ROTATION_NONE : Z := 0.
Definition TUMGRD_ROTATION_PENDING_REMOTE : Z := 1.
Definition TUMGRD_ROTATION_PENDING_LOCAL_RECOVERY : Z := 2.

Definition TUMGRD_LIFETIME_MIN : Z := 60.
Definition TUMGRD_LIFETIME_MAX : Z := INT32_MAX.
Definition TUMGRD_MIN_SANE_TIME : Z := 1600000000.

(** ** Nodes that fit the C types *)

(** A node whose strings fit their arrays and whose integers fit their type. *)
Definition text_fits (n : nat) (s : cstr) : Prop := nonul s /\ length s < n.
Definition int_fits (z : Z) : Prop := (- 2 ^ 31 <= z < 2 ^ 31)%Z.

Record node_fits (n : node) : Prop := {
  fits_uid : text_fits SZ_UID (uid n);
  fits_description : text_fits SZ_TEXT (description n);
  fits_client_comment : text_fits SZ_TEXT (client_comment n);
  fits_server_host : text_fits SZ_TEXT (server_host n);
  fits_server_port : int_fits (server_port n);
  fits_psk : text_fits SZ_TEXT (psk n);
  fits_client_port : int_fits (client_port n);
  fits_memlimit : int_fits (memlimit n);
  fits_has_memlimit : (has_memlimit n = 0 /\ memlimit n = 0 \/ has_memlimit n = 1)%Z;
  fits_ip_check_url : text_fits SZ_TEXT (ip_check_url n);
  fits_ip_version : text_fits SZ_IP_VERSION (ip_version n);
  fits_current_ip : text_fits SZ_CURRENT_IP (current_ip n);
  fits_status : text_fits SZ_STATUS (status n);
  fits_xor_key : text_fits SZ_XOR_KEY (xor_key n);
  fits_lifetime : (lifetime n = 0 \/ TUMGRD_LIFETIME_MIN <= lifetime n <= TUMGRD_LIFETIME_MAX)%Z;
  fits_last_applied : (0 <= last_applied_at n)%Z;
  fits_rotation : int_fits (rotation_state n);
  fits_pending : text_fits SZ_XOR_KEY (xor_key_pending n)
}.

(** ** The table [nodes]

    A row of the table.  Nullable columns are options; the NOT NULL columns and
    the two keys are not. *)
Record row := mkRow {
  c_uid : cstr;
  c_description : option cstr;
  c_client_comment : option cstr;
  c_created_at : option Z;
  c_server_host : cstr;
  c_server_port : Z;
  c_psk : cstr;
  c_client_port : Z;
  c_memlimit : option Z;
  c_ip_check_url : option cstr;
  c_ip_version : cstr;
  c_current_ip : option cstr;
  c_last_updated : option Z;
  c_status : option cstr;
  c_xor_key : option cstr;
  c_lifetime : option Z;
  c_last_applied_at : option Z;
  c_rotation_state : option Z;
  c_xor_key_pending : option cstr
}.

Definition eta_row (r : row) : row :=
  mkRow (c_uid r) (c_description r) (c_client_comment r) (c_created_at r) (c_server_host r)
    (c_server_port r) (c_psk r) (c_client_port r) (c_memlimit r) (c_ip_check_url r)
    (c_ip_version r) (c_current_ip r) (c_last_updated r) (c_status r) (c_xor_key r)
    (c_lifetime r) (c_last_applied_at r) (c_rotation_state r) (c_xor_key_pending r).

Definition set_c_current_ip (v : option cstr) (r : row) : row := ltac:(set_field eta_row c_current_ip v r).
Definition set_c_last_updated (v : option Z) (r : row) : row := ltac:(set_field eta_row c_last_updated v r).
Definition set_c_status (v : option cstr) (r : row) : row := ltac:(set_field eta_row c_status v r).
Definition set_c_xor_key (v : option cstr) (r : row) : row := ltac:(set_field eta_row c_xor_key v r).
Definition set_c_lifetime (v : option Z) (r : row) : row := ltac:(set_field eta_row c_lifetime v r).
Definition set_c_last_applied_at (v : option Z) (r : row) : row := ltac:(set_field eta_row c_last_applied_at v r).
Definition set_c_rotation_state (v : option Z) (r : row) : row := ltac:(set_field eta_row c_rotation_state v r).
Definition set_c_xor_key_pending (v : option cstr) (r : row) : row := ltac:(set_field eta_row c_xor_key_pending v r).

(** The primary key (server_host, server_port, uid, ip_version), and the
    columns of the UNIQUE constraint. *)
Record key := mkKey { k_host : cstr; k_port : Z; k_uid : cstr; k_version : cstr }.

Definition row_key (r : row) : key :=
  mkKey (c_server_host r) (c_server_port r) (c_uid r) (c_ip_version r).

Definition row_port_key (r : row) : cstr * Z * Z * cstr :=
  (c_server_host r, c_server_port r, c_client_port r, c_ip_version r).

Definition node_key (n : node) : key :=
  mkKey (server_host n) (server_port n) (uid n) (ip_version n).

(** Decidable equality, for keys in [WHERE] clauses and whole records in proofs. *)
#[export] Instance key_eq_dec : EqDecision key.
Proof. solve_decision. Defined.

#[export] Instance node_eq_dec : EqDecision node.
Proof. solve_decision. Defined.

#[export] Instance row_eq_dec : EqDecision row.
Proof. solve_decision. Defined.

#[export] Instance key_countable : Countable key.
Proof.
  refine (inj_countable' (fun k => (k_host k, k_port k, k_uid k, k_version k))
    (fun '(h, p, u, v) => mkKey h p u v) _). by intros [].
Defined.
