(* ===== verification/World.v ===== *)
(** * World: the state of the process, its environment, and the effects

    The C code runs against an operating system, a database engine and a
    message bus.  Their answers are an environment [Env]: a stream indexed by
    the number of calls made so far, so that theorems quantify over every
    sequence of answers.  The state of the process is a [world]; an operation
    is a function [world -> option (A * world)] where [None] means that it
    never returns. *)

From S2P Require Import Prelude CLib Types.

(** ** Answers of the environment *)

(** A system call that can be interrupted, fail, or block for ever. *)
Inductive sysres (A : Type) : Type :=
| SOk (a : A)
| SEintr
| SErr
| SHang.
Arguments SOk {A} a.
Arguments SEintr {A}.
Arguments SErr {A}.
Arguments SHang {A}.

Inductive wait_error := WEchild | WOther.
(** What [waitpid] reports of a child that ended. *)
Inductive exit_status := Exited (code : Z) | Signaled (signo : Z).
Inductive mkdir_result := MkdirOk | MkdirExist | MkdirErr.
(** The option [network.wan.device] as libuci reports it. *)
Inductive uci_option := UciString (s : cstr) | UciList (l : list cstr) | UciOther.

(** What [connect] on a socket reports, and the local address of a connected
    one: an error, another family, or an IPv6 address as [inet_ntop] prints it
    with whether it is link-local. *)
Inductive connect_result := ConnOk | ConnInProgress | ConnErr.
Inductive sockname_result := SockErr | SockOther | SockIn6 (link_local : bool) (text : cstr).

Class Env := mkEnv {
  (** consecutive retries after which a loop on EINTR is taken to hang *)
  env_fuel : nat;
  (** [time(NULL)] *)
  env_time : nat -> Z;
  (** whether an armed SIGALRM deadline has expired by this call *)
  env_alarm : nat -> bool;
  (** whether a call that only succeeds or fails succeeds *)
  env_ok : nat -> bool;
  (** the bytes a [read] of a pipe delivers; none at end of file *)
  env_read : nat -> sysres (list ascii);
  (** the bytes a [read] of /dev/urandom delivers *)
  env_urandom : nat -> sysres (list ascii);
  (** the count a [write] to a pipe reports; an error when the reader is gone *)
  env_write : nat -> sysres Z;
  (** [waitpid] on a child: its status, EINTR, or another error *)
  env_waitpid : nat -> sysres (exit_status + wait_error);
  (** the pid of a spawned child *)
  env_pid : nat -> Z;
  env_mkdir : nat -> mkdir_result;
  (** [getaddrinfo]: how many addresses it found, or an error *)
  env_getaddrinfo : nat -> option nat;
  env_connect : nat -> connect_result;
  (** whether the kernel takes a timeout for a socket *)
  env_timeo : nat -> bool;
  env_sockname : nat -> sockname_result;
  (** [send] and [recv] on a socket *)
  env_send : nat -> sysres Z;
  env_recv : nat -> sysres (list ascii);
  (** libuci's lookup of [network.wan.device] *)
  env_uci : nat -> option (option uci_option);
  (** the int that a call of libubus or libubox reports *)
  env_status : nat -> Z;
  (** the environment variables the daemon was started with *)
  env_environ : list cstr
}.

(** ** Observable effects *)
Inductive blob :=
| BStr (name value : cstr)
| BU8 (name : cstr) (v : Z)
| BU32 (name : cstr) (v : Z)
| BU64 (name : cstr) (v : Z)
| BArray (name : cstr) (elems : list (list blob)).

Inductive timer := StartupTimer | PeriodicTimer.

Inductive event :=
| EvSql (stmt : string)
(** a child is spawned, to be given this input *)
| EvSpawn (pid : Z) (argv : list cstr) (input : cstr) (envp : list cstr)
(** bytes that went into the pipe to its standard input *)
| EvWrite (data : cstr)
| EvKill (target : Z)
| EvReap (pid : Z) (st : exit_status)
| EvMkdir (dir : cstr)
(** a connection is tried, with the mark of its socket *)
| EvConnect (mark : option Z)
| EvRequest (host : cstr) (port : Z) (mark : option Z) (request : cstr)
| EvReply (msg : list blob)
| EvTimer (t : timer) (ms : Z)
| EvTimerCancel (t : timer)
| EvTimerFired (t : timer)
| EvUbus (call : string).

(** ** The state of the process *)

(** Columns of [nodes] added after the first release; [None] when the table
    does not exist. *)
Record columns := mkColumns {
  has_lifetime_col : bool;
  has_last_applied_col : bool;
  has_rotation_col : bool;
  has_pending_col : bool
}.

Record world := mkWorld {
  w_tick : nat;               (* calls answered by the environment so far *)
  w_trace : list event;       (* newest first *)
  w_conn : bool;              (* db->conn is open *)
  w_cols : option columns;    (* the schema in the database file *)
  w_rows : list row;          (* the table, in scan order *)
  w_changes : Z;              (* sqlite3_changes() *)
  w_timed_out : bool;         (* g_watchdog_timed_out *)
  w_usable : bool;            (* g_watchdog_usable *)
  w_armed : bool;             (* an alarm() is pending *)
  w_fds : gset Z;             (* open file descriptors *)
  w_fwmark : Z                (* g_ipdetect_fwmark *)
}.

Definition eta_world (w : world) : world :=
  mkWorld (w_tick w) (w_trace w) (w_conn w) (w_cols w) (w_rows w) (w_changes w)
    (w_timed_out w) (w_usable w) (w_armed w) (w_fds w) (w_fwmark w).

Definition set_w_tick (v : nat) (w : world) : world := ltac:(set_field eta_world w_tick v w).
Definition set_w_trace (v : list event) (w : world) : world := ltac:(set_field eta_world w_trace v w).
Definition set_w_conn (v : bool) (w : world) : world := ltac:(set_field eta_world w_conn v w).
Definition set_w_cols (v : option columns) (w : world) : world := ltac:(set_field eta_world w_cols v w).
Definition set_w_rows (v : list row) (w : world) : world := ltac:(set_field eta_world w_rows v w).
Definition set_w_changes (v : Z) (w : world) : world := ltac:(set_field eta_world w_changes v w).
Definition set_w_timed_out (v : bool) (w : world) : world := ltac:(set_field eta_world w_timed_out v w).
Definition set_w_usable (v : bool) (w : world) : world := ltac:(set_field eta_world w_usable v w).
Definition set_w_armed (v : bool) (w : world) : world := ltac:(set_field eta_world w_armed v w).
Definition set_w_fds (v : gset Z) (w : world) : world := ltac:(set_field eta_world w_fds v w).
Definition set_w_fwmark (v : Z) (w : world) : world := ltac:(set_field eta_world w_fwmark v w).

(** ** Operations *)
Definition M (A : Type) : Type := world -> option (A * world).

(** Sequencing, with the first operation elaborated first. *)
Class Bind (T : Type -> Type) := bind : forall {A B}, T A -> (A -> T B) -> T B.
#[global] Hint Mode Bind ! : typeclass_instances.

Notation "x ← y ; z" := (bind y (fun x : _ => z))
  (at level 20, y at level 100, z at level 200, only parsing) : c_scope.
Notation "' x ← y ; z" := (bind y (fun x : _ => z))
  (at level 20, x pattern, y at level 100, z at level 200, only parsing) : c_scope.
Notation "x ;; z" := (bind x (fun _ => z))
  (at level 100, z at level 200, only parsing, right associativity) : c_scope.
#[global] Open Scope c_scope.

#[export] Instance M_ret : MRet M := fun _ a w => Some (a, w).
#[export] Instance M_bind : Bind M := fun _ _ m f w =>
  match m w with Some (a, w') => f a w' | None => None end.

Definition reads {A} (f : world -> A) : M A := fun w => Some (f w, w).
Definition modify (f : world -> world) : M unit := fun w => Some (tt, f w).
Definition emit (e : event) : M unit := modify (fun w => set_w_trace (e :: w_trace w) w).
Definition hang {A} : M A := fun _ => None.

(** Blocks that leave through [goto err_cleanup]: an operation with local
    variables [L] that ends with an error code or a value. *)
Definition X (L A : Type) : Type := L -> M ((Z + A) * L).

#[export] Instance X_ret {L} : MRet (X L) := fun _ a l => mret (inr a, l).
#[export] Instance X_bind {L} : Bind (X L) := fun _ _ m f l =>
  r ← m l; match r with (inl e, l') => mret (inl e, l') | (inr a, l') => f a l' end.

Definition lift {L A} (m : M A) : X L A := fun l => a ← m; mret (inr a, l).
Definition fail {L A} (err : Z) : X L A := fun l => mret (inl err, l).
Definition local {L} : X L L := fun l => mret (inr l, l).
Definition assign {L} (f : L -> L) : X L unit := fun l => mret (inr tt, f l).

(** [try2(expr)]: a negative result is the error code of the block. *)
Definition try2 {L} (m : M Z) : X L Z := fun l =>
  r ← m; mret (if (r <? 0)%Z then inl r else inr r, l).

(** A block with no local state, run to its return code. *)
Definition run (m : X unit unit) : M Z :=
  r ← m tt; mret (match r.1 with inl e => e | inr _ => 0%Z end).

Section Calls.
Context `{E : Env}.

(** One call answered by the environment.  Every call is a point where an
    expired deadline runs the SIGALRM handler, which sets the flag and arms
    the alarm again. *)
Definition deliver_alarm (w : world) : world :=
  if w_armed w && env_alarm (w_tick w) then set_w_timed_out true w else w.

Definition call {A} (f : nat -> A) : M A := fun w =>
  Some (f (w_tick w), set_w_tick (S (w_tick w)) (deliver_alarm w)).

(** A call that may block.  If it blocks for ever while an alarm is armed, the
    handler runs and the call returns EINTR; without an alarm it never returns. *)
Definition blocking {A} (f : nat -> sysres A) : M (sysres A) := fun w =>
  match f (w_tick w) with
  | SHang => if w_armed w
             then Some (SEintr, set_w_tick (S (w_tick w)) (set_w_timed_out true w))
             else None
  | r => Some (r, set_w_tick (S (w_tick w)) (deliver_alarm w))
  end.

(** [for (;;) { ... continue on None ... }], given up as a hang when the
    environment interrupts it [env_fuel] times in a row. *)
Fixpoint retry_loop {A} (fuel : nat) (m : M (option A)) : M A :=
  match fuel with
  | O => hang
  | S f => r ← m; match r with Some a => mret a | None => retry_loop f m end
  end.

Definition retry {A} (m : M (option A)) : M A := retry_loop env_fuel m.

Definition time : M Z := call env_time.
Definition succeeds : M bool := call env_ok.

(** File descriptors: the kernel hands out the lowest free number that is at
    least [lo]. *)
Fixpoint lowest_free (fuel : nat) (lo : Z) (fds : gset Z) : Z :=
  match fuel with
  | O => lo
  | S f => if decide (lo ∈ fds) then lowest_free f (lo + 1) fds else lo
  end.

Definition new_fd (lo : Z) (fds : gset Z) : Z := lowest_free (S (size fds)) lo fds.

Definition alloc_fd (lo : Z) : M Z := fun w =>
  let fd := new_fd lo (w_fds w) in Some (fd, set_w_fds ({[fd]} ∪ w_fds w) w).

Definition close (fd : Z) : M unit := modify (fun w => set_w_fds (w_fds w ∖ {[fd]}) w).

Definition open_file : M Z :=
  ok ← succeeds; if ok then alloc_fd 0 else mret (-1)%Z.

End Calls.

(** ** A concrete environment

    One in which calls succeed as [ok] says, files are empty, children exit
    with 0, and the clock stands still; and the world of a process that has
    just opened an empty database.  Examples and witnesses run in these. *)
Definition quiet_env (ok : nat -> bool) : Env := {|
  env_fuel := 8;
  env_time := fun _ => 1700000000%Z;
  env_alarm := fun _ => false;
  env_ok := ok;
  env_read := fun _ => SOk [];
  env_urandom := fun _ => SOk (repeat "a"%char 64);
  env_write := fun _ => SOk 4096%Z;
  env_waitpid := fun _ => SOk (inl (Exited 0));
  env_pid := fun t => (1000 + Z.of_nat t)%Z;
  env_mkdir := fun _ => MkdirOk;
  env_getaddrinfo := fun _ => Some 1;
  env_connect := fun _ => ConnOk;
  env_timeo := fun _ => true;
  env_sockname := fun _ => SockErr;
  env_send := fun _ => SOk 4096%Z;
  env_recv := fun _ => SOk [];
  env_uci := fun _ => None;
  env_status := fun _ => 0%Z;
  env_environ := []
|}.

Definition world_with (cols : columns) (rows : list row) : world :=
  mkWorld 0 [] true (Some cols) rows 0 false true false {[0%Z; 1%Z; 2%Z]} TUMGRD_IPDETECT_FWMARK.
Definition new_world : world := world_with (mkColumns true true true true) [].

(** All calls succeed. *)
Definition ready_env : Env := quiet_env (fun _ => true).
(** A node to try things on. *)
Definition sample_node : node :=
  mkNode "n1" [] [] 0 "vpn.example" 443 "secret" 5000 0 0 [] "4" [] 0 [] "k0" 0 0 0 [].
