(* ===== verification/Logic.v ===== *)
(** * Logic: reasoning about operations

    A weakest-precondition calculus for [M] and [X], and two classes whose
    instances follow the structure of an operation: [Respects R m] (every run
    of [m] relates the worlds before and after by [R]) and [Total P m] (from a
    world where [P] holds, [m] returns and [P] holds again). *)

From S2P Require Import Prelude CLib Types World.

(** ** Weakest preconditions (partial correctness) *)
Definition wp {A} (m : M A) (Q : A -> world -> Prop) (w : world) : Prop :=
  match m w with Some (a, w') => Q a w' | None => True end.

Definition wpx {L A} (m : X L A) (QE : Z -> L -> world -> Prop)
    (Q : A -> L -> world -> Prop) (l : L) (w : world) : Prop :=
  wp (m l) (fun r w' => match r.1 with inl e => QE e r.2 w' | inr a => Q a r.2 w' end) w.

Section WP.
Context {A B : Type}.
Implicit Types (Q : A -> world -> Prop) (w : world).

Lemma wp_intro (m : M A) Q w :
  (forall a w', m w = Some (a, w') -> Q a w') -> wp m Q w.
Proof. unfold wp. destruct (m w) as [[a w']|]; eauto. Qed.

Lemma wp_elim (m : M A) Q w a w' : wp m Q w -> m w = Some (a, w') -> Q a w'.
Proof. unfold wp. intros H Heq. by rewrite Heq in H. Qed.

Lemma wp_mono (m : M A) Q Q' w :
  wp m Q w -> (forall a w', Q a w' -> Q' a w') -> wp m Q' w.
Proof. unfold wp. destruct (m w) as [[a w']|]; eauto. Qed.

Lemma wp_and (m : M A) Q Q' w :
  wp m Q w -> wp m Q' w -> wp m (fun a w' => Q a w' /\ Q' a w') w.
Proof. unfold wp. destruct (m w) as [[a w']|]; eauto. Qed.

Lemma wp_ret (a : A) Q w : Q a w -> wp (mret a) Q w.
Proof. done. Qed.

Lemma wp_bind (m : M B) (f : B -> M A) Q w :
  wp m (fun b => wp (f b) Q) w -> wp (b ← m; f b) Q w.
Proof. unfold wp, bind, M_bind. destruct (m w) as [[b w']|]; eauto. Qed.

Lemma wp_reads (f : world -> A) Q w : Q (f w) w -> wp (reads f) Q w.
Proof. done. Qed.

Lemma wp_modify (f : world -> world) (Q : unit -> world -> Prop) w :
  Q tt (f w) -> wp (modify f) Q w.
Proof. done. Qed.

Lemma wp_emit e (Q : unit -> world -> Prop) w :
  Q tt (set_w_trace (e :: w_trace w) w) -> wp (emit e) Q w.
Proof. done. Qed.

Lemma wp_call `{Env} (f : nat -> A) Q w :
  Q (f (w_tick w)) (set_w_tick (S (w_tick w)) (deliver_alarm w)) -> wp (call f) Q w.
Proof. done. Qed.

End WP.

Section WPX.
Context {L A B : Type}.
Implicit Types (Q : A -> L -> world -> Prop) (l : L) (w : world).

Lemma wpx_ret (a : A) QE Q l w : Q a l w -> wpx (mret a) QE Q l w.
Proof. done. Qed.

Lemma wpx_bind (m : X L B) (f : B -> X L A) QE Q l w :
  wpx m QE (fun b => wpx (f b) QE Q) l w -> wpx (b ← m; f b) QE Q l w.
Proof.
  unfold wpx, wp, bind, X_bind, bind, M_bind.
  destruct (m l w) as [[[[e|b] l'] w']|]; simpl; eauto.
Qed.

Lemma wpx_bind_assoc {C} (m : X L B) (f : B -> X L C) (g : C -> X L A) QE Q l w :
  wpx (c ← (b ← m; f b); g c) QE Q l w -> wpx (b ← m; c ← f b; g c) QE Q l w.
Proof.
  unfold wpx, wp, bind, X_bind, bind, M_bind.
  by destruct (m l w) as [[[[e|b] l'] w']|].
Qed.

Lemma wpx_lift (m : M A) QE Q l w : wp m (fun a => Q a l) w -> wpx (lift m) QE Q l w.
Proof. unfold wpx, wp, lift, bind, M_bind. destruct (m w) as [[a w']|]; eauto. Qed.

Lemma wpx_fail e QE Q l w : QE e l w -> wpx (fail e) QE Q l w.
Proof. done. Qed.

Lemma wpx_try2 (m : M Z) QE (Q : Z -> L -> world -> Prop) l w :
  wp m (fun r w' => if (r <? 0)%Z then QE r l w' else Q r l w') w -> wpx (try2 m) QE Q l w.
Proof.
  unfold wpx, wp, try2, bind, M_bind. destruct (m w) as [[a w']|]; [|done].
  simpl. by destruct (a <? 0)%Z.
Qed.

Lemma wpx_local QE (Q : L -> L -> world -> Prop) l w : Q l l w -> wpx local QE Q l w.
Proof. done. Qed.

Lemma wpx_assign (f : L -> L) QE (Q : unit -> L -> world -> Prop) l w :
  Q tt (f l) w -> wpx (assign f) QE Q l w.
Proof. done. Qed.

Lemma wpx_mono (m : X L A) QE QE' Q Q' l w :
  wpx m QE Q l w -> (forall e l w, QE e l w -> QE' e l w) ->
  (forall a l w, Q a l w -> Q' a l w) -> wpx m QE' Q' l w.
Proof.
  unfold wpx. intros Hm HE HQ. eapply wp_mono; [exact Hm|].
  intros [[e|a] l'] w'; simpl; eauto.
Qed.

End WPX.

Lemma wp_wpx {L A} (m : X L A) l (Q : (Z + A) * L -> world -> Prop) w :
  wpx m (fun e l' => Q (inl e, l')) (fun a l' => Q (inr a, l')) l w -> wp (m l) Q w.
Proof.
  unfold wpx, wp. destruct (m l w) as [[[[e|a] l'] w']|]; simpl; eauto.
Qed.

Lemma wp_run (m : X unit unit) (Q : Z -> world -> Prop) w :
  wpx m (fun e _ => Q e) (fun _ _ => Q 0%Z) tt w -> wp (run m) Q w.
Proof.
  unfold wpx, wp, run, bind, M_bind.
  destruct (m tt w) as [[[[e|a] l] w']|]; simpl; eauto.
Qed.

(** ** Relations preserved by an operation *)
Class Respects (R : relation world) {A} (m : M A) : Prop :=
  respects w a w' : m w = Some (a, w') -> R w w'.

Class RespectsX (R : relation world) {L A} (m : X L A) : Prop :=
  respects_x l :: Respects R (m l).

(** Relations that hold when the call counter goes up and the SIGALRM flag
    changes. *)
Class Silent (R : relation world) : Prop := {
  silent_pre :: PreOrder R;
  silent_call w n b : w_tick w <= n -> R w (set_w_tick n (set_w_timed_out b w))
}.

Lemma wp_respects R {A} (m : M A) `{!Respects R m} w : wp m (fun _ w' => R w w') w.
Proof. apply wp_intro. intros a w'. apply respects. Qed.

Section Respects.
Context `{E : Env} (R : relation world) `{!Silent R}.

Lemma silent_deliver w n : w_tick w <= n -> R w (set_w_tick n (deliver_alarm w)).
Proof.
  intros Hn. unfold deliver_alarm. destruct (_ && _); [by apply silent_call|].
  destruct w as [? ? ? ? ? ? b]. by apply (silent_call (mkWorld _ _ _ _ _ _ b _ _ _ _) n b).
Qed.

#[export] Instance respects_ret {A} (a : A) : Respects R (mret a).
Proof. intros w a' w' [= <- <-]. reflexivity. Qed.

#[export] Instance respects_bind {A B} (m : M A) (f : A -> M B) :
  Respects R m -> (forall a, Respects R (f a)) -> Respects R (bind m f).
Proof.
  intros Hm Hf w b w'. unfold bind, M_bind.
  destruct (m w) as [[a w1]|] eqn:Hw; [|done]. intros Hb.
  transitivity w1; [by eapply Hm | by eapply Hf].
Qed.

#[export] Instance respects_reads {A} (f : world -> A) : Respects R (reads f).
Proof. intros w a' w' [= <- <-]. reflexivity. Qed.

#[export] Instance respects_hang {A} : Respects R (hang (A := A)).
Proof. intros w a' w' [=]. Qed.

#[export] Instance respects_call {A} (f : nat -> A) : Respects R (call f).
Proof. intros w a' w' [= <- <-]. apply silent_deliver. lia. Qed.

#[export] Instance respects_blocking {A} (f : nat -> sysres A) : Respects R (blocking f).
Proof.
  intros w a' w'. unfold blocking.
  destruct (f (w_tick w)); [..|destruct (w_armed w); [|done]]; intros [= <- <-];
    [apply silent_deliver..|apply silent_call]; lia.
Qed.

#[export] Instance respects_retry {A} (m : M (option A)) : Respects R m -> Respects R (retry m).
Proof.
  intros Hm. unfold retry. induction env_fuel as [|f IH]; simpl; [apply _|].
  apply respects_bind; [done|]. intros [a|]; apply _.
Qed.

#[export] Instance respects_x_ret {L A} (a : A) : RespectsX R (mret a : X L A).
Proof. intros l. apply respects_ret. Qed.

#[export] Instance respects_x_bind {L A B} (m : X L A) (f : A -> X L B) :
  RespectsX R m -> (forall a, RespectsX R (f a)) -> RespectsX R (bind m f).
Proof.
  intros Hm Hf l. unfold bind, X_bind. apply respects_bind; [apply Hm|].
  intros [[e|a] l']; [apply respects_ret | apply Hf].
Qed.

#[export] Instance respects_x_lift {L A} (m : M A) : Respects R m -> RespectsX R (lift m : X L A).
Proof. intros Hm l. unfold lift. apply _. Qed.

#[export] Instance respects_x_fail {L A} e : RespectsX R (fail e : X L A).
Proof. intros l. apply respects_ret. Qed.

#[export] Instance respects_x_local {L} : RespectsX R (local : X L L).
Proof. intros l. apply respects_ret. Qed.

#[export] Instance respects_x_assign {L} (f : L -> L) : RespectsX R (assign f).
Proof. intros l. apply respects_ret. Qed.

#[export] Instance respects_x_try2 {L} (m : M Z) : Respects R m -> RespectsX R (try2 m : X L Z).
Proof. intros Hm l. unfold try2. apply _. Qed.

#[export] Instance respects_run (m : X unit unit) : RespectsX R m -> Respects R (run m).
Proof. intros Hm. unfold run. apply _. Qed.

End Respects.

(** Conditionals and matches of the code are split by the search. *)
#[export] Hint Extern 2 (Respects _ (match ?x with _ => _ end)) => destruct x : typeclass_instances.
#[export] Hint Extern 2 (RespectsX _ (match ?x with _ => _ end)) => destruct x : typeclass_instances.
#[export] Hint Extern 3 (Respects _ (_ _)) => progress cbv beta : typeclass_instances.

(** *** The relations used throughout *)

(** The database is as before. *)
Definition same_db : relation world := fun w w' =>
  w_conn w' = w_conn w /\ w_cols w' = w_cols w /\ w_rows w' = w_rows w.

(** The trace has only grown, by events that satisfy [P]. *)
Definition grows (P : event -> Prop) : relation world := fun w w' =>
  exists t, w_trace w' = t ++ w_trace w /\ Forall P t.

(** The file descriptors and the watchdog installation are as before. *)
Definition same_os : relation world := fun w w' =>
  w_fds w' = w_fds w /\ w_usable w' = w_usable w /\ w_armed w' = w_armed w.

(** A property of the table holds afterwards if it held before. *)
Definition keeps (P : list row -> Prop) : relation world := fun w w' =>
  P (w_rows w) -> P (w_rows w').

#[export] Instance same_db_silent : Silent same_db.
Proof.
  split; [split|].
  - by intros w; unfold same_db.
  - intros w1 w2 w3; unfold same_db; intros (? & ? & ?) (? & ? & ?). split_and!; congruence.
  - by intros w n b _; unfold same_db.
Qed.

#[export] Instance same_os_silent : Silent same_os.
Proof.
  split; [split|].
  - by intros w; unfold same_os.
  - intros w1 w2 w3; unfold same_os; intros (? & ? & ?) (? & ? & ?). split_and!; congruence.
  - by intros w n b _; unfold same_os.
Qed.

#[export] Instance grows_silent P : Silent (grows P).
Proof.
  split; [split|].
  - intros w. by exists [].
  - intros w1 w2 w3 (t & H1 & Ht) (t' & H2 & Ht'). exists (t' ++ t).
    rewrite H2, H1, app_assoc. split; [done|]. by apply Forall_app.
  - intros w n b _. by exists [].
Qed.

#[export] Instance keeps_silent P : Silent (keeps P).
Proof.
  split; [split|].
  - intros w ?. done.
  - intros w1 w2 w3 H1 H2 ?. by apply H2, H1.
  - intros w n b _ ?. done.
Qed.

Lemma respects_emit_db e : Respects same_db (emit e).
Proof. by intros w a w' [= <- <-]. Qed.
Lemma respects_emit_os e : Respects same_os (emit e).
Proof. by intros w a w' [= <- <-]. Qed.
Lemma respects_emit_keeps P e : Respects (keeps P) (emit e).
Proof. intros w a w' [= <- <-] ?. done. Qed.
Lemma respects_emit_grows (P : event -> Prop) e : P e -> Respects (grows P) (emit e).
Proof. intros He w a w' [= <- <-]. exists [e]. split; [done|]. by apply Forall_singleton. Qed.
#[export] Hint Resolve respects_emit_db respects_emit_os respects_emit_keeps : typeclass_instances.

(** An operation that leaves the database alone keeps every property of it. *)
Lemma respects_same_db_keeps P {A} (m : M A) : Respects same_db m -> Respects (keeps P) m.
Proof. intros Hm w a w' (_ & _ & Hr)%Hm. unfold keeps. by rewrite Hr. Qed.

(** ** Total correctness *)
Class Total (P : world -> Prop) {A} (m : M A) : Prop :=
  total w : P w -> exists a w', m w = Some (a, w') /\ P w'.

Class TotalX (P : world -> Prop) {L A} (m : X L A) : Prop := total_x l :: Total P (m l).

(** Properties that do not see the call counter and the SIGALRM flag. *)
Class SilentP (P : world -> Prop) : Prop :=
  silent_p w n b : P w -> P (set_w_tick n (set_w_timed_out b w)).

Section Total.
Context `{E : Env} (P : world -> Prop) `{!SilentP P}.

Lemma silent_p_deliver w n : P w -> P (set_w_tick n (deliver_alarm w)).
Proof.
  intros Hw. unfold deliver_alarm. destruct (_ && _); [by apply silent_p|].
  destruct w as [? ? ? ? ? ? b]. by apply (silent_p (mkWorld _ _ _ _ _ _ b _ _ _ _) n b).
Qed.

#[export] Instance total_ret {A} (a : A) : Total P (mret a).
Proof. intros w Hw. by exists a, w. Qed.

#[export] Instance total_bind {A B} (m : M A) (f : A -> M B) :
  Total P m -> (forall a, Total P (f a)) -> Total P (bind m f).
Proof.
  intros Hm Hf w (a & w1 & Hw1 & H1)%Hm. destruct (Hf a w1 H1) as (b & w2 & Hw2 & H2).
  exists b, w2. unfold bind, M_bind. by rewrite Hw1.
Qed.

#[export] Instance total_reads {A} (f : world -> A) : Total P (reads f).
Proof. intros w Hw. by exists (f w), w. Qed.

#[export] Instance total_call {A} (f : nat -> A) : Total P (call f).
Proof. intros w Hw. do 2 eexists. split; [done|]. by apply silent_p_deliver. Qed.

#[export] Instance total_x_ret {L A} (a : A) : TotalX P (mret a : X L A).
Proof. intros l. apply total_ret. Qed.

#[export] Instance total_x_bind {L A B} (m : X L A) (f : A -> X L B) :
  TotalX P m -> (forall a, TotalX P (f a)) -> TotalX P (bind m f).
Proof.
  intros Hm Hf l. unfold bind, X_bind. apply total_bind; [apply Hm|].
  intros [[e|a] l']; [apply total_ret | apply Hf].
Qed.

#[export] Instance total_x_lift {L A} (m : M A) : Total P m -> TotalX P (lift m : X L A).
Proof. intros Hm l. unfold lift. apply _. Qed.

#[export] Instance total_x_fail {L A} e : TotalX P (fail e : X L A).
Proof. intros l. apply total_ret. Qed.

#[export] Instance total_x_local {L} : TotalX P (local : X L L).
Proof. intros l. apply total_ret. Qed.

#[export] Instance total_x_assign {L} (f : L -> L) : TotalX P (assign f).
Proof. intros l. apply total_ret. Qed.

#[export] Instance total_x_try2 {L} (m : M Z) : Total P m -> TotalX P (try2 m : X L Z).
Proof. intros Hm l. unfold try2. apply _. Qed.

#[export] Instance total_run (m : X unit unit) : TotalX P m -> Total P (run m).
Proof. intros Hm. unfold run. apply _. Qed.

End Total.

#[export] Hint Extern 2 (Total _ (match ?x with _ => _ end)) => destruct x : typeclass_instances.
#[export] Hint Extern 2 (TotalX _ (match ?x with _ => _ end)) => destruct x : typeclass_instances.

(** ** File descriptors *)
Lemma lowest_free_ge fuel lo fds : (lo <= lowest_free fuel lo fds)%Z.
Proof.
  revert lo. induction fuel as [|f IH]; intros lo; simpl; [lia|].
  case_decide; [|lia]. specialize (IH (lo + 1)%Z). lia.
Qed.

Lemma lowest_free_fresh fuel lo (fds : gset Z) :
  size (filter (fun fd => lo <= fd)%Z fds) < fuel -> lowest_free fuel lo fds ∉ fds.
Proof.
  revert lo. induction fuel as [|f IH]; intros lo Hsz; simpl; [lia|].
  case_decide as Hlo; [|done]. apply IH.
  assert (filter (fun fd => lo + 1 <= fd)%Z fds ⊂ (filter (fun fd => lo <= fd)%Z fds : gset Z)) as Hsub.
  { split.
    - intros x. rewrite !elem_of_filter. intros [? ?]. split; [lia|done].
    - intros Hle. assert (lo ∈ filter (fun fd => lo + 1 <= fd)%Z fds) as Hin.
      { apply Hle, elem_of_filter. split; [lia|done]. }
      apply elem_of_filter in Hin. lia. }
  apply subset_size in Hsub. lia.
Qed.

Lemma new_fd_spec lo fds : new_fd lo fds ∉ fds /\ (lo <= new_fd lo fds)%Z.
Proof.
  split; [|apply lowest_free_ge]. apply lowest_free_fresh.
  apply Nat.lt_succ_r, subseteq_size. intros x. rewrite elem_of_filter. tauto.
Qed.

Lemma close_fresh (fd : Z) (s : gset Z) : fd ∉ s -> ({[fd]} ∪ s) ∖ {[fd]} = s.
Proof. intros Hfd. apply set_eq. intros x. rewrite elem_of_difference, elem_of_union, elem_of_singleton. naive_solver. Qed.

(** Relations that do not see the file descriptors. *)
Class FdSilent (R : relation world) : Prop := fd_silent w s : R w (set_w_fds s w).

#[export] Instance same_db_fd_silent : FdSilent same_db.
Proof. by intros w s. Qed.
#[export] Instance grows_fd_silent P : FdSilent (grows P).
Proof. intros w s. by exists []. Qed.
#[export] Instance keeps_fd_silent P : FdSilent (keeps P).
Proof. intros w s ?. done. Qed.

Section Fds.
Context `{E : Env} (R : relation world) `{!Silent R, !FdSilent R}.

#[export] Instance respects_alloc_fd lo : Respects R (alloc_fd lo).
Proof. intros w a w' [= <- <-]. apply fd_silent. Qed.

#[export] Instance respects_close fd : Respects R (close fd).
Proof. intros w a w' [= <- <-]. apply fd_silent. Qed.

#[export] Instance respects_open_file : Respects R open_file.
Proof. unfold open_file. apply _. Qed.
End Fds.

(** The same for total correctness. *)
Class FdSilentP (P : world -> Prop) : Prop := fd_silent_p w s : P w -> P (set_w_fds s w).
Class TraceSilentP (P : world -> Prop) : Prop := trace_silent_p w t : P w -> P (set_w_trace t w).

Section TotalFds.
Context `{E : Env} (P : world -> Prop) `{!SilentP P, !FdSilentP P, !TraceSilentP P}.

#[export] Instance total_alloc_fd lo : Total P (alloc_fd lo).
Proof. intros w Hw. do 2 eexists. split; [done|]. by apply fd_silent_p. Qed.

#[export] Instance total_close fd : Total P (close fd).
Proof. intros w Hw. do 2 eexists. split; [done|]. by apply fd_silent_p. Qed.

#[export] Instance total_open_file : Total P open_file.
Proof. unfold open_file. apply _. Qed.

#[export] Instance total_emit e : Total P (emit e).
Proof. intros w Hw. do 2 eexists. split; [done|]. by apply trace_silent_p. Qed.
End TotalFds.

(** ** The retry loop *)

(** [m] asks [more] at each call and goes round again only on [None]. *)
Lemma retry_total `{E : Env} (P : world -> Prop) {A} (m : M (option A)) (again : nat -> Prop) :
  (forall w, P w -> exists r w', m w = Some (r, w') /\ P w' /\
     (r = None -> w_tick w' = S (w_tick w) /\ again (w_tick w))) ->
  (forall t, exists k, k < env_fuel /\ ~ again (t + k)) ->
  Total P (retry m).
Proof.
  intros Hm Hagain w Hw. destruct (Hagain (w_tick w)) as (k & Hk & Hnot).
  unfold retry. revert k w Hw Hk Hnot. generalize env_fuel as fuel.
  induction fuel as [|f IH]; intros k w Hw Hk Hnot; [lia|]. simpl.
  destruct (Hm w Hw) as (r & w1 & Hr & Hw1 & Hnone).
  unfold bind, M_bind. rewrite Hr. destruct r as [a|].
  - by exists a, w1.
  - destruct (Hnone eq_refl) as [Htick Hag]. destruct k as [|k].
    + by rewrite Nat.add_0_r in Hnot.
    + apply (IH k w1 Hw1); [lia|]. by rewrite Htick, Nat.add_succ_comm.
Qed.

Lemma wp_retry_loop {A} (Q : A -> Prop) (I : world -> Prop) (m : M (option A)) fuel w :
  (forall w, I w -> wp m (fun r w' => I w' /\ forall a, r = Some a -> Q a) w) -> I w ->
  wp (retry_loop fuel m) (fun a w' => I w' /\ Q a) w.
Proof.
  intros Hm. revert w. induction fuel as [|f IH]; intros w Hw; simpl; [done|].
  apply wp_bind. eapply wp_mono; [by apply Hm|].
  intros [a|] w' [Hw' Ha]; [split; eauto|by apply IH].
Qed.

Lemma wp_retry `{E : Env} {A} (Q : A -> Prop) (I : world -> Prop) (m : M (option A)) w :
  (forall w, I w -> wp m (fun r w' => I w' /\ forall a, r = Some a -> Q a) w) -> I w ->
  wp (retry m) (fun a w' => I w' /\ Q a) w.
Proof. apply wp_retry_loop. Qed.

Lemma total_wp (P : world -> Prop) {A} (m : M A) `{!Total P m} Q w :
  P w -> wp m Q w -> exists a w', m w = Some (a, w') /\ Q a w'.
Proof.
  intros HP Hwp. destruct (total w HP) as (a & w' & Heq & _).
  exists a, w'. split; [done|]. by eapply wp_elim.
Qed.

Lemma total_then {A B} (P : world -> Prop) (m : M A) (f : A -> M B) (Q : A -> Prop) :
  Total P m -> (forall w, wp m (fun a _ => Q a) w) -> (forall a, Q a -> Total P (f a)) -> Total P (bind m f).
Proof.
  intros Hm HQ Hf w Hw. destruct (Hm w Hw) as (a & w1 & Heq & H1).
  destruct (Hf a (wp_elim _ _ _ _ _ (HQ w) Heq) w1 H1) as (b & w2 & Hb & H2).
  exists b, w2. unfold bind, M_bind. by rewrite Heq.
Qed.

#[export] Instance always_silent : SilentP (fun _ => True).
Proof. done. Qed.
#[export] Instance always_fd_silent : FdSilentP (fun _ => True).
Proof. done. Qed.
#[export] Instance always_trace_silent : TraceSilentP (fun _ => True).
Proof. done. Qed.

(** Calls seen as changing only the call counter and the SIGALRM flag. *)
Section SilentCalls.
Context `{E : Env} {A : Type}.

Lemma deliver_alarm_flag n w :
  exists b, set_w_tick n (deliver_alarm w) = set_w_tick n (set_w_timed_out b w).
Proof.
  unfold deliver_alarm. destruct (_ && _); [by exists true|].
  exists (w_timed_out w). by destruct w.
Qed.

Lemma wp_call_silent (f : nat -> A) (Q : A -> world -> Prop) w :
  (forall n b, w_tick w < n -> Q (f (w_tick w)) (set_w_tick n (set_w_timed_out b w))) -> wp (call f) Q w.
Proof.
  intros HQ. apply wp_call. destruct (deliver_alarm_flag (S (w_tick w)) w) as [b ->]. apply HQ. lia.
Qed.

(** The flag, once set, stays set. *)
Lemma wp_blocking_flag (f : nat -> sysres A) (Q : sysres A -> world -> Prop) w :
  (forall r n b, r <> SHang -> w_tick w < n -> (w_timed_out w = true -> b = true) ->
    Q r (set_w_tick n (set_w_timed_out b w))) -> wp (blocking f) Q w.
Proof.
  intros HQ. apply wp_intro. intros r w'. unfold blocking.
  assert (exists b, set_w_tick (S (w_tick w)) (deliver_alarm w) = set_w_tick (S (w_tick w)) (set_w_timed_out b w) /\
    (w_timed_out w = true -> b = true)) as (b & Hb & Hto).
  { unfold deliver_alarm. destruct (_ && _); [by exists true|]. exists (w_timed_out w). by destruct w. }
  destruct (f (w_tick w)); [..|destruct (w_armed w); [|done]]; intros [= <- <-];
    rewrite ?Hb; (apply HQ; [done|lia|done]).
Qed.

Lemma wp_blocking_silent (f : nat -> sysres A) (Q : sysres A -> world -> Prop) w :
  (forall r n b, r <> SHang -> w_tick w < n -> Q r (set_w_tick n (set_w_timed_out b w))) -> wp (blocking f) Q w.
Proof. intros HQ. apply wp_blocking_flag. intros r n b Hr Hn _. by apply HQ. Qed.
End SilentCalls.

(** The part of a postcondition that a relation gives. *)
Ltac wp_frame R := apply (wp_respects R); apply _.

(** Relations that do not see the rows of the table, and those that do not see
    the connection and the schema either. *)
Class DbSilent (R : relation world) : Prop :=
  db_silent_rows w rows n : R w (set_w_rows rows (set_w_changes n w)).

Class SchemaSilent (R : relation world) : Prop := {
  db_silent_cols w cols rows : R w (set_w_cols cols (set_w_rows rows w));
  db_silent_conn w c : R w (set_w_conn c w)
}.

#[export] Instance same_os_db_silent : DbSilent same_os.
Proof. by intros w rows n. Qed.
#[export] Instance grows_db_silent P : DbSilent (grows P).
Proof. intros w rows n. by exists []. Qed.
#[export] Instance same_os_schema_silent : SchemaSilent same_os.
Proof. by split; intros; unfold same_os. Qed.
#[export] Instance grows_schema_silent P : SchemaSilent (grows P).
Proof. split; intros; by exists []. Qed.

(** The connection and the schema are as before. *)
Definition same_schema : relation world := fun w w' => w_conn w' = w_conn w /\ w_cols w' = w_cols w.

#[export] Instance same_schema_silent : Silent same_schema.
Proof.
  split; [split|].
  - by intros w; unfold same_schema.
  - intros w1 w2 w3; unfold same_schema; intros (? & ?) (? & ?). split_and!; congruence.
  - by intros w n b _; unfold same_schema.
Qed.
#[export] Instance same_schema_db_silent : DbSilent same_schema.
Proof. by intros w rows n. Qed.
#[export] Instance same_schema_fd_silent : FdSilent same_schema.
Proof. by intros w s. Qed.

(** Events that a relation allows. *)
Class Allows (R : relation world) (e : event) : Prop :=
  allows w : R w (set_w_trace (e :: w_trace w) w).

#[export] Instance respects_emit R e : Allows R e -> Respects R (emit e).
Proof. intros HR w a w' [= <- <-]. apply HR. Qed.
#[export] Instance same_os_allows e : Allows same_os e.
Proof. by intros w. Qed.
#[export] Instance same_db_allows e : Allows same_db e.
Proof. by intros w. Qed.
#[export] Instance same_schema_allows e : Allows same_schema e.
Proof. by intros w. Qed.
#[export] Instance keeps_allows P e : Allows (keeps P) e.
Proof. intros w ?. done. Qed.
Lemma grows_allows (P : event -> Prop) e : P e -> Allows (grows P) e.
Proof. intros He w. exists [e]. split; [done|]. by apply Forall_singleton. Qed.
#[export] Hint Extern 1 (Allows (grows _) _) => (apply grows_allows; exact I) : typeclass_instances.

(** The call counter only goes up. *)
Definition later : relation world := fun w w' => w_tick w <= w_tick w'.

#[export] Instance later_silent : Silent later.
Proof.
  split; [split|].
  - intros w. unfold later. lia.
  - intros w1 w2 w3. unfold later. lia.
  - by intros w n b.
Qed.
#[export] Instance later_fd_silent : FdSilent later.
Proof. intros w s. unfold later. done. Qed.
#[export] Instance later_db_silent : DbSilent later.
Proof. intros w rows n. unfold later. done. Qed.
#[export] Instance later_schema_silent : SchemaSilent later.
Proof. split; intros; unfold later; done. Qed.
#[export] Instance later_allows e : Allows later e.
Proof. intros w. unfold later. done. Qed.

(** The world after calls that change only the call counter and the flag. *)
Definition calm (w w' : world) : Prop :=
  exists n b, w_tick w <= n /\ w' = set_w_tick n (set_w_timed_out b w).

#[export] Instance calm_silent : Silent calm.
Proof.
  split; [split|].
  - intros w. exists (w_tick w), (w_timed_out w). split; [done|]. by destruct w.
  - intros w1 w2 w3 (n & b & Hn & ->) (n' & b' & Hn' & ->). exists n', b'. split; [cbn in Hn'; lia|done].
  - intros w n b Hn. by exists n, b.
Qed.

Lemma calm_respects R `{!Silent R} w w' : calm w w' -> R w w'.
Proof. intros (n & b & Hn & ->). by apply silent_call. Qed.

Lemma calm_fields w w' : calm w w' ->
  w_trace w' = w_trace w /\ w_conn w' = w_conn w /\ w_cols w' = w_cols w /\ w_rows w' = w_rows w /\
  w_changes w' = w_changes w /\ w_fds w' = w_fds w /\ w_usable w' = w_usable w /\ w_armed w' = w_armed w.
Proof. by intros (n & b & _ & ->). Qed.

Lemma wp_succeeds `{E : Env} (Q : bool -> world -> Prop) w :
  (forall w', calm w w' -> w_tick w < w_tick w' -> Q (env_ok (w_tick w)) w') -> wp succeeds Q w.
Proof. intros HQ. apply wp_call_silent. intros n b Hn. apply HQ; [|done]. exists n, b. split; [lia|done]. Qed.

Lemma wp_time `{E : Env} (Q : Z -> world -> Prop) w :
  (forall w', calm w w' -> Q (env_time (w_tick w)) w') -> wp time Q w.
Proof. intros HQ. apply wp_call_silent. intros n b Hn. apply HQ. exists n, b. split; [lia|done]. Qed.

(** Properties that do not see the rows, and those that do not see the
    connection and the schema either. *)
Class DbSilentP (P : world -> Prop) : Prop :=
  db_silent_p_rows w rows n : P w -> P (set_w_rows rows (set_w_changes n w)).
Class SchemaSilentP (P : world -> Prop) : Prop := {
  db_silent_p_cols w cols rows : P w -> P (set_w_cols cols (set_w_rows rows w));
  db_silent_p_conn w c : P w -> P (set_w_conn c w)
}.

#[export] Instance always_db_silent : DbSilentP (fun _ => True).
Proof. done. Qed.
#[export] Instance always_schema_silent : SchemaSilentP (fun _ => True).
Proof. done. Qed.

(** The rule for the retry loop whose invariant is that of its rounds. *)
Lemma wp_retry_inv `{E : Env} {A} (I : world -> Prop) (Q : A -> world -> Prop) (m : M (option A)) w :
  (forall w, I w -> wp m (fun r w' => match r with Some a => Q a w' | None => I w' end) w) -> I w ->
  wp (retry m) Q w.
Proof.
  intros Hm. unfold retry. revert w. generalize env_fuel as fuel.
  induction fuel as [|f IH]; intros w Hw; cbn [retry_loop]; [done|].
  apply wp_bind. eapply wp_mono; [by apply Hm|]. intros [a|] w' H; [by apply wp_ret|by apply IH].
Qed.

(** The trace is as before. *)
Definition same_trace : relation world := fun w w' => w_trace w' = w_trace w.

#[export] Instance same_trace_silent : Silent same_trace.
Proof.
  split; [split|].
  - by intros w.
  - intros w1 w2 w3; unfold same_trace; congruence.
  - by intros w n b _.
Qed.
#[export] Instance same_trace_fd_silent : FdSilent same_trace.
Proof. by intros w s. Qed.

(** A block that respects a relation, seen from its two exits. *)
Lemma wpx_respects R {L A} (m : X L A) `{!RespectsX R m} l w :
  wpx m (fun _ _ w' => R w w') (fun _ _ w' => R w w') l w.
Proof.
  unfold wpx. eapply wp_mono; [apply (wp_respects R); apply respects_x|].
  by intros [[e|a] l'] w'.
Qed.

Lemma wpx_and {L A} (m : X L A) QE QE' Q Q' l w :
  wpx m QE Q l w -> wpx m QE' Q' l w ->
  wpx m (fun e l w => QE e l w /\ QE' e l w) (fun a l w => Q a l w /\ Q' a l w) l w.
Proof.
  unfold wpx. intros H H'. eapply wp_mono; [apply wp_and; [exact H|exact H']|].
  by intros [[e|a] l'] w'.
Qed.

(** Between two worlds the environment was asked for an answer that satisfies
    [P]. *)
Definition during (w w' : world) (P : nat -> Prop) : Prop :=
  exists t, w_tick w <= t /\ t < w_tick w' /\ P t.

Lemma grows_impl (P Q : event -> Prop) (w w' : world) : (forall e, P e -> Q e) -> grows P w w' -> grows Q w w'.
Proof. intros HPQ (t & Ht & HP). exists t. split; [done|]. eapply Forall_impl; [exact HP|exact HPQ]. Qed.

Lemma during_weaken (w1 w2 w3 w4 : world) (P : nat -> Prop) :
  later w1 w2 -> later w3 w4 -> during w2 w3 P -> during w1 w4 P.
Proof. unfold later. intros H12 H34 (t & Hl & Hu & HP). exists t. split_and!; [lia|lia|done]. Qed.
