(* ===== verification/Helper.v ===== *)
(** * Helper: helper.c

    Number parsing, string comparison and trimming, bounded copies, creation
    of the database directory, the WAN interface test, identifier validation
    and random keys. *)

From S2P Require Import Prelude CLib Types World Logic.

Definition EINVAL : Z := 22.
Definition ENOENT : Z := 2.
Definition ENOMEM : Z := 12.
Definition PATH_MAX : nat := 4096.

(** [try2_p(expr)] of try.h: a NULL is -ENOMEM.  The result of the call is
    whether it gave a pointer. *)
Definition try2_p {L} (m : M bool) : X L unit := ok ← lift m; if (ok : bool) then mret tt else fail (- ENOMEM)%Z.

#[export] Instance respects_x_try2_p R `{!Silent R} {L} (m : M bool) : Respects R m -> RespectsX R (try2_p m : X L unit).
Proof. intros Hm. unfold try2_p. apply _. Qed.
#[export] Instance total_x_try2_p P `{!SilentP P} {L} (m : M bool) : Total P m -> TotalX P (try2_p m : X L unit).
Proof. intros Hm. unfold try2_p. apply _. Qed.

(** ** Numbers

    The result is the return code and the value left in the output argument. *)
Definition parse_u32 (long_bits : Z) (input : cstr) (out : Z) : Z * Z :=
  match parse_subject 0 input with
  | None => (- EINVAL, out)%Z
  | Some j =>
      let '(v, erange) := strtoul_value long_bits j in
      if bool_decide (sj_rest j <> []) || erange || (UINT32_MAX <? v)%Z
      then (- EINVAL, out)%Z else (0, v)%Z
  end.

Definition parse_interval (long_bits : Z) (input : cstr) (out : Z) : Z * Z :=
  let '(err, out') := parse_u32 long_bits input out in
  if negb (err =? 0)%Z || (out' <? 10)%Z || (3600 <? out')%Z
  then (- EINVAL, out')%Z else (0, out')%Z.

Definition parse_lifetime (input : option cstr) (out : Z) : Z * Z :=
  match input with
  | None => (- EINVAL, out)%Z
  | Some s =>
      match parse_subject 0 s with
      | None => (- EINVAL, out)%Z
      | Some j =>
          let '(v, erange) := strtol_value 64 j in
          if bool_decide (sj_rest j <> []) || erange then (- EINVAL, out)%Z
          else if negb (v =? 0)%Z && (v <? TUMGRD_LIFETIME_MIN)%Z then (- EINVAL, out)%Z
          else if (TUMGRD_LIFETIME_MAX <? v)%Z then (- EINVAL, out)%Z
          else (0, v)%Z
      end
  end.

(** ** Strings; a null pointer is [None] *)
Definition streqcase (a b : option cstr) : bool :=
  match a, b with
  | None, None => true
  | Some a, Some b => strcasecmp_eq a b
  | _, _ => false
  end.

Definition streq (a b : option cstr) : bool :=
  match a, b with
  | None, None => true
  | Some a, Some b => strcmp_eq a b
  | _, _ => false
  end.

Definition skip_spaces (s : cstr) : cstr := (span is_space s).2.

Definition trim_inplace (s : cstr) : cstr :=
  let s' := skip_spaces s in
  reverse (skip_spaces (reverse s')).

(** What a destination of [dst_len] bytes that held [dst] holds afterwards. *)
Definition copy_string (dst : cstr) (dst_len : nat) (src : option cstr) : cstr :=
  match dst_len, src with
  | O, _ => dst
  | S _, None => []
  | S n, Some s => take n (upto_nul s)
  end.

(** [snprintf(dst, n, "%s", s)]. *)
Definition snprintf_s (n : nat) (s : cstr) : cstr := take (n - 1) s.

Definition nonempty_or_default (input def_str : option cstr) : option cstr :=
  match input with
  | None | Some [] => def_str
  | Some s => Some s
  end.

Definition nonempty_or_null (input : option cstr) : option cstr := nonempty_or_default input None.

Definition is_safe_char (c : ascii) : bool :=
  let z := byte_val c in negb ((z <? 32) || (z =? 127) || (z =? 32))%Z.

Definition is_safe_id (s : option cstr) : bool :=
  match s with
  | None | Some [] => false
  | Some s => forallb is_safe_char s
  end.

Section Effects.
Context `{E : Env}.

(** ** Directories *)
Definition mkdir (dir : cstr) : M mkdir_result :=
  emit (EvMkdir dir);; call env_mkdir.

(** [mkdir(dir, mode) != 0 && errno != EEXIST] *)
Definition mkdir_failed (r : mkdir_result) : bool :=
  match r with MkdirErr => true | _ => false end.

(** The loop from [tmp + 1]: [pre] is the text before [p]. *)
Fixpoint mkdir_p_loop (pre rest : cstr) : M Z :=
  match rest with
  | [] => r ← mkdir pre; mret (if mkdir_failed r then -1 else 0)%Z
  | c :: rest' =>
      if decide (c = "/"%char) then
        r ← mkdir pre;
        if mkdir_failed r then mret (-1)%Z else mkdir_p_loop (pre ++ [c]) rest'
      else mkdir_p_loop (pre ++ [c]) rest'
  end.

Definition mkdir_p (dir : cstr) : M Z :=
  match dir with
  | [] => mret (-1)%Z
  | _ :: _ =>
      if (PATH_MAX <=? length dir) then mret (-1)%Z
      else
        let tmp := if bool_decide (last dir = Some "/"%char) then removelast dir else dir in
        mkdir_p_loop (take 1 tmp) (drop 1 tmp)
  end.

Definition ensure_parent_dir (path : cstr) : M Z :=
  match path with
  | [] => mret (-1)%Z
  | _ :: _ =>
      if (PATH_MAX <=? length path) then mret (-1)%Z
      else match before_last path "/" with
           | None => mret 0%Z
           | Some [] => mret 0%Z
           | Some dir => mkdir_p dir
           end
  end.

(** ** The WAN interface *)
Definition option_is_wan (o : option uci_option) (ifname : option cstr) : bool :=
  match o with
  | Some (UciString s) => match ifname with Some _ => streq (Some s) ifname | None => false end
  | Some (UciList l) =>
      match ifname with Some _ => existsb (fun e => streq (Some e) ifname) l | None => false end
  | _ => false
  end.

(** The return code and [*is_wan]; the build flag decides whether libuci is
    there at all. *)
Definition check_wan_interface (uci_enabled : bool) (ifname : option cstr) (is_wan : bool) : M (Z * bool) :=
  if uci_enabled then
    ok ← succeeds;                      (* uci_alloc_context *)
    if negb ok then mret (- ENOMEM, false)%Z else
    r ← call env_uci;                   (* uci_lookup_ptr *)
    match r with
    | None => mret (- ENOENT, false)%Z
    | Some o => mret (0%Z, option_is_wan o ifname)
    end
  else mret (-1, is_wan)%Z.

(** ** Random keys *)
Definition urandom_read (n : nat) : M (option (option (list ascii))) :=
  r ← blocking env_urandom;
  match r with
  | SEintr => mret None
  | SErr => mret (Some None)
  | SOk d => match take n d with [] => mret (Some None) | d' => mret (Some (Some d')) end
  | SHang => hang
  end.

(** [while (total < key_bytes)]: every read adds a byte, so [key_bytes] rounds
    are enough. *)
Fixpoint urandom_loop (rounds key_bytes : nat) (buf : list ascii) : M (option (list ascii)) :=
  if (length buf <? key_bytes) then
    match rounds with
    | O => hang
    | S rounds' =>
        r ← retry (urandom_read (key_bytes - length buf));
        match r with
        | None => mret None
        | Some d => urandom_loop rounds' key_bytes (buf ++ d)
        end
    end
  else mret (Some buf).

Definition hex_of_bytes (buf : list ascii) : cstr := buf ≫= fmt_02x.

(** The return code and the contents of [out]. *)
Definition generate_random_hex_key (out : cstr) (out_size key_bytes : nat) : M (Z * cstr) :=
  if (out_size <? key_bytes * 2 + 1) then mret (-1, out)%Z
  else if (key_bytes <? 16) || (64 <? key_bytes) then mret (-1, out)%Z
  else
    fd ← open_file;
    if (fd <? 0)%Z then mret (-1, out)%Z else
    r ← urandom_loop key_bytes key_bytes [];
    close fd;;
    match r with
    | None => mret (-1, out)%Z
    | Some buf => mret (0%Z, hex_of_bytes buf)
    end.

End Effects.

(** ** Lemmas *)

(** *** Trimming *)
Definition all_space (s : cstr) : Prop := Forall (fun c => is_space c = true) s.

Lemma skip_spaces_spec s :
  exists a, s = a ++ skip_spaces s /\ all_space a /\
    (forall c t, skip_spaces s = c :: t -> is_space c = false).
Proof.
  unfold skip_spaces. pose proof (span_app is_space s) as Happ.
  pose proof (span_fst_forall is_space s) as Hall.
  pose proof (span_snd_head is_space s) as Hhd.
  destruct (span is_space s) as [a b]; simpl in *. exists a. split_and!; eauto.
Qed.

Lemma trim_decompose s :
  exists a b, s = a ++ trim_inplace s ++ b /\ all_space a /\ all_space b /\
    (forall c t, trim_inplace s = c :: t -> is_space c = false) /\
    (forall c t, trim_inplace s = t ++ [c] -> is_space c = false).
Proof.
  unfold trim_inplace. destruct (skip_spaces_spec s) as (a & Ha & Has & Hhd).
  set (s' := skip_spaces s) in *.
  destruct (skip_spaces_spec (reverse s')) as (b & Hb & Hbs & Hhd').
  set (r := skip_spaces (reverse s')) in *.
  assert (s' = reverse r ++ reverse b) as Hs'.
  { rewrite <- reverse_app, <- Hb. by rewrite reverse_involutive. }
  exists a, (reverse b). split_and!.
  - by rewrite <- Hs'.
  - done.
  - by apply Forall_reverse.
  - intros c t Hct. apply (Hhd c (t ++ reverse b)). by rewrite Hs', Hct.
  - intros c t Hct. apply (Hhd' c (reverse t)).
    rewrite <- (reverse_involutive r), Hct, reverse_app. done.
Qed.

Lemma skip_spaces_id s : (forall c t, s = c :: t -> is_space c = false) -> skip_spaces s = s.
Proof.
  intros Hs. unfold skip_spaces.
  pose proof (span_all is_space [] s (Forall_nil_2 _) Hs) as Hsp. simpl in Hsp. by rewrite Hsp.
Qed.

Lemma trim_id s :
  (forall c t, s = c :: t -> is_space c = false) ->
  (forall c t, s = t ++ [c] -> is_space c = false) -> trim_inplace s = s.
Proof.
  intros Hh Hl. unfold trim_inplace. rewrite (skip_spaces_id s) by done.
  rewrite skip_spaces_id; [apply reverse_involutive|].
  intros c t Hc. apply (Hl c (reverse t)).
  rewrite <- (reverse_involutive s), Hc. apply reverse_cons.
Qed.

Lemma trim_subset c s : c ∈ trim_inplace s -> c ∈ s.
Proof.
  destruct (trim_decompose s) as (a & b & Hs & _). intros Hc.
  rewrite Hs. rewrite !elem_of_app. auto.
Qed.

Lemma trim_length s : length (trim_inplace s) <= length s.
Proof.
  destruct (trim_decompose s) as (a & b & Hs & _).
  apply (f_equal length) in Hs. rewrite !length_app in Hs. lia.
Qed.

(** *** Bounded copies *)
Lemma copy_string_length dst n src :
  length dst < n -> length (copy_string dst n src) < n.
Proof.
  intros Hd. unfold copy_string. destruct n as [|n]; [lia|].
  destruct src; simpl; [|lia]. rewrite length_take. lia.
Qed.

Lemma snprintf_s_length n s : 0 < n -> length (snprintf_s n s) < n.
Proof. intros Hn. unfold snprintf_s. rewrite length_take. lia. Qed.

Lemma snprintf_s_id n s : length s < n -> snprintf_s n s = s.
Proof. intros Hn. unfold snprintf_s. apply take_ge. lia. Qed.

Lemma upto_nul_id s : nonul s -> upto_nul s = s.
Proof.
  induction 1 as [|c s Hc _ IH]; simpl; [done|]. rewrite decide_False by done. by rewrite IH.
Qed.

Lemma upto_nul_nonul s : nonul (upto_nul s).
Proof. induction s as [|c s IH]; simpl; [constructor|]. case_decide; by constructor. Qed.

Lemma copy_string_id dst n s : nonul s -> length s < n -> copy_string dst n (Some s) = s.
Proof.
  intros Hs Hn. unfold copy_string. destruct n as [|n]; [lia|].
  rewrite upto_nul_id by done. apply take_ge. lia.
Qed.

(** *** Comparisons *)
Lemma streq_spec a b : streq (Some a) (Some b) = true <-> a = b.
Proof. simpl. unfold strcmp_eq. apply bool_decide_eq_true. Qed.

Lemma streqcase_refl a : streqcase (Some a) (Some a) = true.
Proof. simpl. by apply bool_decide_eq_true. Qed.

Lemma forallb_Forall {A} (f : A -> bool) l : forallb f l = true <-> Forall (fun x => f x = true) l.
Proof.
  induction l as [|x l IH]; simpl; [split; by constructor|].
  rewrite andb_true_iff, IH, Forall_cons. done.
Qed.

Lemma is_safe_char_spec c :
  is_safe_char c = true <-> (32 < byte_val c)%Z /\ byte_val c <> 127%Z.
Proof.
  unfold is_safe_char. rewrite negb_true_iff, !orb_false_iff, Z.ltb_ge, !Z.eqb_neq. lia.
Qed.

Lemma is_safe_id_chars s :
  is_safe_id (Some s) = true <-> s <> [] /\ Forall (fun c => is_safe_char c = true) s.
Proof.
  unfold is_safe_id. destruct s as [|c s]; [split; [done|by intros [? ?]]|].
  rewrite forallb_Forall. split; [by intros|by intros [_ ?]].
Qed.

Lemma is_safe_char_not_space c : is_safe_char c = true -> is_space c = false.
Proof.
  rewrite is_safe_char_spec. intros [? ?]. unfold is_space.
  apply orb_false_iff. rewrite andb_false_iff, !Z.leb_gt, Z.eqb_neq. lia.
Qed.

(** *** Hexadecimal keys *)
Definition is_hex (c : ascii) : bool :=
  let z := byte_val c in ((48 <=? z) && (z <=? 57) || (97 <=? z) && (z <=? 102))%Z.

Lemma hex_digit_val d : (0 <= d < 16)%Z -> digit_val (hex_digit d) = Some d /\ is_hex (hex_digit d) = true.
Proof.
  intros Hd. unfold hex_digit, digit_val, is_hex.
  destruct (Z.ltb_spec d 10); rewrite byte_val_of by lia.
  - destruct (Z.leb_spec 48 (48 + d)), (Z.leb_spec (48 + d) 57); simpl; try lia.
    split; [f_equal; lia|done].
  - destruct (Z.leb_spec (87 + d) 57), (Z.leb_spec 48 (87 + d)), (Z.leb_spec 65 (87 + d)),
      (Z.leb_spec (87 + d) 90), (Z.leb_spec 97 (87 + d)), (Z.leb_spec (87 + d) 122),
      (Z.leb_spec (87 + d) 102); simpl; try lia. split; [f_equal; lia|done].
Qed.

Lemma hex_digit_value d : (0 <= d < 16)%Z -> digit_val (hex_digit d) = Some d.
Proof. intros Hd. by apply hex_digit_val. Qed.

(** The bytes a hexadecimal string stands for. *)
Fixpoint bytes_of_hex (s : cstr) : option (list ascii) :=
  match s with
  | [] => Some []
  | h :: l :: s' =>
      h' ← digit_val h; l' ← digit_val l; bs ← bytes_of_hex s';
      Some (byte_of (h' * 16 + l')%Z :: bs)
  | _ => None
  end%stdpp.

Lemma bytes_of_hex_of_bytes buf : bytes_of_hex (hex_of_bytes buf) = Some buf.
Proof.
  induction buf as [|c buf IH]; [done|].
  change (hex_of_bytes (c :: buf)) with (fmt_02x c ++ hex_of_bytes buf).
  unfold fmt_02x. pose proof (byte_val_range c) as Hc.
  pose proof (Z.div_mod (byte_val c) 16 ltac:(lia)) as Hdm.
  pose proof (Z.mod_pos_bound (byte_val c) 16 ltac:(lia)).
  assert (0 <= byte_val c / 16 < 16)%Z as Hq.
  { split; [apply Z.div_pos; lia | apply Z.div_lt_upper_bound; lia]. }
  simpl. rewrite !hex_digit_value by lia. simpl. rewrite IH. simpl.
  rewrite (Z.mul_comm _ 16), <- Hdm, byte_of_val. done.
Qed.

Lemma hex_of_bytes_shape buf :
  length (hex_of_bytes buf) = 2 * length buf /\ Forall (fun c => is_hex c = true) (hex_of_bytes buf).
Proof.
  induction buf as [|c buf [IHl IHf]]; [by split|].
  change (hex_of_bytes (c :: buf)) with (fmt_02x c ++ hex_of_bytes buf).
  pose proof (byte_val_range c) as Hc.
  pose proof (Z.mod_pos_bound (byte_val c) 16 ltac:(lia)).
  assert (0 <= byte_val c / 16 < 16)%Z as Hq.
  { split; [apply Z.div_pos; lia | apply Z.div_lt_upper_bound; lia]. }
  split.
  - rewrite length_app, IHl. simpl. lia.
  - apply Forall_app. split; [|done].
    repeat (apply Forall_cons; split); [by apply hex_digit_val..|by apply Forall_nil].
Qed.

Lemma is_hex_safe c : is_hex c = true -> is_safe_char c = true.
Proof.
  rewrite is_safe_char_spec. unfold is_hex.
  rewrite orb_true_iff, !andb_true_iff, !Z.leb_le. lia.
Qed.

Section RandomKeys.
Context `{E : Env}.

(** /dev/urandom never blocks, and signals do not interrupt it for ever. *)
Class UrandomResponsive : Prop := {
  urandom_returns t : env_urandom t <> SHang;
  urandom_settles t : exists k, k < env_fuel /\ env_urandom (t + k) <> SEintr
}.

(** [drawn n a b buf]: the [n] bytes [buf] are those that reads of /dev/urandom
    delivered, in order, at calls from [a] up to [b], each asked for the bytes
    that were still missing. *)
Inductive drawn : nat -> nat -> nat -> list ascii -> Prop :=
| drawn_all a b : drawn 0 a b []
| drawn_read n a b t d buf :
    a <= t -> t < b -> env_urandom t = SOk d -> drawn (n - length (take n d)) (S t) b buf ->
    drawn n a b (take n d ++ buf).

Lemma drawn_length n a b buf : drawn n a b buf -> length buf = n.
Proof. induction 1 as [|n a b t d buf _ _ _ _ IH]; [done|]. rewrite length_app, IH, length_take. lia. Qed.

Lemma drawn_weaken n a a' b b' buf : a' <= a -> b <= b' -> drawn n a b buf -> drawn n a' b' buf.
Proof.
  intros Ha Hb H. revert a' b' Ha Hb. induction H as [|n a b t d buf Hat Htb Hd _ IH]; intros a' b' Ha Hb; [constructor|].
  apply (drawn_read _ _ _ t); [lia|lia|done|]. apply IH; lia.
Qed.

(** The device could not be read: a call failed, or nothing came. *)
Definition urandom_fault (w w' : world) : Prop :=
  during w w' (fun t => env_ok t = false \/ env_urandom t = SErr \/ env_urandom t = SOk []).

(** What one read delivers: some of the bytes asked for, at one call. *)
Definition delivered (n : nat) (w w' : world) (o : option (list ascii)) : Prop :=
  match o with
  | Some d => d <> [] /\ exists t d0, w_tick w <= t /\ t < w_tick w' /\ env_urandom t = SOk d0 /\ d = take n d0
  | None => urandom_fault w w'
  end.

Lemma wp_urandom_read n w :
  0 < n -> wp (urandom_read n) (fun r w' => w_fds w' = w_fds w /\ later w w' /\ forall o, r = Some o -> delivered n w w' o) w.
Proof.
  intros Hn. unfold urandom_read. apply wp_bind, wp_intro. intros r w1 Hrun.
  assert (w_fds w1 = w_fds w /\ w_tick w1 = S (w_tick w) /\ (forall d, r = SOk d -> env_urandom (w_tick w) = SOk d) /\
    (r = SErr -> env_urandom (w_tick w) = SErr)) as (Hf & Ht & Hok & Herr).
  { destruct (deliver_alarm_flag (S (w_tick w)) w) as [b Hb]. unfold blocking in Hrun.
    destruct (env_urandom (w_tick w)); [..|destruct (w_armed w); [|done]]; injection Hrun as <- <-; rewrite ?Hb; by split_and!. }
  assert (later w w1) as Hl by (unfold later; lia).
  assert (forall P : nat -> Prop, P (w_tick w) -> during w w1 P) as Hd by (intros P HP; exists (w_tick w); split_and!; [lia|lia|done]).
  destruct r as [d| | |]; [|by apply wp_ret| |done].
  - specialize (Hok d eq_refl). destruct (take n d) as [|c t] eqn:Htk; apply wp_ret; (split_and!; [done..|]); intros o [= <-].
    + apply Hd. right. right. destruct d; [done|]. destruct n; [lia|done].
    + split; [done|]. exists (w_tick w), d. split_and!; [lia|lia|done|done].
  - apply wp_ret. split_and!; [done..|]. intros o [= <-]. apply Hd. right. left. by apply Herr.
Qed.

Lemma wp_urandom_retry n w :
  0 < n -> wp (retry (urandom_read n)) (fun o w' => w_fds w' = w_fds w /\ later w w' /\ delivered n w w' o) w.
Proof.
  intros Hn. apply (wp_retry_inv (fun w1 => w_fds w1 = w_fds w /\ later w w1)); [|split; [done|unfold later; done]].
  intros w1 [Hf Hl]. eapply wp_mono; [by apply wp_urandom_read|]. intros [o|] w2 (Hf2 & Hl2 & Ho).
  - split; [congruence|]. split; [by transitivity w1|]. specialize (Ho o eq_refl). destruct o as [d|].
    + destruct Ho as (Hne & t & d0 & H1 & H2 & H3). split; [done|]. exists t, d0. split_and!; try apply H3; unfold later in *; lia.
    + eapply during_weaken; [exact Hl| |exact Ho]. unfold later. done.
  - split; [congruence|by transitivity w1].
Qed.

Lemma wp_urandom_loop rounds n buf w :
  length buf <= n ->
  wp (urandom_loop rounds n buf)
     (fun r w' => w_fds w' = w_fds w /\ later w w' /\ match r with
        | Some b => exists new, b = buf ++ new /\ drawn (n - length buf) (w_tick w) (w_tick w') new
        | None => urandom_fault w w' end) w.
Proof.
  revert buf w. induction rounds as [|rounds IH]; intros buf w Hlen; simpl;
    destruct (Nat.ltb_spec (length buf) n) as [Hlt|Hge].
  2,4: apply wp_ret; split_and!; [done|unfold later; done|]; exists []; rewrite app_nil_r; split; [done|];
    replace (n - length buf) with 0 by lia; constructor.
  { done. }
  apply wp_bind. eapply wp_mono; [apply wp_urandom_retry; lia|]. intros [d|] w1 (Hf1 & Hl1 & Hd); [|by apply wp_ret].
  destruct Hd as (_ & t & d0 & H1 & H2 & H3 & ->). eapply wp_mono; [apply IH; rewrite length_app, length_take; lia|].
  intros r w2 (Hf2 & Hl2 & Hr). split_and!; [congruence|by transitivity w1|]. destruct r as [b|].
  - destruct Hr as (new & -> & Hnew). exists (take (n - length buf) d0 ++ new). rewrite app_assoc. split; [done|].
    apply (drawn_read _ _ _ t); [done|unfold later in *; lia|done|].
    eapply drawn_weaken; [| |rewrite length_app, Nat.sub_add_distr in Hnew; exact Hnew]; lia.
  - eapply during_weaken; [exact Hl1| |exact Hr]. unfold later. done.
Qed.

#[export] Instance total_urandom_read P n :
  UrandomResponsive -> SilentP P -> Total P (retry (urandom_read n)).
Proof.
  intros HU HP. apply (retry_total P _ (fun t => env_urandom t = SEintr)); [|apply HU].
  intros w Hw. unfold urandom_read, bind, M_bind, blocking.
  pose proof (urandom_returns (w_tick w)) as Hnh.
  destruct (env_urandom (w_tick w)) as [d| | |]; try done; simpl.
  - destruct (take n d); do 2 eexists; (split; [done|]); (split; [by apply silent_p_deliver|done]).
  - do 2 eexists. split; [done|]. by split; [apply silent_p_deliver|].
  - do 2 eexists. split; [done|]. by split; [apply silent_p_deliver|].
Qed.

Lemma total_urandom_loop P n buf rounds :
  UrandomResponsive -> SilentP P -> n - length buf <= rounds -> Total P (urandom_loop rounds n buf).
Proof.
  intros HU HP. revert buf. induction rounds as [|rounds IH]; intros buf Hr; simpl;
    destruct (Nat.ltb_spec (length buf) n); try apply _; [lia|].
  intros w Hw. unfold bind, M_bind.
  destruct (total_urandom_read P (n - length buf) HU HP w Hw) as (o & w1 & Heq & Hw1).
  destruct (retry _ w) as [[o' w1']|] eqn:Hrun; [injection Heq as -> ->|done].
  destruct o as [d|]; [|by do 2 eexists].
  apply IH; [|done]. rewrite length_app.
  destruct (wp_elim _ _ w _ _ (wp_urandom_retry (n - length buf) w ltac:(lia)) Hrun) as (_ & _ & Hne & _).
  destruct d; [done|simpl; lia].
Qed.

#[export] Instance total_generate_random_hex_key P out sz n :
  UrandomResponsive -> SilentP P -> FdSilentP P -> Total P (generate_random_hex_key out sz n).
Proof.
  intros HU HP HF. unfold generate_random_hex_key.
  repeat (case_match; [apply _|]). apply total_bind; [apply _|]. intros fd.
  case_match; [apply _|]. apply total_bind; [apply total_urandom_loop; auto; lia|]. apply _.
Qed.

#[export] Instance respects_generate_random_hex_key R out sz n :
  Silent R -> FdSilent R -> Respects R (generate_random_hex_key out sz n).
Proof.
  intros HR HF. unfold generate_random_hex_key.
  assert (forall rounds buf, Respects R (urandom_loop rounds n buf)) as Hloop.
  { induction rounds as [|rounds IH]; intros buf; simpl; [apply _|].
    case_match; [|apply _]. unfold urandom_read. apply _. }
  apply _.
Qed.

End RandomKeys.

(** *** Directories *)

(** The directories on the way to [dir]: its prefixes that end before a slash,
    shortest first, and [dir] itself. *)
Definition ancestors (dir : cstr) : list cstr :=
  ((fun i => take i dir) <$> filter (fun i => dir !! i = Some "/"%char) (seq 1 (length dir - 1)))
    ++ [dir].

Lemma ancestors_from pre rest :
  ((fun i => take i (pre ++ rest)) <$>
     filter (fun i => (pre ++ rest) !! i = Some "/"%char) (seq (length pre) (length rest)))
  = match rest with
    | [] => []
    | c :: rest' =>
        (if decide (c = "/"%char) then [pre] else []) ++
        ((fun i => take i ((pre ++ [c]) ++ rest')) <$>
           filter (fun i => ((pre ++ [c]) ++ rest') !! i = Some "/"%char)
             (seq (length (pre ++ [c])) (length rest')))
    end.
Proof.
  destruct rest as [|c rest]; [done|].
  rewrite <- (app_assoc pre [c] rest). simpl seq. rewrite filter_cons, length_app. simpl.
  rewrite lookup_app_r, Nat.sub_diag, Nat.add_1_r by lia. simpl.
  destruct (decide (c = "/"%char)) as [->|Hne].
  - rewrite decide_True by done. simpl. by rewrite take_app_length.
  - rewrite decide_False by congruence. done.
Qed.

Section Directories.
Context `{E : Env}.

Lemma mkdir_p_loop_spec pre rest w :
  wp (mkdir_p_loop pre rest) (fun rc w' =>
    exists made left,
      ((fun i => take i (pre ++ rest)) <$>
        filter (fun i => (pre ++ rest) !! i = Some "/"%char) (seq (length pre) (length rest)))
        ++ [pre ++ rest] = made ++ left /\
      w_trace w' = reverse (EvMkdir <$> made) ++ w_trace w /\
      (rc = 0 /\ left = [] \/ rc = -1 /\ made <> [])%Z) w.
Proof.
  revert pre w. induction rest as [|c rest IH]; intros pre w.
  - simpl. rewrite app_nil_r. unfold mkdir. apply wp_bind, wp_bind, wp_emit, wp_call_silent.
    intros n b _. apply wp_ret. exists [pre], []. split; [done|]. split; [done|].
    by destruct (mkdir_failed _); [right|left].
  - rewrite ancestors_from. cbn [mkdir_p_loop].
    assert (pre ++ c :: rest = (pre ++ [c]) ++ rest) as Happ by by rewrite <- app_assoc.
    destruct (decide (c = "/"%char)) as [->|Hne].
    + unfold mkdir. apply wp_bind, wp_bind, wp_emit, wp_call_silent. intros n b _.
      destruct (mkdir_failed _).
      * apply wp_ret. exists [pre]. eexists. split; [done|]. split; [done|]. by right.
      * eapply wp_mono; [apply IH|]. intros rc w' (made & left & Heq & Htr & Hrc).
        exists (pre :: made), left. rewrite Happ. split; [by simpl; f_equal|].
        split; [|destruct Hrc as [?|[? ?]]; [by left|by right]]. rewrite Htr, fmap_cons, reverse_cons, <- app_assoc. done.
    + rewrite Happ. apply IH.
Qed.

End Directories.

(** ** Properties *)

(** An interval accepted on the command line is between 10 and 3600
    seconds, and every such number in decimal is accepted as itself. *)
Theorem parse_interval_decimal long_bits input out :
  (long_bits = 32 \/ long_bits = 64)%Z ->
  let '(err, v) := parse_interval long_bits input out in
  (err = 0 -> 10 <= v <= 3600)%Z /\
  (forall n, 10 <= n <= 3600 -> input = fmt_u n -> err = 0 /\ v = n)%Z.
Proof.
  intros Hlb. destruct (parse_interval long_bits input out) as [err v] eqn:Hp.
  unfold parse_interval in Hp. destruct (parse_u32 long_bits input out) as [e u] eqn:Hu.
  split.
  - intros ->. destruct (Z.eqb_spec e 0), (Z.ltb_spec u 10), (Z.ltb_spec 3600 u);
      unfold EINVAL in *; simplify_eq/=; lia.
  - intros n Hn ->. unfold parse_u32 in Hu.
    pose proof (parse_subject_fmt_u 0 n []) as Hsub. rewrite app_nil_r in Hsub.
    rewrite Hsub in Hu by (try done; auto; lia). clear Hsub.
    assert (2 ^ 32 <= 2 ^ long_bits)%Z as Hmax by (apply Z.pow_le_mono_r; lia).
    rewrite strtoul_value_id in Hu by lia. simpl in Hu.
    destruct (Z.ltb_spec UINT32_MAX n) as [?|?]; [unfold UINT32_MAX in *; lia|].
    injection Hu as <- <-.
    destruct (Z.ltb_spec n 10), (Z.ltb_spec 3600 n); simpl in Hp; try lia.
    by injection Hp as <- <-.
Qed.

Lemma parse_interval_decimal_witness :
  parse_interval 32 "60" 7 = (0, 60)%Z /\ (10 <= 60 <= 3600)%Z.
Proof.
  split; [by vm_compute|].
  pose proof (parse_interval_decimal 32 "60" 7 (or_introl eq_refl)) as H.
  vm_compute parse_interval in H. destruct H as [H _]. by apply H.
Defined.

(** On a 64-bit target the interval check accepts the negative number
    -18446744073709551606, because strtoul negates modulo 2^64. *)
Theorem parse_interval_accepts_negative :
  parse_interval 64 "-18446744073709551606" 60 = (0, 10)%Z.
Proof. by vm_compute. Qed.

(** A lifetime accepted from text is 0 or between 60 and INT32_MAX, and
    every such positive number in decimal is accepted as itself. *)
Theorem parse_lifetime_decimal input out :
  let '(err, v) := parse_lifetime input out in
  (err = 0 -> v = 0 \/ 60 <= v <= INT32_MAX)%Z /\
  (forall n, 60 <= n <= INT32_MAX -> input = Some (fmt_u n) -> err = 0 /\ v = n)%Z.
Proof.
  destruct (parse_lifetime input out) as [err v] eqn:Hp. unfold parse_lifetime in Hp.
  destruct input as [s|]; [|injection Hp as <- <-; split; [unfold EINVAL; lia|done]].
  split.
  - intros ->. destruct (parse_subject 0 s) as [j|]; [|unfold EINVAL in *; simplify_eq].
    destruct (strtol_value 64 j) as [u er].
    unfold TUMGRD_LIFETIME_MIN, TUMGRD_LIFETIME_MAX in *.
    destruct (_ || _); [unfold EINVAL in *; simplify_eq|].
    destruct (Z.eqb_spec u 0), (Z.ltb_spec u 60), (Z.ltb_spec INT32_MAX u);
      simpl in Hp; unfold EINVAL in *; simplify_eq; lia.
  - intros n Hn [= ->].
    pose proof (parse_subject_fmt_u 0 n []) as Hsub. rewrite app_nil_r in Hsub.
    unfold INT32_MAX in Hn.
    rewrite Hsub in Hp by (try done; auto; lia). clear Hsub.
    rewrite strtol_value_id in Hp by lia. simpl in Hp.
    unfold TUMGRD_LIFETIME_MIN, TUMGRD_LIFETIME_MAX, INT32_MAX in Hp.
    destruct (Z.ltb_spec n 60), (Z.ltb_spec 2147483647 n); try lia.
    rewrite andb_false_r in Hp. by simplify_eq.
Qed.

(** Trimming removes exactly the white space at both ends, and trimming
    again changes nothing. *)
Theorem trim_inplace_spec s :
  (exists a b, s = a ++ trim_inplace s ++ b /\ all_space a /\ all_space b) /\
  (forall c t, trim_inplace s = c :: t \/ trim_inplace s = t ++ [c] -> is_space c = false) /\
  trim_inplace (trim_inplace s) = trim_inplace s.
Proof.
  destruct (trim_decompose s) as (a & b & Hs & Ha & Hb & Hh & Hl). split_and!.
  - by exists a, b.
  - intros c t [Hc|Hc]; eauto.
  - by apply trim_id.
Qed.

(** The outcome of key generation, whatever the device does. *)
Definition key_result `{E : Env} (out : cstr) (sz n : nat) (w : world) (rc : Z) (key : cstr) (w' : world) : Prop :=
  (rc = (-1)%Z /\ key = out /\ (sz < 2 * n + 1 \/ ~ 16 <= n <= 64 \/ urandom_fault w w')) \/
  (rc = 0%Z /\ 16 <= n <= 64 /\ length key = 2 * n /\ length key < sz /\ Forall (fun c => is_hex c = true) key /\
   exists buf, drawn n (w_tick w) (w_tick w') buf /\ key = hex_of_bytes buf /\ bytes_of_hex key = Some buf).

Lemma wp_generate_random_hex_key `{E : Env} (out : cstr) (sz n : nat) w :
  wp (generate_random_hex_key out sz n) (fun r w' => w_fds w' = w_fds w /\ key_result out sz n w r.1 r.2 w') w.
Proof.
  unfold generate_random_hex_key, key_result.
  destruct (Nat.ltb_spec sz (n * 2 + 1)); [apply wp_ret; split; [done|left; split_and!; [done..|left; lia]]|].
  destruct (Nat.ltb_spec n 16); [apply wp_ret; split; [done|left; split_and!; [done..|right; left; lia]]|].
  destruct (Nat.ltb_spec 64 n); [apply wp_ret; split; [done|left; split_and!; [done..|right; left; lia]]|]. simpl.
  apply wp_bind. unfold open_file. apply wp_bind, wp_succeeds. intros w1 C1 T1.
  pose proof (calm_fields _ _ C1) as (_ & _ & _ & _ & _ & Hf1 & _).
  destruct (env_ok _) eqn:Hok.
  2:{ apply wp_ret. cbn [Z.ltb Z.compare]. apply wp_ret. split; [done|]. left. split_and!; [done..|right; right].
      exists (w_tick w). split_and!; [lia|lia|by left]. }
  unfold wp at 1, alloc_fd. cbv zeta.
  pose proof (new_fd_spec 0 (w_fds w1)) as [Hfresh Hpos]. set (fd := new_fd 0 (w_fds w1)) in *.
  destruct (Z.ltb_spec fd 0); [lia|]. apply wp_bind.
  eapply wp_mono; [apply wp_urandom_loop; simpl; lia|].
  intros o w' (Hfds & Hl & Ho). simpl in Hfds, Ho. apply wp_bind, wp_modify.
  assert (w_fds w' ∖ {[fd]} = w_fds w) as Hclosed by (rewrite Hfds, <- Hf1; by apply close_fresh).
  assert (later w w') as Hlw by (unfold later in *; cbn in Hl; lia).
  destruct o as [buf|]; apply wp_ret; (split; [done|]).
  - right. destruct Ho as (new & -> & Hnew). cbn [app] in *. rewrite Nat.sub_0_r in Hnew.
    destruct (hex_of_bytes_shape new) as [Hlen Hh]. pose proof (drawn_length _ _ _ _ Hnew).
    cbn [fst snd]. split_and!; try done; try lia. exists new. split; [|split; [done|apply bytes_of_hex_of_bytes]].
    eapply drawn_weaken; [| |exact Hnew]; cbn; lia.
  - left. split_and!; [done..|right; right]. destruct Ho as (t & Ha & Hb & HP). exists t. cbn in *. split_and!; [lia|lia|done].
Qed.

(** C38: with a responsive /dev/urandom, key generation returns and leaves no
    descriptor open.  It fails only for a size it refuses, or because the
    device could not be opened or read, and then the output is untouched;
    otherwise the output is two lowercase hexadecimal digits for each of the
    [n] bytes that reads of /dev/urandom delivered during the call, in order,
    from which the bytes can be recovered. *)
Theorem generate_random_hex_key_spec `{E : Env} (out : cstr) (sz n : nat) w :
  UrandomResponsive ->
  exists rc key w', generate_random_hex_key out sz n w = Some ((rc, key), w') /\
    w_fds w' = w_fds w /\ w_rows w' = w_rows w /\ key_result out sz n w rc key w'.
Proof.
  intros HU.
  destruct (total_wp (fun _ => True) (generate_random_hex_key out sz n) _ w I
    (wp_and _ _ _ _ (wp_respects same_db _ w) (wp_generate_random_hex_key out sz n w)))
    as ([rc key] & w' & Heq & (_ & _ & Hrows) & Hfds & Hspec).
  by exists rc, key, w'.
Qed.

(** Preparing the database directory creates, in order and outermost
    first, the directories that lead to it, up to the first failure; it
    reports success exactly when it has been through all of them. *)
Theorem ensure_parent_dir_spec `{E : Env} (dir : cstr) (name : cstr) w rc w' :
  dir <> [] -> last dir <> Some "/"%char -> "/"%char ∉ name ->
  length (dir ++ "/"%char :: name) < PATH_MAX ->
  ensure_parent_dir (dir ++ "/"%char :: name) w = Some (rc, w') ->
  exists made left, ancestors dir = made ++ left /\
    w_trace w' = reverse (EvMkdir <$> made) ++ w_trace w /\
    (rc = 0 /\ left = [] \/ rc = -1 /\ made <> [])%Z.
Proof.
  intros Hdir Hlast Hname Hlen Hrun.
  assert (before_last (dir ++ "/"%char :: name) "/" = Some dir) as Hbl.
  { clear Hdir Hlast Hlen Hrun. induction dir as [|c dir IH]; simpl.
    - assert (before_last name "/" = None) as ->; [|done].
      induction name as [|d name IH]; [done|]. rewrite not_elem_of_cons in Hname.
      destruct Hname as [Hd Hname]. simpl. rewrite (IH Hname). by rewrite decide_False.
    - by rewrite IH. }
  unfold ensure_parent_dir in Hrun.
  destruct (dir ++ "/"%char :: name) as [|p0 path] eqn:Hpath; [by destruct dir|].
  destruct (Nat.leb_spec PATH_MAX (length (p0 :: path))); [lia|].
  rewrite Hbl in Hrun. destruct dir as [|d0 dir]; [done|]. unfold mkdir_p in Hrun.
  destruct (Nat.leb_spec PATH_MAX (length (d0 :: dir))) as [Hge|_].
  { apply (f_equal length) in Hpath. rewrite length_app in Hpath. simpl in *. lia. }
  rewrite bool_decide_eq_false_2 in Hrun by done.
  destruct (wp_elim _ _ _ _ _ (mkdir_p_loop_spec [d0] dir w) Hrun) as (made & left & Heq & H1 & H2).
  exists made, left. split; [|done]. unfold ancestors.
  replace (length (d0 :: dir) - 1) with (length dir) by (simpl; lia).
  exact Heq.
Qed.

(** *** The hypotheses can be met *)
Lemma quiet_urandom : @UrandomResponsive (quiet_env (fun _ => true)).
Proof. split; [done|]. intros t. exists 0. split; [cbn; lia|done]. Qed.

Lemma generate_random_hex_key_witness :
  exists rc key w', @generate_random_hex_key (quiet_env (fun _ => true)) [] 33 16 new_world = Some ((rc, key), w')
    /\ w_fds w' = w_fds new_world.
Proof.
  destruct (@generate_random_hex_key_spec (quiet_env (fun _ => true)) [] 33 16 new_world quiet_urandom)
    as (rc & key & w' & Heq & Hfds & _).
  exists rc, key, w'. by split.
Defined.

Lemma ensure_parent_dir_witness :
  exists made left, ancestors "/lib/tumgrd" = made ++ left /\ left = [].
Proof.
  destruct (@ensure_parent_dir_spec (quiet_env (fun _ => true)) "/lib/tumgrd" "tumgrd.db" new_world 0%Z
    (set_w_tick 2 (set_w_trace [EvMkdir "/lib/tumgrd"; EvMkdir "/lib"] new_world)))
    as (made & left & Heq & _ & [[_ Hl]|[Hrc _]]).
  - done.
  - done.
  - by apply (bool_decide_unpack _); vm_compute.
  - by apply Nat.ltb_lt; vm_compute.
  - by vm_compute.
  - by exists made, left.
  - done.
Defined.

Lemma sample_fits : node_fits sample_node.
Proof.
  assert (forall s n, forallb (fun c => negb (bool_decide (c = NUL))) s && (length s <? n) = true -> text_fits n s) as Htext.
  { intros s n [Hnn Hlen]%andb_true_iff. split; [|by apply Nat.ltb_lt].
    apply forallb_Forall in Hnn. eapply Forall_impl; [exact Hnn|]. cbn. intros c Hc ->. done. }
  split; try (by apply Htext); unfold int_fits; cbn; lia.
Qed.
