(* ===== verification/Log.v ===== *)
(** * Log: log.h, log_impl.c and [log_trimmed]

    What is written to stderr.  The operations of the other files leave their
    log messages out, since nothing reads them back; this file says which of
    them are seen at which verbosity, and what they look like. *)

From S2P Require Import Prelude CLib Types Helper.

(** ** Levels *)
Inductive verbosity := LOG_ERROR | LOG_WARN | LOG_INFO | LOG_DEBUG | LOG_TRACE.

(** The value of the enumerator. *)
Definition level_value (v : verbosity) : Z :=
  match v with LOG_ERROR => 0 | LOG_WARN => 1 | LOG_INFO => 2 | LOG_DEBUG => 3 | LOG_TRACE => 4 end.

(** The initial value of [log_verbosity]. *)
Definition initial_verbosity : Z := 2.

Definition escape (code : cstr) : cstr := byte_of 27 :: literal "[" ++ code ++ literal "m".
Definition RED : cstr := escape "31".
Definition GREEN : cstr := escape "32".
Definition YELLOW : cstr := escape "33".
Definition BLUE : cstr := escape "34".
Definition GRAY : cstr := escape "90".
Definition BOLD : cstr := escape "1".
Definition RESET : cstr := escape "0".

Definition log_prefixes : list (cstr * cstr) :=
  [(BOLD ++ RED, literal "Error"); (BOLD ++ YELLOW, literal " Warn"); (BOLD ++ GREEN, literal " Info");
   (BOLD ++ BLUE, literal "Debug"); (BOLD ++ GRAY, literal "Trace")].

(** ** Messages *)

(** The bytes written for a message that has been formatted to [text]; [None]
    is an access outside of [log_prefixes]. *)
Definition log_any (log_verbosity level : Z) (text : cstr) : option cstr :=
  let level := if (level <? level_value LOG_ERROR)%Z then level_value LOG_ERROR else level in
  let level := if (level_value LOG_TRACE <? level)%Z then level_value LOG_TRACE else level in
  if (level <=? log_verbosity)%Z then
    match log_prefixes !! Z.to_nat level with
    | None => None
    | Some (color, name) =>
        let trace := (level_value LOG_TRACE <=? level)%Z in
        Some (color ++ name ++ literal " " ++ RESET ++ (if trace then GRAY else []) ++ text ++
              (if trace then RESET else []) ++ [byte_of 10])
    end
  else Some [].

Definition log_error (log_verbosity : Z) : cstr -> option cstr := log_any log_verbosity (level_value LOG_ERROR).
Definition log_warn (log_verbosity : Z) : cstr -> option cstr := log_any log_verbosity (level_value LOG_WARN).
Definition log_info (log_verbosity : Z) : cstr -> option cstr := log_any log_verbosity (level_value LOG_INFO).
Definition log_debug (log_verbosity : Z) : cstr -> option cstr := log_any log_verbosity (level_value LOG_DEBUG).
Definition log_trace (log_verbosity : Z) : cstr -> option cstr := log_any log_verbosity (level_value LOG_TRACE).

(** [copied] is whether [strdup] found the memory. *)
Definition log_trimmed (log_verbosity : Z) (tag : cstr) (script : option cstr) (copied : bool) : option cstr :=
  match script with
  | None => log_info log_verbosity (tag ++ literal ": (null)")
  | Some s =>
      if negb copied then log_error log_verbosity (tag ++ literal ": strdup failed")
      else log_info log_verbosity (tag ++ literal ": " ++ trim_inplace s)
  end.

(** ** Properties *)

Lemma clamp_level level :
  (if (4 <? if (level <? 0)%Z then 0 else level)%Z then 4%Z else if (level <? 0)%Z then 0%Z else level) = Z.max 0 (Z.min level 4).
Proof.
  destruct (Z.ltb_spec level 0); [change (4 <? 0)%Z with false; cbv iota; lia|]. destruct (Z.ltb_spec 4 level); lia.
Qed.

(** Whatever level a caller passes, the prefix is found in its table; a message
    is one line that holds the text, or nothing below its level. *)
Theorem log_any_line log_verbosity level text :
  exists out, log_any log_verbosity level text = Some out /\
    (if (Z.max 0 (Z.min level 4) <=? log_verbosity)%Z then exists a b, out = a ++ text ++ b ++ [byte_of 10] else out = []).
Proof.
  unfold log_any. cbn [level_value]. cbv zeta.
  replace (if (4 <? if (level <? 0)%Z then 0 else level)%Z then 4%Z else if (level <? 0)%Z then 0%Z else level)
    with (Z.max 0 (Z.min level 4)) by (symmetry; apply clamp_level).
  set (l := Z.max 0 (Z.min level 4)). destruct (l <=? log_verbosity)%Z; [|by eexists].
  destruct (lookup_lt_is_Some_2 log_prefixes (Z.to_nat l)) as [[color name] ->]; [cbn [length log_prefixes]; lia|].
  eexists. split; [reflexivity|].
  set (trace := (4 <=? l)%Z). exists (color ++ name ++ literal " " ++ RESET ++ (if trace then GRAY else [])), (if trace then RESET else []).
  by rewrite <- !app_assoc.
Qed.

(** A more verbose log leaves nothing out. *)
Theorem log_any_monotone v v' level text :
  (v <= v')%Z -> log_any v level text <> Some [] -> log_any v' level text = log_any v level text.
Proof.
  intros Hv. unfold log_any. cbv zeta. set (l := if (_ <? _)%Z then _ else _).
  destruct (Z.leb_spec l v), (Z.leb_spec l v'); [done|lia|by intros []..].
Qed.
