(* ===== verification/Db.v ===== *)
(** * Db: db.c

    The table [nodes] and the statements the daemon runs on it.  A statement is
    a function on the list of rows, translated from its SQL text; every call to
    SQLite may fail, and a statement that fails changes nothing. *)

From S2P Require Import Prelude CLib Types World Logic Helper.

(** ** Statements on the table *)
Definition select_where (P : row -> bool) (t : list row) : list row := filter (fun r => P r = true) t.

(** [UPDATE nodes SET f WHERE P]: the table and the number of rows changed. *)
Definition update_where (P : row -> bool) (f : row -> row) (t : list row) : list row * Z :=
  ((fun r => if P r then f r else r) <$> t, Z.of_nat (length (select_where P t))).

Definition delete_where (P : row -> bool) (t : list row) : list row * Z :=
  (filter (fun r => P r = false) t, Z.of_nat (length (select_where P t))).

(** [server_host = ? AND server_port = ? AND uid = ? AND ip_version = ?] *)
Definition has_key (k : key) (r : row) : bool := bool_decide (row_key r = k).

(** SQL conditions on [rotation_state]; a NULL makes them not true. *)
Definition rotation_is (s : Z) (r : row) : bool := bool_decide (c_rotation_state r = Some s).
Definition rotation_not_zero (r : row) : bool :=
  match c_rotation_state r with Some s => negb (s =? 0)%Z | None => false end.
Definition rotation_pending (r : row) : bool :=
  rotation_is TUMGRD_ROTATION_PENDING_REMOTE r || rotation_is TUMGRD_ROTATION_PENDING_LOCAL_RECOVERY r.

(** [DO UPDATE SET ...]: [old] is the row in the table, [excl] the one to insert. *)
Definition upsert_merge (old excl : row) : row :=
  mkRow (c_uid old) (c_description excl) (c_client_comment excl) (c_created_at excl)
    (c_server_host old) (c_server_port old) (c_psk excl) (c_client_port excl)
    (c_memlimit excl) (c_ip_check_url excl) (c_ip_version old) (c_current_ip excl)
    (c_last_updated excl) (c_status excl)
    (if rotation_not_zero old then c_xor_key old else c_xor_key excl)
    (match c_lifetime excl with Some l => Some l | None => c_lifetime old end)
    (c_last_applied_at old) (c_rotation_state old) (c_xor_key_pending old).

(** Some other row has the same (server_host, server_port, client_port, ip_version). *)
Definition port_taken (r : row) (t : list row) : bool :=
  existsb (fun s => bool_decide (row_port_key s = row_port_key r) && negb (has_key (row_key r) s)) t.

(** [INSERT ... ON CONFLICT(primary key) DO UPDATE]; [None] is SQLITE_CONSTRAINT. *)
Definition sql_upsert (excl : row) (t : list row) : option (list row * Z) :=
  match select_where (has_key (row_key excl)) t with
  | old :: _ =>
      let new := upsert_merge old excl in
      if port_taken new t then None
      else Some (update_where (has_key (row_key excl)) (fun _ => new) t)
  | [] => if port_taken excl t then None else Some (t ++ [excl], 1%Z)
  end.

(** [ORDER BY server_host, server_port, uid], with the BINARY collation. *)
Fixpoint text_cmp (a b : cstr) : comparison :=
  match a, b with
  | [], [] => Eq
  | [], _ :: _ => Lt
  | _ :: _, [] => Gt
  | c :: a', d :: b' =>
      match Z.compare (byte_val c) (byte_val d) with Eq => text_cmp a' b' | o => o end
  end.

Definition row_cmp (r s : row) : comparison :=
  match text_cmp (c_server_host r) (c_server_host s) with
  | Eq => match Z.compare (c_server_port r) (c_server_port s) with
          | Eq => text_cmp (c_uid r) (c_uid s)
          | o => o
          end
  | o => o
  end.

Definition row_le (r s : row) : Prop := row_cmp r s <> Gt.

#[export] Instance row_le_dec : RelDecision row_le.
Proof. intros r s. unfold row_le. apply _. Defined.

Definition select_ordered (t : list row) : list row := merge_sort row_le t.

Definition all_columns (c : columns) : bool :=
  has_lifetime_col c && has_last_applied_col c && has_rotation_col c && has_pending_col c.

(** ** Bound parameters and result columns *)
Definition bind_text_or_null (value : option cstr) : option cstr :=
  match value with None | Some [] => None | Some s => Some s end.

Definition bind_required_text (value : option cstr) : cstr := default [] value.

Definition column_text (v : option cstr) (dst_len : nat) : cstr :=
  match v with None => [] | Some s => copy_string [] dst_len (Some s) end.

Definition column_int (v : option Z) : Z := int32 (default 0%Z v).
Definition column_int64 (v : option Z) : Z := default 0%Z v.

Section Db.
Context `{E : Env}.
Context {L : Type}.

(** [SQLITE_TRY(expr)] on a call without effect on the table. *)
Definition sqlite_try : X L unit :=
  ok ← lift succeeds; if (ok : bool) then mret tt else fail (-1)%Z.

(** [sqlite3_prepare_v2] of a statement that names every column. *)
Definition sqlite_prepare : X L unit :=
  ok ← lift succeeds;
  cols ← lift (reads w_cols);
  match cols with
  | Some c => if (ok : bool) && all_columns c then mret tt else fail (-1)%Z
  | None => fail (-1)%Z
  end.

Fixpoint sqlite_binds (n : nat) : X L unit :=
  match n with O => mret tt | S n' => sqlite_try;; sqlite_binds n' end.

(** [SQLITE_TRY_STEP_DONE(sqlite3_step(stmt))] *)
Definition sqlite_step (name : string) (stmt : list row -> option (list row * Z)) : X L unit :=
  ok ← lift succeeds;
  rows ← lift (reads w_rows);
  if negb ok then fail (-1)%Z else
  match stmt rows with
  | None => fail (-1)%Z
  | Some (rows', n) =>
      lift (modify (fun w => set_w_rows rows' (set_w_changes n w)));;
      lift (emit (EvSql name))
  end.

(** [!db || !db->conn] *)
Definition require_conn : X L unit :=
  conn ← lift (reads w_conn); if (conn : bool) then mret tt else fail (-1)%Z.

(** [sqlite3_changes(conn) != 1] *)
Definition require_one_change : X L unit :=
  n ← lift (reads w_changes); if (n =? 1)%Z then mret tt else fail (-1)%Z.

End Db.

Section Operations.
Context `{E : Env}.

(** ** Reading a row *)
Definition row_to_node (r : row) : M node :=
  let lifetime0 := column_int64 (c_lifetime r) in
  let lifetime1 :=
    if negb (lifetime0 =? 0)%Z && ((lifetime0 <? TUMGRD_LIFETIME_MIN)%Z || (TUMGRD_LIFETIME_MAX <? lifetime0)%Z)
    then 0%Z else lifetime0 in
  let applied0 := column_int64 (c_last_applied_at r) in
  applied1 ←
    (if (applied0 <? 0)%Z then mret 0%Z
     else now ← time; mret (if (now + 86400 <? applied0)%Z then 1%Z else applied0));
  mret (mkNode
    (column_text (Some (c_uid r)) SZ_UID)
    (column_text (c_description r) SZ_TEXT)
    (column_text (c_client_comment r) SZ_TEXT)
    (column_int64 (c_created_at r))
    (column_text (Some (c_server_host r)) SZ_TEXT)
    (column_int (Some (c_server_port r)))
    (column_text (Some (c_psk r)) SZ_TEXT)
    (column_int (Some (c_client_port r)))
    (match c_memlimit r with Some _ => 1%Z | None => 0%Z end)
    (match c_memlimit r with Some m => column_int (Some m) | None => 0%Z end)
    (column_text (c_ip_check_url r) SZ_TEXT)
    (column_text (Some (c_ip_version r)) SZ_IP_VERSION)
    (column_text (c_current_ip r) SZ_CURRENT_IP)
    (column_int64 (c_last_updated r))
    (column_text (c_status r) SZ_STATUS)
    (column_text (c_xor_key r) SZ_XOR_KEY)
    lifetime1
    applied1
    (column_int (c_rotation_state r))
    (column_text (c_xor_key_pending r) SZ_XOR_KEY)).

(** ** Opening and closing *)
Definition tumgrd_db_open (path : option cstr) : M Z :=
  let db_path := copy_string [] 256 (nonempty_or_default path (Some TUMGRD_DB_PATH)) in
  run (
    lift (modify (set_w_conn false));;                       (* memset(db, 0, sizeof *db) *)
    try2 (ensure_parent_dir db_path);;
    sqlite_try;;                                             (* sqlite3_open_v2 *)
    lift (modify (set_w_conn true));;
    wal ← lift succeeds;                                     (* PRAGMA journal_mode=WAL *)
    lift (emit (EvSql (if (wal : bool) then "PRAGMA synchronous=NORMAL;" else "PRAGMA synchronous=FULL;")));;
    lift (emit (EvSql "PRAGMA cache_size=-2000;"))).

Definition tumgrd_db_close : M unit := modify (set_w_conn false).

(** ** Schema *)

(** [ALTER TABLE nodes ADD COLUMN ...]: an error other than a duplicate column
    is reported. *)
Definition migrate_add_column (present : columns -> bool) (add : columns -> columns) (fill : row -> row) : M Z :=
  ok ← succeeds;
  cols ← reads w_cols;
  match cols with
  | Some c =>
      if negb ok then mret 1%Z
      else if present c then mret 0%Z
      else modify (fun w => set_w_cols (Some (add c)) (set_w_rows (fill <$> w_rows w) w));; mret 0%Z
  | None => mret 1%Z
  end.

(** [sqlite3_exec] of the statement that creates the table. *)
Definition create_table : M Z :=
  ok ← succeeds;
  if negb ok then mret 1%Z else
  modify (fun w => match w_cols w with
                   | Some _ => w
                   | None => set_w_cols (Some (mkColumns true true true true)) (set_w_rows [] w)
                   end);;
  mret 0%Z.

(** The rows of [PRAGMA table_info]: fifteen columns and those added later. *)
Definition column_count (c : columns) : nat :=
  15 + length (filter (fun b : bool => b = true)
    [has_lifetime_col c; has_last_applied_col c; has_rotation_col c; has_pending_col c]).

Definition backfill (t : list row) : option (list row * Z) :=
  Some (update_where
    (fun r => bool_decide (c_last_applied_at r = Some 0%Z) &&
              match c_last_updated r with Some u => (0 <? u)%Z | None => false end)
    (fun r => set_c_last_applied_at (c_last_updated r) r) t).

Definition require_ok (m : M Z) : X unit unit :=
  rc ← lift m; if (rc =? 0)%Z then mret tt else fail (-1)%Z.

Definition tumgrd_db_init_schema : M Z :=
  run (
    require_conn;;
    require_ok create_table;;
    cols ← lift (reads w_cols);
    match cols with
    | None => fail (-1)%Z
    | Some c =>
        sqlite_binds (column_count c + 2);;                 (* table_info: prepare, the rows, done *)
        (if has_lifetime_col c then mret tt else
           require_ok (migrate_add_column has_lifetime_col
             (fun c => mkColumns true (has_last_applied_col c) (has_rotation_col c) (has_pending_col c))
             (set_c_lifetime (Some 0%Z))));;
        (if has_last_applied_col c then mret tt else
           require_ok (migrate_add_column has_last_applied_col
             (fun c => mkColumns (has_lifetime_col c) true (has_rotation_col c) (has_pending_col c))
             (set_c_last_applied_at (Some 0%Z)));;
           sqlite_step "backfill(last_applied_at)" backfill);;
        (if has_rotation_col c then mret tt else
           require_ok (migrate_add_column has_rotation_col
             (fun c => mkColumns (has_lifetime_col c) (has_last_applied_col c) true (has_pending_col c))
             (set_c_rotation_state (Some 0%Z))));;
        (if has_pending_col c then mret tt else
           require_ok (migrate_add_column has_pending_col
             (fun c => mkColumns (has_lifetime_col c) (has_last_applied_col c) (has_rotation_col c) true)
             (set_c_xor_key_pending (Some []))))
    end).

(** ** Register, find, delete, list *)

(** The copy of the node with its defaults filled in. *)
Definition node_defaults (node0 : node) : M node :=
  n1 ← (if (created_at node0 =? 0)%Z then now ← time; mret (set_created_at now node0) else mret node0);
  n2 ← (if (last_updated n1 =? 0)%Z then now ← time; mret (set_last_updated now n1) else mret n1);
  let n3 := match ip_check_url n2 with
            | [] => set_ip_check_url (copy_string [] SZ_TEXT (Some TUMGRD_DEFAULT_IP_CHECK_URL)) n2
            | _ => n2 end in
  let n4 := match status n3 with
            | [] => set_status (copy_string [] SZ_STATUS (Some TUMGRD_STATUS_ACTIVE)) n3
            | _ => n3 end in
  mret n4.

(** The nineteen parameters bound for a node. *)
Definition row_of_node (n : node) (set_lifetime : bool) : row :=
  mkRow (bind_required_text (Some (uid n)))
    (bind_text_or_null (nonempty_or_null (Some (description n))))
    (bind_text_or_null (nonempty_or_null (Some (client_comment n))))
    (Some (created_at n))
    (bind_required_text (Some (server_host n)))
    (server_port n)
    (bind_required_text (Some (psk n)))
    (client_port n)
    (if negb (has_memlimit n =? 0)%Z then Some (memlimit n) else None)
    (bind_text_or_null (nonempty_or_null (Some (ip_check_url n))))
    (bind_required_text (Some (ip_version n)))
    (bind_text_or_null (nonempty_or_null (Some (current_ip n))))
    (Some (last_updated n))
    (bind_text_or_null (nonempty_or_null (Some (status n))))
    (bind_text_or_null (nonempty_or_null (Some (xor_key n))))
    (if set_lifetime then Some (lifetime n) else None)
    (Some (last_applied_at n))
    (Some (rotation_state n))
    (bind_text_or_null (nonempty_or_null (Some (xor_key_pending n)))).

Definition tumgrd_db_upsert_node (n : node) (set_lifetime : bool) : M Z :=
  run (
    require_conn;;
    n ← lift (node_defaults n);
    sqlite_prepare;; sqlite_binds 19;;
    sqlite_step "upsert" (sql_upsert (row_of_node n set_lifetime))).

(** The return code (0 found, 1 not found, -1 error) and [*out]. *)
Definition tumgrd_db_get_node (k : key) (out : node) : M (Z * node) :=
  r ← (require_conn;; sqlite_prepare;; sqlite_binds 4;;
       ok ← lift succeeds;
       rows ← lift (reads w_rows);
       (if negb ok then fail (-1)%Z else
        match select_where (has_key k) rows with
        | [] => fail 1%Z
        | row :: _ => n ← lift (row_to_node row); assign (fun _ : node => n)
        end) : X node unit) out;
  mret (match r.1 with inl e => e | inr _ => 0%Z end, r.2).

Definition tumgrd_db_delete_node (k : key) : M Z :=
  run (
    require_conn;; sqlite_prepare;; sqlite_binds 4;;
    sqlite_step "delete" (fun t => Some (delete_where (has_key k) t));;
    changes ← lift (reads w_changes);
    if (0 <? changes)%Z then mret tt else fail 1%Z).

(** One step of the cursor per row, and an array that doubles when it is full. *)
Fixpoint list_loop (rows : list row) (cap : nat) (acc : list node) : X unit (list node) :=
  sqlite_try;;                                               (* sqlite3_step *)
  match rows with
  | [] => mret acc                                           (* SQLITE_DONE *)
  | row :: rows' =>
      cap' ← (if decide (length acc = cap) then
                try2_p succeeds;;                            (* realloc *)
                mret (if decide (cap = 0) then 8 else cap * 2)
              else mret cap);
      n ← lift (row_to_node row);
      list_loop rows' cap' (acc ++ [n])
  end.

(** The return code and the nodes. *)
Definition tumgrd_db_list_nodes : M (Z * list node) :=
  r ← (require_conn;; sqlite_prepare;;
       rows ← lift (reads w_rows);
       list_loop (select_ordered rows) 0 []) tt;
  mret (match r.1 with inl e => (e, []) | inr nodes => (0%Z, nodes) end).

(** ** Runtime state and rotation *)
Definition tumgrd_db_update_runtime (k : key) (current_ip : option cstr) (status : cstr) (last_updated : Z) : M Z :=
  run (
    require_conn;; sqlite_prepare;; sqlite_binds 7;;
    sqlite_step "update_runtime" (fun t => Some (update_where (has_key k)
      (fun r => set_c_current_ip (bind_text_or_null (nonempty_or_null current_ip))
               (set_c_status (Some (bind_required_text (Some status)))
               (set_c_last_updated (Some last_updated) r))) t))).

Definition tumgrd_db_update_applied (k : key) (last_applied_at : Z) : M Z :=
  run (
    require_conn;; sqlite_prepare;; sqlite_binds 5;;
    sqlite_step "update_applied" (fun t => Some (update_where (has_key k)
      (fun r => set_c_last_applied_at (Some last_applied_at) r) t));;
    require_one_change).

(** [SET xor_key = ?, xor_key_pending = ?, rotation_state = ?, last_updated = ?] *)
Definition set_rotation (new_xor_key : cstr) (rotation_state now : Z) (r : row) : row :=
  set_c_xor_key (Some (bind_required_text (Some new_xor_key)))
    (set_c_xor_key_pending (Some (bind_required_text (Some new_xor_key)))
    (set_c_rotation_state (Some rotation_state)
    (set_c_last_updated (Some now) r))).

Definition tumgrd_db_begin_rotation (k : key) (new_xor_key : cstr) (rotation_state now : Z) : M Z :=
  run (
    require_conn;; sqlite_prepare;; sqlite_binds 8;;
    sqlite_step "begin_rotation" (fun t => Some (update_where
      (fun r => has_key k r && rotation_is 0 r) (set_rotation new_xor_key rotation_state now) t));;
    require_one_change).

Definition tumgrd_db_complete_rotation (k : key) (last_applied_at : Z) : M Z :=
  run (
    require_conn;; sqlite_prepare;; sqlite_binds 5;;
    sqlite_step "complete_rotation" (fun t => Some (update_where
      (fun r => has_key k r && rotation_not_zero r)
      (fun r => set_c_rotation_state (Some 0%Z) (set_c_xor_key_pending (Some [])
               (set_c_last_applied_at (Some last_applied_at) r))) t));;
    require_one_change).

Definition tumgrd_db_update_rotation_state (k : key) (rotation_state : Z) : M Z :=
  run (
    require_conn;;
    (if negb (rotation_state =? TUMGRD_ROTATION_PENDING_REMOTE)%Z &&
        negb (rotation_state =? TUMGRD_ROTATION_PENDING_LOCAL_RECOVERY)%Z
     then fail (-1)%Z else mret tt);;
    sqlite_prepare;; sqlite_binds 7;;
    sqlite_step "update_rotation_state" (fun t => Some (update_where
      (fun r => has_key k r && rotation_pending r)
      (set_c_rotation_state (Some rotation_state)) t));;
    require_one_change).

Definition tumgrd_db_replace_rotation (k : key) (new_xor_key : cstr) (now : Z) : M Z :=
  run (
    require_conn;; sqlite_prepare;; sqlite_binds 8;;
    sqlite_step "replace_rotation" (fun t => Some (update_where (has_key k)
      (set_rotation new_xor_key TUMGRD_ROTATION_PENDING_REMOTE now) t));;
    require_one_change).

Definition tumgrd_db_clear_rotation (k : key) : M Z :=
  run (
    require_conn;; sqlite_prepare;; sqlite_binds 4;;
    sqlite_step "clear_rotation" (fun t => Some (update_where (has_key k)
      (fun r => set_c_rotation_state (Some 0%Z) (set_c_xor_key_pending (Some []) r)) t));;
    require_one_change).

End Operations.

(** ** The table as a map from primary keys

    [table_ok] is what the PRIMARY KEY and UNIQUE constraints of the schema
    promise; under it the table is the finite map [store]. *)
Definition table_ok (t : list row) : Prop :=
  NoDup (row_key <$> t) /\ NoDup (row_port_key <$> t).

Definition to_map (t : list row) : gmap key row := list_to_map ((fun r => (row_key r, r)) <$> t).

Abbreviation store w := (to_map (w_rows w)).

(** The promise of each kind of statement, on the map. *)
Definition spec_update (k : key) (guard : row -> bool) (f : row -> row) (m : gmap key row) : gmap key row * Z :=
  match m !! k with
  | Some r => if guard r then (<[k := f r]> m, 1%Z) else (m, 0%Z)
  | None => (m, 0%Z)
  end.

Definition spec_delete (k : key) (m : gmap key row) : gmap key row * Z :=
  match m !! k with Some _ => (delete k m, 1%Z) | None => (m, 0%Z) end.

(** A row may be stored unless another node of its server and address family
    has its client port. *)
Definition spec_port_free (r : row) (m : gmap key row) : Prop :=
  forall k s, m !! k = Some s -> k <> row_key r -> row_port_key s <> row_port_key r.

Definition spec_merged (excl : row) (m : gmap key row) : row :=
  match m !! row_key excl with Some old => upsert_merge old excl | None => excl end.

(** ** Lemmas on the table *)
Lemma has_key_spec k r : has_key k r = true <-> row_key r = k.
Proof. apply bool_decide_eq_true. Qed.

Lemma to_map_lookup t k r :
  NoDup (row_key <$> t) -> (to_map t !! k = Some r <-> r ∈ t /\ row_key r = k).
Proof.
  intros Hnd. unfold to_map. rewrite <- elem_of_list_to_map.
  - rewrite list_elem_of_fmap. split; [intros (s & [= -> ->] & Hs); by split|].
    intros [Hr <-]. by exists r.
  - rewrite <- list_fmap_compose. exact Hnd.
Qed.

Lemma to_map_none t k :
  NoDup (row_key <$> t) -> to_map t !! k = None -> forall r, r ∈ t -> row_key r <> k.
Proof.
  intros Hnd Hk r Hr Hrk. assert (to_map t !! k = Some r) by by apply to_map_lookup. congruence.
Qed.

Lemma select_key t k :
  NoDup (row_key <$> t) ->
  select_where (has_key k) t = match to_map t !! k with Some r => [r] | None => [] end.
Proof.
  unfold select_where. induction t as [|r t IH]; intros Hnd; [done|].
  rewrite fmap_cons, NoDup_cons in Hnd. destruct Hnd as [Hr Hnd].
  rewrite filter_cons, (IH Hnd). clear IH.
  change (to_map (r :: t)) with (<[row_key r := r]> (to_map t)).
  destruct (decide (row_key r = k)) as [<-|Hne].
  - rewrite decide_True by by apply has_key_spec. rewrite lookup_insert_eq.
    destruct (to_map t !! row_key r) as [s|] eqn:Hs; [|done].
    apply to_map_lookup in Hs as [Hin Hk]; [|done].
    exfalso. apply Hr. rewrite <- Hk. by apply list_elem_of_fmap_2.
  - rewrite decide_False by by rewrite has_key_spec. by rewrite lookup_insert_ne.
Qed.

Section Fmap.
Variable g : row -> row.
Hypothesis g_key : forall r, row_key (g r) = row_key r.

Lemma keys_fmap (t : list row) : row_key <$> (g <$> t) = row_key <$> t.
Proof. rewrite <- list_fmap_compose. apply list_fmap_ext. intros i r _. apply g_key. Qed.

Lemma to_map_fmap (t : list row) k :
  NoDup (row_key <$> t) -> to_map (g <$> t) !! k = g <$> to_map t !! k.
Proof.
  intros Hnd. assert (NoDup (row_key <$> (g <$> t))) as Hnd' by by rewrite keys_fmap.
  apply option_eq. intros r. rewrite to_map_lookup by done. rewrite fmap_Some. split.
  - intros [(s & -> & Hs)%list_elem_of_fmap Hk]. exists s. split; [|done].
    apply to_map_lookup; [done|]. by rewrite <- g_key.
  - intros (s & [Hs Hk]%to_map_lookup & ->); [|done]. rewrite g_key.
    split; [by apply list_elem_of_fmap_2|done].
Qed.
End Fmap.

(** The image of a list without duplicates has none when equal images come
    from equal positions. *)
Lemma NoDup_fmap_alt {A B} (f : A -> B) (l : list A) :
  NoDup (f <$> l) <-> forall i j x y, l !! i = Some x -> l !! j = Some y -> f x = f y -> i = j.
Proof.
  rewrite NoDup_alt. split.
  - intros H i j x y Hi Hj Hxy. apply (H i j (f x)); rewrite list_lookup_fmap.
    + by rewrite Hi.
    + by rewrite Hj, Hxy.
  - intros H i j z. rewrite !list_lookup_fmap, !fmap_Some.
    intros (x & Hi & ->) (y & Hj & Hxy). by eapply H.
Qed.

Lemma port_taken_spec r t :
  port_taken r t = true <-> exists s, s ∈ t /\ row_port_key s = row_port_key r /\ row_key s <> row_key r.
Proof.
  unfold port_taken. rewrite existsb_exists. split.
  - intros (s & Hs & [Hp Hk]%andb_true_iff). exists s. rewrite list_elem_of_In. split; [done|].
    apply bool_decide_eq_true in Hp. split; [done|]. intros Heq.
    apply negb_true_iff in Hk. by rewrite (proj2 (has_key_spec _ _) Heq) in Hk.
  - intros (s & Hs & Hp & Hk). exists s. rewrite <- list_elem_of_In. split; [done|].
    apply andb_true_iff. split; [by apply bool_decide_eq_true|].
    apply negb_true_iff, bool_decide_eq_false. done.
Qed.

Lemma port_taken_free r t :
  NoDup (row_key <$> t) -> (port_taken r t = false <-> spec_port_free r (to_map t)).
Proof.
  intros Hnd. rewrite <- not_true_iff_false, port_taken_spec. unfold spec_port_free. split.
  - intros Hno k s [Hs <-]%to_map_lookup Hk Hp; [|done]. apply Hno. by exists s.
  - intros Hfree (s & Hs & Hp & Hk). apply (Hfree (row_key s) s); [|done..].
    by apply to_map_lookup.
Qed.

Lemma update_port_keys k (new : row) t :
  NoDup (row_key <$> t) -> NoDup (row_port_key <$> t) -> row_key new = k ->
  port_taken new t = false ->
  NoDup (row_port_key <$> ((fun r => if has_key k r then new else r) <$> t)).
Proof.
  intros Hk Hp Hnew Hfree.
  assert (forall r, r ∈ t -> has_key k r = false -> row_port_key r <> row_port_key new) as Hother.
  { intros r Hr Hrk Heq. assert (port_taken new t = true) as Ht; [|congruence].
    apply port_taken_spec. exists r. rewrite Hnew. split_and!; [done..|].
    intros Habs%has_key_spec. congruence. }
  rewrite <- list_fmap_compose. apply NoDup_fmap_alt.
  rewrite NoDup_fmap_alt in Hk. rewrite NoDup_fmap_alt in Hp.
  intros i j x y Hi Hj. simpl.
  pose proof (list_elem_of_lookup_2 _ _ _ Hi) as Hx.
  pose proof (list_elem_of_lookup_2 _ _ _ Hj) as Hy.
  destruct (has_key k x) eqn:Hkx, (has_key k y) eqn:Hky; intros Heq.
  - apply has_key_spec in Hkx, Hky. apply (Hk i j x y); congruence.
  - by destruct (Hother y Hy Hky).
  - by destruct (Hother x Hx Hkx).
  - by apply (Hp i j x y).
Qed.

(** *** Each kind of statement implements its promise *)
Lemma update_refines k guard f t :
  (forall r, row_key (f r) = row_key r) -> (forall r, row_port_key (f r) = row_port_key r) ->
  table_ok t ->
  let '(t', n) := update_where (fun r => has_key k r && guard r) f t in
  table_ok t' /\ (to_map t', n) = spec_update k guard f (to_map t).
Proof.
  intros Hfk Hfp [Hk Hp]. unfold update_where.
  set (g := fun r => if has_key k r && guard r then f r else r).
  assert (forall r, row_key (g r) = row_key r) as Hgk.
  { intros r. unfold g. by destruct (_ && _). }
  assert (row_port_key <$> (g <$> t) = row_port_key <$> t) as Hport.
  { rewrite <- list_fmap_compose. apply list_fmap_ext. intros i r _. unfold g; simpl.
    by destruct (_ && _). }
  assert (select_where (fun r => has_key k r && guard r) t =
          select_where guard (select_where (has_key k) t)) as Hsel.
  { unfold select_where. clear. induction t as [|r t IH]; [done|]. rewrite !filter_cons, IH.
    destruct (has_key k r), (guard r) eqn:Hg; simpl; rewrite ?filter_cons, ?Hg; done. }
  split; [by split; [rewrite keys_fmap|rewrite Hport]|].
  rewrite Hsel, select_key by done. unfold spec_update.
  destruct (to_map t !! k) as [r|] eqn:Hr.
  - pose proof Hr as [Hin Hrk]%to_map_lookup; [|done]. unfold select_where. rewrite filter_cons.
    destruct (guard r) eqn:Hg; simpl; f_equal; apply map_eq; intros k'; rewrite to_map_fmap by done.
    + destruct (decide (k = k')) as [<-|Hne].
      * rewrite Hr, lookup_insert_eq. simpl. unfold g.
        by rewrite (proj2 (has_key_spec k r) Hrk), Hg.
      * rewrite lookup_insert_ne by done. destruct (to_map t !! k') as [s|] eqn:Hs; [|done].
        apply to_map_lookup in Hs as [_ Hsk]; [|done]. simpl. unfold g, has_key.
        by rewrite bool_decide_eq_false_2 by congruence.
    + destruct (to_map t !! k') as [s|] eqn:Hs; [|done]. simpl. unfold g.
      destruct (has_key k s) eqn:Hsk; [|done]. apply has_key_spec in Hsk.
      pose proof Hs as [_ Hsk']%to_map_lookup; [|done]. replace s with r by congruence.
      by rewrite Hg.
  - simpl. f_equal. apply map_eq. intros k'. rewrite to_map_fmap by done.
    destruct (to_map t !! k') as [s|] eqn:Hs; [|done]. simpl. unfold g.
    destruct (has_key k s) eqn:Hsk; [|done]. apply has_key_spec in Hsk.
    pose proof Hs as [_ Hsk']%to_map_lookup; [|done]. congruence.
Qed.

Lemma delete_refines k t :
  table_ok t ->
  let '(t', n) := delete_where (has_key k) t in
  table_ok t' /\ (to_map t', n) = spec_delete k (to_map t).
Proof.
  intros [Hk Hp]. unfold delete_where.
  assert (forall (A : Type) (h : row -> A), NoDup (h <$> t) ->
    NoDup (h <$> filter (fun r => has_key k r = false) t)) as Hsub.
  { intros A h Hnd. eapply sublist_NoDup; [exact Hnd|]. apply fmap_sublist, sublist_filter. }
  split; [split; by apply Hsub|]. rewrite select_key by done. unfold spec_delete.
  assert (forall k', to_map (filter (fun r => has_key k r = false) t) !! k' =
    if decide (k = k') then None else to_map t !! k') as Hlk.
  { intros k'. apply option_eq. intros r. rewrite to_map_lookup by by apply Hsub.
    rewrite list_elem_of_filter. unfold has_key. rewrite bool_decide_eq_false.
    destruct (decide (k = k')) as [<-|Hne]; [by naive_solver|].
    rewrite to_map_lookup by done. naive_solver. }
  destruct (to_map t !! k) eqn:Hr; simpl; f_equal; apply map_eq; intros k'; rewrite Hlk.
  - by rewrite lookup_delete.
  - case_decide; [by subst|done].
Qed.

Lemma upsert_merge_key old excl : row_key (upsert_merge old excl) = row_key old.
Proof. done. Qed.

(** The row of a key replaced by another with that key. *)
Lemma replace_row_refines k (old new : row) t :
  table_ok t -> to_map t !! k = Some old -> row_key new = k -> port_taken new t = false ->
  let t' := (fun r => if has_key k r then new else r) <$> t in
  table_ok t' /\ to_map t' = <[k := new]> (to_map t).
Proof.
  intros [Hk Hp] Hold Hnew Hfree. pose proof Hold as [Hin Hok]%to_map_lookup; [|done].
  assert (forall r, row_key (if has_key k r then new else r) = row_key r) as Hg.
  { intros r. destruct (has_key k r) eqn:Hr; [|done]. apply has_key_spec in Hr. congruence. }
  split; [split|].
  - by rewrite keys_fmap.
  - by apply update_port_keys.
  - apply map_eq. intros k'. rewrite to_map_fmap by done. destruct (decide (k = k')) as [<-|Hne].
    + rewrite Hold, lookup_insert_eq. simpl. by rewrite (proj2 (has_key_spec k old) Hok).
    + rewrite lookup_insert_ne by done. destruct (to_map t !! k') as [s|] eqn:Hs; [|done].
      apply to_map_lookup in Hs as [_ Hsk]; [|done]. simpl. unfold has_key.
      by rewrite bool_decide_eq_false_2 by congruence.
Qed.

(** A row with a new key added at the end. *)
Lemma append_row_refines (r0 : row) t :
  table_ok t -> to_map t !! row_key r0 = None -> port_taken r0 t = false ->
  table_ok (t ++ [r0]) /\ to_map (t ++ [r0]) = <[row_key r0 := r0]> (to_map t).
Proof.
  intros [Hk Hp] Hnone Hfree. pose proof (to_map_none t (row_key r0) Hk Hnone) as Habsent.
  assert (NoDup (row_key <$> (t ++ [r0]))) as Hk'.
  { rewrite fmap_app. apply NoDup_app. split; [done|]. split; [|apply NoDup_singleton].
    intros x (r & -> & Hr)%list_elem_of_fmap Hx%list_elem_of_singleton. by apply (Habsent r). }
  split; [split; [done|]|].
  - rewrite fmap_app. apply NoDup_app. split; [done|]. split; [|apply NoDup_singleton].
    intros x (r & -> & Hr)%list_elem_of_fmap Hx%list_elem_of_singleton.
    assert (port_taken r0 t = true) as Ht; [|congruence].
    apply port_taken_spec. exists r. split_and!; [done..|]. by apply (Habsent r).
  - apply map_eq. intros k'. apply option_eq. intros r. rewrite to_map_lookup by done.
    rewrite elem_of_app, list_elem_of_singleton. destruct (decide (row_key r0 = k')) as [<-|Hne].
    + rewrite lookup_insert_eq. split; [|naive_solver]. intros [[Hr| ->] Hrk]; [|done]. by destruct (Habsent r).
    + rewrite lookup_insert_ne, to_map_lookup by done. naive_solver.
Qed.

Lemma upsert_refines excl t :
  table_ok t ->
  match sql_upsert excl t with
  | Some (t', n) => table_ok t' /\ n = 1%Z /\ spec_port_free (spec_merged excl (to_map t)) (to_map t) /\
      to_map t' = <[row_key excl := spec_merged excl (to_map t)]> (to_map t)
  | None => ~ spec_port_free (spec_merged excl (to_map t)) (to_map t)
  end.
Proof.
  intros Hok. pose proof (proj1 Hok) as Hk. unfold sql_upsert, spec_merged. rewrite select_key by done.
  destruct (to_map t !! row_key excl) as [old|] eqn:Hold.
  - assert (row_key (upsert_merge old excl) = row_key excl) as Hnew.
    { rewrite upsert_merge_key. by apply to_map_lookup in Hold as [_ Hkey]. }
    destruct (port_taken (upsert_merge old excl) t) eqn:Htk.
    { intros Hfree%port_taken_free; [congruence|done]. }
    unfold update_where. rewrite select_key, Hold by done.
    destruct (replace_row_refines _ _ _ _ Hok Hold Hnew Htk) as [Hok' Hmap].
    split_and!; [apply Hok'..|done|by apply port_taken_free|done].
  - destruct (port_taken excl t) eqn:Htk.
    { intros Hfree%port_taken_free; [congruence|done]. }
    destruct (append_row_refines _ _ Hok Hold Htk) as [Hok' Hmap].
    split_and!; [apply Hok'..|done|by apply port_taken_free|done].
Qed.

(** ** Lemmas on the calls *)

(** The reasons for which the engine itself refuses an operation between two
    worlds: no connection, a table that lacks a column, or a call that failed
    in that time. *)
Definition db_ready (w : world) : Prop :=
  w_conn w = true /\ exists c, w_cols w = Some c /\ all_columns c = true.

Definition failed_between `{E : Env} (w w' : world) : Prop :=
  exists t, w_tick w <= t < w_tick w' /\ env_ok t = false.

Definition sql_fault `{E : Env} (w w' : world) : Prop := ~ db_ready w \/ failed_between w w'.

Lemma failed_between_wider `{E : Env} w0 w w' w1 :
  later w0 w -> later w' w1 -> failed_between w w' -> failed_between w0 w1.
Proof. unfold later. intros H0 H1 (t & Ht & Hf). exists t. split; [lia|done]. Qed.

Lemma same_schema_ready w w' : same_schema w w' -> db_ready w -> db_ready w'.
Proof. intros [Hc Hcols] (H1 & H2). unfold db_ready. by rewrite Hc, Hcols. Qed.

(** A fault of a part is one of the whole. *)
Lemma sql_fault_wider `{E : Env} w0 w w' w1 :
  same_schema w0 w -> later w0 w -> later w' w1 -> sql_fault w w' -> sql_fault w0 w1.
Proof.
  intros Hs H0 H1 [Hn|Hf]; [left|right; by eapply failed_between_wider].
  intros Hr. by apply Hn, (same_schema_ready w0).
Qed.

Lemma calm_fault `{E : Env} w w' w1 : calm w w' -> sql_fault w' w1 -> sql_fault w w1.
Proof. intros Hc. apply sql_fault_wider; [by apply (calm_respects _ _ _ Hc)..|done]. Qed.

Lemma calm_failed `{E : Env} w w' w1 : calm w w' -> failed_between w' w1 -> failed_between w w1.
Proof. intros Hc. apply failed_between_wider; [by apply (calm_respects _ _ _ Hc)|done]. Qed.

Lemma failed_here `{E : Env} w w' : w_tick w < w_tick w' -> env_ok (w_tick w) = false -> failed_between w w'.
Proof. intros Ht Hf. by exists (w_tick w). Qed.

Lemma call_failed `{E : Env} w w' : w_tick w < w_tick w' -> env_ok (w_tick w) = false -> sql_fault w w'.
Proof. intros Ht Hf. right. by apply failed_here. Qed.

Section CallLemmas.
Context `{E : Env} {L : Type}.
Implicit Types (QE : Z -> L -> world -> Prop) (l : L) (w : world).

Lemma wpx_sqlite_try QE (Q : unit -> L -> world -> Prop) l w :
  (forall w', calm w w' -> sql_fault w w' -> QE (-1)%Z l w') -> (forall w', calm w w' -> Q tt l w') ->
  wpx sqlite_try QE Q l w.
Proof.
  intros HE HQ. apply wpx_bind, wpx_lift, wp_succeeds. intros w' Hw' Ht.
  destruct (env_ok _) eqn:Hok; [by apply wpx_ret, HQ|].
  by apply wpx_fail, HE, call_failed.
Qed.

Lemma wpx_sqlite_prepare QE (Q : unit -> L -> world -> Prop) l w :
  (forall w', calm w w' -> sql_fault w w' -> QE (-1)%Z l w') -> (forall w', calm w w' -> Q tt l w') ->
  wpx sqlite_prepare QE Q l w.
Proof.
  intros HE HQ. apply wpx_bind, wpx_lift, wp_succeeds. intros w' Hw' Ht.
  apply wpx_bind, wpx_lift, wp_reads.
  pose proof (calm_fields _ _ Hw') as (_ & _ & Hcols & _). rewrite Hcols.
  destruct (w_cols w) as [c|] eqn:Hc.
  - destruct (env_ok _) eqn:Hok, (all_columns c) eqn:Hall; simpl; [by apply wpx_ret, HQ|..];
      apply wpx_fail, HE; try done; [left|by apply call_failed..].
    intros (_ & c' & Hc' & Hall'). congruence.
  - apply wpx_fail, HE; [done|]. left. intros (_ & c' & Hc' & _). congruence.
Qed.

Lemma wpx_sqlite_binds n QE (Q : unit -> L -> world -> Prop) l w :
  (forall w', calm w w' -> sql_fault w w' -> QE (-1)%Z l w') -> (forall w', calm w w' -> Q tt l w') ->
  wpx (sqlite_binds n) QE Q l w.
Proof.
  revert w. induction n as [|n IH]; intros w HE HQ; cbn [sqlite_binds].
  - apply wpx_ret, HQ. reflexivity.
  - apply wpx_bind, wpx_sqlite_try; [done|]. intros w1 H1.
    apply IH; intros w2 H2; [intros Hf; apply HE; [by transitivity w1|by apply (calm_fault _ w1)]|].
    apply HQ. by transitivity w1.
Qed.

Lemma wpx_require_conn QE (Q : unit -> L -> world -> Prop) l w :
  (sql_fault w w -> QE (-1)%Z l w) -> (w_conn w = true -> Q tt l w) -> wpx require_conn QE Q l w.
Proof.
  intros HE HQ. apply wpx_bind, wpx_lift, wp_reads.
  destruct (w_conn w) eqn:Hc; [by apply wpx_ret, HQ|]. apply wpx_fail, HE. left.
  intros (Hc' & _). congruence.
Qed.

Lemma wpx_sqlite_step name stmt QE (Q : unit -> L -> world -> Prop) l w :
  (forall w', calm w w' -> sql_fault w w' \/ stmt (w_rows w) = None -> QE (-1)%Z l w') ->
  (forall w' rows n, calm w w' -> stmt (w_rows w) = Some (rows, n) ->
     Q tt l (set_w_trace (EvSql name :: w_trace w) (set_w_rows rows (set_w_changes n w')))) ->
  wpx (sqlite_step name stmt) QE Q l w.
Proof.
  intros HE HQ. apply wpx_bind, wpx_lift, wp_succeeds. intros w' Hw' Ht.
  apply wpx_bind, wpx_lift, wp_reads.
  pose proof (calm_fields _ _ Hw') as (Htr & _ & _ & Hrows & _). rewrite Hrows.
  destruct (env_ok _) eqn:Hok; cbn [negb].
  - destruct (stmt (w_rows w)) as [[rows n]|] eqn:Hst; [|apply wpx_fail, HE; by auto].
    apply wpx_bind, wpx_lift, wp_modify, wpx_lift, wp_emit. simpl. rewrite Htr. by apply HQ.
  - apply wpx_fail, HE; [done|]. left. by apply call_failed.
Qed.

(** The calls that come before the step of a statement with [n] parameters. *)
Lemma wpx_prepare_binds {A} n (m : X L A) QE Q l w :
  (forall w', calm w w' -> sql_fault w w' -> QE (-1)%Z l w') ->
  (forall w', calm w w' -> wpx m QE Q l w') ->
  wpx (sqlite_prepare;; sqlite_binds n;; m) QE Q l w.
Proof.
  intros HE HQ. apply wpx_bind, wpx_sqlite_prepare; [done|]. intros w1 H1.
  apply wpx_bind, wpx_sqlite_binds; intros w2 H2.
  - intros Hf. apply HE; [by transitivity w1|by eapply calm_fault].
  - apply HQ. by transitivity w1.
Qed.

(** *** What relations the calls respect *)
Context (R : relation world) `{!Silent R}.

#[export] Instance respects_sqlite_try : RespectsX R (sqlite_try (L := L)).
Proof. unfold sqlite_try. apply _. Qed.
#[export] Instance respects_sqlite_prepare : RespectsX R (sqlite_prepare (L := L)).
Proof. unfold sqlite_prepare. apply _. Qed.
#[export] Instance respects_require_conn : RespectsX R (require_conn (L := L)).
Proof. unfold require_conn. apply _. Qed.
#[export] Instance respects_require_one_change : RespectsX R (require_one_change (L := L)).
Proof. unfold require_one_change. apply _. Qed.
#[export] Instance respects_sqlite_binds n : RespectsX R (sqlite_binds (L := L) n).
Proof. induction n; simpl; apply _. Qed.

#[export] Instance respects_sqlite_step name stmt :
  DbSilent R -> Allows R (EvSql name) -> RespectsX R (sqlite_step (L := L) name stmt).
Proof.
  intros HD HA. unfold sqlite_step.
  assert (forall rows n, Respects R (modify (fun w => set_w_rows rows (set_w_changes n w)))) as Hm.
  { intros rows n w a w' [= <- <-]. apply db_silent_rows. }
  apply _.
Qed.
End CallLemmas.

(** ** What each operation does to the map *)
Section OperationLemmas.
Context `{E : Env}.
Implicit Types (k : key) (w : world).

Lemma update_where_none P f t : select_where P t = [] -> (update_where P f t).1 = t.
Proof.
  unfold update_where, select_where. cbn [fst]. induction t as [|r t IH]; [done|].
  rewrite filter_cons, fmap_cons. destruct (P r) eqn:Hr; cbn; [done|].
  intros Ht. f_equal. by apply IH.
Qed.

(** The outcome of an update of the row with key [k] that must change one row:
    either it did, or nothing changed because the engine failed or no such row
    satisfies the guard. *)
Definition update_post (k : key) (guard : row -> bool) (f : row -> row) (w : world) (rc : Z) (w' : world) : Prop :=
  table_ok (w_rows w') /\
  ((rc = 0%Z /\ exists r, store w !! k = Some r /\ guard r = true /\ store w' = <[k := f r]> (store w)) \/
   (rc = (-1)%Z /\ w_rows w' = w_rows w /\
      (sql_fault w w' \/ forall r, store w !! k = Some r -> guard r = false))).

Lemma update_fault k guard f w w' :
  table_ok (w_rows w) -> calm w w' -> sql_fault w w' -> update_post k guard f w (-1)%Z w'.
Proof.
  intros Hok (_ & _ & _ & Hr & _)%calm_fields Hf. unfold update_post. rewrite Hr.
  split; [done|]. right. split_and!; auto.
Qed.

Lemma update_where_ext P P' f f' t :
  (forall r, P r = P' r) -> (forall r, f r = f' r) -> update_where P f t = update_where P' f' t.
Proof.
  intros HP Hf. unfold update_where, select_where. f_equal.
  - apply list_fmap_ext. intros i r _. by rewrite HP, Hf.
  - do 2 f_equal. apply list_filter_iff. intros r. by rewrite HP.
Qed.

Lemma guarded_update_spec k guard f n name P w :
  (forall r, P r = has_key k r && guard r) ->
  (forall r, row_key (f r) = row_key r) -> (forall r, row_port_key (f r) = row_port_key r) ->
  table_ok (w_rows w) ->
  wpx (sqlite_prepare;; sqlite_binds n;;
       sqlite_step name (fun t => Some (update_where P f t));; require_one_change)
    (fun e _ => update_post k guard f w e) (fun _ _ => update_post k guard f w 0%Z) tt w.
Proof.
  intros HP Hfk Hfp Hok. apply wpx_prepare_binds.
  { intros w1 H1 Hf. by apply update_fault. }
  intros w2 H2. apply wpx_bind, wpx_sqlite_step.
  { intros w3 H3 [Hf|[=]]. apply update_fault; [done|by transitivity w2|by eapply calm_fault]. }
  intros w3 rows c H3 Hst. pose proof (calm_fields _ _ H2) as (_ & _ & _ & Hr2 & _).
  assert (update_where P f (w_rows w) = (rows, c)) as Hup by (rewrite <- Hr2; congruence). clear Hst.
  pose proof (update_refines k guard f (w_rows w) Hfk Hfp Hok) as Href.
  rewrite <- (update_where_ext P _ f f _ HP (fun _ => eq_refl)), Hup in Href.
  destruct Href as [Hok' Hspec].
  apply wpx_bind, wpx_lift, wp_reads. cbn. unfold spec_update in Hspec.
  assert (c = 0%Z -> rows = w_rows w) as Hsame.
  { intros ->. replace rows with (update_where P f (w_rows w)).1 by by rewrite Hup.
    apply update_where_none. unfold update_where in Hup. injection Hup as _ Hlen.
    by destruct (select_where P (w_rows w)). }
  destruct (store w !! k) as [r|] eqn:Hk; [destruct (guard r) eqn:Hg|]; injection Hspec as Hm ->.
  - apply wpx_ret. split; [done|]. left. split; [done|]. by exists r.
  - apply wpx_fail. split; [done|]. right. split_and!; [done|by apply Hsame|].
    right. intros r' Hr'. congruence.
  - apply wpx_fail. split; [done|]. right. split_and!; [done|by apply Hsame|].
    right. intros r' Hr'. congruence.
Qed.

(** Every update operation is [require_conn] and such a block. *)
Lemma update_op_spec k guard f n name P w :
  (forall r, P r = has_key k r && guard r) ->
  (forall r, row_key (f r) = row_key r) -> (forall r, row_port_key (f r) = row_port_key r) ->
  table_ok (w_rows w) ->
  wp (run (require_conn;; sqlite_prepare;; sqlite_binds n;;
       sqlite_step name (fun t => Some (update_where P f t));; require_one_change))
    (update_post k guard f w) w.
Proof.
  intros HP Hfk Hfp Hok. apply wp_run, wpx_bind, wpx_require_conn.
  - intros Hf. by apply update_fault.
  - intros _. by apply guarded_update_spec.
Qed.

Definition always (r : row) : bool := true.

Lemma update_applied_spec k ts w :
  table_ok (w_rows w) ->
  wp (tumgrd_db_update_applied k ts) (update_post k always (set_c_last_applied_at (Some ts)) w) w.
Proof. apply update_op_spec; try done. intros r. by rewrite andb_true_r. Qed.

Lemma begin_rotation_spec k key' st now w :
  table_ok (w_rows w) ->
  wp (tumgrd_db_begin_rotation k key' st now) (update_post k (rotation_is 0) (set_rotation key' st now) w) w.
Proof. by apply update_op_spec. Qed.

(** [SET rotation_state = 0, xor_key_pending = '', last_applied_at = ?] *)
Definition complete_row (ts : Z) (r : row) : row :=
  set_c_rotation_state (Some 0%Z) (set_c_xor_key_pending (Some []) (set_c_last_applied_at (Some ts) r)).

Lemma complete_rotation_spec k ts w :
  table_ok (w_rows w) ->
  wp (tumgrd_db_complete_rotation k ts) (update_post k rotation_not_zero (complete_row ts) w) w.
Proof. by apply update_op_spec. Qed.

Lemma replace_rotation_spec k key' now w :
  table_ok (w_rows w) ->
  wp (tumgrd_db_replace_rotation k key' now)
     (update_post k always (set_rotation key' TUMGRD_ROTATION_PENDING_REMOTE now) w) w.
Proof. apply update_op_spec; try done. intros r. by rewrite andb_true_r. Qed.

Definition clear_row (r : row) : row := set_c_rotation_state (Some 0%Z) (set_c_xor_key_pending (Some []) r).

Lemma clear_rotation_spec k w :
  table_ok (w_rows w) ->
  wp (tumgrd_db_clear_rotation k) (update_post k always clear_row w) w.
Proof. apply update_op_spec; try done. intros r. by rewrite andb_true_r. Qed.

Definition is_pending_state (s : Z) : bool :=
  (s =? TUMGRD_ROTATION_PENDING_REMOTE)%Z || (s =? TUMGRD_ROTATION_PENDING_LOCAL_RECOVERY)%Z.

Lemma update_rotation_state_spec k s w :
  table_ok (w_rows w) ->
  wp (tumgrd_db_update_rotation_state k s)
     (update_post k (fun r => rotation_pending r && is_pending_state s) (set_c_rotation_state (Some s)) w) w.
Proof.
  intros Hok. apply wp_run, wpx_bind, wpx_require_conn; [intros Hf; by apply update_fault|].
  intros _. unfold is_pending_state. rewrite <- negb_orb.
  destruct (_ || _) eqn:Hs; cbn [negb]; apply wpx_bind.
  - apply wpx_ret. cbv beta.
    apply (guarded_update_spec k (fun r => rotation_pending r && true)); try done.
    intros r. by rewrite andb_true_r.
  - apply wpx_fail. split; [done|]. right. split_and!; [done..|].
    right. intros r _. apply andb_false_r.
Qed.

(** [SET current_ip = ?, status = ?, last_updated = ?] *)
Definition runtime_row (ip : option cstr) (st : cstr) (ts : Z) (r : row) : row :=
  set_c_current_ip (bind_text_or_null (nonempty_or_null ip))
    (set_c_status (Some st) (set_c_last_updated (Some ts) r)).

(** An update that need not find its row. *)
Definition alter_post (k : key) (f : row -> row) (w : world) (rc : Z) (w' : world) : Prop :=
  table_ok (w_rows w') /\
  ((rc = 0%Z /\ store w' = alter f k (store w)) \/
   (rc = (-1)%Z /\ w_rows w' = w_rows w /\ sql_fault w w')).

Lemma spec_update_always k f m : (spec_update k always f m).1 = alter f k m.
Proof.
  unfold spec_update, always. destruct (m !! k) as [r|] eqn:Hk; simpl.
  - apply map_eq. intros k'. destruct (decide (k = k')) as [<-|Hne].
    + by rewrite lookup_insert_eq, lookup_alter_eq, Hk.
    + by rewrite lookup_insert_ne, lookup_alter_ne.
  - apply map_eq. intros k'. destruct (decide (k = k')) as [<-|Hne].
    + by rewrite lookup_alter_eq, Hk.
    + by rewrite lookup_alter_ne.
Qed.

Lemma update_runtime_spec k ip st ts w :
  table_ok (w_rows w) ->
  wp (tumgrd_db_update_runtime k ip st ts) (alter_post k (runtime_row ip st ts) w) w.
Proof.
  intros Hok.
  assert (forall w', calm w w' -> sql_fault w w' -> alter_post k (runtime_row ip st ts) w (-1)%Z w') as Herr.
  { intros w' (_ & _ & _ & Hr & _)%calm_fields Hf. unfold alter_post. rewrite Hr.
    split; [done|]. by right. }
  apply wp_run, wpx_bind, wpx_require_conn; [by apply Herr|]. intros _.
  apply wpx_prepare_binds; [done|]. intros w2 H2. apply wpx_sqlite_step.
  { intros w3 H3 [Hf|[=]]. apply Herr; [by transitivity w2|by eapply calm_fault]. }
  intros w3 rows c H3 Hst. pose proof (calm_fields _ _ H2) as (_ & _ & _ & Hr2 & _).
  pose proof (update_refines k always (runtime_row ip st ts) (w_rows w)
    (fun _ => eq_refl) (fun _ => eq_refl) Hok) as Href.
  rewrite (update_where_ext _ (has_key k) _ (runtime_row ip st ts)) in Href;
    [|intros r; apply andb_true_r|done].
  rewrite Hr2 in Hst. change (Some (update_where (has_key k) (runtime_row ip st ts) (w_rows w)) = Some (rows, c)) in Hst.
  replace (update_where (has_key k) (runtime_row ip st ts) (w_rows w)) with (rows, c) in Href by congruence.
  destruct Href as [Hok' Hspec]. split; [done|]. left. split; [done|]. cbn.
  by rewrite <- spec_update_always, <- Hspec.
Qed.

End OperationLemmas.

(** ** Rows and nodes *)

(** The node with its defaults, when the two clock readings are [t1] and [t2]. *)
Definition filled (t1 t2 : Z) (n : node) : node :=
  let n1 := if (created_at n =? 0)%Z then set_created_at t1 n else n in
  let n2 := if (last_updated n1 =? 0)%Z then set_last_updated t2 n1 else n1 in
  let n3 := match ip_check_url n2 with [] => set_ip_check_url TUMGRD_DEFAULT_IP_CHECK_URL n2 | _ => n2 end in
  match status n3 with [] => set_status TUMGRD_STATUS_ACTIVE n3 | _ => n3 end.

Section RowLemmas.
Context `{E : Env}.

Lemma wp_node_defaults n w :
  wp (node_defaults n) (fun n' w' => calm w w' /\ exists t1 t2, n' = filled t1 t2 n) w.
Proof.
  unfold node_defaults, filled. apply wp_bind.
  destruct (created_at n =? 0)%Z.
  - apply wp_bind, wp_time. intros w1 H1. apply wp_ret, wp_bind. set (t1 := env_time _).
    destruct (last_updated (set_created_at t1 n) =? 0)%Z eqn:Hl.
    + apply wp_bind, wp_time. intros w2 H2. apply wp_ret, wp_ret. split; [by transitivity w1|].
      exists t1. eexists. rewrite Hl. reflexivity.
    + apply wp_ret, wp_ret. split; [done|]. exists t1, 0%Z. rewrite Hl. reflexivity.
  - apply wp_ret, wp_bind. destruct (last_updated n =? 0)%Z.
    + apply wp_bind, wp_time. intros w2 H2. apply wp_ret, wp_ret. split; [done|].
      exists 0%Z. eexists. reflexivity.
    + apply wp_ret, wp_ret. split; [reflexivity|]. exists 0%Z, 0%Z. reflexivity.
Qed.

Lemma filled_key t1 t2 n : node_key (filled t1 t2 n) = node_key n.
Proof.
  unfold filled. cbv zeta. destruct (created_at n =? 0)%Z; cbn.
  all: destruct (last_updated _ =? 0)%Z; cbn; destruct (ip_check_url _); cbn; by destruct (status n).
Qed.

Lemma row_of_node_key n sl : row_key (row_of_node n sl) = node_key n.
Proof. done. Qed.

Lemma column_text_fits v n : 0 < n -> text_fits n (column_text v n).
Proof.
  intros Hn. unfold column_text, copy_string, text_fits. destruct v as [s|]; [|by split; [constructor|]].
  destruct n as [|n]; [lia|]. split.
  - apply Forall_take, upto_nul_nonul.
  - rewrite length_take. lia.
Qed.

Lemma column_text_id v n : text_fits n v -> column_text (Some v) n = v.
Proof. intros [Hv Hl]. by apply copy_string_id. Qed.

Lemma column_text_null v n : text_fits n v -> column_text (bind_text_or_null (nonempty_or_null (Some v))) n = v.
Proof. intros Hv. destruct v as [|c v]; [done|]. by apply column_text_id. Qed.

Lemma column_int_fits v : int_fits (column_int v).
Proof. unfold column_int, int_fits. pose proof (wrap_s_range 32 (default 0%Z v)). lia. Qed.

Lemma column_int_id z : int_fits z -> column_int (Some z) = z.
Proof. intros Hz. apply wrap_s_id; [lia|exact Hz]. Qed.

(** What reading a row gives, for the clock reading [now]. *)
Definition read_row (now : Z) (r : row) : node :=
  mkNode (column_text (Some (c_uid r)) SZ_UID) (column_text (c_description r) SZ_TEXT)
    (column_text (c_client_comment r) SZ_TEXT) (column_int64 (c_created_at r))
    (column_text (Some (c_server_host r)) SZ_TEXT) (column_int (Some (c_server_port r)))
    (column_text (Some (c_psk r)) SZ_TEXT) (column_int (Some (c_client_port r)))
    (match c_memlimit r with Some _ => 1%Z | None => 0%Z end)
    (match c_memlimit r with Some m => column_int (Some m) | None => 0%Z end)
    (column_text (c_ip_check_url r) SZ_TEXT) (column_text (Some (c_ip_version r)) SZ_IP_VERSION)
    (column_text (c_current_ip r) SZ_CURRENT_IP) (column_int64 (c_last_updated r))
    (column_text (c_status r) SZ_STATUS) (column_text (c_xor_key r) SZ_XOR_KEY)
    (let l := column_int64 (c_lifetime r) in
     if decide (l = 0 \/ TUMGRD_LIFETIME_MIN <= l <= TUMGRD_LIFETIME_MAX)%Z then l else 0%Z)
    (let a := column_int64 (c_last_applied_at r) in
     if decide (a < 0)%Z then 0%Z else if decide (now + 86400 < a)%Z then 1%Z else a)
    (column_int (c_rotation_state r)) (column_text (c_xor_key_pending r) SZ_XOR_KEY).

Lemma wp_row_to_node r w :
  wp (row_to_node r) (fun n w' => calm w w' /\ exists t, n = read_row (env_time t) r) w.
Proof.
  unfold row_to_node, read_row.
  assert (forall l, (if negb (l =? 0)%Z && ((l <? TUMGRD_LIFETIME_MIN)%Z || (TUMGRD_LIFETIME_MAX <? l)%Z) then 0%Z else l)
    = if decide (l = 0 \/ TUMGRD_LIFETIME_MIN <= l <= TUMGRD_LIFETIME_MAX)%Z then l else 0%Z) as Hl.
  { intros l. destruct (Z.eqb_spec l 0), (Z.ltb_spec l TUMGRD_LIFETIME_MIN), (Z.ltb_spec TUMGRD_LIFETIME_MAX l);
      simpl; case_decide; lia. }
  cbv zeta. rewrite Hl. apply wp_bind.
  destruct (Z.ltb_spec (column_int64 (c_last_applied_at r)) 0).
  - apply wp_ret, wp_ret. split; [reflexivity|]. exists 0. by rewrite (decide_True _ _ H).
  - apply wp_bind, wp_time. intros w' Hw'. apply wp_ret, wp_ret. split; [done|].
    exists (w_tick w). rewrite (decide_False (P := (_ < 0)%Z)) by lia. f_equal.
    destruct (Z.ltb_spec (env_time (w_tick w) + 86400) (column_int64 (c_last_applied_at r)));
      case_decide; lia.
Qed.

Lemma read_row_fits now r : (0 <= now)%Z -> node_fits (read_row now r).
Proof.
  intros Hnow.
  split; cbn -[column_text column_int TUMGRD_LIFETIME_MIN TUMGRD_LIFETIME_MAX];
    try (apply column_text_fits; unfold SZ_UID, SZ_TEXT, SZ_IP_VERSION, SZ_CURRENT_IP, SZ_STATUS, SZ_XOR_KEY; lia);
    try apply column_int_fits.
  - destruct (c_memlimit r); [apply column_int_fits|unfold int_fits; lia].
  - destruct (c_memlimit r); auto.
  - case_decide; auto.
  - repeat case_decide; lia.
Qed.

End RowLemmas.

(** ** Upsert, delete, get, list *)
Section NodeOperations.
Context `{E : Env}.

(** Either the merged row is stored, or nothing changed because the engine
    failed or another node has the client port. *)
Definition upsert_post (n : node) (sl : bool) (w : world) (rc : Z) (w' : world) : Prop :=
  table_ok (w_rows w') /\ exists t1 t2,
    let r := spec_merged (row_of_node (filled t1 t2 n) sl) (store w) in
    (rc = 0%Z /\ spec_port_free r (store w) /\ store w' = <[node_key n := r]> (store w)) \/
    (rc = (-1)%Z /\ w_rows w' = w_rows w /\ (sql_fault w w' \/ ~ spec_port_free r (store w))).

Lemma upsert_spec n sl w :
  table_ok (w_rows w) -> wp (tumgrd_db_upsert_node n sl) (upsert_post n sl w) w.
Proof.
  intros Hok. apply wp_run, wpx_bind.
  assert (forall w', calm w w' -> sql_fault w w' -> upsert_post n sl w (-1)%Z w') as Herr.
  { intros w' (_ & _ & _ & Hr & _)%calm_fields Hf. unfold upsert_post. rewrite Hr.
    split; [done|]. exists 0%Z, 0%Z. right. auto. }
  apply wpx_require_conn; [by apply Herr|]. intros _.
  apply wpx_bind, wpx_lift. eapply wp_mono; [apply wp_node_defaults|].
  intros n' w1 (H1 & t1 & t2 & ->). apply wpx_prepare_binds.
  { intros w2 H2 Hf. apply Herr; [by transitivity w1|by eapply calm_fault]. }
  intros w2 H2. assert (calm w w2) as H02 by by transitivity w1. clear H1 H2.
  pose proof (calm_fields _ _ H02) as (_ & _ & _ & Hr2 & _).
  pose proof (upsert_refines (row_of_node (filled t1 t2 n) sl) (w_rows w) Hok) as Href.
  assert (row_key (row_of_node (filled t1 t2 n) sl) = node_key n) as Hkey
    by by rewrite row_of_node_key, filled_key.
  rewrite Hkey in Href. apply wpx_sqlite_step.
  - intros w3 H3 Hwhy. pose proof (calm_fields _ _ H3) as (_ & _ & _ & Hr3 & _).
    unfold upsert_post. rewrite Hr3, Hr2. split; [done|]. exists t1, t2. right.
    split_and!; [done..|]. destruct Hwhy as [Hf|Hnone]; [left; by eapply calm_fault|right].
    rewrite Hr2 in Hnone. by rewrite Hnone in Href.
  - intros w3 rows c H3 Hst. rewrite Hr2 in Hst. rewrite Hst in Href.
    destruct Href as (Hok' & -> & Hfree & Hmap). split; [done|]. exists t1, t2. by left.
Qed.

Lemma delete_spec k w :
  table_ok (w_rows w) ->
  wp (tumgrd_db_delete_node k) (fun rc w' => table_ok (w_rows w') /\
    ((rc = 0%Z /\ is_Some (store w !! k) /\ store w' = delete k (store w)) \/
     (rc = 1%Z /\ store w !! k = None /\ store w' = store w) \/
     (rc = (-1)%Z /\ w_rows w' = w_rows w /\ sql_fault w w'))) w.
Proof.
  intros Hok. set (Q := fun rc w' => _).
  assert (forall w', calm w w' -> sql_fault w w' -> Q (-1)%Z w') as Herr.
  { intros w' (_ & _ & _ & Hr & _)%calm_fields Hf. unfold Q. rewrite Hr.
    split; [done|]. by right; right. }
  apply wp_run, wpx_bind, wpx_require_conn; [by apply Herr|]. intros _.
  apply wpx_prepare_binds; [done|]. intros w2 H2. apply wpx_bind, wpx_sqlite_step.
  { intros w3 H3 [Hf|[=]]. apply Herr; [by transitivity w2|by eapply calm_fault]. }
  intros w3 rows c H3 Hst. pose proof (calm_fields _ _ H2) as (_ & _ & _ & Hr2 & _).
  pose proof (delete_refines k (w_rows w) Hok) as Href.
  rewrite Hr2 in Hst. replace (delete_where (has_key k) (w_rows w)) with (rows, c) in Href by congruence.
  destruct Href as [Hok' Hspec]. unfold spec_delete in Hspec.
  apply wpx_bind, wpx_lift, wp_reads. cbn.
  destruct (store w !! k) as [r|] eqn:Hk; injection Hspec as Hm ->.
  - apply wpx_ret. split; [done|]. left. by split_and!; [|eexists|].
  - apply wpx_fail. split; [done|]. right. by left.
Qed.

Lemma get_spec k out w :
  table_ok (w_rows w) ->
  wp (tumgrd_db_get_node k out) (fun r w' => calm w w' /\
    ((r.1 = 0%Z /\ exists row t, store w !! k = Some row /\ r.2 = read_row (env_time t) row) \/
     (r.1 = 1%Z /\ r.2 = out /\ store w !! k = None) \/
     (r.1 = (-1)%Z /\ r.2 = out /\ sql_fault w w'))) w.
Proof.
  intros [Hk _]. unfold tumgrd_db_get_node. set (Q := fun r w' => _).
  assert (forall w', calm w w' -> sql_fault w w' -> Q ((-1)%Z, out) w') as Herr.
  { intros w' Hw' Hf. split; [done|]. by right; right. }
  apply wp_bind.
  apply wp_wpx. cbn [fst snd].
  apply wpx_bind, wpx_require_conn; [by apply Herr|]. intros _.
  apply wpx_prepare_binds; [done|]. intros w2 H2.
  apply wpx_bind, wpx_lift, wp_succeeds. intros w3 H3 Ht.
  assert (calm w w3) as H03 by by transitivity w2.
  apply wpx_bind, wpx_lift, wp_reads. pose proof (calm_fields _ _ H03) as (_ & _ & _ & -> & _).
  destruct (env_ok _) eqn:Hok; cbn [negb].
  - rewrite select_key by done. destruct (store w !! k) as [row|] eqn:Hrow.
    + apply wpx_bind, wpx_lift. eapply wp_mono; [apply wp_row_to_node|].
      intros n w4 (H4 & t & ->). apply wpx_assign. split; [by transitivity w3|]. left.
      split; [done|]. by exists row, t.
    + apply wpx_fail. split; [done|]. right. by left.
  - apply wpx_fail, Herr; [done|]. by apply (calm_fault _ w2), call_failed.
Qed.

(** The reading of each row with its own clock reading, in order. *)
Definition read_rows (rows : list row) (nodes : list node) : Prop :=
  Forall2 (fun r n => exists t, n = read_row (env_time t) r) rows nodes.

(** The two exits of the loop, seen from an earlier world. *)
Lemma wpx_list_earlier w w1 (m : X unit (list node)) (P : list node -> Prop) l :
  calm w w1 ->
  wpx m (fun e _ w' => calm w1 w' /\ (e < 0)%Z /\ failed_between w1 w') (fun nodes _ w' => calm w1 w' /\ P nodes) l w1 ->
  wpx m (fun e _ w' => calm w w' /\ (e < 0)%Z /\ failed_between w w') (fun nodes _ w' => calm w w' /\ P nodes) l w1.
Proof.
  intros Hc Hm. eapply wpx_mono; [exact Hm|..].
  - intros e l' w' (H & He & Hf). split_and!; [by transitivity w1|done|by eapply calm_failed].
  - intros nodes l' w' (H & HP). split; [by transitivity w1|done].
Qed.

Lemma list_loop_spec rows cap acc w :
  wpx (list_loop rows cap acc)
    (fun e _ w' => calm w w' /\ (e < 0)%Z /\ failed_between w w')
    (fun nodes _ w' => calm w w' /\ exists l, nodes = acc ++ l /\ read_rows rows l) tt w.
Proof.
  revert cap acc w. induction rows as [|row rows IH]; intros cap acc w; cbn [list_loop];
    apply wpx_bind, wpx_bind, wpx_lift, wp_succeeds; intros w1 H1 Ht;
    (destruct (env_ok (w_tick w)) eqn:Hok; [apply wpx_ret|apply wpx_fail; by split_and!; [..|apply failed_here]]).
  - apply wpx_ret. split; [done|]. exists []. rewrite app_nil_r. by split; [|constructor].
  - apply (wpx_list_earlier w w1); [done|].
    assert (forall cap' w2, calm w1 w2 -> wpx (n ← lift (row_to_node row); list_loop rows cap' (acc ++ [n]))
      (fun e _ w' => calm w1 w' /\ (e < 0)%Z /\ failed_between w1 w')
      (fun nodes _ w' => calm w1 w' /\ exists l, nodes = acc ++ l /\ read_rows (row :: rows) l) tt w2) as Hrest.
    { intros cap' w2 H2. apply wpx_bind, wpx_lift. eapply wp_mono; [apply wp_row_to_node|].
      intros n w3 (H3 & t & ->). apply (wpx_list_earlier w1 w3); [by transitivity w2|].
      eapply wpx_mono; [apply IH|done|].
      intros nodes l w4 (H4 & l' & -> & Hl). split; [done|].
      eexists. rewrite <- app_assoc. split; [reflexivity|]. constructor; [by eexists|done]. }
    apply wpx_bind. destruct (decide (length acc = cap)) as [Hcap|Hcap]; [|by apply wpx_ret, Hrest].
    apply wpx_bind, wpx_bind, wpx_lift, wp_succeeds. intros w2 H2 Ht2.
    destruct (env_ok (w_tick w1)) eqn:Hok2; [by apply wpx_ret, wpx_ret, Hrest|].
    apply wpx_fail. by split_and!; [..|apply failed_here].
Qed.

Lemma list_spec w :
  wp tumgrd_db_list_nodes (fun r w' => calm w w' /\
    ((r.1 = 0%Z /\ read_rows (select_ordered (w_rows w)) r.2) \/
     (r.1 < 0 /\ r.2 = [] /\ sql_fault w w')%Z)) w.
Proof.
  unfold tumgrd_db_list_nodes. set (Q := fun r w' => _). apply wp_bind.
  apply wp_wpx. cbn [fst snd].
  assert (forall w', calm w w' -> sql_fault w w' -> Q ((-1)%Z, []) w') as Herr.
  { intros w' Hw' Hf. split; [done|]. by right. }
  apply wpx_bind, wpx_require_conn; [by apply Herr|]. intros _.
  apply wpx_bind, wpx_sqlite_prepare; [done|]. intros w1 H1.
  apply wpx_bind, wpx_lift, wp_reads. pose proof (calm_fields _ _ H1) as (_ & _ & _ & -> & _).
  eapply wpx_mono; [apply list_loop_spec|..].
  - intros e l w' (H2 & He & Hf). split; [by transitivity w1|]. right. split_and!; [done..|].
    right. by eapply calm_failed.
  - intros ns l w' (H2 & l' & -> & Hl). split; [by transitivity w1|]. by left.
Qed.

(** *** The order of the list *)
Lemma text_cmp_spec a b : CompareSpec (a = b) (text_cmp a b = Lt) (text_cmp b a = Lt) (text_cmp a b).
Proof.
  revert b. induction a as [|c a IH]; intros [|d b]; simpl; try by constructor.
  rewrite (Z.compare_antisym (byte_val c) (byte_val d)).
  destruct (Z.compare_spec (byte_val c) (byte_val d)) as [Heq| |]; simpl; try by constructor.
  assert (c = d) as -> by (rewrite <- (byte_of_val c), <- (byte_of_val d); by f_equal).
  destruct (IH b) as [->| |]; by constructor.
Qed.

Lemma text_cmp_refl a : text_cmp a a = Eq.
Proof. induction a as [|c a IH]; simpl; [done|]. by rewrite Z.compare_refl. Qed.

Lemma text_cmp_trans a b c : text_cmp a b = Lt -> text_cmp b c = Lt -> text_cmp a c = Lt.
Proof.
  revert b c. induction a as [|x a IH]; intros [|y b] [|z c]; simpl; try done.
  destruct (Z.compare_spec (byte_val x) (byte_val y)), (Z.compare_spec (byte_val y) (byte_val z));
    try done; intros; destruct (Z.compare_spec (byte_val x) (byte_val z)); try lia; eauto.
Qed.

(** Three-way comparisons built from comparisons are handled uniformly. *)
Lemma row_cmp_trichotomy r s :
  match row_cmp r s with
  | Eq => row_cmp s r = Eq
  | Lt => row_cmp s r = Gt
  | Gt => row_cmp s r = Lt
  end.
Proof.
  assert (forall a b, match text_cmp a b with Eq => a = b | Lt => text_cmp b a = Gt | Gt => text_cmp b a = Lt end) as Ht.
  { intros a b. destruct (text_cmp_spec a b) as [->|Hab|Hba]; [done| |done].
    destruct (text_cmp_spec b a) as [->|H|H]; [by rewrite text_cmp_refl in Hab| |done].
    pose proof (text_cmp_trans _ _ _ Hab H) as Habs. by rewrite text_cmp_refl in Habs. }
  unfold row_cmp. pose proof (Ht (c_server_host r) (c_server_host s)) as H1.
  destruct (text_cmp (c_server_host r) (c_server_host s)); [rewrite H1, text_cmp_refl|by rewrite H1..].
  rewrite (Z.compare_antisym (c_server_port r) (c_server_port s)).
  destruct (Z.compare_spec (c_server_port r) (c_server_port s)); simpl; [|done..].
  pose proof (Ht (c_uid r) (c_uid s)) as H2.
  destruct (text_cmp (c_uid r) (c_uid s)); [by rewrite H2, text_cmp_refl|by rewrite H2..].
Qed.

#[export] Instance row_le_total : stdpp.base.Total row_le.
Proof.
  intros r s. unfold row_le. pose proof (row_cmp_trichotomy r s) as H.
  destruct (row_cmp r s); [by left|by left|]. right. by rewrite H.
Qed.
End NodeOperations.

#[export] Instance row_le_trans : Transitive row_le.
Proof.
  intros r s t. unfold row_le, row_cmp.
  destruct (text_cmp_spec (c_server_host r) (c_server_host s)) as [E1|L1|?]; [| |by intros []];
    (destruct (text_cmp_spec (c_server_host s) (c_server_host t)) as [E2|L2|?]; [| |by intros _ []]).
  - rewrite E1, E2, text_cmp_refl.
    destruct (Z.compare_spec (c_server_port r) (c_server_port s)) as [P1|P1|?]; [| |by intros []];
      (destruct (Z.compare_spec (c_server_port s) (c_server_port t)) as [P2|P2|?]; [| |by intros _ []]);
      (destruct (Z.compare_spec (c_server_port r) (c_server_port t)); [|done|lia]); try lia.
    destruct (text_cmp_spec (c_uid r) (c_uid s)) as [U1|U1|?]; [| |by intros []];
      (destruct (text_cmp_spec (c_uid s) (c_uid t)) as [U2|U2|?]; [| |by intros _ []]).
    + by rewrite U1, U2, text_cmp_refl.
    + by rewrite U1, U2.
    + by rewrite <- U2, U1.
    + by rewrite (text_cmp_trans _ _ _ U1 U2).
  - by rewrite E1, L2.
  - by rewrite <- E2, L1.
  - by rewrite (text_cmp_trans _ _ _ L1 L2).
Qed.

(** The operations are not unfolded by instance search. *)
#[global] Typeclasses Opaque row_to_node node_defaults tumgrd_db_get_node tumgrd_db_list_nodes list_loop
  tumgrd_db_upsert_node tumgrd_db_delete_node tumgrd_db_update_runtime tumgrd_db_update_applied
  tumgrd_db_begin_rotation tumgrd_db_complete_rotation tumgrd_db_update_rotation_state
  tumgrd_db_replace_rotation tumgrd_db_clear_rotation sqlite_step.

Section Instances.
Context `{E : Env} (R : relation world) `{!Silent R, !DbSilent R}.

#[export] Instance respects_row_to_node (r : row) : Respects R (row_to_node r).
Proof. unfold row_to_node, time. cbv zeta. apply _. Qed.

#[export] Instance respects_node_defaults n : Respects R (node_defaults n).
Proof. unfold node_defaults, time. apply _. Qed.

#[export] Instance respects_get_node k out : Respects R (tumgrd_db_get_node k out).
Proof. unfold tumgrd_db_get_node, succeeds. apply _. Qed.

#[export] Instance respects_list_loop rows cap acc : RespectsX R (list_loop rows cap acc).
Proof. revert cap acc. induction rows; intros; simpl; unfold succeeds; apply _. Qed.

#[export] Instance respects_list_nodes : Respects R tumgrd_db_list_nodes.
Proof. unfold tumgrd_db_list_nodes. apply _. Qed.

Context `{!forall name, Allows R (EvSql name)}.

#[export] Instance respects_upsert_node n sl : Respects R (tumgrd_db_upsert_node n sl).
Proof. unfold tumgrd_db_upsert_node. apply _. Qed.
#[export] Instance respects_delete_node k : Respects R (tumgrd_db_delete_node k).
Proof. unfold tumgrd_db_delete_node. apply _. Qed.
#[export] Instance respects_update_runtime k ip st ts : Respects R (tumgrd_db_update_runtime k ip st ts).
Proof. unfold tumgrd_db_update_runtime. apply _. Qed.
#[export] Instance respects_update_applied k ts : Respects R (tumgrd_db_update_applied k ts).
Proof. unfold tumgrd_db_update_applied. apply _. Qed.
#[export] Instance respects_begin_rotation k x s t : Respects R (tumgrd_db_begin_rotation k x s t).
Proof. unfold tumgrd_db_begin_rotation. apply _. Qed.
#[export] Instance respects_complete_rotation k t : Respects R (tumgrd_db_complete_rotation k t).
Proof. unfold tumgrd_db_complete_rotation. apply _. Qed.
#[export] Instance respects_update_rotation_state k s : Respects R (tumgrd_db_update_rotation_state k s).
Proof.
  unfold tumgrd_db_update_rotation_state. destruct (negb _ && _); apply _.
Qed.
#[export] Instance respects_replace_rotation k x t : Respects R (tumgrd_db_replace_rotation k x t).
Proof. unfold tumgrd_db_replace_rotation. apply _. Qed.
#[export] Instance respects_clear_rotation k : Respects R (tumgrd_db_clear_rotation k).
Proof. unfold tumgrd_db_clear_rotation. apply _. Qed.
End Instances.

(** Every operation returns. *)
Section TotalInstances.
Context `{E : Env} (P : world -> Prop) `{!SilentP P, !DbSilentP P, !TraceSilentP P}.

#[export] Instance total_sqlite_try {L} : TotalX P (sqlite_try (L := L)).
Proof. unfold sqlite_try, succeeds. apply _. Qed.
#[export] Instance total_sqlite_prepare {L} : TotalX P (sqlite_prepare (L := L)).
Proof. unfold sqlite_prepare, succeeds. apply _. Qed.
#[export] Instance total_require_conn {L} : TotalX P (require_conn (L := L)).
Proof. unfold require_conn. apply _. Qed.
#[export] Instance total_require_one_change {L} : TotalX P (require_one_change (L := L)).
Proof. unfold require_one_change. apply _. Qed.
#[export] Instance total_sqlite_binds {L} n : TotalX P (sqlite_binds (L := L) n).
Proof. induction n; simpl; apply _. Qed.

#[export] Instance total_sqlite_step {L} name stmt : TotalX P (sqlite_step (L := L) name stmt).
Proof.
  unfold sqlite_step, succeeds.
  assert (forall rows n, Total P (modify (fun w => set_w_rows rows (set_w_changes n w)))) as Hm.
  { intros rows n w Hw. do 2 eexists. split; [reflexivity|]. by apply db_silent_p_rows. }
  apply _.
Qed.

#[export] Instance total_migrate_add_column present add fill : SchemaSilentP P -> Total P (migrate_add_column present add fill).
Proof.
  intros HS. unfold migrate_add_column, succeeds.
  assert (forall c, Total P (modify (fun w => set_w_cols (Some (add c)) (set_w_rows (fill <$> w_rows w) w)))) as Hm.
  { intros c w Hw. do 2 eexists. split; [reflexivity|]. by apply db_silent_p_cols. }
  apply _.
Qed.
#[export] Instance total_create_table : SchemaSilentP P -> Total P create_table.
Proof.
  intros HS. unfold create_table, succeeds. apply total_bind; [apply _|]. intros []; cbn [negb]; [|apply _].
  apply total_bind; [|apply _]. intros w Hw. do 2 eexists. split; [reflexivity|].
  destruct (w_cols w); [done|]. by apply db_silent_p_cols.
Qed.
#[export] Instance total_init_schema : SchemaSilentP P -> Total P tumgrd_db_init_schema.
Proof. intros HS. unfold tumgrd_db_init_schema, require_ok. apply _. Qed.

#[export] Instance total_row_to_node (r : row) : Total P (row_to_node r).
Proof. unfold row_to_node, time. cbv zeta. apply _. Qed.
#[export] Instance total_node_defaults n : Total P (node_defaults n).
Proof. unfold node_defaults, time. apply _. Qed.
#[export] Instance total_get_node k out : Total P (tumgrd_db_get_node k out).
Proof. unfold tumgrd_db_get_node, succeeds. apply _. Qed.
#[export] Instance total_list_loop rows cap acc : TotalX P (list_loop rows cap acc).
Proof. revert cap acc. induction rows; intros; simpl; unfold succeeds; apply _. Qed.
#[export] Instance total_list_nodes : Total P tumgrd_db_list_nodes.
Proof. unfold tumgrd_db_list_nodes. apply _. Qed.
#[export] Instance total_upsert_node n sl : Total P (tumgrd_db_upsert_node n sl).
Proof. unfold tumgrd_db_upsert_node. apply _. Qed.
#[export] Instance total_delete_node k : Total P (tumgrd_db_delete_node k).
Proof. unfold tumgrd_db_delete_node. apply _. Qed.
#[export] Instance total_update_runtime k ip st ts : Total P (tumgrd_db_update_runtime k ip st ts).
Proof. unfold tumgrd_db_update_runtime. apply _. Qed.
#[export] Instance total_update_applied k ts : Total P (tumgrd_db_update_applied k ts).
Proof. unfold tumgrd_db_update_applied. apply _. Qed.
#[export] Instance total_begin_rotation k x s t : Total P (tumgrd_db_begin_rotation k x s t).
Proof. unfold tumgrd_db_begin_rotation. apply _. Qed.
#[export] Instance total_complete_rotation k t : Total P (tumgrd_db_complete_rotation k t).
Proof. unfold tumgrd_db_complete_rotation. apply _. Qed.
#[export] Instance total_update_rotation_state k s : Total P (tumgrd_db_update_rotation_state k s).
Proof. unfold tumgrd_db_update_rotation_state. apply _. Qed.
#[export] Instance total_replace_rotation k x t : Total P (tumgrd_db_replace_rotation k x t).
Proof. unfold tumgrd_db_replace_rotation. apply _. Qed.
#[export] Instance total_clear_rotation k : Total P (tumgrd_db_clear_rotation k).
Proof. unfold tumgrd_db_clear_rotation. apply _. Qed.
End TotalInstances.
