(* ===== verification/DbSpec.v ===== *)
(** * DbSpec: what db.c promises

    The write operations of db.c as a command language, its meaning on a finite
    map from primary keys to rows, and the theorems that relate the two: the
    operations refine the map, keep the state machine of key rotation, and
    give back what was stored. *)

From S2P Require Import Prelude CLib Types World Logic Helper Db.

(** ** Commands *)
Inductive db_op :=
| OpUpsert (n : node) (set_lifetime : bool)
| OpDelete (k : key)
| OpRuntime (k : key) (ip : option cstr) (st : cstr) (ts : Z)
| OpApplied (k : key) (ts : Z)
| OpBegin (k : key) (new_key : cstr) (st now : Z)
| OpComplete (k : key) (ts : Z)
| OpState (k : key) (st : Z)
| OpReplace (k : key) (new_key : cstr) (now : Z)
| OpClear (k : key).

Definition run_op `{E : Env} (op : db_op) : M Z :=
  match op with
  | OpUpsert n sl => tumgrd_db_upsert_node n sl
  | OpDelete k => tumgrd_db_delete_node k
  | OpRuntime k ip st ts => tumgrd_db_update_runtime k ip st ts
  | OpApplied k ts => tumgrd_db_update_applied k ts
  | OpBegin k x st now => tumgrd_db_begin_rotation k x st now
  | OpComplete k ts => tumgrd_db_complete_rotation k ts
  | OpState k st => tumgrd_db_update_rotation_state k st
  | OpReplace k x now => tumgrd_db_replace_rotation k x now
  | OpClear k => tumgrd_db_clear_rotation k
  end.

Fixpoint run_ops `{E : Env} (ops : list db_op) : M (list Z) :=
  match ops with
  | [] => mret []
  | op :: ops' => rc ← run_op op; rcs ← run_ops ops'; mret (rc :: rcs)
  end.

(** ** Their meaning on a map *)

(** An update that fails unless it changes the row. *)
Definition abs_update (k : key) (guard : row -> bool) (f : row -> row)
    (m : gmap key row) (rc : Z) (m' : gmap key row) : Prop :=
  match m !! k with
  | Some r => if guard r then rc = 0%Z /\ m' = <[k := f r]> m else rc = (-1)%Z /\ m' = m
  | None => rc = (-1)%Z /\ m' = m
  end.

Definition abs_step (op : db_op) (m : gmap key row) (rc : Z) (m' : gmap key row) : Prop :=
  match op with
  | OpUpsert n sl => exists t1 t2,
      let r := spec_merged (row_of_node (filled t1 t2 n) sl) m in
      (rc = 0%Z /\ spec_port_free r m /\ m' = <[node_key n := r]> m) \/
      (rc = (-1)%Z /\ ~ spec_port_free r m /\ m' = m)
  | OpDelete k => match m !! k with Some _ => rc = 0%Z /\ m' = delete k m | None => rc = 1%Z /\ m' = m end
  | OpRuntime k ip st ts => rc = 0%Z /\ m' = alter (runtime_row ip st ts) k m
  | OpApplied k ts => abs_update k always (set_c_last_applied_at (Some ts)) m rc m'
  | OpBegin k x st now => abs_update k (rotation_is 0) (set_rotation x st now) m rc m'
  | OpComplete k ts => abs_update k rotation_not_zero (complete_row ts) m rc m'
  | OpState k st =>
      abs_update k (fun r => rotation_pending r && is_pending_state st) (set_c_rotation_state (Some st)) m rc m'
  | OpReplace k x now => abs_update k always (set_rotation x TUMGRD_ROTATION_PENDING_REMOTE now) m rc m'
  | OpClear k => abs_update k always clear_row m rc m'
  end.

(** A sequence of commands; when the engine is [faulty], a command may also
    fail and change nothing. *)
Inductive abs_steps (faulty : Prop) : list db_op -> gmap key row -> list Z -> gmap key row -> Prop :=
| abs_nil m : abs_steps faulty [] m [] m
| abs_cons op ops m rc m1 rcs m' :
    abs_step op m rc m1 -> abs_steps faulty ops m1 rcs m' -> abs_steps faulty (op :: ops) m (rc :: rcs) m'
| abs_fault op ops m rcs m' :
    faulty -> abs_steps faulty ops m rcs m' -> abs_steps faulty (op :: ops) m ((-1)%Z :: rcs) m'.

Lemma abs_steps_faulty (P Q : Prop) ops m rcs m' : (P -> Q) -> abs_steps P ops m rcs m' -> abs_steps Q ops m rcs m'.
Proof. intros HPQ. induction 1; [constructor|by econstructor|by constructor; auto]. Qed.

(** ** Refinement *)
Section Refinement.
Context `{E : Env}.

Lemma update_post_abs k guard f w rc w' :
  update_post k guard f w rc w' ->
  table_ok (w_rows w') /\
  (abs_update k guard f (store w) rc (store w') \/ (rc = (-1)%Z /\ w_rows w' = w_rows w /\ sql_fault w w')).
Proof.
  intros [Hok H]. split; [done|]. unfold abs_update.
  destruct H as [(-> & r & Hr & Hg & Hs)|(-> & Hrows & [Hf|Hno])].
  - left. by rewrite Hr, Hg.
  - by right.
  - left. rewrite Hrows. destruct (store w !! k) as [r|]; [|done]. by rewrite (Hno r eq_refl).
Qed.

(** One command: the step of the map, or a fault of the engine that changes
    nothing. *)
Lemma run_op_spec op w :
  table_ok (w_rows w) ->
  wp (run_op op) (fun rc w' => table_ok (w_rows w') /\
    (abs_step op (store w) rc (store w') \/ (rc = (-1)%Z /\ w_rows w' = w_rows w /\ sql_fault w w'))) w.
Proof.
  intros Hok. destruct op; cbn [run_op abs_step];
    try (eapply wp_mono; [|intros rc w'; apply update_post_abs]);
    eauto using update_applied_spec, begin_rotation_spec, complete_rotation_spec,
      update_rotation_state_spec, replace_rotation_spec, clear_rotation_spec.
  - eapply wp_mono; [by apply upsert_spec|]. intros rc w' (Hok' & t1 & t2 & H). split; [done|].
    destruct H as [(-> & Hfree & Hs)|(-> & Hr & [Hf|Hno])]; [left|by right|left];
      exists t1, t2; [by left|right]. by rewrite Hr.
  - eapply wp_mono; [by apply delete_spec|]. intros rc w' (Hok' & H). split; [done|].
    destruct H as [(-> & [r Hr] & Hs)|[(-> & Hn & Hs)|H]]; [left|left|by right].
    + by rewrite Hr.
    + by rewrite Hn.
  - eapply wp_mono; [by apply update_runtime_spec|]. intros rc w' (Hok' & [H|H]); auto.
Qed.

#[export] Instance respects_run_op R op :
  Silent R -> DbSilent R -> (forall name, Allows R (EvSql name)) -> Respects R (run_op op).
Proof. intros. destruct op; cbn [run_op]; apply _. Qed.

#[export] Instance total_run_op P op : SilentP P -> DbSilentP P -> TraceSilentP P -> Total P (run_op op).
Proof. intros. destruct op; cbn [run_op]; apply _. Qed.

#[export] Instance total_run_ops P ops : SilentP P -> DbSilentP P -> TraceSilentP P -> Total P (run_ops ops).
Proof. intros. induction ops; cbn [run_ops]; apply _. Qed.

Lemma db_ready_fault w w' : db_ready w -> sql_fault w w' -> failed_between w w'.
Proof. by intros Hr [Hn|Hf]. Qed.

Lemma run_ops_spec ops w :
  table_ok (w_rows w) -> db_ready w ->
  wp (run_ops ops) (fun rcs w' => later w w' /\ table_ok (w_rows w') /\
    abs_steps (failed_between w w') ops (store w) rcs (store w')) w.
Proof.
  revert w. induction ops as [|op ops IH]; intros w Hok Hready; cbn [run_ops].
  - apply wp_ret. split; [reflexivity|]. split; [done|constructor].
  - apply wp_bind. eapply wp_mono; [apply wp_and; [by apply run_op_spec|apply wp_and; [wp_frame same_schema|wp_frame later]]|].
    intros rc w1 [[Hok1 Hop] [Hsame Hl1]].
    apply wp_bind. eapply wp_mono; [apply IH; [done|by eapply same_schema_ready]|].
    intros rcs w2 (Hl2 & Hok2 & Hss). apply wp_ret. split; [by transitivity w1|]. split; [done|].
    apply (abs_steps_faulty _ (failed_between w w2)) in Hss; [|apply failed_between_wider; [done|reflexivity]].
    destruct Hop as [Hs|(-> & Hr & Hf%db_ready_fault)]; [by econstructor| |done].
    rewrite Hr in Hss. apply abs_fault; [apply (failed_between_wider w w w1); [reflexivity|done|done]|done].
Qed.

(** C9: the write operations of db.c refine a finite map from primary keys
    to rows.  On an open database with the current schema every sequence of
    operations returns, and its return codes and the resulting table are those
    of the same sequence on the map, except that a command may fail and change
    nothing if a call to the engine failed in the meantime; the PRIMARY KEY
    and UNIQUE constraints hold afterwards. *)
Theorem db_refines_map ops w :
  table_ok (w_rows w) -> db_ready w ->
  exists rcs w', run_ops ops w = Some (rcs, w') /\
    table_ok (w_rows w') /\ abs_steps (failed_between w w') ops (store w) rcs (store w').
Proof.
  intros Hok Hready. destruct (total_wp (fun _ => True) _ _ w I (run_ops_spec ops w Hok Hready))
    as (rcs & w' & Hrun & _ & Hok' & Hss). by exists rcs, w'.
Qed.

End Refinement.

(** A key that is there and fits the buffers. *)
Definition key_ok (x : cstr) : Prop := x <> [] /\ text_fits SZ_XOR_KEY x.

Lemma key_ok_compute x :
  negb (bool_decide (x = [])) && forallb (fun c => negb (bool_decide (c = NUL))) x && (length x <? SZ_XOR_KEY) = true -> key_ok x.
Proof.
  rewrite !andb_true_iff. intros [[Hne%negb_true_iff%bool_decide_eq_false Hnn] Hl%Nat.ltb_lt]. split; [done|].
  split; [|done]. unfold nonul. rewrite Forall_forall. intros c Hc. rewrite forallb_forall in Hnn.
  specialize (Hnn c (proj1 (list_elem_of_In _ _) Hc)). by apply negb_true_iff, bool_decide_eq_false in Hnn.
Qed.

(** ** The state machine of key rotation

    A row that is not rotating has state 0.  A rotating row is in one of the
    two pending states, and the key it will use is stored in both key columns
    before anything is sent: a restart finds it. *)
Definition rotation_ok (r : row) : Prop :=
  c_rotation_state r = Some 0%Z \/
  exists s x, c_rotation_state r = Some s /\ is_pending_state s = true /\ key_ok x /\
    c_xor_key r = Some x /\ c_xor_key_pending r = Some x.

(** What the callers owe: real keys and real states. *)
Definition op_ok (op : db_op) : Prop :=
  match op with
  | OpUpsert n _ => rotation_ok (row_of_node n true)
  | OpBegin _ x st _ => key_ok x /\ is_pending_state st = true
  | OpReplace _ x _ => key_ok x
  | _ => True
  end.

Section Rotation.
Context `{E : Env}.

Lemma rotation_ok_ext r s :
  c_rotation_state r = c_rotation_state s -> c_xor_key r = c_xor_key s ->
  c_xor_key_pending r = c_xor_key_pending s -> rotation_ok r -> rotation_ok s.
Proof. unfold rotation_ok. by intros -> -> ->. Qed.

Lemma filled_rotation t1 t2 n sl sl' :
  rotation_ok (row_of_node n sl) -> rotation_ok (row_of_node (filled t1 t2 n) sl').
Proof.
  apply rotation_ok_ext; unfold filled; cbv zeta; destruct (created_at n =? 0)%Z; cbn;
    destruct (last_updated _ =? 0)%Z; cbn; destruct (ip_check_url _); cbn; by destruct (status n).
Qed.

Lemma upsert_merge_rotation old excl : rotation_ok old -> rotation_ok (upsert_merge old excl).
Proof.
  intros [H0|(s & x & Hs & Hp & Hx & Hk & Hpend)]; [by left|right].
  exists s, x. cbn. unfold rotation_not_zero. rewrite Hs.
  assert (s =? 0 = false)%Z as -> by (by destruct s). by split_and!.
Qed.

Lemma set_rotation_ok x st now r :
  key_ok x -> is_pending_state st = true -> rotation_ok (set_rotation x st now r).
Proof. intros Hx Hst. right. by exists st, x. Qed.

Lemma set_state_ok st r :
  rotation_pending r && is_pending_state st = true -> rotation_ok r ->
  rotation_ok (set_c_rotation_state (Some st) r).
Proof.
  intros [Hp Hst]%andb_true_iff [H0|(s & x & Hs & _ & Hx & Hk & Hpend)].
  - unfold rotation_pending, rotation_is in Hp. rewrite H0 in Hp. done.
  - right. by exists st, x.
Qed.

Lemma abs_update_forall (P : row -> Prop) k guard f m rc m' :
  (forall r, guard r = true -> P r -> P (f r)) -> abs_update k guard f m rc m' ->
  map_Forall (fun _ => P) m -> map_Forall (fun _ => P) m'.
Proof.
  unfold abs_update. intros Hf H Hm. destruct (m !! k) as [r|] eqn:Hr; [destruct (guard r) eqn:Hg|];
    destruct H as [_ ->]; try done.
  apply map_Forall_insert_2; [|done]. apply Hf; [done|]. by apply (Hm k).
Qed.

Lemma abs_step_rotation op m rc m' :
  op_ok op -> abs_step op m rc m' ->
  map_Forall (fun _ => rotation_ok) m -> map_Forall (fun _ => rotation_ok) m'.
Proof.
  destruct op as [n sl|k|k ip st ts|k ts|k x st now|k ts|k st|k x now|k]; cbn [op_ok abs_step]; intros Hop Hs Hm.
  - destruct Hs as (t1 & t2 & [(_ & _ & ->)|(_ & _ & ->)]); [|done].
    apply map_Forall_insert_2; [|done]. unfold spec_merged.
    destruct (m !! _) as [old|] eqn:Hold.
    + apply upsert_merge_rotation. by eapply Hm.
    + by eapply filled_rotation.
  - destruct (m !! k); destruct Hs as [_ ->]; [|done]. by apply map_Forall_delete.
  - destruct Hs as [_ ->]. intros k' r. rewrite lookup_alter_Some.
    intros [(<- & s & Hs & ->)|[_ Hr]]; [|by apply (Hm k')].
    eapply rotation_ok_ext, (Hm k s Hs); done.
  - eapply abs_update_forall; [|exact Hs|done]. intros r _. by apply rotation_ok_ext.
  - eapply abs_update_forall; [|exact Hs|done]. intros r _ _. destruct Hop. by apply set_rotation_ok.
  - eapply abs_update_forall; [|exact Hs|done]. intros r _ _. by left.
  - eapply abs_update_forall; [|exact Hs|done]. intros r. apply set_state_ok.
  - eapply abs_update_forall; [|exact Hs|done]. intros r _ _. by apply set_rotation_ok.
  - eapply abs_update_forall; [|exact Hs|done]. intros r _ _. by left.
Qed.

Lemma to_map_forall (P : row -> Prop) t :
  NoDup (row_key <$> t) -> (map_Forall (fun _ => P) (to_map t) <-> Forall P t).
Proof.
  intros Hnd. rewrite Forall_forall. split.
  - intros H r Hr. apply (H (row_key r)). by apply to_map_lookup.
  - intros H k r [Hr _]%to_map_lookup; [|done]. by apply H.
Qed.

(** The constraints of the schema and the rotation invariant. *)
Definition db_invariant (t : list row) : Prop := table_ok t /\ Forall rotation_ok t.

Lemma run_op_invariant op w :
  op_ok op -> db_invariant (w_rows w) -> wp (run_op op) (fun _ w' => db_invariant (w_rows w')) w.
Proof.
  intros Hop [Hok Hrot]. eapply wp_mono; [by apply run_op_spec|].
  intros rc w' [Hok' H]. split; [done|]. destruct H as [Hs|(_ & -> & _)]; [|done].
  apply to_map_forall; [apply Hok'|]. eapply abs_step_rotation; [done|done|].
  by apply to_map_forall; [apply Hok|].
Qed.

(** C10: a sequence of write operations with valid arguments keeps the table well
    formed, whatever the database engine does, failures at any call included:
    primary keys and client ports stay unique, and every row is either not
    rotating or in a pending state with its new non-empty key in both key columns.
    Valid means that a node to be stored is itself in such a state, that a new key
    is not empty and fits its array, and that a rotation begins in a pending
    state; nothing is asked of the other operations, nor of the order. The
    operations do not check it; the daemon's own calls of them satisfy it. *)
Theorem rotation_state_machine ops w :
  db_invariant (w_rows w) -> Forall op_ok ops ->
  exists rcs w', run_ops ops w = Some (rcs, w') /\ length rcs = length ops /\ db_invariant (w_rows w').
Proof.
  intros Hinv Hops.
  apply (total_wp (fun _ => True) _ (fun rcs w' => length rcs = length ops /\ db_invariant (w_rows w')) w); [done|].
  revert w Hinv. induction Hops as [|op ops Hop Hops IH]; intros w Hinv; cbn [run_ops]; [by apply wp_ret|].
  apply wp_bind. eapply wp_mono; [by apply run_op_invariant|]. intros rc w1 H1.
  apply wp_bind. eapply wp_mono; [by apply IH|]. intros rcs w2 [Hlen H2].
  apply wp_ret. split; [cbn; by rewrite Hlen|done].
Qed.

(** C26: registering a node that is in the middle of a key rotation does not
    lose the key that was sent ahead: an accepted upsert of an existing row
    keeps its rotation state, both key columns and the time it was last
    applied, and keeps its lifetime unless a new one is given. *)
Theorem upsert_keeps_rotation n sl old w :
  table_ok (w_rows w) -> store w !! node_key n = Some old -> rotation_not_zero old = true ->
  exists rc w' r, tumgrd_db_upsert_node n sl w = Some (rc, w') /\ store w' !! node_key n = Some r /\
    (rc <> 0%Z -> r = old) /\
    c_rotation_state r = c_rotation_state old /\ c_xor_key r = c_xor_key old /\
    c_xor_key_pending r = c_xor_key_pending old /\ c_last_applied_at r = c_last_applied_at old /\
    (sl = false -> c_lifetime r = c_lifetime old).
Proof.
  intros Hok Hold Hrot.
  destruct (total_wp (fun _ => True) (tumgrd_db_upsert_node n sl) (upsert_post n sl w) w I (upsert_spec n sl w Hok))
    as (rc & w' & Heq & Hok' & t1 & t2 & H).
  exists rc, w'. cbv zeta in H. unfold spec_merged in H.
  rewrite row_of_node_key, filled_key, Hold in H.
  destruct H as [(-> & _ & Hs)|(-> & Hr & _)].
  - eexists. split; [done|]. rewrite Hs. split; [apply lookup_insert_eq|]. cbn. rewrite Hrot.
    split_and!; try done. by intros ->.
  - exists old. by rewrite Hr.
Qed.

End Rotation.

(** ** Round trips *)
Section RoundTrips.
Context `{E : Env}.

(** What is bound for a node reads back as the node. *)
Lemma read_row_of_node now n :
  node_fits n -> (last_applied_at n <= now + 86400)%Z -> read_row now (row_of_node n true) = n.
Proof.
  intros [? ? ? ? ? ? ? ? Hmem ? ? ? ? ? Hlife Happ ? ?] Hnow. transitivity (eta_node n); [|by destruct n].
  unfold read_row, eta_node. f_equal; try (by apply column_text_null); try (by apply column_text_id);
    try (by apply column_int_id); try done; cbn.
  - by destruct Hmem as [[-> _]| ->].
  - destruct Hmem as [[-> ->]| ->]; cbn; [done|]. by apply column_int_id.
  - by rewrite (decide_True _ _ Hlife).
  - rewrite (decide_False (P := (_ < 0)%Z)) by lia. by rewrite (decide_False (P := (_ < _)%Z)) by lia.
Qed.

Lemma default_texts_fit :
  text_fits SZ_TEXT TUMGRD_DEFAULT_IP_CHECK_URL /\ text_fits SZ_STATUS TUMGRD_STATUS_ACTIVE.
Proof. split; (split; [by repeat constructor|cbn; unfold SZ_TEXT, SZ_STATUS; lia]). Qed.

Lemma filled_fits t1 t2 n : node_fits n -> node_fits (filled t1 t2 n) /\ last_applied_at (filled t1 t2 n) = last_applied_at n.
Proof.
  destruct default_texts_fit as [Hurl Hst]. intros []. unfold filled. cbv zeta.
  destruct (created_at n =? 0)%Z; cbn; destruct (last_updated _ =? 0)%Z; cbn;
    destruct (ip_check_url n) eqn:Hu; cbn; destruct (status n) eqn:Hs; cbn; (split; [|done]);
    split; cbn; rewrite ?Hu, ?Hs; done.
Qed.

(** The port of a new node is free in the table if no other row has it. *)
Lemma new_port_free t1 t2 n w :
  table_ok (w_rows w) ->
  (forall r, row_port_key r = (server_host n, server_port n, client_port n, ip_version n) ->
     row_key r <> node_key n -> r ∉ w_rows w) ->
  spec_port_free (row_of_node (filled t1 t2 n) true) (store w).
Proof.
  intros Hok Hport k s [Hin Hks]%to_map_lookup Hk Hp; [|apply Hok]. rewrite row_of_node_key, filled_key in Hk.
  assert (row_port_key (row_of_node (filled t1 t2 n) true) = (server_host n, server_port n, client_port n, ip_version n)) as Hpk.
  { unfold filled. cbv zeta. destruct (created_at n =? 0)%Z; cbn;
      destruct (last_updated _ =? 0)%Z; cbn; destruct (ip_check_url n); cbn; by destruct (status n). }
  rewrite Hpk in Hp. by apply (Hport s Hp); [congruence|].
Qed.

(** C27: a new node that fits the C types is stored when its client port is free
    on its server and no reading of the clock is more than a day before the time
    it was last applied, and reading it back gives the very node that was
    registered, with the defaults filled in for the empty fields, unless a call to
    the engine failed in the meantime. *)
Theorem register_then_get n out w :
  table_ok (w_rows w) -> db_ready w ->
  node_fits n -> (forall t, last_applied_at n <= env_time t + 86400)%Z ->
  store w !! node_key n = None ->
  (forall r, row_port_key r = (server_host n, server_port n, client_port n, ip_version n) ->
     row_key r <> node_key n -> r ∉ w_rows w) ->
  exists r w', (rc ← tumgrd_db_upsert_node n true; got ← tumgrd_db_get_node (node_key n) out; mret (rc, got)) w = Some (r, w') /\
    (failed_between w w' \/ exists t1 t2, r = (0%Z, (0%Z, filled t1 t2 n))).
Proof.
  intros Hok Hready Hfits Htime Hnew Hport.
  apply (total_wp (fun _ => True) (rc ← tumgrd_db_upsert_node n true; got ← tumgrd_db_get_node (node_key n) out; mret (rc, got))
    (fun r w' => failed_between w w' \/ exists t1 t2, r = (0%Z, (0%Z, filled t1 t2 n))) w I).
  apply wp_bind. eapply wp_mono; [apply wp_and; [by apply upsert_spec|apply wp_and; [wp_frame same_schema|wp_frame later]]|].
  intros rc w1 [(Hok1 & t1 & t2 & Hres) [Hsame Hl1]]. cbv zeta in Hres. unfold spec_merged in Hres.
  rewrite row_of_node_key, filled_key, Hnew in Hres.
  apply wp_bind. eapply wp_mono; [apply wp_and; [by apply get_spec|wp_frame later]|].
  intros [rc2 n2] w2 [[_ Hget] Hl2]. cbn [fst snd] in Hget. apply wp_ret.
  destruct Hres as [(-> & _ & Hs)|(_ & _ & [Hf|Hno])].
  - destruct Hget as [(-> & r & t & Hr & ->)|[(_ & _ & Hno)|(_ & _ & Hf)]].
    + right. exists t1, t2. rewrite Hs, lookup_insert_eq in Hr. injection Hr as <-.
      destruct (filled_fits t1 t2 n Hfits) as [Hff Hla]. by rewrite read_row_of_node by (rewrite ?Hla; done).
    + by rewrite Hs, lookup_insert_eq in Hno.
    + left. apply (failed_between_wider w w1 w2); [done|reflexivity|].
      by apply db_ready_fault; [eapply same_schema_ready|].
  - left. apply (failed_between_wider w w w1); [reflexivity|done|by apply db_ready_fault].
  - exfalso. by apply Hno, new_port_free.
Qed.

(** C28: whatever the database file holds, a node read from it fits the C
    types of its struct: strings are terminated within their arrays, the
    lifetime is 0 or in range, and the time it was last applied is not
    negative.  The call returns, changes nothing, and reports an absent key
    with 1 and a fault of the engine with -1, leaving the output alone. *)
Theorem get_node_sane k out w :
  table_ok (w_rows w) -> (forall t, 0 <= env_time t)%Z ->
  exists rc n w', tumgrd_db_get_node k out w = Some ((rc, n), w') /\ calm w w' /\
    (rc = 0%Z -> node_fits n /\ is_Some (store w !! k)) /\
    (rc = 1%Z -> n = out /\ store w !! k = None) /\
    (rc <> 0%Z -> rc <> 1%Z -> rc = (-1)%Z /\ n = out /\ sql_fault w w').
Proof.
  intros Hok Ht.
  destruct (total_wp (fun _ => True) _ _ w I (get_spec k out w Hok)) as ([rc n] & w' & Heq & Hc & H).
  exists rc, n, w'. split; [done|]. split; [done|]. cbn [fst snd] in H.
  destruct H as [(-> & r & t & Hr & ->)|[(-> & -> & Hn)|(-> & -> & Hf)]]; split_and!; try done.
  intros _. split; [by apply read_row_fits|by eexists].
Qed.

(** The list of nodes is every row of the table once, read in the order
    of server host, server port and uid; a failure yields an empty list and a
    negative code, and only a fault of the engine or of the allocator can cause
    one.  The call returns and changes nothing. *)
Theorem list_nodes_sorted w :
  exists rc nodes w', tumgrd_db_list_nodes w = Some ((rc, nodes), w') /\ calm w w' /\
    ((rc = 0%Z /\ exists rows, rows ≡ₚ w_rows w /\ StronglySorted row_le rows /\ read_rows rows nodes) \/
     (rc < 0 /\ nodes = [] /\ sql_fault w w')%Z).
Proof.
  destruct (total_wp (fun _ => True) _ _ w I (list_spec w)) as ([rc nodes] & w' & Heq & Hc & H).
  exists rc, nodes, w'. split; [done|]. split; [done|]. cbn [fst snd] in H.
  destruct H as [[-> Hr]|H]; [left|by right]. split; [done|]. exists (select_ordered (w_rows w)).
  split_and!; [apply merge_sort_Permutation|apply StronglySorted_merge_sort; apply _|done].
Qed.
End RoundTrips.

(** ** Migration of the schema *)

(** [c'] has every column that [c] has. *)
Definition cols_le (c c' : columns) : Prop :=
  (has_lifetime_col c = true -> has_lifetime_col c' = true) /\
  (has_last_applied_col c = true -> has_last_applied_col c' = true) /\
  (has_rotation_col c = true -> has_rotation_col c' = true) /\
  (has_pending_col c = true -> has_pending_col c' = true).

#[export] Instance cols_le_preorder : PreOrder cols_le.
Proof. split; [by intros c|]. unfold cols_le. intros c1 c2 c3. tauto. Qed.

(** What a migration may do to a table: add columns, and fill cells other than
    those of the keys. *)
Definition migrates : relation world := fun w w' =>
  w_conn w' = w_conn w /\
  forall c, w_cols w = Some c -> exists c', w_cols w' = Some c' /\ cols_le c c' /\
    row_key <$> w_rows w' = row_key <$> w_rows w /\ row_port_key <$> w_rows w' = row_port_key <$> w_rows w.

#[export] Instance migrates_silent : Silent migrates.
Proof.
  split; [split|].
  - intros w. split; [done|]. intros c Hc. by exists c.
  - intros w1 w2 w3 [Hc1 H1] [Hc2 H2]. split; [congruence|]. intros c Hc.
    destruct (H1 c Hc) as (c2 & Hw2 & Hle1 & Hk1 & Hp1).
    destruct (H2 c2 Hw2) as (c3 & Hw3 & Hle2 & Hk2 & Hp2).
    exists c3. split_and!; [done|by transitivity c2|congruence..].
  - intros w n b _. split; [done|]. intros c Hc. by exists c.
Qed.
#[export] Instance migrates_allows e : Allows migrates e.
Proof. intros w. split; [done|]. intros c Hc. by exists c. Qed.

Section Migration.
Context `{E : Env}.

(** Additions of one column. *)
Record addition (present : columns -> bool) (add : columns -> columns) (fill : row -> row) : Prop := {
  add_le c : cols_le c (add c);
  fill_key r : row_key (fill r) = row_key r;
  fill_port_key r : row_port_key (fill r) = row_port_key r
}.

(** The row after the migration from a table with the columns [c]. *)
Definition migrate_row (c : columns) (r : row) : row :=
  let r1 := if has_lifetime_col c then r else set_c_lifetime (Some 0%Z) r in
  let r2 := if has_last_applied_col c then r1 else
    set_c_last_applied_at (match c_last_updated r with
      | Some u => if (0 <? u)%Z then Some u else Some 0%Z | None => Some 0%Z end) r1 in
  let r3 := if has_rotation_col c then r2 else set_c_rotation_state (Some 0%Z) r2 in
  if has_pending_col c then r3 else set_c_xor_key_pending (Some []) r3.

(** A migration of [w] that has reached the columns [c] and the rows [t], and
    one that stopped. *)
Definition reached (w : world) (c : columns) (t : list row) (w' : world) : Prop :=
  migrates w w' /\ w_cols w' = Some c /\ w_rows w' = t /\ later w w'.

Definition stopped (w : world) (e : Z) (w' : world) : Prop :=
  e = (-1)%Z /\ migrates w w' /\ (w_conn w = false \/ failed_between w w').

Lemma reached_calm w c t w1 w2 : reached w c t w1 -> calm w1 w2 -> reached w c t w2.
Proof.
  intros (Hm & Hc & Ht & Hl) H2. pose proof (calm_fields _ _ H2) as (_ & _ & Hc2 & Ht2 & _).
  split; [transitivity w1; [done|by apply calm_respects, H2; apply _]|].
  split_and!; [congruence..|transitivity w1; [done|by apply (calm_respects _ _ _ H2)]].
Qed.

Lemma reached_stopped w c t w1 w2 :
  reached w c t w1 -> calm w1 w2 -> w_tick w1 < w_tick w2 -> env_ok (w_tick w1) = false -> stopped w (-1) w2.
Proof.
  intros Hr H2 Ht Hok. destruct (reached_calm _ _ _ _ _ Hr H2) as (Hm & _). destruct Hr as (_ & _ & _ & Hl).
  split; [done|]. split; [done|]. right. apply (failed_between_wider w w1 w2); [done|reflexivity|by apply failed_here].
Qed.

Lemma wpx_migrate_step (present : columns -> bool) add fill c0 c t w w1 :
  addition present add fill -> present c = present c0 -> reached w c t w1 ->
  wpx (if present c0 then mret tt else require_ok (migrate_add_column present add fill))
    (fun e _ => stopped w e)
    (fun _ _ => reached w (if present c0 then c else add c) (if present c0 then t else fill <$> t)) tt w1.
Proof.
  intros [Hle Hfk Hfp] Hp Hr. rewrite <- Hp. destruct (present c) eqn:Hpc; [by apply wpx_ret|].
  apply wpx_bind, wpx_lift, wp_bind, wp_succeeds. intros w2 H2 Hlt.
  pose proof (reached_calm _ _ _ _ _ Hr H2) as (Hm & Hc & Ht & Hl).
  apply wp_bind, wp_reads. rewrite Hc, Hpc. destruct (env_ok (w_tick w1)) eqn:Hok; cbn [negb].
  - apply wp_bind, wp_modify, wp_ret, wpx_ret. split; [|by rewrite Ht].
    etrans; [exact Hm|]. split; [done|]. intros c' Hc'. replace c' with c by congruence.
    exists (add c). cbn. split_and!; [done|done|by apply keys_fmap|].
    rewrite <- list_fmap_compose. apply list_fmap_ext. intros i r _. apply Hfp.
  - apply wp_ret, wpx_fail. by eapply reached_stopped.
Qed.

Definition backfill_row (r : row) : row :=
  if bool_decide (c_last_applied_at r = Some 0%Z) &&
     match c_last_updated r with Some u => (0 <? u)%Z | None => false end
  then set_c_last_applied_at (c_last_updated r) r else r.

Lemma wpx_backfill name c t w w1 :
  reached w c t w1 ->
  wpx (sqlite_step name backfill) (fun e _ => stopped w e)
    (fun _ _ => reached w c (backfill_row <$> t)) tt w1.
Proof.
  intros Hr. apply wpx_bind, wpx_lift, wp_succeeds. intros w2 H2 Hlt.
  pose proof (reached_calm _ _ _ _ _ Hr H2) as (Hm & Hc & Ht & Hl).
  apply wpx_bind, wpx_lift, wp_reads. destruct (env_ok (w_tick w1)) eqn:Hok; cbn [negb].
  - unfold backfill, update_where. apply wpx_bind, wpx_lift, wp_modify, wpx_lift, wp_emit.
    split; [|split_and!; [done|cbn; by rewrite Ht|exact Hl]].
    etrans; [exact Hm|]. split; [done|]. intros c' Hc'. exists c'.
    assert (forall (A : Type) (h : row -> A), (forall r, h (backfill_row r) = h r) ->
      h <$> (backfill_row <$> w_rows w2) = h <$> w_rows w2) as Hh.
    { intros A h Hh. rewrite <- list_fmap_compose. apply list_fmap_ext. intros i r _. apply Hh. }
    split_and!; [done|done|apply Hh|apply Hh]; intros r; unfold backfill_row; by destruct (_ && _).
  - apply wpx_fail. by eapply reached_stopped.
Qed.

Lemma wpx_probes n c t w w1 :
  reached w c t w1 ->
  wpx (sqlite_binds n) (fun e _ => stopped w e) (fun _ _ => reached w c t) (tt : unit) w1.
Proof.
  revert w1. induction n as [|n IH]; intros w1 Hr; cbn [sqlite_binds]; [by apply wpx_ret|].
  apply wpx_bind, wpx_bind, wpx_lift, wp_succeeds. intros w2 H2 Hlt.
  destruct (env_ok (w_tick w1)) eqn:Hok.
  - apply wpx_ret, IH. by eapply reached_calm.
  - apply wpx_fail. by eapply reached_stopped.
Qed.

Lemma wpx_create_table w :
  w_conn w = true ->
  wpx (require_ok create_table) (fun e _ => stopped w e)
    (fun _ _ w' => exists c t, reached w c t w' /\
       match w_cols w with Some c0 => c = c0 /\ t = w_rows w | None => all_columns c = true /\ t = [] end) tt w.
Proof.
  intros Hconn. apply wpx_bind, wpx_lift, wp_bind, wp_succeeds. intros w1 H1 Hlt.
  assert (migrates w w1) as Hm by (apply (calm_respects _ _ _ H1)).
  destruct (env_ok (w_tick w)) eqn:Hok; cbn [negb].
  - apply wp_bind, wp_modify, wp_ret, wpx_ret.
    pose proof (calm_fields _ _ H1) as (_ & Hcn & Hc & Hr & _). rewrite Hc.
    destruct (w_cols w) as [c|] eqn:Hw.
    + exists c, (w_rows w). split; [|done]. split_and!; [done..|exact (calm_respects later _ _ H1)].
    + exists (mkColumns true true true true), []. split; [|done].
      split_and!; [|done|done|exact (calm_respects later _ _ H1)]. split; [exact Hcn|]. intros c. by rewrite Hw.
  - apply wp_ret, wpx_fail. split; [done|]. split; [done|]. right. by apply failed_here.
Qed.

Lemma backfill_added r :
  backfill_row (set_c_last_applied_at (Some 0%Z) r) =
  set_c_last_applied_at (match c_last_updated r with
    | Some u => if (0 <? u)%Z then Some u else Some 0%Z | None => Some 0%Z end) r.
Proof.
  unfold backfill_row. rewrite bool_decide_eq_true_2 by done. cbn.
  destruct (c_last_updated r) as [u|]; [|done]. by destruct (0 <? u)%Z.
Qed.

Lemma migrate_row_steps c (t : list row) :
  (let t1 := if has_lifetime_col c then t else set_c_lifetime (Some 0%Z) <$> t in
   let t2 := if has_last_applied_col c then t1 else backfill_row <$> (set_c_last_applied_at (Some 0%Z) <$> t1) in
   let t3 := if has_rotation_col c then t2 else set_c_rotation_state (Some 0%Z) <$> t2 in
   if has_pending_col c then t3 else set_c_xor_key_pending (Some []) <$> t3) = migrate_row c <$> t.
Proof.
  cbv zeta. destruct c as [[] [] [] []]; cbn [has_lifetime_col has_last_applied_col has_rotation_col has_pending_col];
    rewrite <- ?list_fmap_compose; try (symmetry; apply list_fmap_id);
    apply list_fmap_ext; intros i r _; unfold compose; rewrite ?backfill_added; reflexivity.
Qed.

(** The column whose addition is followed by the back-fill. *)
Lemma wpx_last_applied c0 c t w w1 :
  has_last_applied_col c = has_last_applied_col c0 -> reached w c t w1 ->
  let add c := mkColumns (has_lifetime_col c) true (has_rotation_col c) (has_pending_col c) in
  wpx (if has_last_applied_col c0 then mret tt else
         require_ok (migrate_add_column has_last_applied_col add (set_c_last_applied_at (Some 0%Z)));;
         sqlite_step "backfill(last_applied_at)" backfill)
    (fun e _ => stopped w e)
    (fun _ _ => reached w (if has_last_applied_col c0 then c else add c)
       (if has_last_applied_col c0 then t else backfill_row <$> (set_c_last_applied_at (Some 0%Z) <$> t))) tt w1.
Proof.
  intros Hp Hr add.
  assert (addition has_last_applied_col add (set_c_last_applied_at (Some 0%Z))) as Hadd.
  { split; [by intros []; unfold cols_le; cbn; tauto|done..]. }
  pose proof (wpx_migrate_step _ _ _ _ _ _ _ _ Hadd Hp Hr) as Hstep.
  destruct (has_last_applied_col c0); [done|].
  apply wpx_bind. eapply wpx_mono; [exact Hstep|done|]. intros _ [] w2 H2. by apply wpx_backfill.
Qed.

Lemma wp_init_schema w :
  wp tumgrd_db_init_schema (fun rc w' => stopped w rc w' \/
    rc = 0%Z /\ exists c, reached w c (match w_cols w with Some c => migrate_row c <$> w_rows w | None => [] end) w' /\
      all_columns c = true) w.
Proof.
  apply wp_run, wpx_bind, wpx_bind, wpx_lift, wp_reads.
  destruct (w_conn w) eqn:Hconn; [apply wpx_ret|apply wpx_fail; left; split; [done|split; [reflexivity|by left]]].
  apply wpx_bind. eapply wpx_mono; [by apply wpx_create_table|by left|].
  intros _ [] w1 (c & t & H1 & Hw). apply wpx_bind, wpx_lift, wp_reads.
  pose proof H1 as (_ & -> & _).
  apply wpx_bind. eapply wpx_mono; [by apply wpx_probes|by left|].
  intros _ [] w2 H2.
  (* each step in turn, then the composition of the steps *)
  apply wpx_bind. eapply wpx_mono; [eapply (wpx_migrate_step has_lifetime_col); [|done|done]|by left|].
  { split; [by intros []; unfold cols_le; cbn; tauto|done..]. }
  intros _ [] w3 H3. apply wpx_bind.
  eapply wpx_mono; [eapply (wpx_last_applied c); [|done]; by destruct (has_lifetime_col c)|by left|].
  intros _ [] w4 H4. apply wpx_bind.
  eapply wpx_mono; [eapply (wpx_migrate_step has_rotation_col _ _ c); [| |done]|by left|].
  { split; [by intros []; unfold cols_le; cbn; tauto|done..]. }
  { by destruct c as [[] [] [] []]. }
  intros _ [] w5 H5.
  eapply wpx_mono; [eapply (wpx_migrate_step has_pending_col _ _ c); [| |done]|by left|].
  { split; [by intros []; unfold cols_le; cbn; tauto|done..]. }
  { by destruct c as [[] [] [] []]. }
  intros _ [] w6 H6. right. split; [done|]. eexists. split.
  - rewrite migrate_row_steps in H6.
    replace (match w_cols w with Some c => _ | None => _ end) with (migrate_row c <$> t); [exact H6|].
    by destruct (w_cols w); destruct Hw as [Hc ->]; [rewrite Hc|].
  - by destruct c as [[] [] [] []].
Qed.

(** C29: opening a database of any earlier release migrates it.  The call
    returns; it never touches keys or drops a column, even when it stops in the
    middle.  It stops only on a fault, with -1.  When it succeeds every column
    is there, and each row has a lifetime of 0, the time of its last update as
    the time it was last applied, and no rotation, in the columns that were
    missing; a table that lacked nothing is unchanged. *)
Theorem init_schema_migrates w :
  exists rc w', tumgrd_db_init_schema w = Some (rc, w') /\ migrates w w' /\
    (rc <> 0%Z -> rc = (-1)%Z /\ (w_conn w = false \/ failed_between w w')) /\
    (rc = 0%Z -> (exists c', w_cols w' = Some c' /\ all_columns c' = true) /\
       w_rows w' = match w_cols w with Some c => migrate_row c <$> w_rows w | None => [] end).
Proof.
  apply (total_wp (fun _ => True) _ (fun rc w' => _) w); [done|].
  eapply wp_mono; [apply wp_init_schema|]. intros rc w' H.
  destruct H as [H|(-> & c & (Hm & Hc & Ht & _) & Hall)]; [destruct H as (-> & Hm & Hf)|].
  - by split_and!.
  - split_and!; [done|done|]. intros _. split; [by exists c|]. by rewrite Ht.
Qed.
End Migration.

(** ** Witnesses and a finding *)
Definition sample_rotating : row :=
  set_rotation "k1" TUMGRD_ROTATION_PENDING_REMOTE 1700000000 (row_of_node (filled 1 1 sample_node) true).
Definition rotating_world : world := world_with (mkColumns true true true true) [sample_rotating].

Lemma empty_table_ok : table_ok [].
Proof. split; constructor. Qed.
Lemma single_table_ok r : table_ok [r].
Proof. split; apply NoDup_singleton. Qed.
Lemma new_world_ready : db_ready new_world.
Proof. split; [done|]. by eexists. Qed.

Lemma db_refines_map_witness :
  exists rcs w', @run_ops ready_env [OpUpsert sample_node true; OpDelete (node_key sample_node)] new_world
    = Some (rcs, w') /\ table_ok (w_rows w').
Proof.
  destruct (@db_refines_map ready_env [OpUpsert sample_node true; OpDelete (node_key sample_node)] new_world
    empty_table_ok new_world_ready) as (rcs & w' & Heq & Hok & _).
  exists rcs, w'. split; [exact Heq|exact Hok].
Defined.

Lemma rotation_state_machine_witness :
  exists rcs w', @run_ops ready_env [OpReplace (node_key sample_node) "k2" 5] rotating_world = Some (rcs, w')
    /\ db_invariant (w_rows w').
Proof.
  destruct (@rotation_state_machine ready_env [OpReplace (node_key sample_node) "k2" 5] rotating_world)
    as (rcs & w' & Heq & _ & Hinv).
  - split; [apply single_table_ok|]. apply Forall_singleton, set_rotation_ok; [by apply key_ok_compute|done].
  - apply Forall_singleton. by apply key_ok_compute.
  - exists rcs, w'. split; [exact Heq|exact Hinv].
Defined.

Lemma upsert_keeps_rotation_witness :
  exists rc w' r, @tumgrd_db_upsert_node ready_env (set_xor_key "other" sample_node) false rotating_world = Some (rc, w')
    /\ store w' !! node_key sample_node = Some r /\ c_xor_key r = Some (literal "k1").
Proof.
  destruct (@upsert_keeps_rotation ready_env (set_xor_key "other" sample_node) false sample_rotating rotating_world
    (single_table_ok _)) as (rc & w' & r & Heq & Hr & _ & _ & Hx & _); [done|done|].
  exists rc, w', r. split; [exact Heq|split; [exact Hr|exact Hx]].
Defined.

Lemma register_then_get_witness :
  exists r w', @bind M (@M_bind) _ _ (@tumgrd_db_upsert_node ready_env sample_node true)
      (fun rc => got ← @tumgrd_db_get_node ready_env (node_key sample_node) node_zero; mret (rc, got)) new_world = Some (r, w') /\
    exists t1 t2, r = (0%Z, (0%Z, filled t1 t2 sample_node)).
Proof.
  destruct (@register_then_get ready_env sample_node node_zero new_world
    empty_table_ok new_world_ready sample_fits) as (r & w' & Hrun & [(t & _ & Hf)|Hr]).
  - intros t. cbn. lia.
  - done.
  - intros r _ _ Hr. by apply elem_of_nil in Hr.
  - discriminate.
  - exists r, w'. split; [exact Hrun|exact Hr].
Defined.

Lemma get_node_sane_witness :
  exists rc n w', @tumgrd_db_get_node ready_env (node_key sample_node) node_zero rotating_world = Some ((rc, n), w')
    /\ calm rotating_world w'.
Proof.
  destruct (@get_node_sane ready_env (node_key sample_node) node_zero rotating_world (single_table_ok _))
    as (rc & n & w' & Heq & Hc & _); [intros t; cbn; lia|].
  exists rc, n, w'. split; [exact Heq|exact Hc].
Defined.

(** The migration that adds [last_applied_at] is not atomic.  If the
    engine fails between the ALTER and the back-fill, the next start finds the
    column, reports success, and leaves the time at 0 for good, although the
    row has a time of last update to copy. *)
Theorem interrupted_backfill_is_lost :
  let old := world_with (mkColumns true false true true) [sample_rotating] in
  let fault := quiet_env (fun t => negb (t =? 22)) in
  exists w1 w2, @tumgrd_db_init_schema fault old = Some ((-1)%Z, w1) /\
    @tumgrd_db_init_schema ready_env w1 = Some (0%Z, w2) /\
    (exists r, w_rows w2 = [r] /\ c_last_updated r = Some 1700000000%Z /\ c_last_applied_at r = Some 0%Z) /\
    (exists w3, @tumgrd_db_init_schema ready_env old = Some (0%Z, w3) /\
       exists r, w_rows w3 = [r] /\ c_last_applied_at r = Some 1700000000%Z).
Proof.
  do 2 eexists. split; [vm_compute; reflexivity|]. split; [vm_compute; reflexivity|]. split.
  - eexists. split; [vm_compute; reflexivity|]. by split.
  - eexists. split; [vm_compute; reflexivity|]. eexists. split; [vm_compute; reflexivity|]. done.
Qed.
