(* ===== verification/Exec.v ===== *)
(** * Exec: the watchdog and the supervised child of runner.c

    [exec_with_stdio] runs one child under a deadline: it makes three pipes,
    spawns the child in a process group of its own, feeds it, reads both of
    its outputs and reaps it.  Every system call is an answer of the
    environment, and SIGALRM can arrive at any of them.

    The interface of the component is the class [Exec] and its laws
    [ExecLaws]; the rest of the runner is verified against it. *)

From S2P Require Import Prelude CLib Types World Logic Helper.

Definition TUMGRD_MEMLIMIT_ENV_EQ : cstr := "TUTUICMPTUNNEL_PWHASH_MEMLIMIT=".

Section Exec.
Context `{E : Env}.

(** ** The deadline *)

(** [installed] is the outcome of [sigaction(SIGALRM)]. *)
Definition tumgrd_runner_install_watchdog : M unit :=
  installed ← succeeds; modify (set_w_usable installed).

(** [alarm(0)], drop a pending SIGALRM, clear the flag, [alarm(TIMEOUT)]. *)
Definition watchdog_arm : M unit :=
  modify (fun w => set_w_armed (w_usable w) (set_w_timed_out false w)).

Definition watchdog_disarm : M unit := modify (set_w_armed false).

(** [waitpid(pid, ...)]; a child is gone once it has been waited for. *)
Definition waitpid (pid : Z) : M (sysres (exit_status + wait_error)) :=
  r ← blocking env_waitpid;
  match r with
  | SOk (inl st) => emit (EvReap pid st);; mret r
  | _ => mret r
  end.

(** [while (waitpid(pid, NULL, 0) < 0)]: on EINTR, kill and try again. *)
Definition reap_killed (pid : Z) : M unit :=
  retry (r ← waitpid pid;
         match r with
         | SEintr => emit (EvKill pid);; mret None
         | _ => mret (Some tt)
         end).

Definition watchdog_check (pid : Z) : M Z :=
  timed_out ← reads w_timed_out;
  if negb timed_out then mret 0%Z
  else
    (if (0 <? pid)%Z then emit (EvKill (- pid));; reap_killed pid else mret tt);;
    mret (-1)%Z.

(** ** Pipes *)
Definition set_cloexec (fd : Z) : M Z :=
  flags ← succeeds;
  if negb flags then mret (-1)%Z else ok ← succeeds; mret (if (ok : bool) then 0 else -1)%Z.

(** The return code and [*fd]. *)
Definition prepare_pipe_end (fd : Z) : M (Z * Z) :=
  if (fd <? 3)%Z then
    ok ← succeeds;
    if negb ok then mret (-1, fd)%Z
    else newfd ← alloc_fd 3; close fd;; mret (0%Z, newfd)
  else rc ← set_cloexec fd; mret (rc, fd).

Definition pipe : M (option (Z * Z)) :=
  ok ← succeeds;
  if (ok : bool) then r ← alloc_fd 0; w ← alloc_fd 0; mret (Some (r, w)) else mret None.

(** ** Reading an output of the child *)

(** One [read]: [None] to go round again, [Some None] to give up. *)
Definition read_some (n : nat) : M (option (option (list ascii))) :=
  r ← blocking env_read;
  timed_out ← reads w_timed_out;
  match r with
  | SOk d => mret (Some (Some (take n d)))
  | SEintr => mret (if (timed_out : bool) then Some None else None)
  | SErr => mret (Some None)
  | SHang => hang
  end.

Fixpoint read_loop (rounds room : nat) (buf : list ascii) : M (Z * list ascii) :=
  match rounds with
  | O => hang
  | S rounds' =>
      r ← retry (read_some (room - length buf));
      match r with
      | None => mret (-1, buf)%Z
      | Some [] => mret (0%Z, buf)
      | Some d =>
          if (room <=? length (buf ++ d)) then mret (0%Z, buf ++ d)
          else read_loop rounds' room (buf ++ d)
      end
  end.

(** The return code and the string left in the buffer.  Every read but the
    last adds a byte, so [buf_len] rounds are enough. *)
Definition read_all_fd (fd : Z) (buf_len : nat) : M (Z * cstr) :=
  if (buf_len =? 0) then mret (-1, [])%Z
  else r ← read_loop buf_len (buf_len - 1) []; mret (r.1, upto_nul r.2).

(** ** Writing the input of the child *)

(** One [write] of these bytes to the pipe: how many went in, to go round again
    ([None]), or to give up.  A [write] that takes nothing leads back to the
    head of the loop, where the deadline is looked at. *)
Definition write_some (data : list ascii) : M (option (option nat)) :=
  r ← blocking env_write;
  timed_out ← reads w_timed_out;
  match r with
  | SOk k =>
      let n := Nat.min (length data) (Z.to_nat k) in
      if (n =? 0) then mret (if (timed_out : bool) then Some None else None)
      else emit (EvWrite (take n data));; mret (Some (Some n))
  | SEintr => mret (if (timed_out : bool) then Some None else None)
  | SErr => mret (Some None)
  | SHang => hang
  end.

(** Every round but the last writes a byte, so [strlen(stdin_data)] rounds are
    enough. *)
Fixpoint write_loop (rounds : nat) (stdin_data : cstr) (written : nat) : M unit :=
  if (written <? length stdin_data) then
    timed_out ← reads w_timed_out;
    if (timed_out : bool) then mret tt else
    match rounds with
    | O => hang
    | S rounds' =>
        r ← retry (write_some (drop written stdin_data));
        match r with
        | None => mret tt
        | Some n => write_loop rounds' stdin_data (written + n)
        end
    end
  else mret tt.

(** ** The environment of the child *)
Definition child_environ (has_memlimit memlimit : Z) : list cstr :=
  if negb (has_memlimit =? 0)%Z then
    filter (fun v => has_prefix TUMGRD_MEMLIMIT_ENV_EQ v = false) env_environ
      ++ [snprintf_s 64 (TUMGRD_MEMLIMIT_ENV_EQ ++ fmt_u (uint32 memlimit))]
  else env_environ.

(** ** [exec_with_stdio]

    The locals that its clean-up needs: the six pipe ends, in the order
    stdin_pipe[0], stdin_pipe[1], stdout_pipe[0], ..., with -1 for a closed
    one; and the two output buffers. *)
Record exec_locals := mkExecLocals {
  pipe_ends : list Z;
  stdout_buf : cstr;
  stderr_buf : cstr
}.

Definition STDIN_R : nat := 0.
Definition STDIN_W : nat := 1.
Definition STDOUT_R : nat := 2.
Definition STDOUT_W : nat := 3.
Definition STDERR_R : nat := 4.
Definition STDERR_W : nat := 5.

Definition get_end (i : nat) (l : exec_locals) : Z := default (-1)%Z (pipe_ends l !! i).
Definition set_end (i : nat) (fd : Z) (l : exec_locals) : exec_locals :=
  mkExecLocals (<[i := fd]> (pipe_ends l)) (stdout_buf l) (stderr_buf l).
Definition set_stdout_buf (s : cstr) (l : exec_locals) : exec_locals := mkExecLocals (pipe_ends l) s (stderr_buf l).
Definition set_stderr_buf (s : cstr) (l : exec_locals) : exec_locals := mkExecLocals (pipe_ends l) (stdout_buf l) s.

Definition exec_locals_init : exec_locals := mkExecLocals (replicate 6 (-1)%Z) [] [].

Definition prepare_end (i : nat) : X exec_locals unit :=
  l ← local;
  r ← lift (prepare_pipe_end (get_end i l));
  assign (set_end i r.2);;
  if (r.1 <? 0)%Z then fail r.1 else mret tt.

(** [try2(pipe(p)); try2(prepare_pipe_end(&p[0])); try2(prepare_pipe_end(&p[1]))] *)
Definition open_pipe (r_end w_end : nat) : X exec_locals unit :=
  p ← lift pipe;
  match p with
  | None => fail (-1)%Z
  | Some (r, w) =>
      assign (fun l => set_end w_end w (set_end r_end r l));;
      prepare_end r_end;; prepare_end w_end
  end.

Definition open_pipes : X exec_locals unit :=
  open_pipe STDIN_R STDIN_W;; open_pipe STDOUT_R STDOUT_W;; open_pipe STDERR_R STDERR_W.

(** A call that allocates, and returns NULL or the positive number of the error. *)
Definition try_setup : X exec_locals unit := try2_p succeeds.

Fixpoint setup_calls (n : nat) : X exec_locals unit :=
  match n with O => mret tt | S n' => try_setup;; setup_calls n' end.

(** File actions, attributes, the environment, and the spawn itself. *)
Definition spawn_child (argv : list cstr) (stdin_data : cstr) (has_memlimit memlimit : Z) : X exec_locals Z :=
  setup_calls 4;;                              (* file_actions_init, three adddup2 *)
  setup_calls 4;;                              (* attr_init, sigdefault, pgroup, flags *)
  (if negb (has_memlimit =? 0)%Z then setup_calls 2 else mret tt);;   (* calloc, strdup *)
  ok ← lift succeeds;                          (* posix_spawnp *)
  if (ok : bool) then
    pid ← lift (call env_pid);
    lift (emit (EvSpawn pid argv stdin_data (child_environ has_memlimit memlimit)));;
    mret pid
  else fail (-1)%Z.

Definition close_end (i : nat) : X exec_locals unit :=
  l ← local; lift (close (get_end i l));; assign (set_end i (-1)%Z).

Definition check (pid : Z) : X exec_locals Z := try2 (watchdog_check pid).

Definition feed_child (pid : Z) (stdin_data : cstr) : X exec_locals unit :=
  close_end STDIN_R;; close_end STDOUT_W;; close_end STDERR_W;;
  lift (write_loop (length stdin_data) stdin_data 0);;
  close_end STDIN_W;;
  check pid;; mret tt.

(** One output is read to its buffer, its pipe closed, the deadline checked. *)
Definition drain_output (pid : Z) (r_end : nat) (set : cstr -> exec_locals -> exec_locals) (len : nat) : X exec_locals unit :=
  l ← local;
  (if (0 <? len) then r ← lift (read_all_fd (get_end r_end l) len); assign (set r.2) else mret tt);;
  close_end r_end;;
  check pid;; mret tt.

Definition drain_child (pid : Z) (stdout_len stderr_len : nat) : X exec_locals unit :=
  drain_output pid STDOUT_R set_stdout_buf stdout_len;;
  drain_output pid STDERR_R set_stderr_buf stderr_len.

(** One [waitpid] of the loop: [None] to go round again, or the status, or the
    error that ends the block. *)
Definition wait_once (pid : Z) : M (option (option exit_status)) :=
  r ← waitpid pid;
  timed_out ← reads w_timed_out;
  match r with
  | SOk (inl st) => mret (Some (Some st))
  | SEintr =>
      if (timed_out : bool) then watchdog_check pid;; mret (Some None) else mret None
  | _ => mret (Some None)
  end.

Definition await_child (pid : Z) : X exec_locals unit :=
  r ← lift (retry (wait_once pid));
  match r with
  | None => fail (-1)%Z
  | Some st =>
      check (-1)%Z;;
      match st with
      | Exited code => if (code =? 0)%Z then mret tt else fail (-1)%Z
      | Signaled _ => fail (-1)%Z
      end
  end.

Definition close_if_open (fd : Z) : M unit := if (0 <=? fd)%Z then close fd else mret tt.

Fixpoint close_all (fds : list Z) : M unit :=
  match fds with [] => mret tt | fd :: fds' => close_if_open fd;; close_all fds' end.

(** From the label [err_cleanup]. *)
Definition exec_cleanup (err : Z) (l : exec_locals) : M unit :=
  watchdog_disarm;;
  (if (err =? 0)%Z then modify (set_w_timed_out false) else mret tt);;
  close_all (pipe_ends l).

(** The block between [watchdog_arm] and [err_cleanup]. *)
Definition exec_body (argv : list cstr) (stdin_data : cstr) (has_memlimit memlimit : Z)
    (stdout_len stderr_len : nat) : X exec_locals unit :=
  open_pipes;;
  pid ← spawn_child argv stdin_data has_memlimit memlimit;
  check pid;;
  feed_child pid stdin_data;;
  drain_child pid stdout_len stderr_len;;
  await_child pid.

(** The return code and the two output buffers; no input is the empty string. *)
Definition exec_with_stdio (argv : list cstr) (stdin_data : cstr) (has_memlimit memlimit : Z)
    (stdout_len stderr_len : nat) : M (Z * (cstr * cstr)) :=
  match argv with
  | [] => mret ((-1)%Z, ([], []))
  | _ :: _ =>
      watchdog_arm;;
      r ← exec_body argv stdin_data has_memlimit memlimit stdout_len stderr_len exec_locals_init;
      let err := match r.1 with inl e => e | inr _ => 0%Z end in
      exec_cleanup err r.2;;
      mret (err, (stdout_buf r.2, stderr_buf r.2))
  end.

End Exec.
