(* ===== verification/ExecSpec.v ===== *)
(** * ExecSpec: what the supervised child promises

    No descriptor leaks on any path, signals go only to a child that has not
    been reaped, success means an exit status of 0 within the deadline, and
    the deadline bounds a child that hangs. *)

From S2P Require Import Prelude CLib Types World Logic Helper Exec.

(** ** Descriptors

    [holds base es s]: the open descriptors [s] are those of the caller and the
    pipe ends [es], which are the callee's own. *)
Definition holds (base : gset Z) (es : list Z) (s : gset Z) : Prop :=
  NoDup es /\ (forall x, x ∈ es -> x ∉ base /\ (0 <= x)%Z) /\ s = base ∪ list_to_set es.

#[export] Instance holds_proper base : Proper ((≡ₚ) ==> (=) ==> iff) (holds base).
Proof.
  intros es es' Hp s s' <-. unfold holds.
  assert (list_to_set es = (list_to_set es' : gset Z)) as -> by (apply set_eq; intros x; by rewrite !elem_of_list_to_set, Hp).
  by setoid_rewrite Hp.
Qed.

Lemma holds_alloc base es s fd : holds base es s -> fd ∉ s -> (0 <= fd)%Z -> holds base (fd :: es) ({[fd]} ∪ s).
Proof.
  intros (Hnd & Hes & ->) Hfd Hpos. rewrite not_elem_of_union, elem_of_list_to_set in Hfd.
  destruct Hfd as [Hb He]. split_and!; [by constructor| |cbn; set_solver].
  intros x [->|Hx]%elem_of_cons; auto.
Qed.

Lemma holds_close base es s fd : holds base (fd :: es) s -> holds base es (s ∖ {[fd]}).
Proof.
  intros (Hnd & Hes & ->). apply NoDup_cons in Hnd as [Hfd Hnd].
  destruct (Hes fd) as [Hb _]; [by left|]. split_and!; [done| |].
  - intros x Hx. apply Hes. by right.
  - apply set_eq. intros x. cbn. rewrite elem_of_difference, !elem_of_union, elem_of_singleton, elem_of_list_to_set.
    naive_solver.
Qed.

Lemma holds_close_none base es s : holds base es s -> (-1)%Z ∉ base -> s ∖ {[(-1)%Z]} = s.
Proof.
  intros (_ & Hes & ->) Hb. apply set_eq. intros x.
  rewrite elem_of_difference, elem_of_singleton, elem_of_union, elem_of_list_to_set.
  split; [tauto|]. intros Hx. split; [done|]. intros ->.
  destruct Hx as [Hx|Hx]; [done|]. destruct (Hes _ Hx). lia.
Qed.

Definition open_ends (l : exec_locals) : list Z := filter (fun fd => 0 <= fd)%Z (pipe_ends l).

(** The open descriptors are the caller's and the ends that the locals name. *)
Definition owns (base : gset Z) (l : exec_locals) (w : world) : Prop :=
  length (pipe_ends l) = 6 /\ Forall (fun fd => -1 <= fd)%Z (pipe_ends l) /\ (-1)%Z ∉ base /\ holds base (open_ends l) (w_fds w).

Lemma get_set_end i j fd l :
  i < length (pipe_ends l) -> get_end j (set_end i fd l) = if decide (i = j) then fd else get_end j l.
Proof.
  intros Hi. unfold get_end, set_end. cbn. case_decide as Hij.
  - subst. by rewrite list_lookup_insert_eq.
  - by rewrite list_lookup_insert_ne.
Qed.

Lemma set_end_length i fd l : length (pipe_ends (set_end i fd l)) = length (pipe_ends l).
Proof. apply length_insert. Qed.

(** The open ends, with the one at index [i] in front. *)
Lemma open_ends_at i l :
  i < length (pipe_ends l) -> exists rest,
    open_ends l ≡ₚ filter (fun fd => 0 <= fd)%Z [get_end i l] ++ rest /\
    forall fd, open_ends (set_end i fd l) ≡ₚ filter (fun fd => 0 <= fd)%Z [fd] ++ rest.
Proof.
  intros Hi. destruct (lookup_lt_is_Some_2 _ _ Hi) as [x Hx].
  exists (filter (fun fd => 0 <= fd)%Z (take i (pipe_ends l) ++ drop (S i) (pipe_ends l))).
  unfold open_ends, get_end. rewrite Hx. cbn [default from_option id]. split.
  - rewrite <- filter_app. by rewrite <- (take_drop_middle _ _ _ Hx) at 1; rewrite <- Permutation_middle.
  - intros fd. rewrite <- filter_app. unfold set_end. cbn [pipe_ends].
    rewrite insert_take_drop by done. by rewrite <- Permutation_middle.
Qed.

Section Fds.
Context `{E : Env}.
Implicit Types (l : exec_locals) (w : world).

Lemma wp_alloc_fd lo base es w (Q : Z -> world -> Prop) :
  (0 <= lo)%Z -> holds base es (w_fds w) ->
  (forall fd s, holds base (fd :: es) s -> (lo <= fd)%Z -> Q fd (set_w_fds s w)) -> wp (alloc_fd lo) Q w.
Proof.
  intros Hlo Hh HQ. unfold wp, alloc_fd. cbv zeta.
  pose proof (new_fd_spec lo (w_fds w)) as [Hfresh Hge]. apply HQ; [|done].
  apply holds_alloc; [done..|lia].
Qed.

Lemma calm_fds w w' : calm w w' -> w_fds w' = w_fds w.
Proof. intros (_ & _ & _ & _ & _ & Hf & _)%calm_fields. exact Hf. Qed.

Lemma wp_pipe base es w :
  holds base es (w_fds w) ->
  wp pipe (fun r w' => match r with
    | None => holds base es (w_fds w')
    | Some (a, b) => holds base (a :: b :: es) (w_fds w') end) w.
Proof.
  intros Hh. apply wp_bind, wp_succeeds. intros w1 H1 _. pose proof (calm_fds _ _ H1) as Hf.
  destruct (env_ok _); [|apply wp_ret; by rewrite Hf].
  apply wp_bind. apply (wp_alloc_fd 0 base es); [done|by rewrite Hf|]. intros a s Ha _.
  apply wp_bind. apply (wp_alloc_fd 0 base (a :: es)); [done|done|]. intros b s' Hb _.
  apply wp_ret. cbn. by rewrite (Permutation_swap b a).
Qed.

Lemma wp_prepare_pipe_end base es fd w :
  holds base (fd :: es) (w_fds w) ->
  wp (prepare_pipe_end fd) (fun r w' => holds base (r.2 :: es) (w_fds w')) w.
Proof.
  intros Hh. unfold prepare_pipe_end. destruct (fd <? 3)%Z; apply wp_bind.
  - apply wp_succeeds. intros w1 H1 _. pose proof (calm_fds _ _ H1) as Hf.
    destruct (env_ok _); cbn [negb]; [|apply wp_ret; cbn; by rewrite Hf].
    apply wp_bind, (wp_alloc_fd 3 base (fd :: es)); [done|by rewrite Hf|].
    intros newfd s Hs _. apply wp_bind, wp_modify, wp_ret. cbn.
    apply holds_close. by rewrite (Permutation_swap newfd fd).
  - eapply wp_mono; [unfold set_cloexec, succeeds; wp_frame same_os|].
    intros rc w' (Hf & _). apply wp_ret. cbn. by rewrite Hf.
Qed.

(** *** The blocks of [exec_with_stdio] *)
Lemma owns_same_os base l w w' : same_os w w' -> owns base l w -> owns base l w'.
Proof. intros (Hf & _) H. unfold owns. by rewrite Hf. Qed.

(** A block that touches neither the descriptors nor the pipe ends. *)
Lemma wpx_lift_owns {A} (m : M A) base l w (Q : A -> exec_locals -> world -> Prop) QE :
  Respects same_os m -> owns base l w -> (forall a w', owns base l w' -> Q a l w') -> wpx (lift m) QE Q l w.
Proof.
  intros Hm Ho HQ. apply wpx_lift. eapply wp_mono; [wp_frame same_os|].
  intros a w' Hw'. apply HQ. exact (owns_same_os _ _ _ _ Hw' Ho).
Qed.

Lemma owns_set base l i fd s w w' :
  i < 6 -> owns base l w -> (-1 <= fd)%Z -> w_fds w' = s ->
  (forall rest, open_ends l ≡ₚ filter (fun fd => 0 <= fd)%Z [get_end i l] ++ rest ->
     holds base (filter (fun fd => 0 <= fd)%Z [fd] ++ rest) s) ->
  owns base (set_end i fd l) w'.
Proof.
  intros Hi (Hlen & Hge & Hb & Hh) Hfd <- HQ. split; [by rewrite set_end_length|].
  split; [by apply Forall_insert|]. split; [done|].
  destruct (open_ends_at i l) as (rest & Hl & Hset); [lia|]. rewrite Hset. by apply HQ.
Qed.

Lemma get_end_ge base i l w : owns base l w -> (-1 <= get_end i l)%Z.
Proof.
  intros (_ & Hge & _). unfold get_end. destruct (pipe_ends l !! i) as [x|] eqn:Hx; [|done].
  by apply (Forall_lookup_1 _ _ _ _ Hge Hx).
Qed.

Lemma filter_open fd : (-1 <= fd)%Z ->
  filter (fun fd => 0 <= fd)%Z [fd] = [fd] /\ (0 <= fd)%Z \/ filter (fun fd => 0 <= fd)%Z [fd] = [] /\ fd = (-1)%Z.
Proof. intros Hfd. rewrite filter_cons. case_decide; [by left|right; split; [done|lia]]. Qed.

(** Closing an end, which may be closed already. *)
Lemma owns_close base l i w w' :
  i < 6 -> owns base l w -> w_fds w' = w_fds w ∖ {[get_end i l]} -> owns base (set_end i (-1)%Z l) w'.
Proof.
  intros Hi Ho Hf. eapply owns_set; [done|exact Ho|done|exact Hf|]. intros rest Hl.
  pose proof Ho as (_ & _ & Hb & Hh). rewrite Hl in Hh. cbn.
  destruct (filter_open _ (get_end_ge _ i _ _ Ho)) as [[Heq _]|[Heq Hc]]; rewrite Heq in Hh; cbn in Hh.
  - by apply holds_close.
  - rewrite Hc. by erewrite holds_close_none.
Qed.

Lemma wpx_close_end i base l w QE (Q : unit -> exec_locals -> world -> Prop) :
  i < 6 -> owns base l w -> (forall l' w', owns base l' w' -> Q tt l' w') -> wpx (close_end i) QE Q l w.
Proof.
  intros Hi Ho HQ. apply wpx_bind, wpx_local, wpx_bind, wpx_lift, wp_modify, wpx_assign, HQ.
  by eapply owns_close.
Qed.

Lemma wpx_prepare_end i base l w :
  i < 6 -> (0 <= get_end i l)%Z -> owns base l w ->
  wpx (prepare_end i) (fun _ l' w' => owns base l' w')
    (fun _ l' w' => owns base l' w' /\ forall j, j <> i -> get_end j l' = get_end j l) l w.
Proof.
  intros Hi Hopen Ho. apply wpx_bind, wpx_local, wpx_bind, wpx_lift.
  destruct (open_ends_at i l) as (rest & Hl & Hset); [destruct Ho; lia|].
  pose proof Ho as (Hlen & Hge & Hb & Hh). rewrite Hl, filter_cons, decide_True in Hh by done. cbn in Hh.
  eapply wp_mono; [by apply wp_prepare_pipe_end|]. intros [rc fd] w' Hh'. cbn [fst snd] in *.
  apply wpx_bind, wpx_assign.
  assert (0 <= fd)%Z as Hfd by (destruct Hh' as (_ & Hes & _); apply Hes; by left).
  assert (owns base (set_end i fd l) w') as Ho'.
  { split; [by rewrite set_end_length|]. split; [apply Forall_insert; [done|lia]|]. split; [done|].
    by rewrite Hset, filter_cons, decide_True. }
  destruct (rc <? 0)%Z; [by apply wpx_fail|apply wpx_ret]. split; [done|].
  intros j Hj. rewrite get_set_end by lia. by rewrite decide_False.
Qed.

Lemma wpx_open_pipe i j base l w :
  i < 6 -> j < 6 -> i <> j -> get_end i l = (-1)%Z -> get_end j l = (-1)%Z -> owns base l w ->
  wpx (open_pipe i j) (fun _ l' w' => owns base l' w')
    (fun _ l' w' => owns base l' w' /\ forall k, k <> i -> k <> j -> get_end k l' = get_end k l) l w.
Proof.
  intros Hi Hj Hij Hgi Hgj Ho. pose proof Ho as (Hlen & Hge & Hb & Hh).
  apply wpx_bind, wpx_lift. eapply wp_mono; [by apply wp_pipe|]. intros [[a b]|] w1 Hp; [|by apply wpx_fail].
  apply wpx_bind, wpx_assign.
  assert (0 <= a /\ 0 <= b)%Z as [Ha Hb'].
  { destruct Hp as (_ & Hes & _). split; apply Hes; set_solver. }
  set (l1 := set_end j b (set_end i a l)).
  assert (owns base l1 w1) as H1.
  { destruct (open_ends_at i l) as (r1 & Hl1 & Hs1); [lia|].
    destruct (open_ends_at j (set_end i a l)) as (r2 & Hl2 & Hs2); [rewrite set_end_length; lia|].
    split; [by unfold l1; rewrite !set_end_length|]. split; [repeat apply Forall_insert; [done|lia..]|].
    split; [done|]. unfold l1. rewrite Hs2, filter_cons, decide_True by done. cbn.
    rewrite get_set_end, decide_False, Hgj in Hl2 by (done || lia). rewrite Hgi in Hl1.
    rewrite Hs1, !filter_cons, decide_True in Hl2 by done.
    change (open_ends l ≡ₚ r1) in Hl1. change (a :: r1 ≡ₚ r2) in Hl2.
    by rewrite <- Hl2, <- Hl1, (Permutation_swap a b). }
  assert (forall k, get_end k l1 = if decide (j = k) then b else if decide (i = k) then a else get_end k l) as Hget.
  { intros k. unfold l1. rewrite !get_set_end; [done|lia|rewrite set_end_length; lia]. }
  apply wpx_bind. eapply wpx_mono; [apply (wpx_prepare_end i base); [done| |done]|done|].
  { rewrite Hget, decide_False, decide_True by done. done. }
  intros _ l2 w2 [H2 Hk2]. eapply wpx_mono; [apply (wpx_prepare_end j base); [done| |done]|done|].
  { rewrite Hk2, Hget, decide_True by done. done. }
  intros _ l3 w3 [H3 Hk3]. split; [done|]. intros k Hki Hkj.
  rewrite Hk3, Hk2, Hget, !decide_False by done. done.
Qed.

Lemma wpx_open_pipes base w :
  (-1)%Z ∉ base -> w_fds w = base ->
  wpx open_pipes (fun _ l' w' => owns base l' w') (fun _ l' w' => owns base l' w') exec_locals_init w.
Proof.
  intros Hb Hf.
  assert (owns base exec_locals_init w) as H0.
  { split; [done|]. split; [by repeat constructor|]. split; [done|]. unfold holds. rewrite Hf. cbn.
    split_and!; [constructor|by intros x Hx%elem_of_nil|set_solver]. }
  apply wpx_bind. eapply wpx_mono; [apply (wpx_open_pipe STDIN_R STDIN_W base); try done; unfold STDIN_R, STDIN_W; lia|done|].
  intros _ l1 w1 [H1 Hk1]. apply wpx_bind.
  eapply wpx_mono; [apply (wpx_open_pipe STDOUT_R STDOUT_W base); rewrite ?Hk1; try done; unfold STDOUT_R, STDOUT_W; lia|done|].
  intros _ l2 w2 [H2 Hk2].
  eapply wpx_mono; [apply (wpx_open_pipe STDERR_R STDERR_W base); rewrite ?Hk2, ?Hk1; try done; unfold STDERR_R, STDERR_W; lia|done|].
  by intros _ l3 w3 [H3 _].
Qed.

(** *** The other blocks leave the descriptors alone *)
Section Instances.
Context (R : relation world) `{!Silent R}.

#[export] Instance respects_read_loop rounds room buf : Respects R (read_loop rounds room buf).
Proof. revert buf. induction rounds; intros buf; cbn [read_loop]; unfold read_some; apply _. Qed.
#[export] Instance respects_read_all_fd fd n : Respects R (read_all_fd fd n).
Proof. unfold read_all_fd. apply _. Qed.
#[export] Instance respects_setup_calls n : RespectsX R (setup_calls n).
Proof. induction n; cbn [setup_calls]; unfold try_setup, succeeds; apply _. Qed.

Context `{!forall e, Allows R e}.
#[export] Instance respects_write_loop rounds input written : Respects R (write_loop rounds input written).
Proof. revert written. induction rounds; intros written; cbn [write_loop]; unfold write_some; apply _. Qed.
#[export] Instance respects_watchdog_check pid : Respects R (watchdog_check pid).
Proof. unfold watchdog_check, reap_killed, waitpid. apply _. Qed.
#[export] Instance respects_wait_once pid : Respects R (wait_once pid).
Proof. unfold wait_once, waitpid. apply _. Qed.
#[export] Instance respects_spawn_child argv input has mem : RespectsX R (spawn_child argv input has mem).
Proof. unfold spawn_child, succeeds. apply _. Qed.
End Instances.

Lemma wpx_check_owns base l w pid (Q : Z -> exec_locals -> world -> Prop) :
  owns base l w -> (forall rc w', owns base l w' -> Q rc l w') ->
  wpx (check pid) (fun _ => owns base) Q l w.
Proof.
  intros Ho HQ. apply wpx_try2. eapply wp_mono; [wp_frame same_os|].
  intros rc w' Hw'. pose proof (owns_same_os _ _ _ _ Hw' Ho). destruct (rc <? 0)%Z; auto.
Qed.

Lemma wpx_respects_owns {A} (m : X exec_locals A) base l w :
  RespectsX same_os m -> (forall l w, wpx m (fun _ l' _ => pipe_ends l' = pipe_ends l) (fun _ l' _ => pipe_ends l' = pipe_ends l) l w) ->
  owns base l w -> wpx m (fun _ => owns base) (fun _ => owns base) l w.
Proof.
  intros HR Hm Ho. unfold wpx. eapply wp_mono; [apply wp_and; [apply (Hm l w)|apply (wp_respects same_os (m l))]|].
  intros [[e|a] l'] w' [Hl Hs]; cbn in *; (eapply owns_same_os; [exact Hs|]);
    destruct Ho as (H1 & H2 & H3 & H4); unfold owns, open_ends; by rewrite Hl.
Qed.

Lemma wpx_setup_calls_ends n l w (Q : unit -> exec_locals -> world -> Prop) QE :
  (forall w', QE (- ENOMEM)%Z l w') -> (forall w', Q tt l w') -> wpx (setup_calls n) QE Q l w.
Proof.
  intros HE HQ. revert w. induction n as [|n IH]; intros w; cbn [setup_calls]; [by apply wpx_ret|].
  apply wpx_bind, wpx_bind, wpx_lift, wp_succeeds. intros w' _ _.
  destruct (env_ok _); [by apply wpx_ret|by apply wpx_fail].
Qed.

Lemma wpx_spawn_child_owns argv input has mem base l w :
  owns base l w -> wpx (spawn_child argv input has mem) (fun _ => owns base) (fun _ => owns base) l w.
Proof.
  apply wpx_respects_owns; [apply _|]. clear l w. intros l w.
  apply wpx_bind, wpx_setup_calls_ends; [done|intros w1].
  apply wpx_bind, wpx_setup_calls_ends; [done|intros w2]. apply wpx_bind.
  set (rest := fun _ : unit => _).
  assert (forall w, rest tt l w) as Hrest.
  { intros w0. apply wpx_bind, wpx_lift, wp_succeeds. intros w3 _ _. destruct (env_ok _); [|by apply wpx_fail].
    apply wpx_bind, wpx_lift, wp_call, wpx_bind, wpx_lift, wp_emit. by apply wpx_ret. }
  destruct (negb _); [apply wpx_setup_calls_ends; [done|intros w3; apply Hrest]|by apply wpx_ret].
Qed.

Lemma wpx_feed_child_owns pid input base l w :
  owns base l w -> wpx (feed_child pid input) (fun _ => owns base) (fun _ => owns base) l w.
Proof.
  intros Ho.
  apply wpx_bind, (wpx_close_end STDIN_R base); [unfold STDIN_R; lia|done|]. intros l1 w1 H1.
  apply wpx_bind, (wpx_close_end STDOUT_W base); [unfold STDOUT_W; lia|done|]. intros l2 w2 H2.
  apply wpx_bind, (wpx_close_end STDERR_W base); [unfold STDERR_W; lia|done|]. intros l3 w3 H3.
  apply wpx_bind, (wpx_lift_owns _ base); [apply _|done|]. intros _ w4 H4.
  apply wpx_bind, (wpx_close_end STDIN_W base); [unfold STDIN_W; lia|done|]. intros l5 w5 H5.
  apply wpx_bind, wpx_check_owns; [done|]. intros _ w6 H6. by apply wpx_ret.
Qed.

Lemma wpx_drain_output_owns pid i set len base l w :
  i < 6 -> (forall s l, pipe_ends (set s l) = pipe_ends l) ->
  owns base l w -> wpx (drain_output pid i set len) (fun _ => owns base) (fun _ => owns base) l w.
Proof.
  intros Hi Hset Ho. apply wpx_bind, wpx_local, wpx_bind.
  assert (forall l w, owns base l w ->
    wpx (close_end i;; check pid;; mret tt) (fun _ => owns base) (fun _ => owns base) l w) as Hrest.
  { intros l0 w0 H0. apply wpx_bind, (wpx_close_end i base); [done|done|]. intros l1 w1 H1.
    apply wpx_bind, wpx_check_owns; [done|]. intros _ w2 H2. by apply wpx_ret. }
  destruct (0 <? len); [|by apply wpx_ret, Hrest].
  apply wpx_bind, (wpx_lift_owns _ base); [apply _|done|]. intros r w1 H1. apply wpx_assign, Hrest.
  destruct H1 as (? & ? & ? & ?). unfold owns, open_ends. by rewrite Hset.
Qed.

Lemma wpx_await_child_owns pid base l w :
  owns base l w -> wpx (await_child pid) (fun _ => owns base) (fun _ => owns base) l w.
Proof.
  intros Ho. apply wpx_bind, (wpx_lift_owns _ base); [apply _|done|]. intros [st|] w1 H1; [|by apply wpx_fail].
  apply wpx_bind, wpx_check_owns; [done|]. intros _ w2 H2.
  destruct st as [code|signo]; [destruct (code =? 0)%Z; [by apply wpx_ret|]|]; by apply wpx_fail.
Qed.

Lemma wpx_exec_body_owns argv input has mem n1 n2 base w :
  (-1)%Z ∉ base -> w_fds w = base ->
  wpx (exec_body argv input has mem n1 n2) (fun _ => owns base) (fun _ => owns base) exec_locals_init w.
Proof.
  intros Hb Hf. apply wpx_bind. eapply wpx_mono; [by apply (wpx_open_pipes base)|done|]. intros ? l1 w1 H1.
  apply wpx_bind. eapply wpx_mono; [by apply (wpx_spawn_child_owns _ _ _ _ base)|done|]. intros pid l2 w2 H2.
  apply wpx_bind, (wpx_check_owns base); [exact H2|]. intros _ w3 H3.
  apply wpx_bind. eapply wpx_mono; [by apply (wpx_feed_child_owns _ _ base)|done|]. intros ? l4 w4 H4.
  apply wpx_bind. eapply wpx_mono.
  { apply wpx_bind. eapply wpx_mono; [apply (wpx_drain_output_owns _ _ _ _ base); [unfold STDOUT_R; lia|done|exact H4]|done|].
    intros ? l5 w5 H5. apply (wpx_drain_output_owns _ _ _ _ base); [unfold STDERR_R; lia|done|exact H5]. }
  { done. }
  intros ? l6 w6 H6. by apply (wpx_await_child_owns _ base).
Qed.

(** *** Clean-up *)
Lemma wp_close_all base ends w :
  Forall (fun fd => -1 <= fd)%Z ends -> holds base (filter (fun fd => 0 <= fd)%Z ends) (w_fds w) ->
  wp (close_all ends) (fun _ w' => w_fds w' = base) w.
Proof.
  revert w. induction ends as [|fd ends IH]; intros w Hge Hh; cbn [close_all].
  - apply wp_ret. destruct Hh as (_ & _ & ->). cbn. set_solver.
  - apply Forall_cons in Hge as [Hfd Hge]. apply wp_bind. unfold close_if_open.
    rewrite filter_cons in Hh. destruct (Z.leb_spec 0 fd).
    + rewrite decide_True in Hh by done. apply wp_modify, IH; [done|]. by apply holds_close.
    + rewrite decide_False in Hh by lia. by apply wp_ret, IH.
Qed.
End Fds.

(** ** Signals and reaping

    What happens to a child after it was spawned, newest event first: bytes
    written to its standard input, signals to it or to its process group, and
    nothing once it has been reaped. *)
Inductive child_life (pid : Z) : bool -> list event -> Prop :=
| life_running : child_life pid false []
| life_write data t : child_life pid false t -> child_life pid false (EvWrite data :: t)
| life_signal target t :
    target = pid \/ target = (- pid)%Z -> child_life pid false t -> child_life pid false (EvKill target :: t)
| life_reaped st t : child_life pid false t -> child_life pid true (EvReap pid st :: t).

(** What went into the standard input of a child, in the order it was written. *)
Fixpoint written (t : list event) : cstr :=
  match t with
  | [] => []
  | EvWrite data :: t' => written t' ++ data
  | _ :: t' => written t'
  end.

Definition is_write (e : event) : Prop := match e with EvWrite _ => True | _ => False end.

Lemma writes_life pid t : Forall is_write t -> child_life pid false t.
Proof. induction 1 as [|[] t He _ IH]; try done; by constructor. Qed.

Section Protocol.
Context `{E : Env}.
Context (argv : list cstr) (input : cstr) (envp : list cstr) (w0 : world).
Implicit Types (w : world).

(** The child [pid] was spawned after [w0] and has been given a part of its
    input; [reaped] says whether it is gone. *)
Definition child_at (pid : Z) (reaped : bool) (w : world) : Prop :=
  exists t, w_trace w = t ++ EvSpawn pid argv input envp :: w_trace w0 /\ child_life pid reaped t /\
    written t `prefix_of` input.

(** Nothing was spawned, or one child and it was supervised. *)
Definition supervised (w : world) : Prop :=
  w_trace w = w_trace w0 \/ exists pid reaped, child_at pid reaped w.

(** All of the input was written, unless a [write] reported an error: the
    child closed its end. *)
Definition input_given (t : list event) (w : world) : Prop :=
  written t = input \/ during w0 w (fun n => env_write n = SErr).

(** The child runs; [fed]: the input has been dealt with. *)
Definition running (fed : bool) (pid : Z) (w : world) : Prop :=
  later w0 w /\ exists t, w_trace w = t ++ EvSpawn pid argv input envp :: w_trace w0 /\
    Forall is_write t /\ written t `prefix_of` input /\ (fed = true -> input_given t w).

Lemma running_at fed pid w : running fed pid w -> child_at pid false w.
Proof. intros (_ & t & Ht & Hw & Hp & _). exists t. split_and!; [done| |done]. by apply writes_life. Qed.

Lemma running_same fed pid w w' :
  w_trace w' = w_trace w -> later w w' -> running fed pid w -> running fed pid w'.
Proof.
  intros Ht Hl (Hl0 & t & Htr & Hw & Hp & Hf). split; [unfold later in *; lia|]. exists t. rewrite Ht.
  split_and!; [done..|]. intros [Hg|Hg]%Hf; [by left|right]. eapply during_weaken; [|exact Hl|exact Hg].
  unfold later. lia.
Qed.

Lemma wp_waitpid pid w (Q : sysres (exit_status + wait_error) -> world -> Prop) :
  (forall st n b, w_tick w <= n -> (w_timed_out w = true -> b = true) -> Q (SOk (inl st)) (set_w_trace (EvReap pid st :: w_trace w) (set_w_tick n (set_w_timed_out b w)))) ->
  (forall r w', (forall st, r <> SOk (inl st)) -> calm w w' -> (w_timed_out w = true -> w_timed_out w' = true) -> Q r w') ->
  wp (waitpid pid) Q w.
Proof.
  intros Hreap Hother. apply wp_bind, wp_blocking_flag. intros r n b _ Hn Hb.
  assert (calm w (set_w_tick n (set_w_timed_out b w))) as Hc by (exists n, b; split; [lia|done]).
  destruct r as [[st|e]| | |].
  - apply wp_bind, wp_emit, wp_ret. apply Hreap; [lia|done].
  - apply wp_ret. by apply Hother.
  - apply wp_ret. by apply Hother.
  - apply wp_ret. by apply Hother.
  - apply wp_ret. by apply Hother.
Qed.

Lemma child_at_trace pid b w w' : w_trace w' = w_trace w -> child_at pid b w -> child_at pid b w'.
Proof. intros Ht (t & H & Hl & Hp). exists t. by rewrite Ht. Qed.

Lemma child_at_kill pid target w w' :
  target = pid \/ target = (- pid)%Z -> w_trace w' = EvKill target :: w_trace w ->
  child_at pid false w -> child_at pid false w'.
Proof.
  intros Htg Ht (t & H & Hl & Hp). exists (EvKill target :: t). rewrite Ht, H. split_and!; [done| |done]. by constructor.
Qed.

Lemma child_at_reap pid st w w' :
  w_trace w' = EvReap pid st :: w_trace w -> child_at pid false w -> child_at pid true w'.
Proof. intros Ht (t & H & Hl & Hp). exists (EvReap pid st :: t). rewrite Ht, H. split_and!; [done| |done]. by constructor. Qed.

Lemma wp_reap_killed pid w :
  child_at pid false w -> w_timed_out w = true ->
  wp (reap_killed pid) (fun _ w' => (exists b, child_at pid b w') /\ w_timed_out w' = true) w.
Proof.
  intros Hw0 Hto0. apply (wp_retry_inv (fun w => child_at pid false w /\ w_timed_out w = true)); [|done].
  clear w Hw0 Hto0. intros w [Hw Hto]. apply wp_bind, wp_waitpid.
  - intros st n b _ Hb. apply wp_ret. split; [exists true; by eapply child_at_reap|]. by apply Hb.
  - intros r w' Hr (n & b & _ & ->) Hb. specialize (Hb Hto). destruct r as [[st|e]| | |].
    + by destruct (Hr st).
    + apply wp_ret. split; [by exists false|done].
    + apply wp_bind, wp_emit, wp_ret. split; [eapply child_at_kill; [by left|done|done]|done].
    + apply wp_ret. split; [by exists false|done].
    + apply wp_ret. split; [by exists false|done].
Qed.

(** A checkpoint: the deadline has not expired and nothing happens, or the
    child is killed and reaped. *)
Lemma wp_watchdog_check pid w :
  child_at pid false w ->
  wp (watchdog_check pid) (fun rc w' => (rc = 0%Z /\ w' = w /\ w_timed_out w = false) \/
    (rc = (-1)%Z /\ (exists b, child_at pid b w') /\ w_timed_out w' = true)) w.
Proof.
  intros Hw. apply wp_bind, wp_reads. destruct (w_timed_out w) eqn:Hto; cbn [negb]; [|apply wp_ret; by left].
  apply wp_bind. destruct (0 <? pid)%Z.
  - apply wp_bind, wp_emit. eapply wp_mono.
    + apply wp_reap_killed; [eapply child_at_kill; [by right|done|done]|done].
    + intros ? w' Hb. apply wp_ret. by right.
  - apply wp_ret, wp_ret. right. split; [done|]. split; [by exists false|done].
Qed.

Lemma wp_watchdog_check_reaped w :
  wp (watchdog_check (-1)) (fun rc w' => w' = w /\ (rc = 0%Z \/ rc = (-1)%Z /\ w_timed_out w = true)) w.
Proof.
  apply wp_bind, wp_reads. destruct (w_timed_out w); cbn [negb]; [|apply wp_ret; by split; [|left]].
  apply wp_bind, wp_ret, wp_ret. split; [done|by right].
Qed.

(** *** The blocks of [exec_with_stdio] *)

(** The child was the last to be heard of, and it exited with status 0. *)
Definition exited_0 (w : world) : Prop :=
  exists pid t, w_trace w = EvReap pid (Exited 0) :: t ++ EvSpawn pid argv input envp :: w_trace w0.

(** A failure that follows an exit with status 0 is a deadline that expired. *)
Definition failed (e : Z) (w : world) : Prop :=
  (e < 0)%Z /\ supervised w /\ (exited_0 w -> w_timed_out w = true).

Lemma running_not_exited fed pid w : running fed pid w -> ~ exited_0 w.
Proof.
  intros (_ & t & Ht & Hws & _) (pid' & t' & Ht'). rewrite Ht in Ht'.
  destruct Hws as [|e t He _]; [done|]. by destruct e.
Qed.

Lemma wpx_check fed pid l w (Q : Z -> exec_locals -> world -> Prop) :
  running fed pid w -> (w_timed_out w = false -> Q 0%Z l w) -> wpx (check pid) (fun e _ => failed e) Q l w.
Proof.
  intros Hw HQ. apply wpx_try2. eapply wp_mono; [eapply wp_watchdog_check, running_at, Hw|].
  intros rc w' [(-> & -> & Hto)|(-> & [b Hb] & Hto)]; cbn; [by apply HQ|].
  split_and!; [done| |done]. right. by exists pid, b.
Qed.

(** Parts that emit nothing, while the child runs. *)
Lemma wpx_quiet_lift {A} (m : M A) fed pid l w QE (Q : A -> exec_locals -> world -> Prop) :
  Respects same_trace m -> Respects later m -> running fed pid w -> (forall a w', running fed pid w' -> Q a l w') ->
  wpx (lift m) QE Q l w.
Proof.
  intros HR HL Hw HQ. apply wpx_lift. eapply wp_mono; [apply wp_and; [wp_frame same_trace|wp_frame later]|].
  intros a w' [Ht Hl]. apply HQ. by eapply running_same.
Qed.

Lemma wpx_quiet_close i fed pid l w QE (Q : unit -> exec_locals -> world -> Prop) :
  running fed pid w -> (forall l' s, running fed pid (set_w_fds s w) -> Q tt l' (set_w_fds s w)) -> wpx (close_end i) QE Q l w.
Proof.
  intros Hw HQ. apply wpx_bind, wpx_local, wpx_bind, wpx_lift, wp_modify, wpx_assign, HQ.
  apply (running_same _ _ w); [done|exact (fd_silent (R := later) w _)|done].
Qed.

(** The input of the child: at position [n] the first [n] bytes have been
    written. *)
Definition written_up_to (n : nat) (pid : Z) (w : world) : Prop :=
  later w0 w /\ exists t, w_trace w = t ++ EvSpawn pid argv input envp :: w_trace w0 /\
    Forall is_write t /\ written t = take n input.

Lemma written_calm n pid w w' : calm w w' -> written_up_to n pid w -> written_up_to n pid w'.
Proof.
  intros (k & b & Hk & ->) (Hl & t & Ht & Hw & Hn). split; [unfold later in *; cbn; lia|]. by exists t.
Qed.

Lemma written_running n pid w : written_up_to n pid w -> running false pid w.
Proof.
  intros (Hl & t & Ht & Hw & Hn). split; [done|]. exists t. split_and!; [done..| |done].
  rewrite Hn. apply prefix_take.
Qed.

Lemma wp_write_some n pid w :
  written_up_to n pid w ->
  wp (write_some (drop n input)) (fun r w' => match r with
    | None => written_up_to n pid w'
    | Some None => written_up_to n pid w' /\ (w_timed_out w' = true \/ during w0 w' (fun t => env_write t = SErr))
    | Some (Some k) => 1 <= k /\ written_up_to (n + k) pid w' end) w.
Proof.
  intros Hw. apply wp_bind, wp_intro. intros r w1 Hrun.
  assert (calm w w1 /\ (r = SErr -> during w w1 (fun t => env_write t = SErr))) as [Hc Herr].
  { split; [by apply (respects (R := calm) _ _ _ Hrun)|]. intros ->. exists (w_tick w).
    unfold blocking in Hrun. destruct (env_write (w_tick w)) eqn:He; [..|destruct (w_armed w); [|done]]; try done.
    injection Hrun as <-. cbn. split_and!; [done|lia|done]. }
  pose proof (written_calm _ _ _ _ Hc Hw) as H1. apply wp_bind, wp_reads.
  destruct r as [k| | |]; [|destruct (w_timed_out w1) eqn:Hto; apply wp_ret; cbn; auto| |done].
  - cbv zeta. set (m := Nat.min _ _). destruct (Nat.eqb_spec m 0) as [|Hm]; [destruct (w_timed_out w1) eqn:Hto; apply wp_ret; cbn; auto|].
    apply wp_bind, wp_emit, wp_ret. split; [lia|]. destruct H1 as (Hl & t & Ht & Hws & Hn). split; [done|].
    exists (EvWrite (take m (drop n input)) :: t). cbn. rewrite Ht, Hn. split_and!; [done|by constructor|].
    by rewrite take_take_drop.
  - apply wp_ret. split; [done|]. right. destruct Hw as [Hl _].
    eapply during_weaken; [exact Hl| |by apply Herr]. unfold later. done.
Qed.

Lemma wp_write_loop rounds n pid w :
  written_up_to n pid w ->
  wp (write_loop rounds input n) (fun _ w' => running (negb (w_timed_out w')) pid w') w.
Proof.
  revert n w. induction rounds as [|rounds IH]; intros n w Hw; cbn [write_loop]; destruct (Nat.ltb_spec n (length input)) as [Hlt|Hge].
  2,4: apply wp_ret; destruct Hw as (Hl & t & Ht & Hws & Hn); split; [done|]; exists t;
    rewrite take_ge in Hn by done; rewrite Hn; split_and!; [done..|]; intros _; by left.
  all: apply wp_bind, wp_reads; destruct (w_timed_out w) eqn:Hto.
  1,3: apply wp_ret; rewrite Hto; by eapply written_running.
  - done.
  - apply wp_bind. eapply wp_mono.
    { apply (wp_retry_inv (written_up_to n pid) (fun (r : option nat) w' => match r with
        | None => written_up_to n pid w' /\ (w_timed_out w' = true \/ during w0 w' (fun t => env_write t = SErr))
        | Some k => 1 <= k /\ written_up_to (n + k) pid w' end)); [|exact Hw].
      intros w1 H1. eapply wp_mono; [by apply wp_write_some|]. by intros [[k|]|] w'. }
    intros [k|] w1; [intros [_ H1]; by apply IH|]. intros [H1 Hend]. apply wp_ret.
    destruct (written_running _ _ _ H1) as (Hl & t & Ht & Hws & Hp & _). split; [done|]. exists t. split_and!; [done..|].
    intros Hf. right. destruct Hend as [Htrue|Hd]; [|done]. by rewrite Htrue in Hf.
Qed.

Lemma wpx_feed_child pid l w :
  written_up_to 0 pid w ->
  wpx (feed_child pid input) (fun e _ => failed e) (fun _ _ => running true pid) l w.
Proof.
  intros Hw. do 3 (apply wpx_bind; apply wpx_bind, wpx_local, wpx_bind, wpx_lift, wp_modify, wpx_assign).
  set (w1 := set_w_fds _ _). apply wpx_bind, wpx_lift. eapply wp_mono; [by apply (wp_write_loop _ 0 pid w1)|].
  intros ? w2 H2. destruct (w_timed_out w2) eqn:Hto; cbn [negb] in H2;
    apply wpx_bind, (wpx_quiet_close _ _ pid _ _ _ _ H2); intros l' s H3;
    apply wpx_bind, (wpx_check _ pid _ _ _ H3); intros Hto'; change (w_timed_out w2 = false) in Hto'.
  - congruence.
  - apply wpx_ret. by rewrite Hto in H3.
Qed.

Lemma wpx_drain_output fed pid i set len l w :
  running fed pid w ->
  wpx (drain_output pid i set len) (fun e _ => failed e) (fun _ _ => running fed pid) l w.
Proof.
  intros Hw. apply wpx_bind, wpx_local, wpx_bind.
  assert (forall l w, running fed pid w ->
    wpx (close_end i;; check pid;; mret tt) (fun e _ => failed e) (fun _ _ => running fed pid) l w) as Hrest.
  { intros l1 w1 H1. apply wpx_bind, (wpx_quiet_close _ fed pid); [done|]. intros l2 s H2.
    apply wpx_bind, (wpx_check fed); [done|]. intros _. by apply wpx_ret. }
  destruct (0 <? len); [|by apply wpx_ret, Hrest].
  apply wpx_bind, (wpx_quiet_lift _ fed pid); [apply _|apply _|done|]. intros r w1 H1. by apply wpx_assign, Hrest.
Qed.

(** The child was given its input, reaped with exit status 0, and never
    signalled. *)
Definition succeeded (w : world) : Prop :=
  exists pid t, w_trace w = EvReap pid (Exited 0) :: t ++ EvSpawn pid argv input envp :: w_trace w0 /\
    Forall is_write t /\ written t `prefix_of` input /\ input_given t w.

(** The child ended with status [st] after it was given its input. *)
Definition ended (pid : Z) (st : exit_status) (w : world) : Prop :=
  exists w1, running true pid w1 /\ later w1 w /\ w_trace w = EvReap pid st :: w_trace w1.

Lemma ended_supervised pid st w : ended pid st w -> supervised w.
Proof. intros (w1 & H1 & _ & Ht). right. exists pid, true. eapply child_at_reap; [exact Ht|]. by eapply running_at. Qed.

Lemma ended_succeeded pid w : ended pid (Exited 0) w -> succeeded w.
Proof.
  intros (w1 & (Hl & t & Ht & Hws & Hp & Hg) & Hl1 & Htr). exists pid, t. rewrite Htr, Ht. split_and!; [done..|].
  destruct (Hg eq_refl) as [Hg'|Hg']; [by left|right]. eapply during_weaken; [|exact Hl1|exact Hg']. unfold later. done.
Qed.

Lemma wp_wait_once pid w :
  running true pid w ->
  wp (wait_once pid) (fun r w' => match r with
    | None => running true pid w'
    | Some None => failed (-1) w'
    | Some (Some st) => ended pid st w' end) w.
Proof.
  intros Hw. apply wp_bind, wp_waitpid.
  - intros st n b Hn _. apply wp_bind, wp_reads, wp_ret. exists w. by split_and!.
  - intros r w' Hr Hc _. pose proof (calm_fields _ _ Hc) as (Ht & _).
    assert (running true pid w') as Hw' by (eapply running_same; [done|by apply (calm_respects later)|done]).
    assert (failed (-1) w') as Hs.
    { split_and!; [done|right; exists pid, false; by eapply running_at|]. intros Hx. by destruct (running_not_exited _ _ _ Hw'). }
    apply wp_bind, wp_reads. destruct r as [[st|e]| | |]; try (by apply wp_ret).
    + by destruct (Hr st).
    + destruct (w_timed_out w'); [|by apply wp_ret]. apply wp_bind.
      eapply wp_mono; [eapply wp_watchdog_check, running_at, Hw'|].
      intros rc w2 [(-> & -> & _)|(-> & [b Hb] & Hto)]; apply wp_ret; [done|]. split_and!; [done| |done]. right. by exists pid, b.
Qed.

Lemma wpx_await_child pid l w :
  running true pid w -> wpx (await_child pid) (fun e _ => failed e) (fun _ _ => succeeded) l w.
Proof.
  intros Hw. apply wpx_bind, wpx_lift.
  eapply wp_mono.
  { apply (wp_retry_inv (running true pid) (fun (r : option exit_status) w' => match r with
      | None => failed (-1) w'
      | Some st => ended pid st w' end)); [|exact Hw].
    intros w1 H1. eapply wp_mono; [by apply wp_wait_once|]. by intros [[st|]|] w'. }
  intros [st|] w1 H1; [|by apply wpx_fail].
  pose proof (ended_supervised _ _ _ H1) as Hs.
  assert (st <> Exited 0 -> failed (-1) w1) as Hst.
  { intros Hne. split_and!; [done..|]. destruct H1 as (w2 & _ & _ & Ht). intros (pid' & t' & Ht'). congruence. }
  apply wpx_bind, wpx_try2. eapply wp_mono; [apply wp_watchdog_check_reaped|].
  intros rc w2 [-> [-> |[-> Hto]]]; cbn; [|by split_and!].
  destruct st as [code|signo]; [|apply wpx_fail; by apply Hst].
  destruct (Z.eqb_spec code 0) as [->|]; [by eapply wpx_ret, ended_succeeded|apply wpx_fail, Hst; congruence].
Qed.
End Protocol.

(** *** What the whole call leaves alone *)
Section CallInstances.
Context `{E : Env} (R : relation world) `{!Silent R, !FdSilent R, !forall e, Allows R e}.

#[export] Instance respects_prepare_pipe_end fd : Respects R (prepare_pipe_end fd).
Proof. unfold prepare_pipe_end, set_cloexec, succeeds. apply _. Qed.
#[export] Instance respects_open_pipe i j : RespectsX R (open_pipe i j).
Proof. unfold open_pipe, pipe, prepare_end, succeeds. apply _. Qed.
#[export] Instance respects_open_pipes : RespectsX R open_pipes.
Proof. unfold open_pipes. apply _. Qed.
#[export] Instance respects_close_end i : RespectsX R (close_end i).
Proof. unfold close_end. apply _. Qed.
#[export] Instance respects_drain_output pid i set n : RespectsX R (drain_output pid i set n).
Proof. unfold drain_output, check. apply _. Qed.
#[export] Instance respects_exec_body argv input has mem n1 n2 : RespectsX R (exec_body argv input has mem n1 n2).
Proof. unfold exec_body, open_pipes, feed_child, drain_child, await_child, check. apply _. Qed.
#[export] Instance respects_close_all fds : Respects R (close_all fds).
Proof. induction fds; cbn [close_all]; unfold close_if_open; apply _. Qed.
End CallInstances.

(** The watchdog installation is as before. *)
Definition same_usable : relation world := fun w w' => w_usable w' = w_usable w.
#[export] Instance same_usable_silent : Silent same_usable.
Proof.
  split; [split|].
  - by intros w.
  - intros w1 w2 w3; unfold same_usable; congruence.
  - by intros w n b _.
Qed.
#[export] Instance same_usable_fd_silent : FdSilent same_usable.
Proof. by intros w s. Qed.
#[export] Instance same_usable_allows e : Allows same_usable e.
Proof. by intros w. Qed.

Section Outcome.
Context `{E : Env}.
Implicit Types (w : world).

(** *** Before the spawn *)
Definition aborted (w : world) (e : Z) (w' : world) : Prop := (e < 0)%Z /\ w_trace w' = w_trace w.

Lemma wp_prepare_result fd w : wp (prepare_pipe_end fd) (fun r w' => w_trace w' = w_trace w /\ (r.1 = 0 \/ r.1 = -1)%Z) w.
Proof.
  apply wp_and; [unfold prepare_pipe_end, set_cloexec, succeeds; wp_frame same_trace|].
  unfold prepare_pipe_end, set_cloexec. destruct (fd <? 3)%Z; apply wp_bind.
  - apply wp_succeeds. intros w1 _ _. destruct (env_ok _); cbn [negb]; [|by apply wp_ret; right].
    apply wp_bind, wp_intro. intros newfd w2 _. by apply wp_bind, wp_modify, wp_ret; left.
  - apply wp_bind, wp_succeeds. intros w1 _ _. destruct (env_ok _); cbn [negb]; [|by apply wp_ret, wp_ret; right].
    apply wp_bind, wp_succeeds. intros w2 _ _. destruct (env_ok _); apply wp_ret, wp_ret; [by left|by right].
Qed.

Lemma wpx_open_pipe_trace i j l w w0 :
  w_trace w = w_trace w0 ->
  wpx (open_pipe i j) (fun e _ => aborted w0 e) (fun _ _ w' => w_trace w' = w_trace w0) l w.
Proof.
  intros Hw.
  assert (forall k l w, w_trace w = w_trace w0 ->
    wpx (prepare_end k) (fun e _ => aborted w0 e) (fun _ _ w' => w_trace w' = w_trace w0) l w) as Hprep.
  { intros k l1 w1 H1. apply wpx_bind, wpx_local, wpx_bind, wpx_lift.
    eapply wp_mono; [apply wp_prepare_result|]. intros [rc fd] w2 [H2 Hrc]. apply wpx_bind, wpx_assign.
    cbn [fst snd] in *. destruct Hrc as [-> | ->]; cbn [Z.ltb Z.compare].
    - apply wpx_ret. congruence.
    - apply wpx_fail. split; [done|congruence]. }
  apply wpx_bind, wpx_lift. eapply wp_mono; [unfold pipe, succeeds; wp_frame same_trace|].
  intros [[a b]|] w1 H1; unfold same_trace in H1; [|apply wpx_fail; split; [done|congruence]].
  apply wpx_bind, wpx_assign, wpx_bind. eapply wpx_mono; [apply Hprep; congruence|done|].
  intros ? l2 w2 H2. by apply Hprep.
Qed.

Lemma wpx_open_pipes_trace l w :
  wpx open_pipes (fun e _ => aborted w e) (fun _ _ w' => w_trace w' = w_trace w) l w.
Proof.
  apply wpx_bind. eapply wpx_mono; [by apply (wpx_open_pipe_trace _ _ _ _ w)|done|]. intros ? l1 w1 H1.
  apply wpx_bind. eapply wpx_mono; [by apply (wpx_open_pipe_trace _ _ _ _ w)|done|]. intros ? l2 w2 H2.
  by apply wpx_open_pipe_trace.
Qed.

Lemma wpx_setup_calls_trace n l w w0 (Q : unit -> exec_locals -> world -> Prop) :
  w_trace w = w_trace w0 -> (forall w', w_trace w' = w_trace w0 -> Q tt l w') ->
  wpx (setup_calls n) (fun e _ => aborted w0 e) Q l w.
Proof.
  revert w. induction n as [|n IH]; intros w Hw HQ; cbn [setup_calls]; [by apply wpx_ret, HQ|].
  apply wpx_bind, wpx_bind, wpx_lift, wp_succeeds. intros w' Hc _. pose proof (calm_fields _ _ Hc) as (Ht & _).
  destruct (env_ok _).
  - apply wpx_ret, IH; [congruence|done].
  - apply wpx_fail. split; [done|congruence].
Qed.

Lemma wpx_spawn_child argv input has mem l w w0 :
  w_trace w = w_trace w0 ->
  wpx (spawn_child argv input has mem) (fun e _ => aborted w0 e)
    (fun pid _ w' => w_trace w' = EvSpawn pid argv input (child_environ has mem) :: w_trace w0) l w.
Proof.
  intros Hw. apply wpx_bind, wpx_setup_calls_trace; [done|]. intros w1 H1.
  apply wpx_bind, wpx_setup_calls_trace; [done|]. intros w2 H2. apply wpx_bind.
  set (rest := fun _ : unit => _).
  assert (forall w, w_trace w = w_trace w0 -> rest tt l w) as Hrest.
  { intros w3 H3. apply wpx_bind, wpx_lift, wp_succeeds. intros w4 Hc _. pose proof (calm_fields _ _ Hc) as (Ht & _).
    destruct (env_ok _).
    - apply wpx_bind, wpx_lift, wp_call_silent. intros n b _. apply wpx_bind, wpx_lift, wp_emit, wpx_ret.
      cbn. congruence.
    - apply wpx_fail. split; [done|congruence]. }
  destruct (negb _); [by apply wpx_setup_calls_trace|by apply wpx_ret, Hrest].
Qed.

(** *** The whole block *)
Section Body.
Context (argv : list cstr) (input : cstr) (has mem : Z) (n1 n2 : nat).

Lemma wpx_exec_body w :
  let envp := child_environ has mem in
  wpx (exec_body argv input has mem n1 n2) (fun e _ => failed argv input envp w e)
    (fun _ _ => succeeded argv input envp w) exec_locals_init w.
Proof.
  intros envp.
  assert (forall e w', aborted w e w' -> failed argv input envp w e w') as Hab.
  { intros e w' [He Ht]. split_and!; [done|by left|]. intros (pid & t & Hx). rewrite Ht in Hx.
    apply (f_equal length) in Hx. cbn in Hx. rewrite length_app in Hx. cbn in Hx. lia. }
  apply wpx_bind. eapply wpx_mono; [apply wpx_and; [apply wpx_open_pipes_trace|apply (wpx_respects later); apply _]|by intros ??? [??]; apply Hab|].
  intros ? l1 w1 [H1 HL1].
  apply wpx_bind. eapply wpx_mono; [apply wpx_and; [by apply (wpx_spawn_child _ _ _ _ _ _ w)|apply (wpx_respects later); apply _]|by intros ??? [??]; apply Hab|].
  intros pid l2 w2 [H2 HL2].
  assert (written_up_to argv input envp w 0 pid w2) as H3 by (split; [unfold later in *; lia|by exists []]).
  apply wpx_bind, (wpx_check _ _ _ _ false pid); [by apply (written_running _ _ _ _ 0)|]. intros _.
  apply wpx_bind. eapply wpx_mono; [by apply (wpx_feed_child argv input envp w pid)|done|]. intros ? l4 w4 H4.
  apply wpx_bind, wpx_bind. eapply wpx_mono; [by apply (wpx_drain_output argv input envp w true pid)|done|]. intros ? l5 w5 H5.
  eapply wpx_mono; [by apply (wpx_drain_output argv input envp w true pid)|done|]. intros ? l6 w6 H6.
  by apply (wpx_await_child _ _ _ _ pid).
Qed.

(** What a call promises to its callers. *)
Definition exec_post (w : world) (r : Z * (cstr * cstr)) (w' : world) : Prop :=
  let envp := child_environ has mem in
  ((-1)%Z ∉ w_fds w -> w_fds w' = w_fds w) /\ w_armed w' = false /\ w_usable w' = w_usable w /\
  (r.1 = 0%Z /\ w_timed_out w' = false /\ succeeded argv input envp w w' \/
   failed argv input envp w r.1 w').

(** The fields that the clean-up leaves alone. *)
Lemma wp_exec_cleanup err l w :
  wp (exec_cleanup err l) (fun _ w' => (w_trace w' = w_trace w /\ w_tick w' = w_tick w) /\ w_usable w' = w_usable w /\
    w_armed w' = false /\ (err = 0%Z -> w_timed_out w' = false) /\ (err <> 0%Z -> w_timed_out w' = w_timed_out w) /\
    forall base, owns base l w -> w_fds w' = base) w.
Proof.
  apply wp_bind, wp_modify. set (w1 := set_w_armed false w).
  assert (forall w2, w_trace w2 = w_trace w /\ w_tick w2 = w_tick w -> w_usable w2 = w_usable w -> w_armed w2 = false ->
    (err = 0%Z -> w_timed_out w2 = false) -> (err <> 0%Z -> w_timed_out w2 = w_timed_out w) -> w_fds w2 = w_fds w ->
    wp (close_all (pipe_ends l)) (fun _ w' => (w_trace w' = w_trace w /\ w_tick w' = w_tick w) /\ w_usable w' = w_usable w /\
    w_armed w' = false /\ (err = 0%Z -> w_timed_out w' = false) /\ (err <> 0%Z -> w_timed_out w' = w_timed_out w) /\
    forall base, owns base l w -> w_fds w' = base) w2) as Hclose.
  { intros w2 Ht Hu Ha Hto Hto' Hf.
    assert (forall ends w2, wp (close_all ends) (fun _ w' => (w_trace w' = w_trace w2 /\ w_tick w' = w_tick w2) /\ w_usable w' = w_usable w2 /\
      w_armed w' = w_armed w2 /\ w_timed_out w' = w_timed_out w2) w2) as Hall.
    { induction ends as [|fd ends IH]; intros w3; cbn [close_all]; [by apply wp_ret|].
      apply wp_bind. unfold close_if_open. destruct (0 <=? fd)%Z; [apply wp_modify|by apply wp_ret, IH].
      exact (IH (set_w_fds (w_fds w3 ∖ {[fd]}) w3)). }
    apply wp_intro. intros [] w' Hrun.
    destruct (wp_elim _ _ _ _ _ (Hall _ _) Hrun) as ((H1 & H1') & H2 & H3 & H4). destruct Ht as [Ht Ht'].
    split_and!; [congruence..|intros ->; rewrite H4; auto|intros Hne; rewrite H4; auto|].
    intros base (Hlen & Hge & Hb & Hh).
    rewrite <- Hf in Hh. by apply (wp_elim _ _ _ _ _ (wp_close_all base _ _ Hge Hh) Hrun). }
  apply wp_bind. destruct (Z.eqb_spec err 0); [apply wp_modify|apply wp_ret]; by apply Hclose.
Qed.

Lemma exec_with_stdio_spec w :
  argv <> [] -> wp (exec_with_stdio argv input has mem n1 n2) (exec_post w) w.
Proof.
  intros Hne. unfold exec_with_stdio. destruct argv as [|a0 args] eqn:Hargv; [done|]. rewrite <- Hargv. clear Hne.
  apply wp_bind, wp_modify. set (w1 := set_w_armed _ _).
  apply wp_bind. eapply wp_mono.
  { apply wp_and; [exact (wpx_exec_body w1)|].
    apply wp_and.
    - apply (wp_intro _ (fun r w' => (-1)%Z ∉ w_fds w1 -> owns (w_fds w1) r.2 w')). intros r w' Hrun Hb.
      pose proof (wp_elim _ _ _ _ _ (wpx_exec_body_owns argv input has mem n1 n2 (w_fds w1) w1 Hb eq_refl) Hrun).
      by destruct r as [[e|a] l].
    - apply (wp_respects same_usable (exec_body argv input has mem n1 n2 exec_locals_init)). }
  intros [res l] w2 [Hres [Hown Husable]]. unfold same_usable in Husable. cbn [fst snd] in *.
  set (err := match res with inl e => e | inr _ => 0%Z end).
  apply wp_bind. eapply wp_mono; [apply wp_exec_cleanup|].
  intros [] w3 ([Ht Hk] & Hu & Ha & Hto & Hto' & Hf). apply wp_ret. split_and!.
  - intros Hb. by apply Hf, Hown.
  - done.
  - by rewrite Hu, Husable.
  - cbn [fst]. destruct res as [e|[]]; cbn in Hres.
    + right. destruct Hres as (He & Hs & Hx). unfold err in Hto'. rewrite <- Hto' in Hx by lia.
      split; [done|]. unfold supervised, child_at, exited_0 in *. by rewrite Ht.
    + left. split; [done|]. split; [by apply Hto|]. unfold succeeded, input_given, during in *.
      rewrite Ht, Hk. exact Hres.
Qed.

End Body.
End Outcome.

(** ** The deadline

    With the handler installed a call that blocks for ever is interrupted, so
    the block returns if interruptions do not go on for ever and a child that
    was killed can be reaped. *)
Section Deadline.
Context `{E : Env}.

Class ChildResponsive : Prop := {
  reads_settle t : exists k, k < env_fuel /\ env_read (t + k) <> SEintr;
  writes_settle t : exists k, k < env_fuel /\
    ~ (env_write (t + k) = SEintr \/ exists n, env_write (t + k) = SOk n /\ (n <= 0)%Z);
  waits_settle t : exists k, k < env_fuel /\ ~ (env_waitpid (t + k) = SEintr \/ env_waitpid (t + k) = SHang)
}.

Definition armed (w : world) : Prop := w_armed w = true.

#[export] Instance armed_silent : SilentP armed.
Proof. by intros w n b. Qed.
#[export] Instance armed_fd_silent : FdSilentP armed.
Proof. by intros w s. Qed.
#[export] Instance armed_trace_silent : TraceSilentP armed.
Proof. by intros w t. Qed.

(** A call under the deadline: its answer, or EINTR with the flag set. *)
Lemma blocking_armed {A} (f : nat -> sysres A) w :
  armed w -> exists r w', blocking f w = Some (r, w') /\ armed w' /\ w_tick w' = S (w_tick w) /\
    r <> SHang /\ (r = SEintr -> f (w_tick w) = SEintr \/ (f (w_tick w) = SHang /\ w_timed_out w' = true)).
Proof.
  intros Hw. unfold armed in *. unfold blocking, deliver_alarm. rewrite Hw.
  destruct (f (w_tick w)); do 2 eexists; (split; [reflexivity|]); cbn;
    (split; [by destruct (env_alarm (w_tick w))|]); split_and!; try done; auto.
Qed.

Context `{!ChildResponsive}.

#[export] Instance total_read_some n : Total armed (retry (read_some n)).
Proof.
  apply (retry_total armed _ (fun t => env_read t = SEintr)); [|apply reads_settle].
  intros w Hw. destruct (blocking_armed env_read w Hw) as (r & w' & Heq & Hw' & Ht & Hh & Hi).
  unfold read_some, bind, M_bind. rewrite Heq. cbn.
  destruct r as [d| | |]; try done; do 2 eexists; (split; [reflexivity|]); split; try done.
  destruct (w_timed_out w') eqn:Hto; [done|]. intros _. split; [done|]. destruct (Hi eq_refl) as [|[_ Hf]]; congruence.
Qed.

Lemma total_write_some data : data <> [] -> Total armed (retry (write_some data)).
Proof.
  intros Hd. assert (1 <= length data) by (destruct data; [done|cbn; lia]).
  apply (retry_total armed _ (fun t => env_write t = SEintr \/ exists n, env_write t = SOk n /\ (n <= 0)%Z)); [|apply writes_settle].
  intros w Hw. destruct (blocking_armed env_write w Hw) as (r & w' & Heq & Hw' & Ht & Hh & Hi).
  assert (forall n, r = SOk n -> env_write (w_tick w) = SOk n) as Hok.
  { intros n ->. unfold blocking in Heq. destruct (env_write (w_tick w)); [..|destruct (w_armed w); [|done]]; congruence. }
  unfold write_some, bind, M_bind. rewrite Heq. cbn.
  destruct r as [k| | |]; try done.
  - destruct (Nat.eqb_spec (length data `min` Z.to_nat k) 0) as [Hz|Hz]; do 2 eexists; (split; [reflexivity|]); split; try done.
    intros _. split; [done|]. right. exists k. split; [by apply Hok|]. lia.
  - do 2 eexists. split; [reflexivity|]. split; [done|].
    destruct (w_timed_out w') eqn:Hto; [done|]. intros _. split; [done|]. destruct (Hi eq_refl) as [|[_ Hf]]; [by left|congruence].
  - by do 2 eexists.
Qed.

Lemma waitpid_armed pid w :
  armed w -> exists r w', waitpid pid w = Some (r, w') /\ armed w' /\ w_tick w' = S (w_tick w) /\
    (r = SEintr -> env_waitpid (w_tick w) = SEintr \/ (env_waitpid (w_tick w) = SHang /\ w_timed_out w' = true)).
Proof.
  intros Hw. destruct (blocking_armed env_waitpid w Hw) as (r & w' & Heq & Hw' & Ht & Hh & Hi).
  unfold waitpid, bind, M_bind. rewrite Heq.
  destruct r as [[st|e]| | |]; do 2 eexists; (split; [reflexivity|]); by split_and!.
Qed.

#[export] Instance total_reap_killed pid : Total armed (reap_killed pid).
Proof.
  apply (retry_total armed _ (fun t => env_waitpid t = SEintr \/ env_waitpid t = SHang)); [|apply waits_settle].
  intros w Hw. destruct (waitpid_armed pid w Hw) as (r & w' & Heq & Hw' & Ht & Hi).
  unfold bind at 1, M_bind. rewrite Heq.
  destruct r as [[st|e]| | |]; do 2 eexists; (split; [reflexivity|]); split; try done.
  intros _. split; [done|]. destruct (Hi eq_refl) as [|[? _]]; auto.
Qed.

#[export] Instance total_watchdog_check pid : Total armed (watchdog_check pid).
Proof. unfold watchdog_check. apply _. Qed.

#[export] Instance total_wait_once pid : Total armed (retry (wait_once pid)).
Proof.
  apply (retry_total armed _ (fun t => env_waitpid t = SEintr \/ env_waitpid t = SHang)); [|apply waits_settle].
  intros w Hw. destruct (waitpid_armed pid w Hw) as (r & w' & Heq & Hw' & Ht & Hi).
  unfold wait_once, bind at 1, M_bind at 1. rewrite Heq. unfold reads, bind at 1, M_bind at 1.
  destruct r as [[st|e]| | |]; try (do 2 eexists; split; [reflexivity|]; split; by try done).
  destruct (w_timed_out w') eqn:Hto.
  - destruct (total_watchdog_check pid w' Hw') as (rc & w2 & Hrc & Hw2).
    unfold bind, M_bind. rewrite Hrc. do 2 eexists. split; [reflexivity|]. by split.
  - do 2 eexists. split; [reflexivity|]. split; [done|]. intros _. split; [done|].
    destruct (Hi eq_refl) as [|[_ Hf]]; [by left|congruence].
Qed.

(** The loops: every round but the last makes progress. *)
Lemma wp_read_some n w :
  wp (retry (read_some n)) (fun r _ => forall d, r = Some d -> length d <= n) w.
Proof.
  eapply wp_mono; [apply (wp_retry (fun r => forall d, r = Some d -> length d <= n) (fun _ => True)); [|done]|naive_solver].
  intros w0 _. unfold read_some. apply wp_bind, wp_blocking_silent. intros r k b _ _. apply wp_bind, wp_reads.
  destruct r as [d| | |]; try done; apply wp_ret; (split; [done|]); intros o Ho d' ->.
  - injection Ho as <-. rewrite length_take. lia.
  - by destruct (w_timed_out _).
  - done.
Qed.

Lemma total_read_loop rounds room buf :
  room - length buf < rounds -> Total armed (read_loop rounds room buf).
Proof.
  revert buf. induction rounds as [|rounds IH]; intros buf Hr; [lia|]. cbn [read_loop].
  apply total_bind; [apply _|]. intros [[|c d]|]; [apply _| |apply _].
  destruct (Nat.leb_spec room (length (buf ++ c :: d))); [apply _|]. apply IH.
  rewrite length_app in *. cbn in *. lia.
Qed.

#[export] Instance total_read_all_fd fd n : Total armed (read_all_fd fd n).
Proof.
  unfold read_all_fd. destruct (Nat.eqb_spec n 0); [apply _|].
  apply total_bind; [apply total_read_loop; cbn; lia|apply _].
Qed.

Lemma wp_write_count data w : wp (retry (write_some data)) (fun r _ => forall k, r = Some k -> 1 <= k) w.
Proof.
  eapply wp_mono; [apply (wp_retry (fun r => forall k, r = Some k -> 1 <= k) (fun _ => True)); [|done]|naive_solver].
  intros w0 _. unfold write_some. apply wp_bind, wp_blocking_silent. intros r k b _ _. apply wp_bind, wp_reads.
  destruct r as [d| | |]; try done.
  - cbv zeta. destruct (Nat.eqb_spec (length data `min` Z.to_nat d) 0) as [Hz|Hz].
    + apply wp_ret. split; [done|]. intros o Ho k' ->. by destruct (w_timed_out _).
    + apply wp_bind, wp_emit, wp_ret. split; [done|]. intros o [= <-] k' [= <-]. lia.
  - apply wp_ret. split; [done|]. intros o Ho k' ->. by destruct (w_timed_out _).
  - apply wp_ret. split; [done|]. by intros o [= <-].
Qed.

Lemma total_write_loop rounds input n :
  length input - n <= rounds -> Total armed (write_loop rounds input n).
Proof.
  revert n. induction rounds as [|rounds IH]; intros n Hr; cbn [write_loop];
    destruct (Nat.ltb_spec n (length input)); try apply _; [lia|].
  apply total_bind; [apply _|]. intros []; [apply _|].
  eapply total_then; [|apply wp_write_count|].
  - apply total_write_some. intros Hd%(f_equal length). rewrite length_drop in Hd. cbn in Hd. lia.
  - intros [k|] Hk; [|apply _]. apply IH. specialize (Hk k eq_refl). lia.
Qed.

#[export] Instance total_setup_calls n : TotalX armed (setup_calls n).
Proof. induction n; cbn [setup_calls]; unfold try_setup, succeeds; apply _. Qed.

#[export] Instance total_exec_body argv input has mem n1 n2 : TotalX armed (exec_body argv input has mem n1 n2).
Proof.
  pose proof (total_write_loop (length input) input 0 ltac:(lia)) as Hwrite.
  assert (forall fd, Total armed (prepare_pipe_end fd)) as Hprep.
  { intros fd. unfold prepare_pipe_end, set_cloexec, succeeds. apply _. }
  assert (forall i j, TotalX armed (open_pipe i j)) as Hpipe.
  { intros i j. unfold open_pipe, pipe, prepare_end, succeeds. apply _. }
  assert (forall i, TotalX armed (close_end i)) as Hclose by (intros i; unfold close_end; apply _).
  assert (forall pid i set n, TotalX armed (drain_output pid i set n)) as Hdrain.
  { intros pid i set n. unfold drain_output, check. apply _. }
  unfold exec_body, open_pipes, spawn_child, feed_child, drain_child, await_child, check, succeeds. apply _.
Qed.

Lemma exec_with_stdio_total argv input has mem n1 n2 w :
  w_usable w = true -> exists r w', exec_with_stdio argv input has mem n1 n2 w = Some (r, w').
Proof.
  intros Hu. unfold exec_with_stdio. destruct argv as [|a args]; [by do 2 eexists|].
  unfold bind at 1, M_bind at 1, watchdog_arm, modify.
  destruct (total_exec_body (a :: args) input has mem n1 n2 exec_locals_init (set_w_armed (w_usable w) (set_w_timed_out false w)) Hu)
    as (r & w1 & Hr & _).
  unfold bind at 1, M_bind at 1. rewrite Hr.
  assert (forall err l, Total (fun _ => True) (exec_cleanup err l)) as Hclean.
  { intros err l. unfold exec_cleanup, watchdog_disarm.
    assert (forall f, Total (fun _ => True) (modify f)) as Hm by (intros f w0 _; by do 2 eexists).
    assert (forall fds, Total (fun _ => True) (close_all fds)) as Hc.
    { induction fds; cbn [close_all]; unfold close_if_open; apply _. }
    apply _. }
  destruct (Hclean (match r.1 with inl e => e | inr _ => 0%Z end) r.2 w1 I) as ([] & w2 & Hc & _).
  cbv zeta. unfold bind, M_bind. rewrite Hc. by do 2 eexists.
Qed.
End Deadline.

(** ** Properties *)
Section Properties.
Context `{E : Env}.
Implicit Types (w : world).

(** A relation that does not see the deadline either holds of the whole call. *)
Lemma respects_exec (R : relation world) `{!Silent R, !FdSilent R, !forall e, Allows R e} argv input has mem n1 n2 :
  (forall w a b, R w (set_w_armed a (set_w_timed_out b w))) -> Respects R (exec_with_stdio argv input has mem n1 n2).
Proof.
  intros HR. unfold exec_with_stdio. destruct argv as [|a args]; [apply _|].
  assert (forall f, (forall w, R w (f w)) -> Respects R (modify f)) as Hm.
  { intros f Hf w x w' [= <- <-]. apply Hf. }
  assert (forall w, R w (set_w_armed false w)) as Hdisarm.
  { intros [? ? ? ? ? ? b]. exact (HR (mkWorld _ _ _ _ _ _ b _ _ _ _) false b). }
  assert (forall w, R w (set_w_timed_out false w)) as Hclear.
  { intros [? ? ? ? ? ? ? ? a']. exact (HR (mkWorld _ _ _ _ _ _ _ _ a' _ _) a' false). }
  apply respects_bind; [apply _|by apply Hm|]. intros _. apply respects_bind; [apply _|apply respects_x; apply _|].
  intros r. cbv zeta. apply respects_bind; [apply _| |apply _]. unfold exec_cleanup.
  apply respects_bind; [apply _|by apply Hm|]. intros _. apply respects_bind; [apply _| |apply _].
  destruct (_ =? 0)%Z; [by apply Hm|apply _].
Qed.

#[export] Instance respects_exec_db argv input has mem n1 n2 : Respects same_db (exec_with_stdio argv input has mem n1 n2).
Proof. apply (respects_exec same_db). by intros w a b. Qed.
#[export] Instance respects_exec_later argv input has mem n1 n2 : Respects later (exec_with_stdio argv input has mem n1 n2).
Proof. apply (respects_exec later). intros w a b. unfold later. done. Qed.

(** C18: the deadline works.  With the SIGALRM handler installed, a call that
    supervises a child returns, even if the child never reads its input, never
    closes its outputs and never exits by itself: it is enough that a killed
    child can be reaped, that calls are not interrupted for ever, and that
    writes to its pipe do not go on for ever without taking a byte or failing. *)
Theorem exec_returns argv input has mem n1 n2 w :
  ChildResponsive -> w_usable w = true ->
  exists r w', exec_with_stdio argv input has mem n1 n2 w = Some (r, w').
Proof. intros HR. by apply exec_with_stdio_total. Qed.

(** C19: no path through the supervision of a child leaks a pipe end, leaves the
    alarm armed, or touches the database: every failure of pipe, fcntl, spawn,
    read, write or waitpid and every checkpoint included. *)
Theorem exec_leaks_nothing argv input has mem n1 n2 w r w' :
  argv <> [] -> (-1)%Z ∉ w_fds w ->
  exec_with_stdio argv input has mem n1 n2 w = Some (r, w') ->
  w_fds w' = w_fds w /\ w_armed w' = false /\ w_usable w' = w_usable w /\ same_db w w'.
Proof.
  intros Hne Hfds Hrun. pose proof (respects_exec_db argv input has mem n1 n2 w r w' Hrun) as Hdb.
  destruct (wp_elim _ _ _ _ _ (exec_with_stdio_spec argv input has mem n1 n2 w Hne) Hrun) as (Hf & Ha & Hu & _).
  split_and!; auto.
Qed.

(** C20: at most one child is spawned, with the arguments and the environment
    asked for.  What is written to its standard input is the input asked for,
    from its start and in order; when the call succeeds it is all of it, unless
    a [write] reported an error because the child closed its end.  Signals go to
    that child or to its process group only, and none is sent after it has been
    reaped, when its number may belong to another process. *)
Theorem exec_signals_only_its_child argv input has mem n1 n2 w r w' :
  argv <> [] -> exec_with_stdio argv input has mem n1 n2 w = Some (r, w') ->
  (w_trace w' = w_trace w /\ (r.1 < 0)%Z) \/
  exists pid reaped t, child_life pid reaped t /\
    w_trace w' = t ++ EvSpawn pid argv input (child_environ has mem) :: w_trace w /\
    written t `prefix_of` input /\
    (r.1 = 0%Z -> written t = input \/ during w w' (fun n => env_write n = SErr)).
Proof.
  intros Hne Hrun.
  destruct (wp_elim _ _ _ _ _ (exec_with_stdio_spec argv input has mem n1 n2 w Hne) Hrun)
    as (_ & _ & _ & [(_ & _ & pid & t & Ht & Hws & Hp & Hg)|(Hneg & [Ht|(pid & b & t & Ht & Hl & Hp)] & _)]).
  - right. exists pid, true, (EvReap pid (Exited 0) :: t). split_and!; [by constructor; apply writes_life|done..].
  - by left.
  - right. exists pid, b, t. split_and!; [done..|]. intros H0. lia.
Qed.

(** C21: the return code is 0 or negative, and it says what became of the
    child: it is 0 exactly when the child was reaped with exit status 0 without
    any signal sent to it and the timeout flag is clear.  So a caller that looks
    at the flag alone does not mistake success for a timeout, and an exit with
    status 0 is reported as a failure only for a deadline that expired first. *)
Theorem exec_success argv input has mem n1 n2 w r w' :
  argv <> [] -> exec_with_stdio argv input has mem n1 n2 w = Some (r, w') ->
  (r.1 <= 0)%Z /\
  (r.1 = 0%Z <-> w_timed_out w' = false /\ exists pid t, Forall is_write t /\
     w_trace w' = EvReap pid (Exited 0) :: t ++ EvSpawn pid argv input (child_environ has mem) :: w_trace w).
Proof.
  intros Hne Hrun.
  destruct (wp_elim _ _ _ _ _ (exec_with_stdio_spec argv input has mem n1 n2 w Hne) Hrun)
    as (_ & _ & _ & [(-> & Hto & pid & t & Ht & Hws & _)|(Hneg & _ & Hx)]).
  - split; [done|]. split; [|done]. intros _. split; [done|]. by exists pid, t.
  - split; [lia|]. split; [lia|]. intros (Hto & pid & t & _ & Ht). rewrite Hx in Hto; [done|]. by exists pid, t.
Qed.

Lemma snprintf_memlimit m :
  snprintf_s 64 (TUMGRD_MEMLIMIT_ENV_EQ ++ fmt_u (uint32 m)) = TUMGRD_MEMLIMIT_ENV_EQ ++ fmt_u (uint32 m).
Proof.
  apply snprintf_s_id. pose proof (wrap_u_range 32 m ltac:(lia)) as Hr.
  pose proof (fmt_u_length (uint32 m) 10 ltac:(done) ltac:(lia)) as Hl. rewrite length_app.
  assert (length TUMGRD_MEMLIMIT_ENV_EQ <= 40) by (apply Nat.leb_le; reflexivity). lia.
Qed.

(** The child sees the memory limit exactly once, in place of any value of
    the same name the daemon inherited, and every other variable unchanged and
    in order; without a limit it sees the daemon's environment. *)
Theorem child_environ_limit has mem :
  (has = 0%Z -> child_environ has mem = env_environ) /\
  (has <> 0%Z ->
     filter (fun v => has_prefix TUMGRD_MEMLIMIT_ENV_EQ v = true) (child_environ has mem)
       = [TUMGRD_MEMLIMIT_ENV_EQ ++ fmt_u (uint32 mem)] /\
     filter (fun v => has_prefix TUMGRD_MEMLIMIT_ENV_EQ v = false) (child_environ has mem)
       = filter (fun v => has_prefix TUMGRD_MEMLIMIT_ENV_EQ v = false) env_environ).
Proof.
  unfold child_environ. rewrite snprintf_memlimit.
  destruct (Z.eqb_spec has 0) as [->|Hne]; cbn [negb]; [done|]. split; [done|]. intros _.
  set (p := TUMGRD_MEMLIMIT_ENV_EQ).
  assert (has_prefix p (p ++ fmt_u (uint32 mem)) = true) as Hp by apply has_prefix_app.
  rewrite !filter_app, !filter_cons, Hp, !list_filter_filter. split.
  - rewrite decide_True by done. induction env_environ as [|v vs IH]; [done|].
    rewrite filter_cons_False; [done|]. intros [-> ?]. done.
  - rewrite decide_False by done. rewrite app_nil_r. apply list_filter_iff. tauto.
Qed.

End Properties.

(** ** The interface to the rest of the runner

    Commands are the children spawned, oldest first, with their input. *)
Definition command : Type := list cstr * cstr.

Definition command_of (e : event) : option command :=
  match e with EvSpawn _ argv input _ => Some (argv, input) | _ => None end.
Definition commands (t : list event) : list command := reverse (omap command_of t).

(** Events of processes, as opposed to those of the database and the bus. *)
Definition process_event (e : event) : Prop :=
  match e with EvSpawn _ _ _ _ | EvWrite _ | EvKill _ | EvReap _ _ => True | _ => False end.

(** Between two worlds exactly these commands were spawned. *)
Definition ran (cmds : list command) (w w' : world) : Prop :=
  exists t, w_trace w' = t ++ w_trace w /\ commands t = cmds /\ Forall process_event t.

Lemma commands_app t t' : commands (t ++ t') = commands t' ++ commands t.
Proof. unfold commands. by rewrite omap_app, reverse_app. Qed.

Lemma ran_nil w w' : w_trace w' = w_trace w -> ran [] w w'.
Proof. intros Ht. by exists []. Qed.

Lemma ran_app c1 c2 w1 w2 w3 : ran c1 w1 w2 -> ran c2 w2 w3 -> ran (c1 ++ c2) w1 w3.
Proof.
  intros (t1 & H1 & <- & Hp1) (t2 & H2 & <- & Hp2). exists (t2 ++ t1).
  rewrite H2, H1, app_assoc, commands_app. split_and!; [done|done|]. by apply Forall_app.
Qed.

Lemma child_life_events pid b t : child_life pid b t -> commands t = [] /\ Forall process_event t.
Proof.
  unfold commands. induction 1 as [|d t _ [IHc IHp]|target t _ _ [IHc IHp]|st t _ [IHc IHp]]; [by split|split; [done|by constructor]..].
Qed.

Lemma child_ran pid b t argv input envp w w' :
  child_life pid b t -> w_trace w' = t ++ EvSpawn pid argv input envp :: w_trace w -> ran [(argv, input)] w w'.
Proof.
  intros Hl Ht. destruct (child_life_events _ _ _ Hl) as [Hc Hp]. exists (t ++ [EvSpawn pid argv input envp]).
  rewrite Ht, <- app_assoc, commands_app, Hc. split_and!; [done..|].
  apply Forall_app. split; [done|]. by apply Forall_singleton.
Qed.

Lemma succeeded_ran `{E : Env} argv input envp w w' : succeeded argv input envp w w' -> ran [(argv, input)] w w'.
Proof.
  intros (pid & t & Ht & Hws & _). apply (child_ran pid true (EvReap pid (Exited 0) :: t) _ _ envp); [|done].
  constructor. by apply writes_life.
Qed.

Lemma supervised_ran argv input envp w w' :
  supervised argv input envp w w' -> ran [] w w' \/ ran [(argv, input)] w w'.
Proof.
  intros [Ht|(pid & b & t & Ht & Hl & _)]; [left; by apply ran_nil|right]. by eapply child_ran.
Qed.

(** How a child is run, and what its callers rely on. *)
Class Exec := exec :
  list cstr -> cstr -> Z -> Z -> nat -> nat -> M (Z * (cstr * cstr)).

Definition exec_result (argv : list cstr) (input : cstr) (w : world) (r : Z * (cstr * cstr)) (w' : world) : Prop :=
  (r.1 = 0%Z /\ w_timed_out w' = false /\ ran [(argv, input)] w w') \/
  ((r.1 < 0)%Z /\ (ran [] w w' \/ ran [(argv, input)] w w')).

Class ExecLaws `{E : Env} (X : Exec) : Prop := {
  exec_spec argv input has mem n1 n2 w :
    argv <> [] -> wp (exec argv input has mem n1 n2) (exec_result argv input w) w;
  exec_db argv input has mem n1 n2 : Respects same_db (exec argv input has mem n1 n2);
  exec_later argv input has mem n1 n2 : Respects later (exec argv input has mem n1 n2);
  exec_events argv input has mem n1 n2 : Respects (grows process_event) (exec argv input has mem n1 n2)
}.
#[export] Existing Instance exec_db.
#[export] Existing Instance exec_later.
#[export] Existing Instance exec_events.

(** A runner whose deadline is installed returns, and keeps it installed. *)
Definition watched (w : world) : Prop := w_usable w = true.

Class ExecReturns (X : Exec) : Prop :=
  exec_returns_watched argv input has mem n1 n2 : Total watched (exec argv input has mem n1 n2).
#[export] Existing Instance exec_returns_watched.

#[export] Instance watched_silent : SilentP watched.
Proof. by intros w n b. Qed.
#[export] Instance watched_trace_silent : TraceSilentP watched.
Proof. by intros w t. Qed.
#[export] Instance watched_fd_silent : FdSilentP watched.
Proof. by intros w s. Qed.
#[export] Instance watched_db_silent : DbSilentP watched.
Proof. by intros w rows n. Qed.

#[export] Instance supervised_exec `{E : Env} : Exec := exec_with_stdio.

#[export] Instance supervised_exec_laws `{E : Env} : ExecLaws supervised_exec.
Proof.
  assert (forall argv input has mem n1 n2 w, argv <> [] ->
    wp (exec_with_stdio argv input has mem n1 n2) (exec_result argv input w) w) as Hspec.
  { intros argv input has mem n1 n2 w Hne. eapply wp_mono; [by apply exec_with_stdio_spec|].
    intros r w' (_ & _ & _ & [(Hr & Hto & Hs)|(Hr & Hs & _)]).
    - left. split_and!; [done..|]. by eapply succeeded_ran.
    - right. split; [done|]. by eapply supervised_ran. }
  split; [exact Hspec|apply respects_exec_db|apply respects_exec_later|].
  intros [|a args] input has mem n1 n2 w r w' Hrun; [injection Hrun as _ <-; by exists []|].
  destruct (wp_elim _ _ _ _ _ (Hspec (a :: args) input has mem n1 n2 w ltac:(done)) Hrun)
    as [(_ & _ & t & Ht & _ & Hp)|(_ & [(t & Ht & _ & Hp)|(t & Ht & _ & Hp)])]; by exists t.
Qed.

#[export] Instance supervised_exec_returns `{E : Env} : ChildResponsive -> ExecReturns supervised_exec.
Proof.
  intros HR argv input has mem n1 n2 w Hw.
  destruct (exec_with_stdio_total argv input has mem n1 n2 w Hw) as (r & w' & Hrun).
  exists r, w'. split; [exact Hrun|]. destruct argv as [|a args].
  - injection Hrun as _ <-. exact Hw.
  - destruct (wp_elim _ _ _ _ _ (exec_with_stdio_spec (a :: args) input has mem n1 n2 w ltac:(done)) Hrun) as (_ & _ & Hu & _).
    unfold watched. by rewrite Hu.
Qed.

(** *** The hypotheses can be met *)
Lemma prompt_responsive `{E : Env} :
  0 < env_fuel -> (forall t, env_read t <> SEintr) -> (forall t, exists n, env_write t = SOk n /\ (0 < n)%Z) ->
  (forall t, exists r, env_waitpid t = SOk r) -> ChildResponsive.
Proof.
  intros Hf Hr Hw Hp. split; intros t; exists 0; (split; [done|]).
  - apply Hr.
  - destruct (Hw (t + 0)) as (n & -> & Hn). intros [H|(m & [= <-] & Hm)]; [done|lia].
  - destruct (Hp (t + 0)) as [r ->]. by intros [H|H].
Qed.

Lemma quiet_responsive ok : @ChildResponsive (quiet_env ok).
Proof. apply prompt_responsive; [cbn; lia|done|by exists 4096%Z|by eexists]. Qed.

Definition watched_world : world := set_w_usable true new_world.

Lemma exec_returns_witness :
  exists r w', @exec_with_stdio (quiet_env (fun _ => true)) ["ktuctl" : cstr] [] 0 0 16 16 watched_world = Some (r, w').
Proof. apply (@exec_returns (quiet_env (fun _ => true))); [apply quiet_responsive|done]. Defined.

Lemma sample_run : exists r w', @exec_with_stdio (quiet_env (fun _ => true)) ["ktuctl" : cstr] "x" 1 64 16 16 watched_world
  = Some (r, w') /\ r.1 = 0%Z.
Proof. do 2 eexists. split; [vm_compute; reflexivity|done]. Qed.

Lemma one_argument : ["ktuctl" : cstr] <> [].
Proof. discriminate. Qed.

Lemma fds_new_world : (-1)%Z ∉ w_fds watched_world.
Proof. by apply (bool_decide_unpack _). Qed.

Lemma exec_leaks_nothing_witness : exists r w',
  @exec_with_stdio (quiet_env (fun _ => true)) ["ktuctl" : cstr] "x" 1 64 16 16 watched_world = Some (r, w') /\
  w_fds w' = w_fds watched_world.
Proof.
  destruct sample_run as (r & w' & Hrun & _). exists r, w'. split; [exact Hrun|].
  apply (@exec_leaks_nothing (quiet_env (fun _ => true)) _ _ _ _ _ _ _ r w' one_argument fds_new_world Hrun).
Defined.

Lemma exec_signals_only_its_child_witness : exists r w',
  @exec_with_stdio (quiet_env (fun _ => true)) ["ktuctl" : cstr] "x" 1 64 16 16 watched_world = Some (r, w') /\
  r.1 = 0%Z /\ exists pid reaped t, child_life pid reaped t /\ written t `prefix_of` literal "x" /\
    w_trace w' = t ++ [EvSpawn pid ["ktuctl" : cstr] "x" (@child_environ (quiet_env (fun _ => true)) 1 64)].
Proof.
  destruct sample_run as (r & w' & Hrun & Hr). exists r, w'. split; [exact Hrun|]. split; [exact Hr|].
  destruct (@exec_signals_only_its_child (quiet_env (fun _ => true)) _ _ _ _ _ _ _ r w' one_argument Hrun)
    as [[_ Hneg]|(pid & b & t & Hl & Ht & Hp & _)]; [rewrite Hr in Hneg; discriminate Hneg|].
  exists pid, b, t. exact (conj Hl (conj Hp Ht)).
Defined.

Lemma exec_success_witness : exists r w',
  @exec_with_stdio (quiet_env (fun _ => true)) ["ktuctl" : cstr] "x" 1 64 16 16 watched_world = Some (r, w') /\
  r.1 = 0%Z /\ w_timed_out w' = false.
Proof.
  destruct sample_run as (r & w' & Hrun & Hr). exists r, w'. split; [exact Hrun|]. split; [exact Hr|].
  apply (@exec_success (quiet_env (fun _ => true)) _ _ _ _ _ _ _ r w' one_argument Hrun).
  exact Hr.
Defined.
