(* ===== verification/Runner.v ===== *)
(** * Runner: the tunnel commands of runner.c

    The scripts and argument lists with which the daemon drives [tuctl_client]
    (on the server, through its protocol) and [ktuctl] (the local kernel
    module), and the order in which it runs them.  Verified against the
    interface [Exec]. *)

From S2P Require Import Prelude CLib Types World Logic Helper Log Exec ExecSpec.

Definition TUMGRD_TUCTL_CLIENT_BIN : cstr := "tuctl_client".
Definition TUMGRD_KTUCTL_BIN : cstr := "ktuctl".

Definition LF : ascii := byte_of 10.
Definition CR : ascii := byte_of 13.

(** ** Text *)
Definition sanitize_comment (src : cstr) (dst_len : nat) : cstr :=
  trim_inplace ((fun c => if bool_decide (c = LF) || bool_decide (c = CR) then " "%char else c) <$> take (dst_len - 1) src).

Definition ip_version_flag (ip_version : cstr) : option cstr :=
  let same (s : cstr) := streqcase (Some ip_version) (Some s) in
  match ip_version with
  | [] => None
  | _ :: _ =>
      if same "4" || same "ipv4" || same "-4" then Some (literal "-4")
      else if same "6" || same "ipv6" || same "-6" then Some (literal "-6")
      else None
  end.

(** The line that is logged for a command; the word after [psk] or [xor] is
    masked. *)
Definition sensitive_word (a : cstr) : bool := strcasecmp_eq a "psk" || strcasecmp_eq a "xor".

Fixpoint log_argv_loop (argv : list cstr) (sensitive_next : bool) (off : nat) (buf : cstr) : cstr :=
  match argv with
  | [] => buf
  | a :: argv' =>
      if (off <? 2048 - 32) then
        let piece : cstr := if sensitive_next then literal " ****" else " "%char :: a in
        log_argv_loop argv' (sensitive_word a) (off + length piece)
          (take off buf ++ snprintf_s (2048 - off) piece)
      else buf
  end.

Definition log_argv (tag : cstr) (argv : list cstr) : cstr :=
  let head : cstr := literal "[runner] " ++ tag ++ literal " exec:" in
  log_argv_loop argv false (length head) (snprintf_s 2048 head).

(** ** Argument lists *)
Definition tuctl_argv (n : node) : list cstr :=
  [TUMGRD_TUCTL_CLIENT_BIN] ++
  (match ip_version_flag (ip_version n) with Some f => [f] | None => [] end) ++
  ["max-retries" : cstr; "1" : cstr; "psk" : cstr; psk n; "server" : cstr; server_host n;
   "server-port" : cstr; snprintf_s 16 (fmt_d (server_port n)); "script" : cstr; "-" : cstr].

Definition client_add_argv (n : node) : list cstr :=
  [TUMGRD_KTUCTL_BIN] ++
  (match ip_version_flag (ip_version n) with Some f => [f] | None => [] end) ++
  ["client-add" : cstr; "address" : cstr; server_host n; "port" : cstr; snprintf_s 16 (fmt_d (client_port n));
   "uid" : cstr; uid n] ++
  (match description n with [] => [] | d => ["comment" : cstr; d] end) ++
  (match xor_key n with [] => [] | k => ["xor" : cstr; k] end).

Definition client_del_argv (n : node) : list cstr :=
  [TUMGRD_KTUCTL_BIN] ++
  (match ip_version_flag (ip_version n) with Some f => [f] | None => [] end) ++
  ["client-del" : cstr; "address" : cstr; server_host n; "uid" : cstr; uid n].

(** ** Scripts for the server *)
Definition comment_suffix (n : node) : cstr :=
  match sanitize_comment (client_comment n) 256 with
  | [] => []
  | comment => snprintf_s 280 (literal " comment " ++ comment)
  end.

Definition xor_suffix (n : node) : cstr :=
  match xor_key n with
  | [] => []
  | k => snprintf_s 140 (literal " xor " ++ k)
  end.

Definition server_add_script (n : node) (address : cstr) : cstr :=
  literal "server-add uid " ++ uid n ++ literal " port " ++ fmt_d (client_port n) ++
  literal " address " ++ address ++ xor_suffix n ++ comment_suffix n ++ [LF].

Definition CLIENT_IP : cstr := "@client_ip@".

Definition server_del_script (n : node) : cstr := literal "server-del uid " ++ uid n ++ [LF].

Section Runner.
Context `{E : Env} {Run : Exec}.

Definition run_tuctl_script (n : node) (script success_marker : cstr) : M Z :=
  r ← exec (tuctl_argv n) script (has_memlimit n) (memlimit n) 2048 2048;
  let out := trim_inplace r.2.1 in
  let errs := trim_inplace r.2.2 in
  if negb (r.1 =? 0)%Z then mret (-1)%Z
  else match success_marker with
       | [] => mret 0%Z
       | _ :: _ =>
           match strstr out success_marker, strstr errs success_marker with
           | None, None => mret (-1)%Z
           | _, _ => mret 0%Z
           end
       end.

Definition run_ktuctl (argv : list cstr) : M Z :=
  r ← exec argv [] 0 0 1024 1024; mret r.1.

(** [asprintf], which fails only for want of memory. *)
Definition try_asprintf : X unit unit := ok ← lift succeeds; if (ok : bool) then mret tt else fail (-1)%Z.

Definition tumgrd_runner_server_add (n : node) (cfg : config) (current_ip : cstr) : M Z :=
  match current_ip with
  | [] => mret (-1)%Z
  | _ :: _ =>
      r ← ((if use_client_ip cfg then
              try_asprintf;;
              rc ← lift (run_tuctl_script n (server_add_script n CLIENT_IP) "server updated:");
              if (rc =? 0)%Z then mret true
              else
                timed_out ← lift (reads w_timed_out);
                if (timed_out : bool) then fail (-1)%Z else mret false
            else mret false) : X unit bool) tt;
      match r.1 with
      | inl e => mret e
      | inr true => mret 0%Z
      | inr false =>
          run (try_asprintf;;
               try2 (run_tuctl_script n (server_add_script n current_ip) "server updated:");; mret tt)
      end
  end.

Definition tumgrd_runner_server_del (n : node) : M Z :=
  run (try_asprintf;; try2 (run_tuctl_script n (server_del_script n) "server deleted:");; mret tt).

Definition tumgrd_runner_client_add (n : node) : M Z := run_ktuctl (client_add_argv n).
Definition tumgrd_runner_client_del (n : node) : M Z := run_ktuctl (client_del_argv n).

Definition tumgrd_runner_reset_local_client (n : node) : M Z :=
  tumgrd_runner_client_del n;;
  timed_out ← reads w_timed_out;
  if (timed_out : bool) then mret (-1)%Z else tumgrd_runner_client_add n.

End Runner.

(** ** Lemmas *)
Section Commands.
Context `{E : Env} {Run : Exec} `{!ExecLaws Run}.
Implicit Types (w : world).

(** A command that is run at most once, and is run if the result is 0; then the
    timeout flag is clear. *)
Definition run_result (cmd : command) (w : world) (rc : Z) (w' : world) : Prop :=
  (rc = 0%Z /\ w_timed_out w' = false /\ ran [cmd] w w') \/
  ((rc < 0)%Z /\ (ran [] w w' \/ ran [cmd] w w')).

Lemma wp_run_tuctl_script n script marker w :
  wp (run_tuctl_script n script marker) (run_result (tuctl_argv n, script) w) w.
Proof.
  apply wp_bind. eapply wp_mono; [by apply exec_spec|].
  intros [rc [out errs]] w' H. unfold exec_result in H. cbn [fst snd] in *.
  destruct (Z.eqb_spec rc 0) as [->|Hne]; cbn [negb].
  - destruct H as [(_ & Hto & Hr)|[Hlt _]]; [|lia].
    assert (run_result (tuctl_argv n, script) w 0%Z w') as Hok by by left.
    assert (run_result (tuctl_argv n, script) w (-1)%Z w') as Hfail by (right; split; [done|by right]).
    destruct marker as [|m ms]; [by apply wp_ret|].
    destruct (strstr (trim_inplace out) _); [by apply wp_ret|].
    destruct (strstr (trim_inplace errs) _); by apply wp_ret.
  - apply wp_ret. right. split; [done|]. destruct H as [(H0 & _)|[_ H]]; done.
Qed.

Lemma wp_run_ktuctl argv w : argv <> [] -> wp (run_ktuctl argv) (run_result (argv, []) w) w.
Proof.
  intros Hne. apply wp_bind. eapply wp_mono; [by apply exec_spec|]. intros r w' H. apply wp_ret. exact H.
Qed.

Lemma ran_calm cmds w w1 w2 : calm w w1 -> ran cmds w1 w2 -> ran cmds w w2.
Proof. intros (Ht & _)%calm_fields (t & Hr & H). exists t. by rewrite Hr, Ht. Qed.

(** *** Relations and termination *)
Context (R : relation world) `{!Silent R} `{!forall argv input has mem n1 n2, Respects R (exec argv input has mem n1 n2)}.

#[export] Instance respects_run_tuctl_script n s m : Respects R (run_tuctl_script n s m).
Proof. unfold run_tuctl_script. apply _. Qed.
#[export] Instance respects_try_asprintf : RespectsX R try_asprintf.
Proof. unfold try_asprintf, succeeds. apply _. Qed.
#[export] Instance respects_server_add n cfg ip : Respects R (tumgrd_runner_server_add n cfg ip).
Proof. unfold tumgrd_runner_server_add. apply _. Qed.
#[export] Instance respects_server_del n : Respects R (tumgrd_runner_server_del n).
Proof. unfold tumgrd_runner_server_del. apply _. Qed.
#[export] Instance respects_client_add n : Respects R (tumgrd_runner_client_add n).
Proof. unfold tumgrd_runner_client_add, run_ktuctl. apply _. Qed.
#[export] Instance respects_client_del n : Respects R (tumgrd_runner_client_del n).
Proof. unfold tumgrd_runner_client_del, run_ktuctl. apply _. Qed.
#[export] Instance respects_reset_local_client n : Respects R (tumgrd_runner_reset_local_client n).
Proof. unfold tumgrd_runner_reset_local_client. apply _. Qed.
End Commands.

#[global] Typeclasses Opaque run_tuctl_script tumgrd_runner_server_add tumgrd_runner_server_del
  tumgrd_runner_client_add tumgrd_runner_client_del tumgrd_runner_reset_local_client.

Section Returns.
Context `{E : Env} {Run : Exec} `{!ExecReturns Run}.

#[export] Instance total_run_tuctl_script n s m : Total watched (run_tuctl_script n s m).
Proof. unfold run_tuctl_script. apply _. Qed.
#[export] Instance total_server_add n cfg ip : Total watched (tumgrd_runner_server_add n cfg ip).
Proof. unfold tumgrd_runner_server_add, try_asprintf, succeeds. apply _. Qed.
#[export] Instance total_server_del n : Total watched (tumgrd_runner_server_del n).
Proof. unfold tumgrd_runner_server_del, try_asprintf, succeeds. apply _. Qed.
#[export] Instance total_client_del n : Total watched (tumgrd_runner_client_del n).
Proof. unfold tumgrd_runner_client_del, run_ktuctl. apply _. Qed.
#[export] Instance total_reset_local_client n : Total watched (tumgrd_runner_reset_local_client n).
Proof.
  unfold tumgrd_runner_reset_local_client, tumgrd_runner_client_del, tumgrd_runner_client_add, run_ktuctl. apply _.
Qed.
End Returns.

(** ** What the operations run *)
Section Operations.
Context `{E : Env} {Run : Exec} `{!ExecLaws Run}.
Implicit Types (w : world).

Definition tuctl (n : node) (script : cstr) : command := (tuctl_argv n, script).
Definition ktuctl (argv : list cstr) : command := (argv, []).

(** The commands that an operation may run, in order; success means that the
    last of them was run and nothing timed out. *)
Definition ran_some (allowed : list command) (w : world) (rc : Z) (w' : world) : Prop :=
  (rc <= 0)%Z /\ exists cmds, ran cmds w w' /\ cmds `sublist_of` allowed /\
    (rc = 0%Z -> cmds <> [] /\ w_timed_out w' = false).

Lemma run_result_some cmd w rc w' : run_result cmd w rc w' -> ran_some [cmd] w rc w'.
Proof.
  intros [(-> & Hto & Hr)|(Hlt & [Hr|Hr])]; (split; [lia|]).
  - by exists [cmd].
  - exists []. split_and!; [done|apply sublist_nil_l|lia].
  - exists [cmd]. split_and!; [done..|lia].
Qed.

(** One more attempt after commands that did not succeed. *)
Lemma ran_then cmds allowed cmd w w1 rc w2 :
  ran cmds w w1 -> cmds `sublist_of` allowed -> run_result cmd w1 rc w2 ->
  (rc <= 0)%Z /\ exists cmds', ran cmds' w w2 /\ cmds' `sublist_of` allowed ++ [cmd] /\
    (rc = 0%Z -> cmd ∈ cmds' /\ w_timed_out w2 = false).
Proof.
  intros Hr Hsub [(-> & Hto & Hr2)|(Hlt & [Hr2|Hr2])]; (split; [lia|]).
  - exists (cmds ++ [cmd]). split_and!; [by eapply ran_app|by apply sublist_app|]. intros _.
    split; [|done]. apply elem_of_app. right. by left.
  - exists (cmds ++ []). split_and!; [by eapply ran_app|by apply sublist_app; [|apply sublist_nil_l]|lia].
  - exists (cmds ++ [cmd]). split_and!; [by eapply ran_app|by apply sublist_app|lia].
Qed.

Lemma wp_last_attempt n script marker cmds allowed w w1 :
  ran cmds w w1 -> cmds `sublist_of` allowed ->
  wp (run (try_asprintf;; try2 (run_tuctl_script n script marker);; mret tt))
    (ran_some (allowed ++ [tuctl n script]) w) w1.
Proof.
  intros Hr Hsub. apply wp_run, wpx_bind, wpx_bind, wpx_lift, wp_succeeds. intros w2 H2 _.
  assert (ran cmds w w2) as Hr2.
  { destruct Hr as (t & Ht & H). exists t. by rewrite (proj1 (calm_fields _ _ H2)). }
  destruct (env_ok _); [apply wpx_ret|apply wpx_fail].
  - apply wpx_bind, wpx_try2. eapply wp_mono; [apply wp_run_tuctl_script|]. intros rc w3 Hrun.
    pose proof (ran_then _ _ _ _ _ _ _ Hr2 Hsub Hrun) as (Hle & cmds' & Hr' & Hsub' & Hrc).
    assert (ran_some (allowed ++ [tuctl n script]) w rc w3) as Hpost.
    { split; [done|]. exists cmds'. split_and!; [done..|]. intros H0. destruct (Hrc H0) as [Hin Hto].
      split; [|done]. intros ->. by apply elem_of_nil in Hin. }
    destruct (Z.ltb_spec rc 0); [done|]. apply wpx_ret. by replace 0%Z with rc by lia.
  - split; [lia|]. exists cmds. split_and!; [done|by apply sublist_inserts_r|lia].
Qed.

Definition server_add_commands (n : node) (cfg : config) (ip : cstr) : list command :=
  (if use_client_ip cfg then [tuctl n (server_add_script n CLIENT_IP)] else [])
  ++ [tuctl n (server_add_script n ip)].

Lemma server_add_spec n cfg ip w :
  wp (tumgrd_runner_server_add n cfg ip) (ran_some (server_add_commands n cfg ip) w) w.
Proof.
  unfold tumgrd_runner_server_add, server_add_commands. destruct ip as [|c ip].
  { apply wp_ret. split; [lia|]. exists []. split_and!; [by apply ran_nil|apply sublist_nil_l|lia]. }
  generalize (c :: ip). clear c ip. intros ip. apply wp_bind, wp_wpx.
  destruct (use_client_ip cfg); [|apply wpx_ret; apply (wp_last_attempt _ _ _ [] []); [by apply ran_nil|done]].
  set (s1 := tuctl n (server_add_script n CLIENT_IP)). set (s2 := tuctl n (server_add_script n ip)).
  assert (forall rc cmds w', (rc <= 0)%Z -> ran cmds w w' -> cmds `sublist_of` [s1] ->
    (rc = 0%Z -> cmds <> [] /\ w_timed_out w' = false) -> ran_some ([s1] ++ [s2]) w rc w') as Hdone.
  { intros rc cmds w' Hle Hr Hsub Hrc. split; [done|]. exists cmds. split_and!; [done| |done].
    by apply sublist_inserts_r. }
  apply wpx_bind, wpx_bind, wpx_lift, wp_succeeds. intros w1 H1 _.
  destruct (env_ok _); [apply wpx_ret|apply wpx_fail, wp_ret, (Hdone _ []); [lia| |apply sublist_nil_l|lia]].
  - apply wpx_bind, wpx_lift. eapply wp_mono; [apply wp_run_tuctl_script|]. intros rc w2 Hrun.
    destruct (run_result_some _ _ _ _ Hrun) as (Hle & cmds & Hr & Hsub & Hrc).
    assert (ran cmds w w2) as Hr' by by eapply ran_calm.
    destruct (Z.eqb_spec rc 0) as [->|Hne]; [by apply wpx_ret, wp_ret, (Hdone _ cmds)|].
    apply wpx_bind, wpx_lift, wp_reads. destruct (w_timed_out w2).
    + apply wpx_fail, wp_ret, (Hdone _ cmds); [lia|done|done|lia].
    + apply wpx_ret. by apply (wp_last_attempt _ _ _ cmds [s1]).
  - apply ran_nil, (proj1 (calm_fields _ _ H1)).
Qed.

Lemma server_del_spec n w :
  wp (tumgrd_runner_server_del n) (ran_some [tuctl n (server_del_script n)] w) w.
Proof. apply (wp_last_attempt _ _ _ [] []); [by apply ran_nil|done]. Qed.

Lemma client_del_spec n w : wp (tumgrd_runner_client_del n) (run_result (ktuctl (client_del_argv n)) w) w.
Proof. by apply wp_run_ktuctl. Qed.

Lemma client_add_spec n w : wp (tumgrd_runner_client_add n) (run_result (ktuctl (client_add_argv n)) w) w.
Proof. by apply wp_run_ktuctl. Qed.

(** Deleting comes first and may fail; success means that the addition ran. *)
Definition reset_result (n : node) (w : world) (rc : Z) (w' : world) : Prop :=
  let del := ktuctl (client_del_argv n) in
  let add := ktuctl (client_add_argv n) in
  (rc <= 0)%Z /\ exists cmds, ran cmds w w' /\ cmds `sublist_of` [del; add] /\
    (rc = 0%Z -> (cmds = [add] \/ cmds = [del; add]) /\ w_timed_out w' = false).

Lemma reset_local_client_spec n w :
  wp (tumgrd_runner_reset_local_client n) (reset_result n w) w.
Proof.
  apply wp_bind. eapply wp_mono; [apply client_del_spec|]. intros rc w1 H1.
  destruct (run_result_some _ _ _ _ H1) as (_ & cmds & Hr & Hsub & _).
  set (del := ktuctl (client_del_argv n)) in *. set (add := ktuctl (client_add_argv n)).
  apply wp_bind, wp_reads. destruct (w_timed_out w1).
  - apply wp_ret. split; [lia|]. exists cmds. split_and!; [done| |lia].
    by apply (sublist_inserts_r [add] cmds [del]).
  - eapply wp_mono; [apply client_add_spec|]. intros rc2 w2 H2. fold add in H2.
    assert (cmds = [] \/ cmds = [del]) as Hcmds.
    { apply sublist_cons_r in Hsub as [Hsub|(l & -> & Hsub)]; apply sublist_nil_r in Hsub; subst; auto. }
    destruct H2 as [(-> & Hto & Hr2)|(Hlt & [Hr2|Hr2])]; (split; [lia|]).
    + exists (cmds ++ [add]). split_and!; [by eapply ran_app|by apply (sublist_app _ [del] _ [add])|].
      intros _. split; [|done]. destruct Hcmds as [-> | ->]; auto.
    + exists (cmds ++ []). split_and!; [by eapply ran_app| |lia].
      by apply (sublist_app _ [del] _ [add]); [|apply sublist_nil_l].
    + exists (cmds ++ [add]). split_and!; [by eapply ran_app|by apply (sublist_app _ [del] _ [add])|lia].
Qed.
End Operations.

(** ** The protocols

    Which runs of the tools an operation makes, in which order, and what its
    result says of them. *)
Section Protocols.
Context `{E : Env} {Run : Exec}.
Implicit Types (w : world).

(** A tool printed the marker on one of its outputs. *)
Definition printed (marker : cstr) (out : cstr * cstr) : Prop :=
  (exists a b, trim_inplace out.1 = a ++ marker ++ b) \/ (exists a b, trim_inplace out.2 = a ++ marker ++ b).

(** A script is given to one run of the client for the server; [ok]: it exited
    with 0 and printed the marker. *)
Definition sent (n : node) (script marker : cstr) (w : world) (ok : bool) (w' : world) : Prop :=
  exists r, exec (tuctl_argv n) script (has_memlimit n) (memlimit n) 2048 2048 w = Some (r, w') /\
    (ok = true <-> r.1 = 0%Z /\ printed marker r.2).

(** An allocation succeeds, or fails. *)
Definition allocated (ok : bool) (w w' : world) : Prop := calm w w' /\ env_ok (w_tick w) = ok.

(** A script is made and sent, and success is the client's. *)
Inductive one_script (n : node) (script marker : cstr) (w : world) : Z -> world -> Prop :=
| script_not_made w' : allocated false w w' -> one_script n script marker w (-1) w'
| script_accepted w1 w' : allocated true w w1 -> sent n script marker w1 true w' -> one_script n script marker w 0 w'
| script_refused w1 w' : allocated true w w1 -> sent n script marker w1 false w' -> one_script n script marker w (-1) w'.

Definition UPDATED : cstr := "server updated:".
Definition DELETED : cstr := "server deleted:".

Inductive server_added (n : node) (cfg : config) (ip : cstr) (w : world) : Z -> world -> Prop :=
| add_without_address : ip = [] -> server_added n cfg ip w (-1) w
| add_directly rc w' :
    ip <> [] -> use_client_ip cfg = false ->
    one_script n (server_add_script n ip) UPDATED w rc w' -> server_added n cfg ip w rc w'
| add_placeholder_not_made w' :
    ip <> [] -> use_client_ip cfg = true -> allocated false w w' -> server_added n cfg ip w (-1) w'
| add_placeholder w1 w' :
    ip <> [] -> use_client_ip cfg = true -> allocated true w w1 ->
    sent n (server_add_script n CLIENT_IP) UPDATED w1 true w' -> server_added n cfg ip w 0 w'
| add_timed_out w1 w' :
    ip <> [] -> use_client_ip cfg = true -> allocated true w w1 ->
    sent n (server_add_script n CLIENT_IP) UPDATED w1 false w' -> w_timed_out w' = true ->
    server_added n cfg ip w (-1) w'
| add_fallback w1 w2 rc w' :
    ip <> [] -> use_client_ip cfg = true -> allocated true w w1 ->
    sent n (server_add_script n CLIENT_IP) UPDATED w1 false w2 -> w_timed_out w2 = false ->
    one_script n (server_add_script n ip) UPDATED w2 rc w' -> server_added n cfg ip w rc w'.

(** The local tool is run, with this result. *)
Definition ktuctl_run (argv : list cstr) (w : world) (rc : Z) (w' : world) : Prop :=
  exists r, exec argv [] 0 0 1024 1024 w = Some (r, w') /\ rc = r.1.

Inductive client_reset (n : node) (w : world) : Z -> world -> Prop :=
| reset_timed_out rc w' :
    ktuctl_run (client_del_argv n) w rc w' -> w_timed_out w' = true -> client_reset n w (-1) w'
| reset_added rc1 w1 rc w' :
    ktuctl_run (client_del_argv n) w rc1 w1 -> w_timed_out w1 = false ->
    ktuctl_run (client_add_argv n) w1 rc w' -> client_reset n w rc w'.

Lemma wp_sent n script marker w :
  marker <> [] ->
  wp (run_tuctl_script n script marker) (fun rc w' => exists ok, sent n script marker w ok w' /\ rc = if ok then 0%Z else (-1)%Z) w.
Proof.
  intros Hm. apply wp_bind, wp_intro. intros [rc [out errs]] w' Hrun. cbn [fst snd].
  assert (forall s, strstr (trim_inplace s) marker <> None <-> exists a b, trim_inplace s = a ++ marker ++ b) as Hin.
  { intros s. rewrite <- strstr_spec. split; [by destruct (strstr _ _)|by intros [? ->]]. }
  assert (forall (ok : bool), (ok = true <-> rc = 0%Z /\ (strstr (trim_inplace out) marker <> None \/ strstr (trim_inplace errs) marker <> None)) ->
    exists ok', sent n script marker w ok' w' /\ (if ok then 0%Z else (-1)%Z) = if ok' then 0%Z else (-1)%Z) as Hdone.
  { intros ok Hok. exists ok. split; [|done]. exists (rc, (out, errs)). split; [done|]. rewrite Hok, !Hin. done. }
  destruct (Z.eqb_spec rc 0) as [->|Hne]; cbn [negb].
  2:{ apply wp_ret, (Hdone false). split; [done|]. by intros [? _]. }
  destruct marker as [|m ms]; [done|]. revert Hdone. generalize (m :: ms). intros marker Hdone.
  destruct (strstr (trim_inplace out) marker) as [t|]; [apply wp_ret, (Hdone true); split; [by split; [|left]|done]|].
  destruct (strstr (trim_inplace errs) marker) as [t|]; apply wp_ret; [apply (Hdone true); split; [by split; [|right]|done]|].
  apply (Hdone false). split; [done|]. by intros [_ [?|?]].
Qed.

Lemma wp_one_script n script marker w :
  marker <> [] ->
  wp (run (try_asprintf;; try2 (run_tuctl_script n script marker);; mret tt)) (one_script n script marker w) w.
Proof.
  intros Hm. apply wp_run, wpx_bind, wpx_bind, wpx_lift, wp_succeeds. intros w1 H1 _.
  destruct (env_ok (w_tick w)) eqn:Hok; [apply wpx_ret|apply wpx_fail, script_not_made; by split].
  apply wpx_bind, wpx_try2. eapply wp_mono; [by apply wp_sent|]. intros rc w2 ([] & Hs & ->); cbn [Z.ltb Z.compare].
  - apply wpx_ret, (script_accepted _ _ _ _ w1 _ (conj H1 Hok) Hs).
  - apply (script_refused _ _ _ _ w1 _ (conj H1 Hok) Hs).
Qed.

Lemma wp_server_added n cfg ip w : wp (tumgrd_runner_server_add n cfg ip) (server_added n cfg ip w) w.
Proof.
  unfold tumgrd_runner_server_add. destruct ip as [|c ip]; [apply wp_ret; by constructor|].
  assert (c :: ip <> []) as Hne by done. revert Hne. generalize (c :: ip). clear c ip. intros ip Hne.
  apply wp_bind, wp_wpx. destruct (use_client_ip cfg) eqn:Hcfg; cbn [fst snd].
  2:{ apply wpx_ret. eapply wp_mono; [by apply wp_one_script|]. intros rc w'. by apply add_directly. }
  apply wpx_bind, wpx_bind, wpx_lift, wp_succeeds. intros w1 H1 _.
  destruct (env_ok (w_tick w)) eqn:Hok; [apply wpx_ret|apply wpx_fail, wp_ret, add_placeholder_not_made; [done..|by split]].
  assert (allocated true w w1) as Hal by by split.
  apply wpx_bind, wpx_lift. eapply wp_mono; [by apply wp_sent|]. intros rc w2 ([] & Hs & ->); cbn [Z.eqb].
  { apply wpx_ret, wp_ret. by apply (add_placeholder _ _ _ _ w1). }
  apply wpx_bind, wpx_lift, wp_reads. destruct (w_timed_out w2) eqn:Hto.
  - apply wpx_fail, wp_ret. by apply (add_timed_out _ _ _ _ w1).
  - apply wpx_ret. eapply wp_mono; [by apply wp_one_script|]. intros rc w3. by apply (add_fallback _ _ _ _ w1 w2).
Qed.

Lemma wp_ktuctl_run argv w : wp (run_ktuctl argv) (ktuctl_run argv w) w.
Proof. apply wp_bind, wp_intro. intros r w' Hrun. apply wp_ret. by exists r. Qed.

Lemma wp_client_reset n w : wp (tumgrd_runner_reset_local_client n) (client_reset n w) w.
Proof.
  apply wp_bind. eapply wp_mono; [apply wp_ktuctl_run|]. intros rc w1 H1. apply wp_bind, wp_reads.
  destruct (w_timed_out w1) eqn:Hto; [apply wp_ret; by eapply reset_timed_out|].
  eapply wp_mono; [apply wp_ktuctl_run|]. intros rc2 w2 H2. by eapply reset_added.
Qed.

Lemma wp_server_deleted n w :
  wp (tumgrd_runner_server_del n) (one_script n (server_del_script n) DELETED w) w.
Proof. by apply wp_one_script. Qed.
End Protocols.

(** ** Properties *)
Section Properties.
Context `{E : Env} {Run : Exec} `{!ExecLaws Run}.
Implicit Types (w : world).

(** C22: how a node is added on its server.  Without an address nothing is done.
    When the [@client_ip@] placeholder is enabled its script is sent first, and
    the call is over if the client exits with 0 and prints the marker, or if
    the deadline expired; otherwise, and when the placeholder is not enabled,
    the script with the detected address is sent, once, and its outcome is that
    of the call, which succeeds if and only if the client exits with 0 and
    prints the marker.  No other command is run, and the call returns whenever
    the supervised child does. *)
Theorem server_add_protocol n cfg ip w :
  ExecReturns Run -> watched w ->
  exists rc w', tumgrd_runner_server_add n cfg ip w = Some (rc, w') /\ watched w' /\
    server_added n cfg ip w rc w' /\ ran_some (server_add_commands n cfg ip) w rc w'.
Proof.
  intros HR Hw. destruct (total_server_add n cfg ip w Hw) as (rc & w' & Hrun & Hw').
  exists rc, w'. split_and!; [done|done|exact (wp_elim _ _ _ _ _ (wp_server_added n cfg ip w) Hrun)|].
  exact (wp_elim _ _ _ _ _ (server_add_spec n cfg ip w) Hrun).
Qed.

(** C23: how the local client is reset.  The old entry is always deleted first,
    whatever comes of that; after a timeout nothing more is run and the call
    fails, otherwise the new entry is added, and the outcome of that is the
    outcome of the call.  No other command is run, and success means that the
    addition was run and nothing timed out. *)
Theorem reset_local_client_order n w :
  ExecReturns Run -> watched w ->
  exists rc w', tumgrd_runner_reset_local_client n w = Some (rc, w') /\ watched w' /\
    client_reset n w rc w' /\ reset_result n w rc w'.
Proof.
  intros HR Hw. destruct (total_reset_local_client n w Hw) as (rc & w' & Hrun & Hw').
  exists rc, w'. split_and!; [done|done|exact (wp_elim _ _ _ _ _ (wp_client_reset n w) Hrun)|].
  exact (wp_elim _ _ _ _ _ (reset_local_client_spec n w) Hrun).
Qed.
End Properties.

(** *** Scripts are single lines *)
Lemma sanitize_comment_no_newline src n : LF ∉ sanitize_comment src n.
Proof.
  unfold sanitize_comment. intros Hin%trim_subset. apply list_elem_of_fmap in Hin as (c & Hc & _).
  destruct (decide (c = LF)) as [->|Hne]; [done|].
  rewrite (bool_decide_eq_false_2 _ Hne) in Hc. cbn in Hc. destruct (bool_decide _); [done|]. by subst.
Qed.

Lemma fmt_u_no_newline z : (0 <= z < 10 ^ 20)%Z -> LF ∉ fmt_u z.
Proof.
  intros Hz. destruct (fmt_u_spec z Hz) as (_ & Hd & _). intros Hin.
  rewrite Forall_forall in Hd. by specialize (Hd LF Hin).
Qed.

Lemma fmt_d_no_newline z : int_fits z -> LF ∉ fmt_d z.
Proof.
  unfold int_fits. intros Hz. unfold fmt_d. destruct (Z.ltb_spec z 0).
  - rewrite not_elem_of_cons. split; [done|]. apply fmt_u_no_newline. lia.
  - apply fmt_u_no_newline. lia.
Qed.

Lemma take_no_newline n (s : cstr) : LF ∉ s -> LF ∉ take n s.
Proof. intros H Hin. apply H. eapply elem_of_subseteq; [apply subseteq_take|exact Hin]. Qed.

(** Text that ends with a printed character is in what is left after trimming. *)
Lemma trim_keeps (pre key post : cstr) :
  (forall c, head (pre ++ key) = Some c -> is_space c = false) ->
  (forall c t, key = t ++ [c] -> is_space c = false) -> key <> [] ->
  exists rest, trim_inplace (pre ++ key ++ post) = pre ++ key ++ rest.
Proof.
  intros Hhd Hlast Hne. destruct (trim_decompose (pre ++ key ++ post)) as (a & b & Hs & Ha & Hb & _ & _).
  revert Hs. generalize (trim_inplace (pre ++ key ++ post)) as trimmed. intros trimmed Hs. destruct a as [|c a].
  2:{ exfalso. apply Forall_inv in Ha. specialize (Hhd c). rewrite Ha in Hhd. rewrite app_assoc in Hs.
      destruct (pre ++ key) as [|d l] eqn:Hpk; [by apply app_nil in Hpk as [_ ->]|]. injection Hs as -> _. by specialize (Hhd eq_refl). }
  cbn [app] in Hs. rewrite app_assoc in Hs. apply app_eq_inv in Hs as [(x & Hx & Hpost)|(x & Hx & _)].
  - destruct x as [|c x _] using rev_ind; [exists []; by rewrite !app_nil_r in *|].
    exfalso. destruct (exists_last Hne) as (t & d & Hkey). rewrite Hkey, !app_assoc in Hx.
    apply app_inj_tail in Hx as [_ ->]. rewrite Hpost in Hb. apply Forall_app in Hb as [[_ Hc]%Forall_app _].
    apply Forall_inv in Hc. by rewrite (Hlast c t Hkey) in Hc.
  - exists x. by rewrite Hx, <- app_assoc.
Qed.

(** The argument lists are logged with their secrets masked, but the script that
    is fed to the client is logged as it is, at the level the daemon starts
    with: whoever reads the log has the XOR key of the node. *)
Theorem logged_script_shows_the_key v tag n address :
  (initial_verbosity <= v)%Z -> xor_key n <> [] -> length (xor_key n) < SZ_XOR_KEY ->
  Forall (fun c => is_hex c = true) (xor_key n) ->
  exists before after, log_trimmed v tag (Some (server_add_script n address)) true = Some (before ++ xor_key n ++ after).
Proof.
  intros Hv Hne Hlen Hhex. unfold SZ_XOR_KEY in Hlen.
  assert (exists pre post, server_add_script n address = ("s"%char :: pre) ++ xor_key n ++ post) as (pre & post & Hs).
  { assert (xor_suffix n = literal " xor " ++ xor_key n) as Hx.
    { unfold xor_suffix. destruct (xor_key n) as [|c k] eqn:Hk; [done|]. rewrite <- Hk in *. apply snprintf_s_id. cbn. lia. }
    exists (literal "erver-add uid " ++ uid n ++ literal " port " ++ fmt_d (client_port n) ++ literal " address " ++ address ++ literal " xor "),
      (comment_suffix n ++ [LF]). unfold server_add_script. rewrite Hx. cbn [app]. by rewrite <- !app_assoc. }
  destruct (trim_keeps ("s"%char :: pre) (xor_key n) post) as (rest & Hrest); [by intros c [= <-]| |done|].
  { intros c t Hk. rewrite Hk in Hhex. apply Forall_app in Hhex as [_ Hc%Forall_inv].
    destruct (is_space c) eqn:Hsp; [|done]. by destruct c as [[] [] [] [] [] [] [] []]. }
  unfold log_trimmed, log_info. cbn [negb]. rewrite Hs, Hrest.
  destruct (log_any_line v (level_value LOG_INFO) (tag ++ literal ": " ++ ("s"%char :: pre) ++ xor_key n ++ rest)) as (out & -> & Hout).
  cbn [level_value] in Hout. destruct (Z.leb_spec (Z.max 0 (Z.min 2 4)) v); [|unfold initial_verbosity in Hv; lia].
  destruct Hout as (a & b & ->). exists (a ++ tag ++ literal ": " ++ "s"%char :: pre), (rest ++ b ++ [byte_of 10]).
  by rewrite <- !app_assoc.
Qed.

(** C24: a script for the server is one line: the newline at its end is its only
    one, whatever the client comment contains, so a comment cannot smuggle in a
    second command. *)
Theorem server_add_script_one_line n address :
  int_fits (client_port n) -> LF ∉ uid n -> LF ∉ xor_key n -> LF ∉ address ->
  exists line, server_add_script n address = line ++ [LF] /\ LF ∉ line.
Proof.
  intros Hport Huid Hxor Haddr.
  exists (literal "server-add uid " ++ uid n ++ literal " port " ++ fmt_d (client_port n) ++
    literal " address " ++ address ++ xor_suffix n ++ comment_suffix n).
  split; [unfold server_add_script; by rewrite <- !app_assoc|].
  pose proof (fmt_d_no_newline _ Hport) as Hp.
  assert (LF ∉ xor_suffix n) as Hx.
  { unfold xor_suffix. destruct (xor_key n) as [|c k]; [apply not_elem_of_nil|].
    apply take_no_newline. rewrite not_elem_of_app. split; [by vm_compute; set_solver|done]. }
  assert (LF ∉ comment_suffix n) as Hc.
  { unfold comment_suffix. pose proof (sanitize_comment_no_newline (client_comment n) 256) as H.
    destruct (sanitize_comment _ _) as [|c k]; [apply not_elem_of_nil|].
    apply take_no_newline. rewrite not_elem_of_app. split; [by vm_compute; set_solver|done]. }
  rewrite !not_elem_of_app. split_and!; try done; by vm_compute; set_solver.
Qed.

(** Nothing is truncated in what is sent for a node that fits its struct:
    the key and the port arrive in full, and every argument list fits the
    sixteen entries of its array with its terminator. *)
Theorem arguments_fit n :
  node_fits n ->
  xor_suffix n = (if bool_decide (xor_key n = []) then [] else literal " xor " ++ xor_key n) /\
  snprintf_s 16 (fmt_d (server_port n)) = fmt_d (server_port n) /\
  snprintf_s 16 (fmt_d (client_port n)) = fmt_d (client_port n) /\
  length (tuctl_argv n) < 16 /\ length (client_add_argv n) < 16 /\ length (client_del_argv n) < 16.
Proof.
  intros Hf. pose proof (fmt_d_length _ (fits_server_port _ Hf)). pose proof (fmt_d_length _ (fits_client_port _ Hf)).
  destruct (fits_xor_key _ Hf) as [_ Hlen]. split_and!; try (apply snprintf_s_id; lia).
  - unfold xor_suffix. destruct (xor_key n) as [|c k] eqn:Hk; [done|]. cbn [bool_decide].
    rewrite bool_decide_eq_false_2 by done. apply snprintf_s_id. rewrite length_app. unfold SZ_XOR_KEY in Hlen.
    change (length (literal " xor ")) with 5. lia.
  - unfold tuctl_argv. rewrite !length_app. destruct (ip_version_flag _); cbn; lia.
  - unfold client_add_argv. rewrite !length_app.
    destruct (ip_version_flag _), (description n), (xor_key n); cbn; lia.
  - unfold client_del_argv. rewrite !length_app. destruct (ip_version_flag _); cbn; lia.
Qed.

(** C25: the logged command line does not depend on a secret: two argument lists
    that differ only in the word after [psk] or [xor] give the same line, unless
    one of the two secrets is itself [psk] or [xor], in any case of its letters,
    and the other is not. *)
Theorem log_argv_masks_secrets tag before word s1 s2 after :
  sensitive_word word = true -> sensitive_word s1 = sensitive_word s2 ->
  log_argv tag (before ++ word :: s1 :: after) = log_argv tag (before ++ word :: s2 :: after).
Proof.
  intros Hw Hs. unfold log_argv. cbv zeta. generalize (length (literal "[runner] " ++ tag ++ literal " exec:")).
  generalize (snprintf_s 2048 (literal "[runner] " ++ tag ++ literal " exec:")). generalize false.
  induction before as [|a before IH]; intros sens buf off; cbn [app log_argv_loop].
  - destruct (off <? 2048 - 32); [|done]. rewrite Hw. destruct (_ <? 2048 - 32); [|done]. by rewrite Hs.
  - destruct (off <? 2048 - 32); [|done]. apply IH.
Qed.

(** *** The hypotheses can be met *)
Definition sample_config : config := mkConfig TUMGRD_DB_PATH None "info" 60 true true 2 0.

#[export] Instance sample_exec_returns : @ExecReturns (@supervised_exec ready_env).
Proof. apply (@supervised_exec_returns ready_env), quiet_responsive. Qed.

Lemma server_add_protocol_witness :
  exists rc w', @tumgrd_runner_server_add ready_env (@supervised_exec ready_env) sample_node sample_config "192.0.2.1" watched_world
    = Some (rc, w') /\ @server_added ready_env (@supervised_exec ready_env) sample_node sample_config "192.0.2.1" watched_world rc w'.
Proof.
  destruct (@server_add_protocol ready_env (@supervised_exec ready_env) _ sample_node sample_config "192.0.2.1"
    watched_world _ eq_refl) as (rc & w' & Hrun & _ & Hadd & _).
  exists rc, w'. split; [exact Hrun|exact Hadd].
Defined.

Lemma reset_local_client_order_witness :
  exists rc w', @tumgrd_runner_reset_local_client (@supervised_exec ready_env) sample_node watched_world = Some (rc, w') /\
    @client_reset (@supervised_exec ready_env) sample_node watched_world rc w'.
Proof.
  destruct (@reset_local_client_order ready_env (@supervised_exec ready_env) _ sample_node watched_world _ eq_refl)
    as (rc & w' & Hrun & _ & Hr & _).
  exists rc, w'. split; [exact Hrun|exact Hr].
Defined.

Lemma server_add_script_one_line_witness :
  exists line, server_add_script sample_node "192.0.2.1" = line ++ [LF] /\ LF ∉ line.
Proof.
  apply (server_add_script_one_line sample_node "192.0.2.1").
  - split; vm_compute; by intros.
  - by apply (bool_decide_unpack _); vm_compute.
  - by apply (bool_decide_unpack _); vm_compute.
  - by apply (bool_decide_unpack _); vm_compute.
Defined.

Lemma arguments_fit_witness : length (tuctl_argv sample_node) < 16.
Proof. apply (arguments_fit sample_node sample_fits). Defined.

Lemma log_argv_masks_secrets_witness :
  log_argv "tuctl_client" ["psk" : cstr; "hunter2" : cstr] = log_argv "tuctl_client" ["psk" : cstr; "letmein" : cstr].
Proof. apply (log_argv_masks_secrets "tuctl_client" [] "psk" "hunter2" "letmein" []); vm_compute; reflexivity. Defined.
