(* ===== verification/IpDetect.v ===== *)
(** * IpDetect: ipdetect.c

    The public address of the daemon: textual addresses as [inet_pton] accepts
    them, the address in the body of an HTTP response, URLs, the HTTP request
    itself, and the probe that asks the kernel for the source address of an
    IPv6 connection. *)

From S2P Require Import Prelude CLib Types World Logic Helper.

(** ** Textual addresses ([inet_pton])

    [is_ipv4] wants four decimal octets without leading zeros. *)
Definition octet (ds : cstr) : bool :=
  match ds with
  | [] => false
  | c :: t => (length ds <=? 3) && forallb is_digit ds &&
              negb (bool_decide (c = "0"%char) && (1 <? length ds)) &&
              (digits_value 10 ds <=? 255)%Z
  end.

Fixpoint octets (n : nat) (s : cstr) : bool :=
  let '(ds, rest) := span is_digit s in
  match n with
  | O => false
  | S O => octet ds && match rest with [] => true | _ => false end
  | S n' => octet ds && match rest with c :: s' => bool_decide (c = "."%char) && octets n' s' | [] => false end
  end.

Definition is_ipv4 (s : cstr) : bool := octets 4 s.

Definition is_hex_digit (c : ascii) : bool := digit_in 16 c.

(** The first at most four hexadecimal digits, and the rest. *)
Definition hex_group (s : cstr) : cstr * cstr :=
  let ds := take 4 (span is_hex_digit s).1 in (ds, drop (length ds) s).

(** The groups from number [i] on; [brk] when a [::] has been seen. *)
Fixpoint groups (fuel : nat) (i : nat) (brk : bool) (s : cstr) : bool :=
  match fuel with
  | O => false
  | S fuel' =>
      if match s with c :: _ => bool_decide (c = ":"%char) && negb brk | [] => false end then
        match drop 1 s with
        | [] => true
        | s' => if (i =? 7) then false else groups fuel' (S i) true s'
        end
      else
        let '(ds, rest) := hex_group s in
        match ds with
        | [] => false
        | _ :: _ =>
            match rest with
            | [] => brk || (i =? 7)
            | c :: rest' =>
                if (i =? 7) then false
                else if bool_decide (c = ":"%char) then groups fuel' (S i) brk rest'
                else bool_decide (c = "."%char) && negb ((i <? 6) && negb brk) && is_ipv4 s
            end
        end
  end.

Definition is_ipv6 (s : cstr) : bool :=
  match s with
  | c :: s' =>
      if bool_decide (c = ":"%char) then
        match s' with
        | d :: _ => if bool_decide (d = ":"%char) then groups 9 0 false s' else false
        | [] => false
        end
      else groups 9 0 false s
  | [] => false
  end.

Definition ip_family_from_version (ip_version : cstr) : Z :=
  match ip_version with
  | [] => 0
  | _ :: _ =>
      if streqcase (Some ip_version) (Some (literal "ipv4")) then 4
      else if streqcase (Some ip_version) (Some (literal "ipv6")) then 6
      else 0
  end.

(** ** The address in a response *)
Definition is_separator (c : ascii) : bool :=
  is_space c || bool_decide (c = byte_of 34) || bool_decide (c = "'"%char) || bool_decide (c = "<"%char)
  || bool_decide (c = ">"%char) || bool_decide (c = ","%char) || bool_decide (c = ";"%char).

(** An address of the family asked for. *)
Definition is_wanted (family : Z) (s : cstr) : bool :=
  ((family =? 0)%Z || (family =? 4)%Z) && is_ipv4 s || ((family =? 0)%Z || (family =? 6)%Z) && is_ipv6 s.

(** The first token that is one; a token is cut at 127 bytes. *)
Fixpoint find_token (fuel : nat) (family : Z) (p : cstr) : option cstr :=
  match fuel with
  | O => None
  | S fuel' =>
      match (span is_separator p).2 with
      | [] => None
      | p' =>
          let '(word, rest) := span (fun c => negb (is_separator c)) p' in
          let token := take 127 word in
          if is_wanted family token then Some token else find_token fuel' family rest
      end
  end.

(** The return code and [*out]. *)
Definition extract_ip (text ip_version : cstr) (out : cstr) (out_len : nat) : Z * cstr :=
  if (out_len =? 0) then ((-1)%Z, out)
  else
    let buf := trim_inplace (copy_string [] 512 (Some text)) in
    let family := ip_family_from_version ip_version in
    if is_wanted family buf then (0%Z, snprintf_s out_len buf)
    else match find_token (S (length buf)) family buf with
         | Some token => (0%Z, copy_string out out_len (Some token))
         | None => ((-1)%Z, out)
         end.

(** ** URLs *)
Definition has_url_scheme (url : cstr) : bool :=
  match url with
  | c :: p =>
      is_alpha c &&
      has_prefix "://" (span (fun d => is_alnum d || bool_decide (d = "+"%char) || bool_decide (d = "-"%char)
                                       || bool_decide (d = "."%char)) p).2
  | [] => false
  end.

(** Host, port and path. *)
Record url_parts := mkUrl { u_host : cstr; u_port : Z; u_path : cstr }.

(** After the scheme: the host and what follows it. *)
Definition split_host (p : cstr) : option (cstr * cstr) :=
  match p with
  | c :: p' =>
      if bool_decide (c = "["%char) then
        match strchr p' "]" with
        | None => None
        | Some t => Some (take (length p' - length t) p', drop 1 t)
        end
      else Some (span (fun d => negb (bool_decide (d = "/"%char) || bool_decide (d = ":"%char))) p)
  | [] => Some ([], [])
  end.

(** The port and what follows it. *)
Definition split_port (p : cstr) : option (Z * cstr) :=
  match p with
  | c :: p' =>
      if bool_decide (c = ":"%char) then
        let '(ds, rest) := span is_digit p' in
        match ds with
        | [] => None
        | _ :: _ =>
            let port_num := match parse_subject 10 p' with Some j => (strtol_value 64 j).1 | None => 0%Z end in
            if (port_num <? 1)%Z || (65535 <? port_num)%Z then None else Some (int32 port_num, rest)
        end
      else Some (TUMGRD_DEFAULT_IP_CHECK_PORT, p)
  | [] => Some (TUMGRD_DEFAULT_IP_CHECK_PORT, p)
  end.

Definition parse_url_host_path (url : cstr) (host_size path_size : nat) : option url_parts :=
  match url with
  | [] => None
  | _ :: _ =>
      let after :=
        if negb (has_url_scheme url) then Some url
        else if has_prefix "http://" url then Some (drop 7 url) else None in
      match after with
      | None => None
      | Some p =>
          match split_host p with
          | None => None
          | Some (host, p) =>
              if (host_size <=? length host) || (length host =? 0) then None
              else match split_port p with
                   | None => None
                   | Some (port, p) =>
                       let path := match p with
                                   | [] => Some (literal "/")
                                   | c :: _ => if bool_decide (c = "/"%char) then Some p else None
                                   end in
                       match path with
                       | None => None
                       | Some path => if (path_size <=? length path) then None else Some (mkUrl host port path)
                       end
                   end
          end
      end
  end.

Definition CRLF : cstr := [byte_of 13; byte_of 10].

Definition host_header (host : cstr) (port : Z) : cstr :=
  if is_ipv6 host then
    if negb (port =? TUMGRD_DEFAULT_IP_CHECK_PORT)%Z then literal "[" ++ host ++ literal "]:" ++ fmt_d port
    else literal "[" ++ host ++ literal "]"
  else if negb (port =? TUMGRD_DEFAULT_IP_CHECK_PORT)%Z then host ++ literal ":" ++ fmt_d port
  else host.

Definition http_request (path header : cstr) : cstr :=
  literal "GET " ++ path ++ literal " HTTP/1.1" ++ CRLF ++
  literal "Host: " ++ header ++ CRLF ++
  literal "User-Agent: Wget/1.21.4" ++ CRLF ++
  literal "Connection: close" ++ CRLF ++ CRLF.

(** The body of a response of status 200, as it is copied to a buffer of
    [out_len] bytes. *)
Definition response_body (response : list ascii) (out_len : nat) : option cstr :=
  let text := upto_nul response in
  if negb (has_prefix "HTTP/" text) then None
  else
    let after_version := (span (fun c => negb (bool_decide (c = " "%char))) (drop 5 text)).2 in
    let status_line := (span (fun c => bool_decide (c = " "%char)) after_version).2 in
    if negb (has_prefix "200" status_line) then None
    else
      let body_at :=
        match strstr text (CRLF ++ CRLF) with
        | Some t => Some (length text - length t + 4)
        | None => match strstr text [byte_of 10; byte_of 10] with
                  | Some t => Some (length text - length t + 2)
                  | None => None
                  end
        end in
      match body_at with
      | None => None
      | Some at_ =>
          match drop at_ response with
          | [] => None
          | body => Some (upto_nul (take (out_len - 1) body))
          end
      end.

Section Network.
Context `{E : Env}.

Definition set_ipdetect_fwmark (mark : Z) : M unit := modify (set_w_fwmark mark).

(** [setsockopt] for the mark: the mark if the kernel took it. *)
Definition set_mark : M (option Z) :=
  ok ← succeeds; mark ← reads w_fwmark; mret (if (ok : bool) then Some mark else None).

(** [socket()]: a descriptor or -1. *)
Definition socket : M Z := open_file.

(** ** The IPv6 probe *)

(** Connecting one address without blocking: whether it is connected. *)
Definition connect_probe : M bool :=
  r ← call env_connect;
  match r with
  | ConnErr => mret false
  | ConnOk => mret true
  | ConnInProgress =>
      writable ← succeeds;                                   (* select *)
      if negb writable then mret false
      else succeeds                                          (* SO_ERROR is 0 *)
  end.

(** [for (rp = res; rp; rp = rp->ai_next)]: the connected socket, or -1. *)
Fixpoint probe_addresses (n : nat) : M Z :=
  match n with
  | O => mret (-1)%Z
  | S n' =>
      sockfd ← socket;
      if (sockfd <? 0)%Z then probe_addresses n'
      else
        m ← set_mark;
        emit (EvConnect m);;
        ok ← connect_probe;
        if (ok : bool) then mret sockfd else close sockfd;; probe_addresses n'
  end.

(** The return code and [*out]. *)
Definition detect_ipv6_wan_by_connect (host : cstr) (port : Z) (out : cstr) (out_len : nat) : M (Z * cstr) :=
  if (out_len =? 0) then mret ((-1)%Z, out)
  else
    addrs ← call env_getaddrinfo;
    match addrs with
    | None => mret ((-1)%Z, [])
    | Some n =>
        sockfd ← probe_addresses n;
        if (sockfd <? 0)%Z then mret ((-1)%Z, [])
        else
          name ← call env_sockname;
          close sockfd;;
          match name with
          | SockErr | SockOther => mret ((-1)%Z, [])
          | SockIn6 link_local text =>
              if (out_len <=? length text) then mret ((-1)%Z, [])   (* inet_ntop: ENOSPC *)
              else mret (if link_local then (-1)%Z else 0%Z, text)
          end
    end.

(** ** The HTTP request *)

(** A call on a socket with a timeout: if it would block for ever it fails with
    EAGAIN; without the timeout it never returns. *)
Definition timed {A} (timeout : bool) (f : nat -> sysres A) : M (sysres A) :=
  r ← call f;
  match r with SHang => if timeout then mret SErr else hang | _ => mret r end.

(** The socket, its mark, and which of its timeouts are set. *)
Record connection := mkConnection { sock : Z; mark : option Z; sndtimeo : bool; rcvtimeo : bool }.

Fixpoint connect_addresses (n : nat) : M (option connection) :=
  match n with
  | O => mret None
  | S n' =>
      fd ← socket;
      if (fd <? 0)%Z then connect_addresses n'
      else
        m ← set_mark;
        snd ← call env_timeo;
        rcv ← call env_timeo;
        emit (EvConnect m);;
        r ← timed snd (fun t => match env_connect t with ConnOk => SOk tt | ConnInProgress => SHang | ConnErr => SErr end);
        match r with
        | SOk _ => mret (Some (mkConnection fd m snd rcv))
        | _ => close fd;; connect_addresses n'
        end
  end.

(** One [send] of [n] bytes: a count, or [None] to go round again on EINTR. *)
Definition send_some (timeout : bool) (n : nat) : M (option (option nat)) :=
  r ← timed timeout env_send;
  match r with
  | SOk k => mret (Some (if (k <=? 0)%Z then None else Some (Nat.min n (Z.to_nat k))))
  | SEintr => mret None
  | _ => mret (Some None)
  end.

Fixpoint send_loop (rounds : nat) (timeout : bool) (req_len sent : nat) : M bool :=
  if (sent <? req_len) then
    match rounds with
    | O => hang
    | S rounds' =>
        r ← retry (send_some timeout (req_len - sent));
        match r with
        | None => mret false
        | Some k => send_loop rounds' timeout req_len (sent + k)
        end
    end
  else mret true.

Definition recv_some (timeout : bool) (n : nat) : M (option (option (list ascii))) :=
  r ← timed timeout env_recv;
  match r with
  | SOk d => mret (Some (Some (take n d)))
  | SEintr => mret None
  | _ => mret (Some None)
  end.

(** The response, until the end of the stream or a full buffer. *)
Fixpoint recv_loop (rounds : nat) (timeout : bool) (room : nat) (buf : list ascii) : M (option (list ascii)) :=
  if (length buf <? room) then
    match rounds with
    | O => hang
    | S rounds' =>
        r ← retry (recv_some timeout (room - length buf));
        match r with
        | None => mret None
        | Some [] => mret (Some buf)
        | Some d => recv_loop rounds' timeout room (buf ++ d)
        end
    end
  else mret (Some buf).

(** From the connected socket to the label [out]. *)
Definition exchange (c : connection) (host : cstr) (port : Z) (path : cstr) (out_len : nat) : M (option cstr) :=
  let header := host_header host port in
  let request := http_request path header in
  if (288 <=? length header) then mret None
  else if (512 <=? length request) then mret None
  else
    ok ← send_loop (length request) (sndtimeo c) (length request) 0;
    if negb ok then mret None
    else
      emit (EvRequest host port (mark c) request);;
      response ← recv_loop 4095 (rcvtimeo c) 4095 [];
      mret (match response with None => None | Some r => response_body r out_len end).

(** The body, when the return code is 0. *)
Definition http_get_with_mark (host : cstr) (port : Z) (path : cstr) (out_len : nat) : M (option cstr) :=
  if (out_len =? 0) then mret None
  else
    addrs ← call env_getaddrinfo;
    match addrs with
    | None => mret None
    | Some n =>
        c ← connect_addresses n;
        match c with
        | None => mret None
        | Some c => body ← exchange c host port path out_len; close (sock c);; mret body
        end
    end.

(** ** The public address: the return code and [*out] *)
Definition detect_public_ip (url ip_version : cstr) (out : cstr) (out_len : nat) : M (Z * cstr) :=
  if (out_len =? 0) then mret ((-1)%Z, out)
  else
    let parts := match url with
                 | [] => Some (mkUrl TUMGRD_DEFAULT_IP_CHECK_HOST TUMGRD_DEFAULT_IP_CHECK_PORT TUMGRD_DEFAULT_IP_CHECK_PATH)
                 | _ :: _ => parse_url_host_path url 128 256
                 end in
    match parts with
    | None => mret ((-1)%Z, [])
    | Some u =>
        probed ←
          (if (ip_family_from_version ip_version =? 6)%Z &&
              streqcase (Some (u_host u)) (Some TUMGRD_DEFAULT_IP_CHECK_HOST)
           then detect_ipv6_wan_by_connect "ipv6.baidu.com" 80 [] out_len
           else mret ((-1)%Z, []));
        if (probed.1 =? 0)%Z then mret probed
        else
          body ← http_get_with_mark (u_host u) (u_port u) (u_path u) 512;
          match body with
          | None => mret ((-1)%Z, probed.2)
          | Some text =>
              let r := extract_ip text ip_version probed.2 out_len in
              mret (if (r.1 =? 0)%Z then 0%Z else (-1)%Z, r.2)
          end
    end.

End Network.
