(* ===== verification/IpDetectSpec.v ===== *)
(** * IpDetectSpec: what ipdetect.c promises

    An address that is reported is a textual address of the family asked for;
    URLs are parsed within their buffers and round trip; no socket leaks; and
    a server that never answers cannot hold the daemon. *)

From S2P Require Import Prelude CLib Types World Logic Helper IpDetect.

(** ** Textual addresses *)
Definition address_char (c : ascii) : Prop := is_hex_digit c = true \/ c = ":"%char \/ c = "."%char.

Lemma is_digit_hex c : is_digit c = true -> is_hex_digit c = true.
Proof.
  intros Hd. unfold is_hex_digit, digit_in, digit_val. pose proof (is_digit_val c Hd) as Hv.
  destruct (Z.leb_spec 48 (byte_val c)), (Z.leb_spec (byte_val c) 57); cbn; lia.
Qed.

Lemma octet_spec ds : octet ds = true -> Forall address_char ds /\ length ds <= 3.
Proof.
  destruct ds as [|c t]; [done|]. cbn [octet].
  rewrite !andb_true_iff. intros (((Hlen%Nat.leb_le & Hd) & _) & _). split; [|done].
  apply forallb_Forall in Hd. eapply Forall_impl; [exact Hd|]. intros d Hdd. left. by apply is_digit_hex.
Qed.

Lemma octets_spec n s : octets n s = true -> Forall address_char s /\ length s <= 4 * n.
Proof.
  revert s. induction n as [|n IH]; intros s; cbn [octets]; destruct (span is_digit s) as [ds rest] eqn:Hs; [done|].
  pose proof (span_app is_digit s) as Happ. rewrite Hs in Happ. subst s.
  assert (forall r, rest = r -> octet ds = true -> Forall address_char r -> length r <= 4 * n + 1 ->
    Forall address_char (ds ++ rest) /\ length (ds ++ rest) <= 4 * S n) as Hjoin.
  { intros r -> Hd Hr Hlen. apply octet_spec in Hd as [Hc Hl]. rewrite Forall_app, length_app. split; [done|lia]. }
  destruct n as [|n].
  - intros [Hd Hr]%andb_true_iff. destruct rest as [|]; [|done]. apply (Hjoin []); [done|done|constructor|cbn; lia].
  - intros [Hd Hr]%andb_true_iff. destruct rest as [|c r]; [done|].
    apply andb_true_iff in Hr as [->%bool_decide_eq_true Hr]. apply IH in Hr as [Hc Hl].
    apply (Hjoin ("."%char :: r)); [done|done| |cbn; lia]. constructor; [by right; right|done].
Qed.

Lemma hex_group_spec s ds rest : hex_group s = (ds, rest) -> s = ds ++ rest /\ Forall address_char ds /\ length ds <= 4.
Proof.
  unfold hex_group. pose proof (span_app is_hex_digit s) as Happ. pose proof (span_fst_forall is_hex_digit s) as Hf.
  destruct (span is_hex_digit s) as [a b]. cbn [fst snd] in *. intros [= <- <-]. split_and!.
  - subst s. rewrite length_take. destruct (Nat.le_gt_cases (length a) 4) as [Hle|Hgt].
    + rewrite take_ge by lia. rewrite Nat.min_r, drop_app_length by lia. done.
    + rewrite Nat.min_l by lia. rewrite drop_app_le by lia. by rewrite app_assoc, take_drop.
  - apply Forall_take. eapply Forall_impl; [exact Hf|]. intros c Hc. by left.
  - rewrite length_take. lia.
Qed.

Lemma groups_spec fuel i brk s :
  groups fuel i brk s = true -> Forall address_char s /\ length s <= 5 * fuel + 16.
Proof.
  revert i brk s. induction fuel as [|fuel IH]; intros i brk s; [done|]. cbn [groups].
  destruct (match s with c :: _ => _ | [] => false end) eqn:Hcolon.
  - destruct s as [|c s]; [done|]. apply andb_true_iff in Hcolon as [->%bool_decide_eq_true _].
    cbn [drop]. destruct s as [|d s].
    + intros _. split; [|cbn; lia]. constructor; [by right; left|constructor].
    + destruct (i =? 7); [done|]. intros [Hc Hl]%IH. split; [|cbn in *; lia].
      constructor; [by right; left|done].
  - destruct (hex_group s) as [ds rest] eqn:Hg. pose proof (hex_group_spec _ _ _ Hg) as (Hs & Hd & Hl).
    destruct ds as [|d0 ds]; [done|].
    destruct rest as [|c rest].
    + intros _. rewrite Hs, app_nil_r. split; [done|lia].
    + destruct (i =? 7); [done|]. destruct (bool_decide (c = ":"%char)) eqn:Hc.
      * apply bool_decide_eq_true in Hc as ->. intros [Hr Hlr]%IH. rewrite Hs.
        rewrite Forall_app, length_app. split; [|cbn [length] in *; lia].
        split; [done|]. constructor; [by right; left|done].
      * intros [_ H4]%andb_true_iff. apply octets_spec in H4 as [Hc4 Hl4]. split; [done|lia].
Qed.

Lemma is_wanted_spec family s : is_wanted family s = true -> Forall address_char s /\ length s < 64 /\ s <> [].
Proof.
  unfold is_wanted. rewrite orb_true_iff, !andb_true_iff. intros [[_ H]|[_ H]].
  - pose proof (octets_spec 4 s H) as [Hc Hl]. split_and!; [done|lia|]. by intros ->.
  - unfold is_ipv6 in H. destruct s as [|c s]; [done|].
    destruct (bool_decide (c = ":"%char)) eqn:Hc.
    + apply bool_decide_eq_true in Hc as ->. destruct s as [|d s]; [done|].
      destruct (bool_decide (d = ":"%char)); [|done]. apply groups_spec in H as [Hf Hl].
      split_and!; [|cbn in *; lia|done]. constructor; [by right; left|done].
    + apply groups_spec in H as [Hf Hl]. split_and!; [done|lia|done].
Qed.

Lemma address_no_newline s : Forall address_char s -> byte_of 10 ∉ s.
Proof.
  intros Hs Hin. rewrite Forall_forall in Hs. destruct (Hs _ Hin) as [H|[H|H]]; by vm_compute in H.
Qed.

Lemma address_nonul s : Forall address_char s -> nonul s.
Proof.
  intros Hs. eapply Forall_impl; [exact Hs|]. intros c [H|[->| ->]]; [|done..]. intros ->. by vm_compute in H.
Qed.

Lemma find_token_spec fuel family p token : find_token fuel family p = Some token -> is_wanted family token = true.
Proof.
  revert p. induction fuel as [|fuel IH]; intros p; cbn [find_token]; [done|].
  destruct (span is_separator p).2 as [|c p']; [done|].
  destruct (span _ (c :: p')) as [word rest]. destruct (is_wanted family (take 127 word)) eqn:Hw; [|apply IH].
  by intros [= <-].
Qed.

Lemma extract_ip_spec text version out :
  let r := extract_ip text version out 64 in
  (r.1 = 0%Z /\ is_wanted (ip_family_from_version version) r.2 = true) \/ (r.1 = (-1)%Z /\ r.2 = out).
Proof.
  unfold extract_ip. cbn [Nat.eqb]. set (buf := trim_inplace _). set (family := ip_family_from_version version).
  destruct (is_wanted family buf) eqn:Hw.
  - left. split; [done|]. cbn [snd]. rewrite snprintf_s_id; [done|]. by apply is_wanted_spec in Hw as (_ & Hl & _).
  - destruct (find_token _ family buf) as [token|] eqn:Ht; [left|by right]. split; [done|].
    apply find_token_spec in Ht. cbn [snd]. pose proof (is_wanted_spec _ _ Ht) as (Hc & Hl & _).
    by rewrite copy_string_id; [|apply address_nonul|].
Qed.

(** ** URLs *)
Lemma split_port_spec p port rest : split_port p = Some (port, rest) -> (1 <= port <= 65535)%Z.
Proof.
  unfold split_port, TUMGRD_DEFAULT_IP_CHECK_PORT. destruct p as [|c p]; [by intros [= <- _]|].
  destruct (bool_decide _); [|by intros [= <- _]]. destruct (span is_digit p) as [[|d ds] r]; [done|].
  cbv zeta. set (v := match parse_subject 10 p with Some j => _ | None => _ end).
  destruct (Z.ltb_spec v 1), (Z.ltb_spec 65535 v); try done. cbn [orb]. intros [= <- _].
  rewrite wrap_s_id; lia.
Qed.

(** The characters of a host name. *)
Definition host_char (c : ascii) : Prop := c <> "/"%char /\ c <> ":"%char /\ c <> "["%char.

Lemma split_host_name host rest :
  host <> [] -> Forall host_char host -> (forall c t, rest = c :: t -> c = "/"%char \/ c = ":"%char) ->
  split_host (host ++ rest) = Some (host, rest).
Proof.
  intros Hne Hh Hrest. unfold split_host. destruct host as [|c host]; [done|]. cbn [app].
  pose proof (Forall_inv Hh) as (Hs & Hcl & Hbr). rewrite bool_decide_eq_false_2 by done. f_equal.
  change (c :: host ++ rest) with ((c :: host) ++ rest). apply span_all.
  - eapply Forall_impl; [exact Hh|]. intros d (H1 & H2 & _). cbn.
    by rewrite !bool_decide_eq_false_2.
  - intros d t Hd. destruct (Hrest d t Hd) as [-> | ->]; done.
Qed.

Lemma split_port_number port rest :
  (1 <= port <= 65535)%Z -> (forall c t, rest = c :: t -> c = "/"%char) ->
  split_port (":"%char :: fmt_u port ++ rest) = Some (port, rest).
Proof.
  intros Hport Hrest. unfold split_port. rewrite bool_decide_eq_true_2 by done.
  destruct (fmt_u_spec port ltac:(lia)) as (Hne & Hd & _).
  rewrite span_all; [|done|by intros c t Hc; rewrite (Hrest c t Hc)].
  destruct (fmt_u port) as [|c ds] eqn:Hf; [done|]. rewrite <- Hf.
  rewrite parse_subject_fmt_u; [|by right|lia|by intros d t Hdt; rewrite (Hrest d t Hdt)].
  rewrite strtol_value_id by lia. cbn [fst]. cbv zeta.
  destruct (Z.ltb_spec port 1), (Z.ltb_spec 65535 port); try lia. cbn [orb]. by rewrite wrap_s_id by lia.
Qed.

(** A host name alone is not taken for a scheme. *)
Lemma no_scheme host : Forall host_char host -> has_url_scheme host = false.
Proof.
  intros Hh. unfold has_url_scheme. destruct host as [|c host]; [done|]. apply andb_false_iff. right.
  apply not_true_iff_false. intros (r & Hr)%has_prefix_spec.
  set (q := fun d => _) in Hr. pose proof (span_app q host) as Happ. destruct (span q host) as [a b]. cbn in Hr.
  subst b. apply Forall_inv_tail in Hh. rewrite Happ, Forall_app in Hh. destruct Hh as [_ Hh].
  by apply Forall_inv in Hh as (_ & Hcl & _).
Qed.

(** ** Properties of the pure parts *)

(** The address taken from a response is one that [inet_pton] accepts, of
    the family asked for, complete in the caller's 64 bytes and made of
    address characters only, so it cannot break the script it is put in; when
    there is none the output is left alone. *)
Theorem extract_ip_valid text version out :
  let r := extract_ip text version out 64 in
  (r.1 = (-1)%Z /\ r.2 = out) \/
  (r.1 = 0%Z /\ (ip_family_from_version version <> 6%Z /\ is_ipv4 r.2 = true \/
                 ip_family_from_version version <> 4%Z /\ is_ipv6 r.2 = true) /\
   length r.2 < 64 /\ Forall address_char r.2).
Proof.
  cbv zeta. destruct (extract_ip_spec text version out) as [[H0 Hw]|H]; [right|by left].
  pose proof (is_wanted_spec _ _ Hw) as (Hc & Hl & _). split_and!; try done.
  unfold is_wanted in Hw. rewrite orb_true_iff, !andb_true_iff, !orb_true_iff, !Z.eqb_eq in Hw.
  destruct Hw as [[Hf H]|[Hf H]]; [left|right]; (split; [lia|done]).
Qed.

(** C35: whatever URL is configured, an accepted one has a host that is not
    empty and fits its buffer, a port between 1 and 65535, and a path that
    starts with a slash and fits its buffer. *)
Theorem parse_url_bounds url host_size path_size u :
  parse_url_host_path url host_size path_size = Some u ->
  u_host u <> [] /\ length (u_host u) < host_size /\ (1 <= u_port u <= 65535)%Z /\
  head (u_path u) = Some "/"%char /\ length (u_path u) < path_size.
Proof.
  unfold parse_url_host_path. destruct url as [|c0 url]; [done|].
  destruct (if negb (has_url_scheme (c0 :: url)) then _ else _) as [p|]; [|done].
  destruct (split_host p) as [[host q]|]; [|done].
  destruct (Nat.leb_spec host_size (length host)); [done|].
  destruct (Nat.eqb_spec (length host) 0) as [|Hne]; [done|]. cbn [orb].
  destruct (split_port q) as [[port r]|] eqn:Hport; [|done].
  destruct (match r with [] => _ | c :: _ => _ end) as [path|] eqn:Hpath; [|done].
  destruct (Nat.leb_spec path_size (length path)); [done|]. intros [= <-]. cbn.
  split_and!; try done; try (eapply split_port_spec; exact Hport).
  - by intros ->.
  - destruct r as [|c r]; [by injection Hpath as <-|].
    destruct (bool_decide (c = "/"%char)) eqn:Hc; [|done]. apply bool_decide_eq_true in Hc as ->. by injection Hpath as <-.
Qed.

(** C36: URLs round trip: the parser recovers host, port and path from the URL
    written with them, and a bare host name is read as plain HTTP on port 80. *)
Theorem parse_url_round_trip host port path :
  host <> [] -> Forall host_char host -> length host < 128 -> (1 <= port <= 65535)%Z ->
  head path = Some "/"%char -> length path < 256 ->
  parse_url_host_path (literal "http://" ++ host ++ literal ":" ++ fmt_u port ++ path) 128 256 = Some (mkUrl host port path) /\
  parse_url_host_path (literal "http://" ++ host ++ path) 128 256 = Some (mkUrl host 80 path) /\
  parse_url_host_path host 128 256 = Some (mkUrl host 80 "/").
Proof.
  intros Hne Hh Hlen Hport Hpath Hplen.
  destruct path as [|c path]; [done|]. injection Hpath as ->.
  assert (forall p rest port', split_host p = Some (host, rest) -> split_port rest = Some (port', "/"%char :: path) ->
    parse_url_host_path (literal "http://" ++ p) 128 256 = Some (mkUrl host port' ("/"%char :: path))) as Hparse.
  { intros p rest port' Hsh Hsp. unfold parse_url_host_path.
    change (literal "http://" ++ p) with ("h"%char :: literal "ttp://" ++ p).
    change (has_url_scheme ("h"%char :: literal "ttp://" ++ p)) with true.
    change (has_prefix "http://" ("h"%char :: literal "ttp://" ++ p)) with true.
    change (drop 7 ("h"%char :: literal "ttp://" ++ p)) with p. cbn [negb]. rewrite Hsh.
    destruct (Nat.leb_spec 128 (length host)); [lia|]. destruct host as [|h0 host]; [done|]. cbn [length Nat.eqb orb].
    rewrite Hsp. cbn [bool_decide]. rewrite bool_decide_eq_true_2 by done.
    destruct (Nat.leb_spec 256 (length ("/"%char :: path))); [lia|done]. }
  split_and!.
  - eapply Hparse.
    + apply split_host_name; [done|done|]. intros c t [= <- _]. by right.
    + apply split_port_number; [done|]. by intros c t [= <- _].
  - apply (Hparse _ ("/"%char :: path)); [|done]. apply split_host_name; [done|done|]. intros c t [= <- _]. by left.
  - unfold parse_url_host_path. rewrite no_scheme by done.
    pose proof (split_host_name host [] Hne Hh ltac:(done)) as Hsh. rewrite app_nil_r in Hsh.
    destruct host as [|h0 host]; [done|]. cbn [negb]. rewrite Hsh.
    destruct (Nat.leb_spec 128 (length (h0 :: host))); [lia|]. reflexivity.
Qed.

(** ** The network *)
Section Network.
Context `{E : Env}.
Implicit Types (w : world).

Section Instances.
Context (R : relation world) `{!Silent R, !FdSilent R, !forall m, Allows R (EvConnect m),
  !forall h p m q, Allows R (EvRequest h p m q)}.

#[export] Instance respects_connect_probe : Respects R connect_probe.
Proof. unfold connect_probe, succeeds. apply _. Qed.
#[export] Instance respects_set_mark : Respects R set_mark.
Proof. unfold set_mark, succeeds. apply _. Qed.
#[export] Instance respects_socket : Respects R socket.
Proof. unfold socket. apply _. Qed.
#[export] Instance respects_timed {A} b (f : nat -> sysres A) : Respects R (timed b f).
Proof. unfold timed. apply _. Qed.
#[export] Instance respects_probe_addresses n : Respects R (probe_addresses n).
Proof. induction n; cbn [probe_addresses]; apply _. Qed.
#[export] Instance respects_ipv6_wan host port out n : Respects R (detect_ipv6_wan_by_connect host port out n).
Proof. unfold detect_ipv6_wan_by_connect. apply _. Qed.
#[export] Instance respects_connect_addresses n : Respects R (connect_addresses n).
Proof. induction n; cbn [connect_addresses]; unfold succeeds; apply _. Qed.
#[export] Instance respects_send_loop rounds b total sent : Respects R (send_loop rounds b total sent).
Proof. revert sent. induction rounds; intros sent; cbn [send_loop]; unfold send_some; apply _. Qed.
#[export] Instance respects_recv_loop rounds b room buf : Respects R (recv_loop rounds b room buf).
Proof. revert buf. induction rounds; intros buf; cbn [recv_loop]; unfold recv_some; apply _. Qed.
#[export] Instance respects_exchange c host port path n : Respects R (exchange c host port path n).
Proof. unfold exchange. cbv zeta. apply _. Qed.
#[export] Instance respects_http_get host port path n : Respects R (http_get_with_mark host port path n).
Proof. unfold http_get_with_mark. apply _. Qed.
#[export] Instance respects_detect_public_ip url version out n : Respects R (detect_public_ip url version out n).
Proof. unfold detect_public_ip. cbv zeta. apply _. Qed.
End Instances.

(** *** No socket leaks *)
Definition same_fds (w w' : world) : Prop := w_fds w' = w_fds w.

(** One socket is open besides those of [w]. *)
Definition one_socket (w : world) (fd : Z) (w' : world) : Prop :=
  fd ∉ w_fds w /\ w_fds w' = {[fd]} ∪ w_fds w.

Lemma wp_socket w w0 (Q : Z -> world -> Prop) :
  w_fds w0 = w_fds w ->
  (forall w', w_fds w' = w_fds w -> Q (-1)%Z w') ->
  (forall fd w', (0 <= fd)%Z -> one_socket w fd w' -> Q fd w') -> wp socket Q w0.
Proof.
  intros Hf HE HQ. apply wp_bind, wp_succeeds. intros w1 H1 _.
  pose proof (calm_fields _ _ H1) as (_ & _ & _ & _ & _ & Hf1 & _).
  destruct (env_ok _); [|apply wp_ret, HE; congruence].
  unfold wp, alloc_fd. cbv zeta. pose proof (new_fd_spec 0 (w_fds w1)) as [Hfresh Hge].
  apply HQ; [done|]. rewrite Hf1, Hf in *. split; [done|]. cbn. congruence.
Qed.

Lemma close_one w fd w' : one_socket w fd w' -> w_fds w' ∖ {[fd]} = w_fds w.
Proof. intros [Hfd ->]. by apply close_fresh. Qed.

Lemma one_socket_fds w fd w1 w2 : one_socket w fd w1 -> w_fds w2 = w_fds w1 -> one_socket w fd w2.
Proof. unfold one_socket. intros [? ?] ?. split; congruence. Qed.

(** An operation that does not touch descriptors, while a socket is open. *)
Lemma wp_same_os {A} (m : M A) w (Q : A -> world -> Prop) :
  Respects same_os m -> (forall a w', w_fds w' = w_fds w -> Q a w') -> wp m Q w.
Proof. intros HR HQ. eapply wp_mono; [wp_frame same_os|]. intros a w' (Hf & _). by apply HQ. Qed.

Lemma wp_probe_addresses n w w0 :
  w_fds w0 = w_fds w ->
  wp (probe_addresses n) (fun fd w' => (fd = -1)%Z /\ w_fds w' = w_fds w \/ (0 <= fd)%Z /\ one_socket w fd w') w0.
Proof.
  revert w0. induction n as [|n IH]; intros w0 Hf; cbn [probe_addresses]; [apply wp_ret; by left|].
  apply wp_bind, (wp_socket w); [done|by intros w1 H1; cbn [Z.ltb Z.compare]; apply IH|].
  intros fd w1 Hpos H1. destruct (Z.ltb_spec fd 0); [lia|].
  apply wp_bind, wp_same_os; [unfold set_mark, succeeds; apply _|]. intros m w2 H2. apply wp_bind, wp_emit.
  apply wp_bind, wp_same_os; [unfold connect_probe, succeeds; apply _|]. intros ok w3 H3. cbn in H3.
  assert (one_socket w fd w3) as Hs by (eapply one_socket_fds; [exact H1|congruence]).
  destruct ok; [apply wp_ret; by right|].
  apply wp_bind, wp_modify, IH. by apply close_one.
Qed.

Lemma wp_ipv6_wan host port out n w :
  wp (detect_ipv6_wan_by_connect host port out n) (fun r w' => w_fds w' = w_fds w /\
    (r.1 = 0%Z -> exists t text, env_sockname t = SockIn6 false text /\ r.2 = text /\ length text < n)) w.
Proof.
  unfold detect_ipv6_wan_by_connect. destruct (n =? 0) eqn:Hn; [by apply wp_ret|].
  apply wp_bind, wp_call_silent. intros k b _. destruct (env_getaddrinfo _) as [count|]; [|by apply wp_ret].
  apply wp_bind. eapply wp_mono; [by apply (wp_probe_addresses count w)|].
  intros fd w1 [[-> Hf]|[Hpos Hs]]; [by apply wp_ret|]. destruct (Z.ltb_spec fd 0); [lia|].
  apply wp_bind, wp_call. destruct (deliver_alarm_flag (S (w_tick w1)) w1) as [b2 ->].
  apply wp_bind, wp_modify.
  assert (forall w', w' = set_w_fds (w_fds w1 ∖ {[fd]}) (set_w_tick (S (w_tick w1)) (set_w_timed_out b2 w1)) -> w_fds w' = w_fds w) as Hclosed.
  { intros w' ->. cbn. by apply close_one. }
  destruct (env_sockname (w_tick w1)) as [| |ll text] eqn:Hname; try (apply wp_ret; split; [by apply Hclosed|done]).
  destruct (Nat.leb_spec n (length text)); [apply wp_ret; split; [by apply Hclosed|done]|].
  apply wp_ret. split; [by apply Hclosed|]. destruct ll; [done|]. intros _. by exists (w_tick w1), text.
Qed.

Lemma wp_connect_addresses n w w0 :
  w_fds w0 = w_fds w ->
  wp (connect_addresses n) (fun c w' => match c with
    | None => w_fds w' = w_fds w | Some c => one_socket w (sock c) w' end) w0.
Proof.
  revert w0. induction n as [|n IH]; intros w0 Hf; cbn [connect_addresses]; [by apply wp_ret|].
  apply wp_bind, (wp_socket w); [done|by intros w1 H1; cbn [Z.ltb Z.compare]; apply IH|].
  intros fd w1 Hpos H1. destruct (Z.ltb_spec fd 0); [lia|].
  apply wp_bind, wp_same_os; [unfold set_mark, succeeds; apply _|]. intros m w2 H2.
  apply wp_bind, wp_same_os; [unfold succeeds; apply _|]. intros snd w3 H3.
  apply wp_bind, wp_same_os; [unfold succeeds; apply _|]. intros rcv w4 H4. apply wp_bind, wp_emit.
  apply wp_bind, wp_same_os; [apply _|]. intros r w5 H5. cbn in H5.
  assert (one_socket w fd w5) as Hs by (eapply one_socket_fds; [exact H1|congruence]).
  destruct r; try (apply wp_bind, wp_modify, IH; by apply close_one). by apply wp_ret.
Qed.

Lemma wp_http_get host port path n w :
  wp (http_get_with_mark host port path n) (fun _ w' => w_fds w' = w_fds w) w.
Proof.
  unfold http_get_with_mark. destruct (n =? 0); [by apply wp_ret|].
  apply wp_bind, wp_same_os; [apply _|]. intros [count|] w1 H1; [|by apply wp_ret].
  apply wp_bind. eapply wp_mono; [by apply (wp_connect_addresses count w)|].
  intros [c|] w2 H2; [|by apply wp_ret].
  apply wp_bind, wp_same_os; [apply _|]. intros body w3 H3. apply wp_bind, wp_modify, wp_ret.
  apply (close_one w (sock c)). by eapply one_socket_fds.
Qed.

(** What detection promises: descriptors as before, and on success an address. *)
Definition detect_post (version : cstr) (w : world) (r : Z * cstr) (w' : world) : Prop :=
  w_fds w' = w_fds w /\ (r.1 = 0%Z \/ r.1 = (-1)%Z) /\
  (r.1 = 0%Z -> is_wanted (ip_family_from_version version) r.2 = true \/
     (ip_family_from_version version = 6%Z /\ exists t, env_sockname t = SockIn6 false r.2 /\ length r.2 < 64)).

Lemma detect_public_ip_spec url version out w :
  wp (detect_public_ip url version out 64) (detect_post version w) w.
Proof.
  unfold detect_public_ip. cbn [Nat.eqb]. cbv zeta.
  destruct (match url with [] => _ | _ => _ end) as [u|]; [|apply wp_ret; split_and!; [done|by right|done]].
  apply wp_bind.
  set (P := fun (r : Z * cstr) w' => w_fds w' = w_fds w /\
    (r.1 = 0%Z -> ip_family_from_version version = 6%Z /\ exists t, env_sockname t = SockIn6 false r.2 /\ length r.2 < 64)).
  assert (wp (if (ip_family_from_version version =? 6)%Z && streqcase (Some (u_host u)) (Some TUMGRD_DEFAULT_IP_CHECK_HOST)
    then detect_ipv6_wan_by_connect "ipv6.baidu.com" 80 [] 64 else mret ((-1)%Z, [])) P w) as Hprobe.
  { destruct (Z.eqb_spec (ip_family_from_version version) 6) as [H6|]; [cbn [andb]|by apply wp_ret].
    destruct (streqcase _ _); [|by apply wp_ret]. eapply wp_mono; [apply wp_ipv6_wan|].
    intros r w' [Hf Hr]. split; [done|]. intros H0. destruct (Hr H0) as (t & text & Ht & -> & Hl).
    split; [done|]. by exists t. }
  eapply wp_mono; [exact Hprobe|]. intros probed w1 [Hf Hp]. destruct (Z.eqb_spec probed.1 0) as [H0|Hne].
  - apply wp_ret. split_and!; [done|by left|]. intros _. right. by apply Hp.
  - apply wp_bind. eapply wp_mono; [apply wp_http_get|]. intros [text|] w2 H2.
    + apply wp_ret. destruct (extract_ip_spec text version probed.2) as [[-> Hw]|[-> _]]; cbn.
      * split_and!; [congruence|by left|]. intros _. by left.
      * split_and!; [congruence|by right|done].
    + apply wp_ret. split_and!; [cbn; congruence|by right|done].
Qed.

(** *** The mark of the sockets *)

(** [setsockopt] failed at a call between the two worlds. *)
Definition refused (w w' : world) : Prop := during w w' (fun n => env_ok n = false).

(** The mark [m], or none if the kernel [no]. *)
Definition marked (m : Z) (no : Prop) (mark : option Z) : Prop := mark = Some m \/ (mark = None /\ no).

Definition marked_event (m : Z) (no : Prop) (e : event) : Prop :=
  match e with EvConnect mark | EvRequest _ _ mark _ => marked m no mark | _ => False end.

(** Nothing is done but to connect and to send requests, all with the mark to
    use, which stays as it was; a socket has no mark only if the kernel refused
    it in the meantime. *)
Definition connects (m : Z) (no : Prop) : relation world := fun w w' =>
  w_fwmark w' = w_fwmark w /\ later w w' /\ grows (marked_event m no) w w'.
Definition marks_sockets : relation world := fun w w' => connects (w_fwmark w) (refused w w') w w'.

Lemma marked_mono m (no no' : Prop) mark : (no -> no') -> marked m no mark -> marked m no' mark.
Proof. intros Hn [H|[H Hno]]; [by left|right]. auto. Qed.

Lemma connects_mono m (no no' : Prop) (w w' : world) : (no -> no') -> connects m no w w' -> connects m no' w w'.
Proof.
  intros Hn (Hf & L & H). split_and!; [done|done|]. eapply grows_impl, H. intros e. destruct e; try done; by apply marked_mono.
Qed.

#[export] Instance connects_silent m no : Silent (connects m no).
Proof.
  split; [split|].
  - intros w. split_and!; reflexivity.
  - intros w1 w2 w3 (Hf & L12 & H12) (Hf' & L23 & H23). split; [congruence|]. split; by etransitivity.
  - intros w n b Hn. split_and!; [done|by apply (silent_call (R := later))|by apply (silent_call (R := grows _))].
Qed.
#[export] Instance connects_fd_silent m no : FdSilent (connects m no).
Proof. intros w s. split_and!; [done|unfold later; done|by exists []]. Qed.
Lemma connects_allows m no e : marked_event m no e -> Allows (connects m no) e.
Proof. intros He w. split_and!; [done|unfold later; done|by apply grows_allows]. Qed.

#[export] Instance marks_sockets_silent : Silent marks_sockets.
Proof.
  split; [split|].
  - intros w. unfold marks_sockets. reflexivity.
  - intros w1 w2 w3 H12 H23. unfold marks_sockets in *. pose proof H12 as (Hf & L12 & _). pose proof H23 as (_ & L23 & _).
    rewrite Hf in H23. transitivity w2; [eapply connects_mono, H12|eapply connects_mono, H23]; intros Hno;
      (eapply during_weaken; [| |exact Hno]; done).
  - intros w n b Hn. by apply (silent_call (R := connects (w_fwmark w) _)).
Qed.
#[export] Instance marks_sockets_fd_silent : FdSilent marks_sockets.
Proof. intros w s. apply (fd_silent (R := connects (w_fwmark w) _)). Qed.

(** An event with a mark that is known. *)
Lemma marks_emit w w1 w2 e :
  marks_sockets w w2 -> later w w1 -> later w1 w2 -> marked_event (w_fwmark w) (refused w w1) e ->
  marks_sockets w (set_w_trace (e :: w_trace w2) w2).
Proof.
  intros (Hf & L & t & Ht & Hev) L1 L2 He. split; [done|]. split; [done|]. exists (e :: t). split; [cbn; by rewrite Ht|].
  apply Forall_cons. split; [|exact Hev]. destruct e; try done; (eapply marked_mono, He; intros Hno;
    eapply during_weaken; [| |exact Hno]; [unfold later; done|exact L2]).
Qed.

Lemma wp_set_mark w : wp set_mark (fun m w' => marks_sockets w w' /\ marked (w_fwmark w) (refused w w') m) w.
Proof.
  apply wp_bind, wp_succeeds. intros w1 C1 T1. apply wp_bind, wp_reads, wp_ret.
  assert (marks_sockets w w1) as H1 by by apply calm_respects; [apply _|]. split; [done|]. destruct H1 as [Hf _].
  destruct (env_ok (w_tick w)) eqn:Hok; [left; by rewrite Hf|right]. split; [done|]. by exists (w_tick w).
Qed.

(** A socket with its mark, through the loops over the addresses. *)
Lemma wp_probe_marks n w : wp (probe_addresses n) (fun _ w' => marks_sockets w w') w.
Proof.
  revert w. induction n as [|n IH]; intros w; cbn [probe_addresses]; [by apply wp_ret|].
  assert (forall w1, marks_sockets w w1 -> wp (probe_addresses n) (fun _ w' => marks_sockets w w') w1) as Hnext.
  { intros w1 H1. eapply wp_mono; [apply IH|]. intros fd w2 H2. by transitivity w1. }
  apply wp_bind. eapply wp_mono; [unfold socket; wp_frame marks_sockets|]. intros fd w1 H1.
  destruct (fd <? 0)%Z; [by apply Hnext|].
  apply wp_bind. eapply wp_mono; [apply wp_set_mark|]. intros m w2 [H2 Hm]. apply wp_bind, wp_emit. set (w3 := set_w_trace _ w2).
  assert (marks_sockets w1 w3) as H3 by (apply (marks_emit w1 w2 w2); [done|apply H2|unfold later; done|exact Hm]).
  apply wp_bind. eapply wp_mono; [unfold connect_probe, succeeds; wp_frame marks_sockets|]. intros ok w4 H4.
  assert (marks_sockets w w4) as H by (transitivity w1; [done|by transitivity w3]).
  destruct ok; [by apply wp_ret|]. apply wp_bind, wp_modify, Hnext. transitivity w4; [done|apply fd_silent].
Qed.

Lemma wp_connection_marks n w :
  wp (connect_addresses n) (fun c w' => marks_sockets w w' /\
    match c with Some c => marked (w_fwmark w) (refused w w') (mark c) | None => True end) w.
Proof.
  revert w. induction n as [|n IH]; intros w; cbn [connect_addresses]; [apply wp_ret; by split|].
  assert (forall w1, marks_sockets w w1 -> wp (connect_addresses n) (fun c w' => marks_sockets w w' /\
    match c with Some c => marked (w_fwmark w) (refused w w') (mark c) | None => True end) w1) as Hnext.
  { intros w1 H1. eapply wp_mono; [apply IH|]. intros c w2 [H2 Hc]. split; [by transitivity w1|]. destruct c as [c|]; [|done].
    destruct H1 as (Hf & L1 & _). rewrite <- Hf. eapply marked_mono, Hc. intros Hno.
    by eapply during_weaken; [exact L1| |exact Hno]. }
  apply wp_bind. eapply wp_mono; [unfold socket; wp_frame marks_sockets|]. intros fd w1 H1.
  destruct (fd <? 0)%Z; [by apply Hnext|].
  apply wp_bind. eapply wp_mono; [apply wp_set_mark|]. intros m w2 [H2 Hm].
  apply wp_bind. eapply wp_mono; [wp_frame marks_sockets|]. intros snd w3 H3.
  apply wp_bind. eapply wp_mono; [wp_frame marks_sockets|]. intros rcv w4 H4. apply wp_bind, wp_emit. set (w5 := set_w_trace _ w4).
  assert (marks_sockets w2 w4) as H24 by by transitivity w3.
  assert (marks_sockets w1 w5) as H5 by (apply (marks_emit w1 w2 w4); [by transitivity w2|apply H2|apply H24|exact Hm]).
  apply wp_bind. eapply wp_mono; [wp_frame marks_sockets|]. intros r w6 H6.
  assert (marks_sockets w w6) as H by (transitivity w1; [done|by transitivity w5]).
  assert (marked (w_fwmark w) (refused w w6) m) as Hm'.
  { destruct H1 as (Hf & L1 & _). rewrite <- Hf. eapply marked_mono, Hm. intros Hno. eapply during_weaken; [exact L1| |exact Hno].
    transitivity w4; [apply H24|]. destruct H6 as (_ & L6 & _). exact L6. }
  destruct r; try (apply wp_bind, wp_modify, Hnext; transitivity w6; [done|apply fd_silent]). by apply wp_ret.
Qed.

Lemma wp_http_marks host port path n w : wp (http_get_with_mark host port path n) (fun _ w' => marks_sockets w w') w.
Proof.
  unfold http_get_with_mark. destruct (n =? 0); [by apply wp_ret|].
  apply wp_bind. eapply wp_mono; [wp_frame marks_sockets|]. intros addrs w1 H1. destruct addrs as [count|]; [|by apply wp_ret].
  apply wp_bind. eapply wp_mono; [apply wp_connection_marks|]. intros c w2 [H2 Hm].
  assert (marks_sockets w w2) as H02 by by transitivity w1. destruct c as [c|]; [|by apply wp_ret].
  assert (marked (w_fwmark w) (refused w w2) (mark c)) as Hc.
  { destruct H1 as (Hf & L1 & _). rewrite <- Hf. eapply marked_mono, Hm. intros Hno. by eapply during_weaken; [exact L1| |exact Hno]. }
  set (no := refused w w2) in Hc.
  assert (forall req, Allows (connects (w_fwmark w) no) (EvRequest host port (mark c) req)) as Ha
    by (intros req; by apply connects_allows).
  assert (Respects (connects (w_fwmark w) no) (exchange c host port path n)) as Hex.
  { unfold exchange. cbv zeta.
    assert (forall a b d e, Respects (connects (w_fwmark w) no) (send_loop a b d e)) as Hs.
    { intros a. induction a; intros b d e; cbn [send_loop]; unfold send_some, timed; apply _. }
    assert (forall a b d e, Respects (connects (w_fwmark w) no) (recv_loop a b d e)) as Hr.
    { intros a. induction a; intros b d e; cbn [recv_loop]; unfold recv_some, timed; apply _. }
    apply _. }
  apply wp_bind. eapply wp_mono; [apply (wp_respects (connects (w_fwmark w) no)); apply _|].
  intros body w3 H3. apply wp_bind, wp_modify, wp_ret. transitivity w3; [|apply fd_silent].
  apply (connects_mono _ no); [|by transitivity w2]. intros Hno. destruct H3 as (_ & L3 & _).
  by eapply during_weaken; [|exact L3|exact Hno].
Qed.

Lemma detect_marks url version out n w r w' :
  detect_public_ip url version out n w = Some (r, w') -> marks_sockets w w'.
Proof.
  intros Hrun. refine (wp_elim _ (fun _ => marks_sockets w) _ _ _ _ Hrun). clear r w' Hrun.
  unfold detect_public_ip. cbv zeta. destruct (n =? 0); [by apply wp_ret|].
  destruct (match url with [] => _ | _ => _ end) as [u|]; [|by apply wp_ret].
  apply wp_bind. eapply (wp_mono _ (fun _ w1 => marks_sockets w w1)).
  { destruct (_ && _); [|by apply wp_ret]. unfold detect_ipv6_wan_by_connect. destruct (n =? 0); [by apply wp_ret|].
    apply wp_bind. eapply wp_mono; [wp_frame marks_sockets|]. intros [count|] w1 H1; [|by apply wp_ret].
    apply wp_bind. eapply wp_mono; [apply wp_probe_marks|]. intros fd w2 H2.
    assert (marks_sockets w w2) as H02 by by transitivity w1. destruct (fd <? 0)%Z; [by apply wp_ret|].
    eapply wp_mono; [wp_frame marks_sockets|]. intros r w3 H3. by transitivity w2. }
  intros probed w1 H1. destruct (probed.1 =? 0)%Z; [by apply wp_ret|].
  apply wp_bind. eapply wp_mono; [apply wp_http_marks|]. intros body w2 H2.
  assert (marks_sockets w w2) as H by by transitivity w1. by destruct body; apply wp_ret.
Qed.
End Network.

#[global] Typeclasses Opaque detect_public_ip.

(** ** Termination *)
Section Returns.
Context `{E : Env} (P : world -> Prop) `{!SilentP P, !FdSilentP P, !TraceSilentP P}.

(** Calls on sockets are not interrupted for ever. *)
Class NetSettles : Prop := {
  sends_settle t : exists k, k < env_fuel /\ env_send (t + k) <> SEintr;
  recvs_settle t : exists k, k < env_fuel /\ env_recv (t + k) <> SEintr
}.

(** A call that has a timeout, or whose peer answers. *)
Definition bounded {A} (timeout : bool) (f : nat -> sysres A) : Prop := timeout = true \/ forall t, f t <> SHang.

Lemma timed_returns {A} timeout (f : nat -> sysres A) w :
  bounded timeout f -> P w -> exists r w', timed timeout f w = Some (r, w') /\ P w' /\ w_tick w' = S (w_tick w) /\
    r <> SHang /\ (r = SEintr -> f (w_tick w) = SEintr).
Proof.
  intros Hb Hw. unfold timed, bind, M_bind, call.
  pose proof (silent_p_deliver P w (S (w_tick w)) Hw) as Hw'.
  destruct (f (w_tick w)) eqn:Hf; try (do 2 eexists; split; [reflexivity|]; by split_and!).
  destruct timeout; [do 2 eexists; split; [reflexivity|]; by split_and!|]. destruct Hb as [|Hb]; [done|]. by destruct (Hb (w_tick w)).
Qed.

#[local] Instance total_timed {A} timeout (f : nat -> sysres A) : bounded timeout f -> Total P (timed timeout f).
Proof. intros Hb w Hw. destruct (timed_returns timeout f w Hb Hw) as (r & w' & H & Hw' & _). by exists r, w'. Qed.

Lemma total_send_some timeout n :
  NetSettles -> bounded timeout env_send -> Total P (retry (send_some timeout n)).
Proof.
  intros HS Hb. apply (retry_total P _ (fun t => env_send t = SEintr)); [|apply sends_settle].
  intros w Hw. destruct (timed_returns timeout env_send w Hb Hw) as (r & w' & Heq & Hw' & Ht & Hh & Hi).
  unfold send_some, bind, M_bind. rewrite Heq. destruct r as [k| | |]; try done; do 2 eexists; (split; [reflexivity|]); split; try done.
  intros _. split; [done|]. by apply Hi.
Qed.

Lemma total_recv_some timeout n :
  NetSettles -> bounded timeout env_recv -> Total P (retry (recv_some timeout n)).
Proof.
  intros HS Hb. apply (retry_total P _ (fun t => env_recv t = SEintr)); [|apply recvs_settle].
  intros w Hw. destruct (timed_returns timeout env_recv w Hb Hw) as (r & w' & Heq & Hw' & Ht & Hh & Hi).
  unfold recv_some, bind, M_bind. rewrite Heq. destruct r as [k| | |]; try done; do 2 eexists; (split; [reflexivity|]); split; try done.
  intros _. split; [done|]. by apply Hi.
Qed.

Lemma wp_send_some timeout n w : wp (retry (send_some timeout n)) (fun r _ => forall k, r = Some k -> n = 0 \/ 1 <= k) w.
Proof.
  eapply wp_mono; [apply (wp_retry (fun r => forall k, r = Some k -> n = 0 \/ 1 <= k) (fun _ => True)); [|done]|naive_solver].
  intros w0 _. unfold send_some. apply wp_bind. eapply (wp_mono _ (fun _ _ => True)); [apply wp_intro; by intros|].
  intros r w1 _. destruct r as [d| | |]; try done; apply wp_ret; (split; [done|]); intros o Ho k ->; try done.
  injection Ho as Ho. destruct (Z.leb_spec d 0); [done|]. injection Ho as <-. destruct n; [by left|right; lia].
Qed.

Lemma total_send_loop rounds timeout total sent :
  NetSettles -> bounded timeout env_send -> total - sent <= rounds -> Total P (send_loop rounds timeout total sent).
Proof.
  intros HS Hb. revert sent. induction rounds as [|rounds IH]; intros sent Hr; cbn [send_loop];
    destruct (Nat.ltb_spec sent total) as [Hlt|]; try apply _; [lia|].
  intros w Hw. destruct (total_send_some timeout (total - sent) HS Hb w Hw) as (r & w1 & Heq & H1).
  pose proof (wp_elim _ _ _ _ _ (wp_send_some timeout (total - sent) w) Heq) as Hk.
  unfold bind, M_bind. rewrite Heq. destruct r as [k|]; [|by do 2 eexists].
  apply IH; [|done]. destruct (Hk k eq_refl); lia.
Qed.

Lemma total_recv_loop rounds timeout room buf :
  NetSettles -> bounded timeout env_recv -> room - length buf <= rounds -> Total P (recv_loop rounds timeout room buf).
Proof.
  intros HS Hb. revert buf. induction rounds as [|rounds IH]; intros buf Hr; cbn [recv_loop];
    destruct (Nat.ltb_spec (length buf) room) as [Hlt|]; try apply _; [lia|].
  apply total_bind; [by apply total_recv_some|]. intros [[|c d]|]; try apply _.
  apply IH. rewrite length_app. cbn. lia.
Qed.

Lemma total_exchange c host port path n :
  NetSettles -> bounded (sndtimeo c) env_send -> bounded (rcvtimeo c) env_recv -> Total P (exchange c host port path n).
Proof.
  intros HS Hsnd Hrcv. unfold exchange. cbv zeta.
  destruct (288 <=? _); [apply _|]. destruct (512 <=? _); [apply _|].
  apply total_bind; [apply total_send_loop; [done|done|lia]|]. intros ok. destruct (negb ok); [apply _|].
  apply total_bind; [apply _|]. intros _. apply total_bind; [apply total_recv_loop; [done|done|cbn; lia]|apply _].
Qed.

(** The kernel takes the two timeouts of every socket. *)
Class TimeoutsTaken : Prop := timeout_taken t : env_timeo t = true.

Lemma wp_timeout w : TimeoutsTaken -> wp (call env_timeo) (fun b _ => b = true) w.
Proof. intros HT. apply wp_call. apply HT. Qed.

(** A socket that is connected has both of its timeouts, and connecting one is
    bounded by the first. *)
Definition timeouts_set (c : connection) : Prop := sndtimeo c = true /\ rcvtimeo c = true.

Lemma wp_connect_timeouts n w :
  TimeoutsTaken -> wp (connect_addresses n) (fun c _ => forall k, c = Some k -> timeouts_set k) w.
Proof.
  intros HT. revert w. induction n as [|n IH]; intros w; cbn [connect_addresses]; [by apply wp_ret|].
  apply wp_bind, wp_intro. intros fd w1 _. destruct (fd <? 0)%Z; [apply IH|].
  apply wp_bind, wp_intro. intros m w2 _. apply wp_bind. eapply wp_mono; [by apply wp_timeout|]. intros ? w3 ->.
  apply wp_bind. eapply wp_mono; [by apply wp_timeout|]. intros ? w4 ->.
  apply wp_bind, wp_emit, wp_bind, wp_intro. intros r w5 _. destruct r; try (apply wp_bind, wp_modify, IH).
  apply wp_ret. by intros k [= <-].
Qed.

Lemma total_connect_addresses n : TimeoutsTaken -> Total P (connect_addresses n).
Proof.
  intros HT. induction n as [|n IH]; cbn [connect_addresses]; unfold socket, set_mark, succeeds; [apply _|].
  apply total_bind; [apply _|]. intros fd. destruct (fd <? 0)%Z; [done|]. apply total_bind; [apply _|]. intros m.
  apply (total_then P _ _ (fun b => b = true)); [apply _|intros w; by apply wp_timeout|]. intros ? ->.
  apply total_bind; [apply _|]. intros rcv. apply total_bind; [apply _|]. intros _. apply total_bind; [apply total_timed; by left|apply _].
Qed.

#[export] Instance total_detect_public_ip url version out n :
  NetSettles -> TimeoutsTaken -> Total P (detect_public_ip url version out n).
Proof.
  intros HS HT. unfold detect_public_ip. destruct (n =? 0); [apply _|]. cbv zeta.
  destruct (match url with [] => _ | _ => _ end) as [u|]; [|apply _].
  assert (forall host port path n, Total P (http_get_with_mark host port path n)) as Hget.
  { intros host port path n0. unfold http_get_with_mark. destruct (n0 =? 0); [apply _|].
    apply total_bind; [apply _|]. intros [k|]; [|apply _].
    apply (total_then P _ _ (fun c => forall k, c = Some k -> timeouts_set k));
      [by apply total_connect_addresses|intros w; by apply wp_connect_timeouts|].
    intros [c|] Hc; [|apply _]. destruct (Hc c eq_refl) as [Hsnd Hrcv].
    apply total_bind; [apply total_exchange; [done|by left|by left]|apply _]. }
  assert (forall k, Total P (probe_addresses k)) as Hprobe.
  { induction k; cbn [probe_addresses]; unfold socket, set_mark, connect_probe, succeeds; apply _. }
  assert (forall host port out n, Total P (detect_ipv6_wan_by_connect host port out n)) as Hwan.
  { intros host port out0 n0. unfold detect_ipv6_wan_by_connect. apply _. }
  apply _.
Qed.
End Returns.

(** ** Properties of the requests *)
Section Properties.
Context `{E : Env}.
Implicit Types (w : world).

(** C34: once the timeouts of its socket are set, a request returns: a server that
    takes the request and never answers cannot hold the daemon.
    ([connect_addresses] sets them, [wp_connect_timeouts].) *)
Theorem silent_server_cannot_hold c host port path n w :
  NetSettles -> sndtimeo c = true -> rcvtimeo c = true ->
  exists body w', exchange c host port path n w = Some (body, w').
Proof.
  intros HS Hsnd Hrcv.
  destruct (total_exchange (fun _ => True) c host port path n HS (or_introl Hsnd) (or_introl Hrcv) w I) as (b & w' & H & _).
  by exists b, w'.
Qed.

(** C32: detection leaves no socket open and the database untouched on any path.
    It tries no connection and sends no request, of the IPv6 probe as of the HTTP
    exchange, but on a socket that carries the mark that is set, unless a
    [setsockopt] failed during the call, and then without a mark. On success the
    output is an address of the family asked for, complete in 64 bytes;
    [inet_ntop] prints IPv6 addresses that [inet_pton] reads. *)
Theorem detect_public_ip_valid url version out w r w' :
  (forall t ll text, env_sockname t = SockIn6 ll text -> is_ipv6 text = true) ->
  detect_public_ip url version out 64 w = Some (r, w') ->
  w_fds w' = w_fds w /\ same_db w w' /\ marks_sockets w w' /\
  (r.1 = 0%Z -> is_wanted (ip_family_from_version version) r.2 = true /\ length r.2 < 64 /\ Forall address_char r.2).
Proof.
  intros Hntop Hrun. pose proof (respects_detect_public_ip same_db url version out 64 w r w' Hrun) as Hdb.
  destruct (wp_elim _ _ _ _ _ (detect_public_ip_spec url version out w) Hrun) as (Hf & _ & Hok).
  split; [done|]. split; [done|]. split; [by eapply detect_marks|]. intros H0.
  assert (is_wanted (ip_family_from_version version) r.2 = true) as Hw.
  { destruct (Hok H0) as [Hw|(H6 & t & Ht & _)]; [done|]. unfold is_wanted. rewrite H6, (Hntop _ _ _ Ht). apply orb_true_r. }
  pose proof (is_wanted_spec _ _ Hw) as (Hc & Hl & _). by split_and!.
Qed.
End Properties.

(** An environment whose IPv6 route has only a link-local source address. *)
Definition link_local_env : Env :=
  let q := ready_env in
  @mkEnv (@env_fuel q) (@env_time q) (@env_alarm q) (@env_ok q) (@env_read q) (@env_urandom q) (@env_write q)
    (@env_waitpid q) (@env_pid q) (@env_mkdir q) (@env_getaddrinfo q) (@env_connect q) (@env_timeo q)
    (fun _ => SockIn6 true "fe80::1") (@env_send q) (@env_recv q) (@env_uci q) (@env_status q) (@env_environ q).

(** When the probe meets a link-local address and the HTTP check fails too,
    detection fails but leaves that address in its output. *)
Theorem failed_detection_leaves_link_local :
  exists w', @detect_public_ip link_local_env TUMGRD_DEFAULT_IP_CHECK_URL "ipv6" [] 64 new_world
    = Some (((-1)%Z, literal "fe80::1"), w').
Proof. eexists. vm_compute. reflexivity. Qed.

(** *** The hypotheses can be met *)
Lemma ready_net : @NetSettles ready_env /\ @TimeoutsTaken ready_env.
Proof. split; [|done]. split; intros t; exists 0; (split; [cbn; lia|discriminate]). Qed.

Lemma silent_server_cannot_hold_witness :
  exists body w', @exchange ready_env (mkConnection 3 None true true) "ip.3322.net" 80 "/" 512 new_world = Some (body, w').
Proof. apply (@silent_server_cannot_hold ready_env); [apply ready_net|done|done]. Defined.

Lemma detect_public_ip_valid_witness :
  exists r w', @detect_public_ip link_local_env TUMGRD_DEFAULT_IP_CHECK_URL "ipv4" [] 64 new_world = Some (r, w') /\
    w_fds w' = w_fds new_world.
Proof.
  destruct (@detect_public_ip link_local_env TUMGRD_DEFAULT_IP_CHECK_URL "ipv4" [] 64 new_world) as [[r w']|] eqn:Hrun;
    [|vm_compute in Hrun; discriminate].
  exists r, w'. split; [exact (f_equal Some eq_refl)|].
  refine (proj1 (@detect_public_ip_valid link_local_env _ _ _ _ r w' _ Hrun)).
  intros t ll text Hs. injection Hs as <- <-. vm_compute. reflexivity.
Defined.

Lemma parse_url_bounds_witness :
  parse_url_host_path "ip.3322.net:8080" 128 256 = Some (mkUrl "ip.3322.net" 8080 "/") /\
  u_host (mkUrl "ip.3322.net" 8080 "/") <> [].
Proof.
  split; [vm_compute; reflexivity|].
  apply (parse_url_bounds "ip.3322.net:8080" 128 256). vm_compute. reflexivity.
Defined.

Lemma parse_url_round_trip_witness :
  parse_url_host_path (literal "http://" ++ literal "h" ++ literal ":" ++ fmt_u 8080 ++ literal "/ip") 128 256
    = Some (mkUrl "h" 8080 "/ip").
Proof.
  refine (proj1 (parse_url_round_trip "h" 8080 "/ip" _ _ _ _ _ _)); try (cbn; lia); try done.
  by repeat constructor.
Defined.
