(* ===== verification/ExtractSpec.v ===== *)
(** * ExtractSpec: the address in a response, by its reference

    [extract_ip] walks over the text once, skipping separators and collecting
    what lies between them.  What it computes is the search of a list: the
    trimmed text itself, and then its words. *)

From S2P Require Import Prelude CLib Types World Logic Helper Exec Runner IpDetect IpDetectSpec.

(** ** Words *)

(** The maximal runs of bytes that are no separators, in order. *)
Fixpoint tokens (s : cstr) : list cstr :=
  match s with
  | [] => []
  | c :: s' =>
      if is_separator c then tokens s'
      else match s' with
           | d :: _ => if is_separator d then [c] :: tokens s'
                       else match tokens s' with w :: ws => (c :: w) :: ws | [] => [[c]] end
           | [] => [[c]]
           end
  end.

(** The text, trimmed in its buffer of 512 bytes, and its words, each as much
    as its buffer of 128 bytes holds. *)
Definition candidates (text : cstr) : list cstr :=
  let buf := trim_inplace (copy_string [] 512 (Some text)) in
  buf :: (take 127 <$> tokens buf).

Lemma tokens_separator c s : is_separator c = true -> tokens (c :: s) = tokens s.
Proof. intros Hc. cbn [tokens]. by rewrite Hc. Qed.

(** Leading separators do not matter, and a word ends at the next one. *)
Lemma tokens_skip s : tokens s = tokens (span is_separator s).2.
Proof.
  induction s as [|c s IH]; [done|]. cbn [span]. destruct (is_separator c) eqn:Hc; [|done].
  rewrite tokens_separator by done. rewrite IH. by destruct (span is_separator s).
Qed.

Lemma tokens_word c s :
  is_separator c = false ->
  let '(word, rest) := span (fun d => negb (is_separator d)) (c :: s) in tokens (c :: s) = word :: tokens rest.
Proof.
  revert c. induction s as [|d s IH]; intros c Hc; cbn [span]; rewrite Hc; cbn [negb]; [cbn; by rewrite Hc|].
  cbn [tokens]. rewrite Hc. destruct (is_separator d) eqn:Hd; cbn [negb]; [cbn [tokens]; by rewrite Hd|].
  specialize (IH d Hd). cbn [span] in IH. rewrite Hd in IH. cbn [negb] in IH.
  destruct (span (fun d => negb (is_separator d)) s) as [word rest]. cbn [tokens] in IH. rewrite Hd in IH. by rewrite IH.
Qed.

(** Every word is one: not empty and without separators; and the text has no
    other bytes that are not separators. *)
Lemma tokens_sound s : Forall (fun w => w <> [] /\ Forall (fun c => is_separator c = false) w) (tokens s).
Proof.
  induction s as [|c s IH]; [done|]. cbn [tokens]. destruct (is_separator c) eqn:Hc; [done|].
  assert ([c] <> [] /\ Forall (fun c => is_separator c = false) [c]) as H1 by (split; [done|by constructor]).
  destruct s as [|d s]; [by constructor|]. destruct (is_separator d); [by constructor|].
  destruct (tokens (d :: s)) as [|w ws]; [by constructor|]. apply Forall_cons in IH as [[_ Hw] Hws].
  constructor; [|done]. split; [done|by constructor].
Qed.

Lemma tokens_complete s : mjoin (tokens s) = List.filter (fun c => negb (is_separator c)) s.
Proof.
  induction s as [|c s IH]; [done|]. cbn [tokens List.filter]. destruct (is_separator c) eqn:Hc; [done|]. cbn [negb].
  destruct s as [|d s]; [done|]. destruct (is_separator d) eqn:Hd; [cbn; by f_equal|].
  rewrite <- IH. destruct (tokens (d :: s)) as [|w ws] eqn:Ht; [|done].
  cbn [tokens] in Ht. rewrite Hd in Ht. destruct s as [|e s]; [done|]. destruct (is_separator e); [done|by destruct (tokens (e :: s))].
Qed.

(** ** The loop over the tokens *)
Lemma span_length (p : ascii -> bool) s : length (span p s).2 <= length s.
Proof. pose proof (span_app p s) as Happ. destruct (span p s) as [a b]. cbn. rewrite Happ, length_app. lia. Qed.

Lemma find_token_find fuel family p :
  length p < fuel -> find_token fuel family p = List.find (is_wanted family) (take 127 <$> tokens p).
Proof.
  revert p. induction fuel as [|fuel IH]; intros p Hp; [lia|]. cbn [find_token].
  rewrite tokens_skip. pose proof (span_length is_separator p) as Hl. 
  destruct (span is_separator p).2 as [|c s] eqn:Hs; [done|]. apply span_snd_head in Hs.
  pose proof (tokens_word c s Hs) as Hw. cbn [span] in Hw |- *. rewrite Hs in Hw |- *. cbn [negb] in Hw |- *.
  pose proof (span_length (fun d => negb (is_separator d)) s) as Hl'.
  destruct (span (fun d => negb (is_separator d)) s) as [word rest]. rewrite Hw, fmap_cons. cbn [List.find].
  destruct (is_wanted family (take 127 (c :: word))); [done|]. apply IH. cbn [snd length] in *. lia.
Qed.

(** C33: the address in a response is the first candidate of the family asked
    for: the whole text if it is an address, otherwise the first of its words
    that is one; if no candidate is an address the function fails and leaves
    the output alone.  The words are what a splitting at separators gives, so
    the walk over the buffer misses none and invents none. *)
Theorem extract_ip_is_find text version out :
  extract_ip text version out 64 =
  match List.find (is_wanted (ip_family_from_version version)) (candidates text) with
  | Some address => (0%Z, address)
  | None => ((-1)%Z, out)
  end.
Proof.
  unfold extract_ip, candidates. cbn [Nat.eqb]. cbv zeta. set (buf := trim_inplace _). set (family := ip_family_from_version version).
  cbn [List.find]. destruct (is_wanted family buf) eqn:Hw.
  - pose proof (is_wanted_spec _ _ Hw) as (_ & Hl & _). by rewrite snprintf_s_id.
  - rewrite find_token_find by lia. destruct (List.find _ _) as [token|] eqn:Ht; [|done].
    apply find_some in Ht as [_ Ht]. pose proof (is_wanted_spec _ _ Ht) as (Hc & Hl & _).
    by rewrite copy_string_id; [|apply address_nonul|].
Qed.
