(* ===== verification/Reconcile.v ===== *)
(** * Reconcile: reconcile.c

    One pass over a node: repair or begin a key rotation in the database, find
    the public address, decide whether there is anything to do, drive the
    server and then the local client, and record the outcome. *)

From S2P Require Import Prelude CLib Types World Logic Helper Db DbSpec Exec ExecSpec Runner IpDetect IpDetectSpec.

Definition pick_ip_check_url (n : node) : cstr :=
  match ip_check_url n with [] => TUMGRD_DEFAULT_IP_CHECK_URL | url => url end.

(** The locals of [tumgrd_reconcile_one] that its clean-up or later steps use. *)
Record reconcile_locals := mkReconcile {
  r_node : node;
  detected_ip : cstr;
  new_xor_key : cstr;
  force : bool;
  expired : bool;
  server_apply_succeeded : bool
}.

Definition eta_reconcile (l : reconcile_locals) : reconcile_locals :=
  mkReconcile (r_node l) (detected_ip l) (new_xor_key l) (force l) (expired l) (server_apply_succeeded l).
Definition set_r_node (v : node) (l : reconcile_locals) : reconcile_locals := ltac:(set_field eta_reconcile r_node v l).
Definition set_detected_ip (v : cstr) (l : reconcile_locals) : reconcile_locals := ltac:(set_field eta_reconcile detected_ip v l).
Definition set_new_xor_key (v : cstr) (l : reconcile_locals) : reconcile_locals := ltac:(set_field eta_reconcile new_xor_key v l).
Definition set_force (v : bool) (l : reconcile_locals) : reconcile_locals := ltac:(set_field eta_reconcile force v l).
Definition set_expired (v : bool) (l : reconcile_locals) : reconcile_locals := ltac:(set_field eta_reconcile expired v l).
Definition set_server_apply_succeeded (v : bool) (l : reconcile_locals) : reconcile_locals :=
  ltac:(set_field eta_reconcile server_apply_succeeded v l).

(** The node after its row got a new key, and after its rotation was dropped. *)
Definition rotated_node (key : cstr) (n : node) : node :=
  set_xor_key_pending (snprintf_s SZ_XOR_KEY key)
    (set_rotation_state TUMGRD_ROTATION_PENDING_REMOTE (set_xor_key (snprintf_s SZ_XOR_KEY key) n)).
Definition cleared_node (n : node) : node := set_xor_key_pending [] (set_rotation_state TUMGRD_ROTATION_NONE n).

Section Reconcile.
Context `{E : Env} {Run : Exec}.

Definition mark_runtime (n : node) (current_ip status : cstr) (ts : Z) : M Z :=
  tumgrd_db_update_runtime (node_key n) (Some current_ip) status ts.

(** [if (f(...) != 0) { err = -1; goto err_cleanup; }] *)
Definition must {L} (m : M Z) : X L unit := rc ← lift m; if (rc =? 0)%Z then mret tt else fail (-1)%Z.

Definition fresh_key : X reconcile_locals cstr :=
  l ← local;
  r ← lift (generate_random_hex_key (new_xor_key l) SZ_XOR_KEY 64);
  assign (set_new_xor_key r.2);;
  if (r.1 =? 0)%Z then mret r.2 else fail (-1)%Z.

(** The repair of a rotation that cannot be resumed: a fresh one if keys are in
    use, none otherwise. *)
Definition repair_rotation (cfg : config) (now : Z) : X reconcile_locals unit :=
  l ← local;
  let n := r_node l in
  if enable_xor cfg && negb (bool_decide (xor_key n = [])) then
    key ← fresh_key;
    must (tumgrd_db_replace_rotation (node_key n) key now);;
    assign (set_r_node (rotated_node key n))
  else
    must (tumgrd_db_clear_rotation (node_key n));;
    assign (set_r_node (cleared_node n)).

Definition rotation_state_invalid (n : node) : bool :=
  (rotation_state n <? TUMGRD_ROTATION_NONE)%Z || (TUMGRD_ROTATION_PENDING_LOCAL_RECOVERY <? rotation_state n)%Z.

Definition rotation_key_mismatch (n : node) : bool :=
  negb (rotation_state n =? TUMGRD_ROTATION_NONE)%Z &&
  (bool_decide (xor_key_pending n = []) || negb (strcmp_eq (xor_key n) (xor_key_pending n))).

(** The rotation of an expired node: the new key is written before it is used. *)
Definition begin_rotation (cfg : config) (now : Z) : X reconcile_locals unit :=
  l ← local;
  let n := r_node l in
  if enable_xor cfg && negb (bool_decide (xor_key n = [])) then
    key ← fresh_key;
    must (tumgrd_db_begin_rotation (node_key n) key TUMGRD_ROTATION_PENDING_REMOTE now);;
    assign (set_r_node (rotated_node key n))
  else mret tt.

Definition resume_or_expire (cfg : config) (now : Z) : X reconcile_locals unit :=
  l ← local;
  let n := r_node l in
  let forced := assign (fun l => set_force true (set_expired true l)) in
  if (rotation_state n =? TUMGRD_ROTATION_PENDING_LOCAL_RECOVERY)%Z then forced
  else if (rotation_state n =? TUMGRD_ROTATION_PENDING_REMOTE)%Z then forced
  else if (now <? TUMGRD_MIN_SANE_TIME)%Z then mret tt
  else if (0 <? lifetime n)%Z && (last_applied_at n =? 0)%Z then forced
  else if (0 <? lifetime n)%Z && (lifetime n <=? now - last_applied_at n)%Z then
    forced;; begin_rotation cfg now
  else mret tt.

(** Lines 52 to 150: what happens before the network is touched. *)
Definition settle_rotation (cfg : config) (now : Z) : X reconcile_locals unit :=
  l ← local;
  (if rotation_state_invalid (r_node l) then repair_rotation cfg now else mret tt);;
  l ← local;
  (if rotation_key_mismatch (r_node l) then repair_rotation cfg now else mret tt);;
  resume_or_expire cfg now.

Definition node_needs_apply (n : node) (force : bool) (detected : cstr) : bool :=
  force || negb (streqcase (Some (current_ip n)) (Some detected)) ||
  (streq (Some (status n)) (Some TUMGRD_STATUS_ERROR) || streq (Some (status n)) (Some TUMGRD_STATUS_SYNCING)).

(** Lines 156 to 169: the address, and whether there is something to do. *)
Definition detect_and_decide : X reconcile_locals bool :=
  l ← local;
  r ← lift (detect_public_ip (pick_ip_check_url (r_node l)) (ip_version (r_node l)) (detected_ip l) 64);
  assign (set_detected_ip r.2);;
  if (r.1 <? 0)%Z then fail r.1
  else mret (node_needs_apply (r_node l) (force l) r.2).

(** Lines 171 to 188: the server, the local client, the row. *)
Definition apply_node (cfg : config) : X reconcile_locals unit :=
  l ← local;
  try2 (tumgrd_runner_server_add (r_node l) cfg (detected_ip l));;
  assign (set_server_apply_succeeded true);;
  (if (rotation_state (r_node l) =? TUMGRD_ROTATION_PENDING_REMOTE)%Z then
     must (tumgrd_db_update_rotation_state (node_key (r_node l)) TUMGRD_ROTATION_PENDING_LOCAL_RECOVERY);;
     assign (set_r_node (set_rotation_state TUMGRD_ROTATION_PENDING_LOCAL_RECOVERY (r_node l)))
   else mret tt);;
  l ← local;
  try2 (tumgrd_runner_reset_local_client (r_node l));;
  ts ← lift time;
  try2 (mark_runtime (r_node l) (detected_ip l) TUMGRD_STATUS_ACTIVE ts);;
  mret tt.

(** Lines 190 to 217: the end of a rotation, or of a lifetime. *)
Definition finish_rotation (now : Z) : X reconcile_locals unit :=
  let applied_ts := if (TUMGRD_MIN_SANE_TIME <=? now)%Z then now else 0%Z in
  l ← local;
  if negb (rotation_state (r_node l) =? TUMGRD_ROTATION_NONE)%Z && server_apply_succeeded l then
    must (tumgrd_db_complete_rotation (node_key (r_node l)) applied_ts);;
    assign (set_r_node (set_last_applied_at applied_ts (cleared_node (r_node l))))
  else if expired l && server_apply_succeeded l then
    must (tumgrd_db_update_applied (node_key (r_node l)) now);;
    assign (set_r_node (set_last_applied_at now (r_node l)))
  else mret tt.

(** The block of [tumgrd_reconcile_one]: whether the node was applied. *)
Definition reconcile_block (cfg : config) (now : Z) : X reconcile_locals bool :=
  settle_rotation cfg now;;
  need_apply ← detect_and_decide;
  if (need_apply : bool) then apply_node cfg;; finish_rotation now;; mret true
  else mret false.

(** From the label [err_cleanup], on an error. *)
Definition mark_failed (l : reconcile_locals) : M Z :=
  ts ← time;
  mark_runtime (r_node l) (match detected_ip l with [] => current_ip (r_node l) | ip => ip end)
    TUMGRD_STATUS_ERROR ts.

(** The return code and the node, which the caller sees change. *)
Definition tumgrd_reconcile_one (cfg : config) (n : node) (forced : bool) : M (Z * node) :=
  now ← time;
  r ← reconcile_block cfg now (mkReconcile n [] [] forced false false);
  match r.1 with
  | inr _ => mret (0%Z, r_node r.2)
  | inl err =>
      (if (err =? 0)%Z then mret 0%Z else mark_failed r.2);;
      mret (err, r_node r.2)
  end.

(** The number of nodes that failed. *)
Fixpoint reconcile_nodes (cfg : config) (forced : bool) (nodes : list node) : M nat :=
  match nodes with
  | [] => mret 0
  | n :: nodes' =>
      r ← tumgrd_reconcile_one cfg n forced;
      failed ← reconcile_nodes cfg forced nodes';
      mret (if (r.1 =? 0)%Z then failed else S failed)
  end.

Definition tumgrd_reconcile_all (cfg : config) (forced : bool) : M Z :=
  nodes ← tumgrd_db_list_nodes;
  if (nodes.1 <? 0)%Z then mret nodes.1
  else
    failed ← reconcile_nodes cfg forced nodes.2;
    mret (match failed with O => 0 | S _ => -1 end)%Z.

End Reconcile.
