(* ===== verification/ReconcileSpec.v ===== *)
(** * ReconcileSpec: what reconcile.c promises

    On every path, failures of the engine, the network and the children
    included: the node in memory and its row agree on the key and the state of
    its rotation; the commands that were run are a prefix-respecting choice of
    server-add, client-del, client-add, with the key that is in the row; and
    the row says how it ended. *)

From S2P Require Import Prelude CLib Types World Logic Helper Db DbSpec Exec ExecSpec Runner IpDetect IpDetectSpec Reconcile.

(** ** Commands between two worlds *)
Definition commands_between (cmds : list command) (w w' : world) : Prop :=
  exists t, w_trace w' = t ++ w_trace w /\ commands t = cmds.

Lemma commands_between_app c1 c2 w1 w2 w3 :
  commands_between c1 w1 w2 -> commands_between c2 w2 w3 -> commands_between (c1 ++ c2) w1 w3.
Proof.
  intros (t1 & H1 & <-) (t2 & H2 & <-). exists (t2 ++ t1). by rewrite H2, H1, app_assoc, commands_app.
Qed.

Lemma ran_commands cmds w w' : ran cmds w w' -> commands_between cmds w w'.
Proof. intros (t & Ht & Hc & _). by exists t. Qed.

Definition no_commands : relation world := commands_between [].

#[export] Instance no_commands_silent : Silent no_commands.
Proof.
  split; [split|].
  - intros w. by exists [].
  - intros w1 w2 w3. apply (commands_between_app [] []).
  - intros w n b _. by exists [].
Qed.
#[export] Instance no_commands_fd_silent : FdSilent no_commands.
Proof. intros w s. by exists []. Qed.
#[export] Instance no_commands_db_silent : DbSilent no_commands.
Proof. intros w rows n. by exists []. Qed.
#[export] Instance no_commands_sql name : Allows no_commands (EvSql name).
Proof. intros w. by exists [EvSql name]. Qed.
#[export] Instance no_commands_connect m : Allows no_commands (EvConnect m).
Proof. intros w. by exists [EvConnect m]. Qed.
#[export] Instance no_commands_request h p m q : Allows no_commands (EvRequest h p m q).
Proof. intros w. by exists [EvRequest h p m q]. Qed.

(** ** The node and its row *)

(** The row says what the node says about its keys and its rotation. *)
Definition rotation_view (r : row) (n : node) : Prop :=
  column_int (c_rotation_state r) = rotation_state n /\
  column_text (c_xor_key r) SZ_XOR_KEY = xor_key n /\
  column_text (c_xor_key_pending r) SZ_XOR_KEY = xor_key_pending n.

(** Over the table [m0], the row of the node, in agreement with it, satisfies
    [P]; the other rows are those of [m0]. *)
Definition row_at (m0 : gmap key row) (P : row -> Prop) (n : node) (w : world) : Prop :=
  exists r, store w = <[node_key n := r]> m0 /\ rotation_view r n /\ P r.

(** A rotation that can be resumed, or none. *)
Definition settled (n : node) : Prop :=
  rotation_state n = TUMGRD_ROTATION_NONE \/
  (is_pending_state (rotation_state n) = true /\ xor_key_pending n <> [] /\ xor_key n = xor_key_pending n).

Lemma settled_valid n : settled n -> rotation_state_invalid n = false /\ rotation_key_mismatch n = false.
Proof.
  unfold settled, rotation_state_invalid, rotation_key_mismatch.
  intros [-> |(Hp & Hne & Heq)]; [done|]. rewrite (bool_decide_false _ Hne), <- Heq. unfold strcmp_eq.
  rewrite bool_decide_true by done. rewrite andb_false_r. split; [|done].
  unfold is_pending_state in Hp. by apply orb_true_iff in Hp as [->%Z.eqb_eq| ->%Z.eqb_eq].
Qed.

(** What the node was registered with and what the last pass left: all but the
    keys, the state of the rotation and the time of the last application. *)
Definition settings (n : node) : node :=
  set_xor_key [] (set_xor_key_pending [] (set_rotation_state 0 (set_last_applied_at 0 n))).
Definition same_settings (n n' : node) : Prop := settings n = settings n'.

#[export] Instance same_settings_equivalence : Equivalence same_settings.
Proof. unfold same_settings. split; congruence. Qed.

Lemma same_settings_get {A} (f : node -> A) n n' :
  (forall n, f (settings n) = f n) -> same_settings n n' -> f n' = f n.
Proof. intros Hf H. by rewrite <- (Hf n'), <- H, Hf. Qed.

Lemma same_settings_key n n' : same_settings n n' -> node_key n' = node_key n.
Proof. by apply same_settings_get. Qed.

(** The last pass applied the node, at the address [ip]. *)
Definition up_to_date (n : node) (ip : cstr) : Prop :=
  streqcase (Some (current_ip n)) (Some ip) = true /\
  status n <> TUMGRD_STATUS_ERROR /\ status n <> TUMGRD_STATUS_SYNCING.

(** The rotation of the node calls for a pass that applies it. *)
Definition overdue (now : Z) (n : node) : Prop :=
  rotation_state n <> TUMGRD_ROTATION_NONE \/
  ((TUMGRD_MIN_SANE_TIME <= now)%Z /\ (0 < lifetime n)%Z /\
   (last_applied_at n = 0%Z \/ (lifetime n <= now - last_applied_at n)%Z)).

(** [ip] is what [detect_public_ip] found for the node between [w] and [w']. *)
Definition detected `{E : Env} (n : node) (w : world) (ip : cstr) (w' : world) : Prop :=
  exists out wa wb, later w wa /\ later wb w' /\
    detect_public_ip (pick_ip_check_url n) (ip_version n) out 64 wa = Some ((0%Z, ip), wb).

Lemma detected_later `{E : Env} n w0 w ip w1 w2 :
  later w0 w -> detected n w ip w1 -> later w1 w2 -> detected n w0 ip w2.
Proof.
  intros H0 (out & wa & wb & Ha & Hb & Hrun) H2. exists out, wa, wb.
  split; [by transitivity w|]. split; [by transitivity w1|done].
Qed.

Lemma needs_apply_false n force ip : node_needs_apply n force ip = false <-> force = false /\ up_to_date n ip.
Proof.
  assert (forall a b, streq (Some a) (Some b) = false <-> a <> b) as Hb.
  { intros a b. rewrite <- streq_spec. by destruct (streq _ _). }
  unfold node_needs_apply, up_to_date. rewrite !orb_false_iff, negb_false_iff, !Hb. tauto.
Qed.

Lemma needs_apply_settings n n' force ip : same_settings n n' -> node_needs_apply n' force ip = node_needs_apply n force ip.
Proof. by apply (same_settings_get (fun n => node_needs_apply n force ip)). Qed.

Lemma row_at_same_db m0 P n w w' : same_db w w' -> row_at m0 P n w -> row_at m0 P n w'.
Proof. intros (_ & _ & Hr). unfold row_at. by rewrite Hr. Qed.

Lemma row_at_weaken m0 (P P' : row -> Prop) n w : (forall r, P r -> P' r) -> row_at m0 P n w -> row_at m0 P' n w.
Proof. intros H (r & Hr & Hv & HP). exists r. auto. Qed.

Lemma row_at_lookup m0 P n w : row_at m0 P n w -> exists r, store w !! node_key n = Some r /\ rotation_view r n /\ P r.
Proof. intros (r & -> & H). exists r. by rewrite lookup_insert_eq. Qed.

Lemma row_at_others m0 P n w k : row_at m0 P n w -> k <> node_key n -> store w !! k = m0 !! k.
Proof. intros (r & -> & _) Hk. by rewrite lookup_insert_ne. Qed.

Section Rows.
Context `{E : Env} (m0 : gmap key row).
Implicit Types (w : world) (n : node).
#[local] Notation row_at := (row_at m0).

(** An update of the node's row, with the node changed alike. *)
Lemma row_at_update (P P' : row -> Prop) n n' guard f w rc w' :
  update_post (node_key n) guard f w rc w' -> row_at P n w -> node_key n' = node_key n ->
  (forall r, rotation_view r n -> P r -> rotation_view (f r) n' /\ P' (f r)) ->
  table_ok (w_rows w') /\ (rc = 0%Z /\ row_at P' n' w' \/ rc = (-1)%Z /\ row_at P n w').
Proof.
  intros [Hok Hres] (r & Hr & Hv & HP) Hk Hf. split; [done|].
  destruct Hres as [(-> & r' & Hr' & _ & Hs)|(-> & Hrows & _)].
  - left. split; [done|]. rewrite Hr, lookup_insert_eq in Hr'. injection Hr' as <-. destruct (Hf r Hv HP) as [Hv' HP'].
    exists (f r). rewrite Hs, Hk, Hr, insert_insert_eq. auto.
  - right. split; [done|]. exists r. by rewrite Hrows.
Qed.

Lemma row_at_alter (P P' : row -> Prop) n f w rc w' :
  alter_post (node_key n) f w rc w' -> row_at P n w ->
  (forall r, rotation_view r n -> P r -> rotation_view (f r) n /\ P' (f r)) ->
  table_ok (w_rows w') /\ (rc = 0%Z /\ row_at P' n w' \/ rc = (-1)%Z /\ row_at P n w' /\ sql_fault w w').
Proof.
  intros [Hok Hres] (r & Hr & Hv & HP) Hf. split; [done|].
  destruct Hres as [(-> & Hs)|(-> & Hrows & Hfault)].
  - left. split; [done|]. destruct (Hf r Hv HP). exists (f r). rewrite Hs, Hr, alter_insert_eq. auto.
  - right. split; [done|]. split; [|done]. exists r. by rewrite Hrows.
Qed.

(** Properties of a row that the columns of a rotation do not affect. *)
Class RotationFree (P : row -> Prop) : Prop := {
  free_set_rotation key st now r : P r -> P (set_rotation key st now r);
  free_set_state st r : P r -> P (set_c_rotation_state st r);
  free_clear r : P r -> P (clear_row r)
}.

Lemma set_rotation_view key now r n :
  nonul key -> length key < SZ_XOR_KEY ->
  rotation_view (set_rotation key TUMGRD_ROTATION_PENDING_REMOTE now r) (rotated_node key n).
Proof.
  intros Hnn Hlen. unfold rotation_view, rotated_node. cbn [rotation_state xor_key xor_key_pending set_rotation_state set_xor_key set_xor_key_pending].
  assert (column_text (Some key) SZ_XOR_KEY = snprintf_s SZ_XOR_KEY key) as Heq.
  { rewrite snprintf_s_id by done. by apply column_text_id. }
  by split_and!.
Qed.

Lemma clear_view r n : rotation_view r n -> rotation_view (clear_row r) (cleared_node n).
Proof. intros (_ & Hk & _). by split_and!. Qed.

Lemma set_state_view st r n :
  is_pending_state st = true -> rotation_view r n -> rotation_view (set_c_rotation_state (Some st) r) (set_rotation_state st n).
Proof.
  intros Hst (_ & Hk & Hp). split_and!; [|done|done]. cbn.
  unfold is_pending_state in Hst. apply orb_true_iff in Hst as [->%Z.eqb_eq| ->%Z.eqb_eq]; done.
Qed.

(** ** The blocks *)
Context {Run : Exec} `{!ExecLaws Run}.

(** What holds of the locals and the world at every point: the row of the node
    [n0] exists, agrees with the node in memory, and satisfies [P]. *)
Definition consistent (P : row -> Prop) (n0 : node) (l : reconcile_locals) (w : world) : Prop :=
  table_ok (w_rows w) /\ same_settings n0 (r_node l) /\ row_at P (r_node l) w.

Definition stops (P : row -> Prop) (n0 : node) (e : Z) (l : reconcile_locals) (w : world) : Prop :=
  (e < 0)%Z /\ consistent P n0 l w.

Lemma consistent_same_db P n0 l w w' : same_db w w' -> consistent P n0 l w -> consistent P n0 l w'.
Proof.
  intros Hdb (Hok & Hk & Hr). split_and!; [|done|by eapply row_at_same_db].
  destruct Hdb as (_ & _ & ->). exact Hok.
Qed.

(** [must] of an update, and the assignment that mirrors it. *)
Lemma wpx_must_update (P P' : row -> Prop) n0 m n' guard f l w (Q : unit -> reconcile_locals -> world -> Prop) :
  wp m (update_post (node_key (r_node l)) guard f w) w ->
  consistent P n0 l w -> same_settings (r_node l) n' ->
  (forall r, rotation_view r (r_node l) -> P r -> rotation_view (f r) n' /\ P' (f r)) ->
  (forall w', consistent P' n0 (set_r_node n' l) w' -> Q tt (set_r_node n' l) w') ->
  wpx (must m;; assign (set_r_node n')) (stops P n0) Q l w.
Proof.
  intros Hm (Hok & Hk & Hr) Hk' Hf HQ. apply wpx_bind, wpx_bind, wpx_lift.
  eapply wp_mono; [exact Hm|]. intros rc w' Hpost.
  destruct (row_at_update P P' _ n' _ _ _ _ _ Hpost Hr (same_settings_key _ _ Hk') Hf) as [Hok' [[-> Hr']|[-> Hr']]].
  - apply wpx_ret, wpx_assign, HQ. split_and!; [done|cbn; by transitivity (r_node l)|done].
  - apply wpx_fail. split; [done|]. by split_and!.
Qed.

(** A generated key is 128 hexadecimal digits. *)
Lemma wpx_fresh_key P n0 l w (Q : cstr -> reconcile_locals -> world -> Prop) :
  consistent P n0 l w ->
  (forall key w', nonul key -> length key < SZ_XOR_KEY -> key <> [] ->
     consistent P n0 (set_new_xor_key key l) w' -> Q key (set_new_xor_key key l) w') ->
  wpx fresh_key (stops P n0) Q l w.
Proof.
  intros Hc HQ. apply wpx_bind, wpx_local, wpx_bind, wpx_lift.
  eapply wp_mono; [apply wp_and; [apply wp_generate_random_hex_key|wp_frame same_db]|].
  intros [rc key] w' [[_ Hkey] Hdb]. cbn [fst snd] in *. apply wpx_bind, wpx_assign.
  assert (consistent P n0 (set_new_xor_key key l) w') as Hc' by by eapply consistent_same_db.
  destruct Hkey as [[-> _]|(-> & _ & Hlen & Hsz & Hhex & _)].
  - apply wpx_fail. by split.
  - apply wpx_ret, HQ; [|done| |done].
    + eapply Forall_impl; [exact Hhex|]. by intros c Hc0 ->.
    + by intros ->.
Qed.

Lemma rotated_settled key n : nonul key -> length key < SZ_XOR_KEY -> key <> [] -> settled (rotated_node key n).
Proof. intros Hnn Hlen Hne. right. unfold rotated_node. rewrite snprintf_s_id by done. by split_and!. Qed.

Lemma wpx_repair_rotation P n0 cfg now l w :
  RotationFree P -> consistent P n0 l w ->
  wpx (repair_rotation cfg now) (stops P n0)
    (fun _ l' w' => consistent P n0 l' w' /\ settled (r_node l') /\
       expired l' = expired l /\ server_apply_succeeded l' = server_apply_succeeded l /\ force l' = force l) l w.
Proof.
  intros HF Hc. apply wpx_bind, wpx_local. destruct (_ && _).
  - apply wpx_bind, (wpx_fresh_key P n0); [done|]. intros key w1 Hnn Hlen Hne H1.
    eapply (wpx_must_update P P n0); [apply (replace_rotation_spec (node_key (r_node l))), H1|exact H1|done| |].
    + intros r _ HP. split; [by apply set_rotation_view|by apply free_set_rotation].
    + intros w2 H2. split_and!; [done|by apply rotated_settled|done..].
  - eapply (wpx_must_update P P n0); [apply clear_rotation_spec, Hc|exact Hc|done| |].
    + intros r Hv HP. split; [by apply clear_view|by apply free_clear].
    + intros w2 H2. split_and!; [done|by left|done..].
Qed.

(** A node that is due is known to be, and so is one whose rotation goes on. *)
Definition expires (now : Z) (n : node) (l : reconcile_locals) : Prop :=
  (expired l = true <-> overdue now n) /\ (rotation_state (r_node l) <> TUMGRD_ROTATION_NONE -> expired l = true).

Lemma expires_due now n l : overdue now n -> expired l = true -> expires now n l.
Proof. by split. Qed.

(** The state after lines 52 to 150, from the node [n]: resumable, forced only
    for a reason, and expired only if it is rotating or the clock can be
    believed. *)
Definition ready_to_apply (now : Z) (forced : bool) (n : node) (l : reconcile_locals) : Prop :=
  (force l = true -> forced = true \/ overdue now n) /\
  settled (r_node l) /\ (forced = true \/ rotation_state (r_node l) <> TUMGRD_ROTATION_NONE -> force l = true) /\ server_apply_succeeded l = false /\
  (expired l = true -> rotation_state (r_node l) <> TUMGRD_ROTATION_NONE \/ (TUMGRD_MIN_SANE_TIME <= now)%Z) /\
  (settled n -> expires now n l).

Lemma wpx_resume_or_expire P n0 cfg now l w :
  RotationFree P -> consistent P n0 l w -> settled (r_node l) -> expired l = false -> server_apply_succeeded l = false ->
  wpx (resume_or_expire cfg now) (stops P n0) (fun _ l' w' => consistent P n0 l' w' /\ ready_to_apply now (force l) (r_node l) l') l w.
Proof.
  intros HF Hc Hs Hexp Happ. apply wpx_bind, wpx_local. cbv zeta.
  set (l1 := set_force true (set_expired true l)).
  assert (consistent P n0 l1 w) as Hc1 by exact Hc.
  destruct (Z.eqb_spec (rotation_state (r_node l)) TUMGRD_ROTATION_PENDING_LOCAL_RECOVERY) as [H2|H2].
  { apply wpx_assign. assert (rotation_state (r_node l) <> TUMGRD_ROTATION_NONE) as Hne by by rewrite H2.
    split; [done|]. split_and!; [by right; left|done..|by left|]. intros _. by apply expires_due; [left|]. }
  destruct (Z.eqb_spec (rotation_state (r_node l)) TUMGRD_ROTATION_PENDING_REMOTE) as [H1|H1].
  { apply wpx_assign. assert (rotation_state (r_node l) <> TUMGRD_ROTATION_NONE) as Hne by by rewrite H1.
    split; [done|]. split_and!; [by right; left|done..|by left|]. intros _. by apply expires_due; [left|]. }
  assert (rotation_state (r_node l) = TUMGRD_ROTATION_NONE) as Hnone.
  { destruct Hs as [|(Hp & _)]; [done|]. unfold is_pending_state in Hp.
    apply orb_true_iff in Hp as [?%Z.eqb_eq|?%Z.eqb_eq]; done. }
  assert (force l = true \/ rotation_state (r_node l) <> TUMGRD_ROTATION_NONE -> force l = true) as Hforce by by intros [|].
  assert (~ overdue now (r_node l) -> wpx (mret tt) (stops P n0)
    (fun _ l' w' => consistent P n0 l' w' /\ ready_to_apply now (force l) (r_node l) l') l w) as Hidle.
  { intros Hnot. apply wpx_ret. split; [done|]. split_and!; [by left|done|done|done|congruence|]. intros _. split; [|done].
    by rewrite Hexp. }
  destruct (Z.ltb_spec now TUMGRD_MIN_SANE_TIME) as [|Hsane]; [apply Hidle; intros [|(? & _)]; [done|lia]|].
  destruct (_ && _) eqn:Hnever.
  { apply andb_true_iff in Hnever as [Hlife%Z.ltb_lt Hzero%Z.eqb_eq].
    apply wpx_assign. assert (overdue now (r_node l)) as Hdue by (right; auto).
    split; [done|]. split_and!; [by right|done|done|done|by right|]. intros _. by apply expires_due. }
  destruct (_ && (lifetime (r_node l) <=? _)%Z) eqn:Hover.
  2:{ apply Hidle. intros [|(_ & Hlife & [Hzero|Hover'])]; [done|..]; apply Z.ltb_lt in Hlife; rewrite Hlife in Hnever, Hover; cbn in Hnever, Hover;
        [by rewrite Hzero in Hnever|by apply Z.leb_gt in Hover; lia]. }
  clear Hnever. apply andb_true_iff in Hover as [Hlife%Z.ltb_lt Hover%Z.leb_le].
  assert (overdue now (r_node l)) as Hdue by (right; auto).
  apply wpx_bind, wpx_assign, wpx_bind, wpx_local. destruct (_ && _).
  - apply wpx_bind, (wpx_fresh_key P n0); [done|]. intros key w1 Hnn Hlen Hne Hc2.
    eapply (wpx_must_update P P n0); [apply begin_rotation_spec, Hc2|exact Hc2|done| |].
    + intros r _ HP. split; [by apply set_rotation_view|by apply free_set_rotation].
    + intros w2 Hc3. split; [done|]. split_and!; [by right|by apply rotated_settled|done|done|by right|].
      intros _. by apply expires_due.
  - apply wpx_ret. split; [done|]. split_and!; [by right|done|done|done|by right|]. intros _. by apply expires_due.
Qed.

Lemma wpx_settle_rotation P n0 cfg now l w :
  RotationFree P -> consistent P n0 l w -> expired l = false -> server_apply_succeeded l = false ->
  wpx (settle_rotation cfg now) (stops P n0) (fun _ l' w' => consistent P n0 l' w' /\ ready_to_apply now (force l) (r_node l) l') l w.
Proof.
  intros HF Hc Hexp Happ. apply wpx_bind, wpx_local, wpx_bind.
  assert (forall l1 w1, consistent P n0 l1 w1 -> rotation_state_invalid (r_node l1) = false ->
    expired l1 = false -> server_apply_succeeded l1 = false -> force l1 = force l ->
    (overdue now (r_node l1) -> overdue now (r_node l)) -> (settled (r_node l) -> l1 = l) ->
    wpx (l ← local; (if rotation_key_mismatch (r_node l) then repair_rotation cfg now else mret tt);; resume_or_expire cfg now)
      (stops P n0) (fun _ l' w' => consistent P n0 l' w' /\ ready_to_apply now (force l) (r_node l) l') l1 w1) as Hrest.
  { intros l1 w1 H1 Hvalid He1 Ha1 <- Hover Hl1. apply wpx_bind, wpx_local, wpx_bind.
    destruct (rotation_key_mismatch (r_node l1)) eqn:Hmis.
    - eapply wpx_mono; [by apply (wpx_repair_rotation P n0)|done|]. intros ? l2 w2 (H2 & Hs & He2 & Ha2 & <-).
      eapply wpx_mono; [by apply wpx_resume_or_expire; [..|congruence|congruence]|done|].
      intros ? l3 w3 [H3 (Hwhy & Hs3 & Hf3 & Ha3 & He3 & _)]. split; [done|]. split; [|split_and!; try done].
      + intros Hf. right. apply Hover. left. intros H0. unfold rotation_key_mismatch in Hmis. by rewrite H0 in Hmis.
      + intros Hl. destruct (settled_valid _ Hl) as [_ Hno]. rewrite <- (Hl1 Hl) in Hno. congruence.
    - apply wpx_ret. eapply wpx_mono; [apply wpx_resume_or_expire; [done|done| |done|done]|done|].
      2:{ intros ? l3 w3 [H3 (Hwhy & Hs3 & Hf3 & Ha3 & He3 & Hx3)]. split; [done|]. split; [|split_and!; try done].
          - intros Hf. destruct (Hwhy Hf); [by left|right; by apply Hover].
          - intros Hl. specialize (Hl1 Hl). subst l1. by apply Hx3. }
      unfold rotation_key_mismatch, rotation_state_invalid in *. unfold settled, is_pending_state, strcmp_eq in *.
      unfold TUMGRD_ROTATION_NONE, TUMGRD_ROTATION_PENDING_REMOTE, TUMGRD_ROTATION_PENDING_LOCAL_RECOVERY in *.
      apply orb_false_iff in Hvalid as [Hlo%Z.ltb_ge Hhi%Z.ltb_ge].
      destruct (Z.eqb_spec (rotation_state (r_node l1)) 0) as [|Hne]; [by left|right]. cbn in Hmis.
      apply orb_false_iff in Hmis as [Hpend%bool_decide_eq_false Heq%negb_false_iff%bool_decide_eq_true].
      split_and!; [|done|done]. apply orb_true_iff. rewrite !Z.eqb_eq. lia. }
  destruct (rotation_state_invalid (r_node l)) eqn:Hinv.
  - eapply wpx_mono; [by apply (wpx_repair_rotation P n0)|done|]. intros ? l2 w2 (H2 & Hs & He2 & Ha2 & Hf2).
    assert (overdue now (r_node l)) as Hover by (left; intros H0; unfold rotation_state_invalid in Hinv; by rewrite H0 in Hinv).
    apply Hrest; [done| |congruence|congruence|done|done|intros Hl; destruct (settled_valid _ Hl); congruence]. unfold rotation_state_invalid.
    destruct Hs as [-> | (Hp & _)]; [done|]. unfold is_pending_state in Hp.
    apply orb_true_iff in Hp as [->%Z.eqb_eq| ->%Z.eqb_eq]; done.
  - by apply wpx_ret, Hrest.
Qed.

(** *** The network and the children *)

(** Everything that may be run for a node, in order. *)
Definition all_commands (n : node) (cfg : config) (ip : cstr) : list command :=
  server_add_commands n cfg ip ++ [ktuctl (client_del_argv n); ktuctl (client_add_argv n)].

(** Some of it was run, in order, since [w0]. *)
Definition tried (cfg : config) (w0 : world) (l : reconcile_locals) (w : world) : Prop :=
  exists cmds, commands_between cmds w0 w /\ cmds `sublist_of` all_commands (r_node l) cfg (detected_ip l).

(** A server-add was run, then the local client was reset and ended added. *)
Definition applied (n : node) (cfg : config) (ip : cstr) (w0 w : world) : Prop :=
  exists adds resets, commands_between (adds ++ resets) w0 w /\
    adds <> [] /\ adds `sublist_of` server_add_commands n cfg ip /\
    (resets = [ktuctl (client_add_argv n)] \/ resets = [ktuctl (client_del_argv n); ktuctl (client_add_argv n)]).

Lemma applied_wider n cfg ip w0 w w1 w2 :
  no_commands w0 w -> applied n cfg ip w w1 -> no_commands w1 w2 -> applied n cfg ip w0 w2.
Proof.
  intros H0 (adds & resets & Hc & H) H2. exists adds, resets. split; [|done].
  rewrite <- (app_nil_l (adds ++ resets)). eapply commands_between_app; [exact H0|].
  rewrite <- (app_nil_r (adds ++ resets)). by eapply commands_between_app.
Qed.

Lemma tried_same_commands cfg w0 l l' w w' :
  tried cfg w0 l w -> no_commands w w' ->
  all_commands (r_node l') cfg (detected_ip l') = all_commands (r_node l) cfg (detected_ip l) -> tried cfg w0 l' w'.
Proof.
  intros (cmds & Hc & Hs) Hn Heq. exists cmds. rewrite Heq. split; [|done].
  rewrite <- (app_nil_r cmds). by eapply commands_between_app.
Qed.

Lemma nothing_tried cfg w0 l w : no_commands w0 w -> tried cfg w0 l w.
Proof. intros Hn. exists []. split; [done|apply sublist_nil_l]. Qed.

Lemma wpx_detect_and_decide P n0 l w :
  consistent P n0 l w ->
  wpx detect_and_decide
    (fun e l' w' => stops P n0 e l' w' /\ no_commands w w')
    (fun need l' w' => consistent P n0 l' w' /\ no_commands w w' /\ l' = set_detected_ip (detected_ip l') l /\
       detected n0 w (detected_ip l') w' /\ need = node_needs_apply n0 (force l) (detected_ip l')) l w.
Proof.
  intros Hc. apply wpx_bind, wpx_local, wpx_bind, wpx_lift. pose proof Hc as (_ & Hsame & _).
  rewrite (same_settings_get pick_ip_check_url n0), (same_settings_get ip_version n0) by done.
  eapply wp_mono.
  { apply wp_and; [wp_frame same_db|apply wp_and; [wp_frame no_commands|apply wp_and; [apply detect_public_ip_spec|]]].
    apply wp_intro. intros r w' Hrun. exact Hrun. }
  intros [rc ip] w' (Hdb & Hn & (_ & Hrc & _) & Hrun). cbn [fst snd] in *. apply wpx_bind, wpx_assign.
  assert (consistent P n0 (set_detected_ip ip l) w') as Hc' by by eapply consistent_same_db.
  destruct Hrc as [-> | ->]; [|by apply wpx_fail]. apply wpx_ret. split_and!; [done..| |by apply needs_apply_settings].
  by exists (detected_ip l), w, w'.
Qed.

(** The outcome columns are still those of the row [r0]. *)
Definition untouched (r0 r : row) : Prop :=
  c_status r = c_status r0 /\ c_current_ip r = c_current_ip r0 /\ c_last_applied_at r = c_last_applied_at r0.

#[export] Instance untouched_free r0 : RotationFree (untouched r0).
Proof. by split. Qed.

Definition marked_active (r0 : row) (ip : cstr) (r : row) : Prop :=
  c_status r = Some TUMGRD_STATUS_ACTIVE /\ c_current_ip r = Some ip /\ c_last_applied_at r = c_last_applied_at r0.

Lemma wpx_try2_tail {L} (m : M Z) QE (Q : unit -> L -> world -> Prop) l w :
  wp m (fun r w' => if (r <? 0)%Z then QE r l w' else Q tt l w') w -> wpx (try2 m;; mret tt) QE Q l w.
Proof.
  intros H. apply wpx_bind, wpx_try2. eapply wp_mono; [exact H|]. intros r w'. cbv beta.
  destruct (r <? 0)%Z; [done|]. intros HQ. by apply wpx_ret.
Qed.

(** The local client and the row, once the server has the node. *)
Lemma wpx_local_steps r0 n0 cfg w0 l w adds :
  consistent (untouched r0) n0 l w -> detected_ip l <> [] ->
  commands_between adds w0 w -> adds <> [] -> adds `sublist_of` server_add_commands (r_node l) cfg (detected_ip l) ->
  wpx (l ← local; try2 (tumgrd_runner_reset_local_client (r_node l));;
       ts ← lift time; try2 (mark_runtime (r_node l) (detected_ip l) TUMGRD_STATUS_ACTIVE ts);; mret tt)
    (fun e l' w' => stops (untouched r0) n0 e l' w' /\ tried cfg w0 l' w')
    (fun _ l' w' => l' = l /\ consistent (marked_active r0 (detected_ip l)) n0 l w' /\
       applied (r_node l) cfg (detected_ip l) w0 w') l w.
Proof.
  intros Hc Hip Hadds Hne Hsub. apply wpx_bind, wpx_local, wpx_bind, wpx_try2.
  eapply wp_mono; [apply wp_and; [apply reset_local_client_spec|wp_frame same_db]|].
  intros rc w1 [(Hle & cmds & Hran & Hcs & Hrc) Hdb].
  assert (consistent (untouched r0) n0 l w1) as Hc1 by by eapply consistent_same_db.
  assert (commands_between (adds ++ cmds) w0 w1) as Hall by (eapply commands_between_app; [done|by apply ran_commands]).
  assert (tried cfg w0 l w1) as Htried by (exists (adds ++ cmds); split; [done|by apply sublist_app]).
  destruct (Z.ltb_spec rc 0); [by split|]. apply wpx_bind, wpx_lift, wp_time. intros w2 H2.
  assert (consistent (untouched r0) n0 l w2) as Hc2.
  { eapply consistent_same_db; [|exact Hc1]. apply (calm_respects _ _ _ H2). }
  assert (no_commands w1 w2) as Hn12 by (apply (calm_respects _ _ _ H2)).
  apply wpx_try2_tail. eapply wp_mono; [apply wp_and; [apply update_runtime_spec, Hc2|unfold mark_runtime; wp_frame no_commands]|].
  intros rc2 w3 [Hpost Hn23]. pose proof Hc2 as (_ & Hk & Hr).
  destruct (row_at_alter _ (marked_active r0 (detected_ip l)) _ _ _ _ _ Hpost Hr) as [Hok3 [[-> Hr3]|(-> & Hr3 & _)]].
  { intros r Hv (_ & _ & Ha). split; [done|]. split_and!; [done| |done]. cbn. by destruct (detected_ip l). }
  - cbn. split; [done|]. split; [by split_and!|]. exists adds, cmds. split_and!; [|done|done|].
    + rewrite <- (app_nil_r (adds ++ cmds)). eapply commands_between_app; [exact Hall|].
      rewrite <- (app_nil_r []). by eapply commands_between_app.
    + apply Hrc. lia.
  - cbn. split; [by split_and!|]. eapply tried_same_commands; [exact Htried| |done]. by transitivity w2.
Qed.

Lemma wpx_apply_node r0 n0 cfg w0 l w :
  consistent (untouched r0) n0 l w -> settled (r_node l) -> no_commands w0 w ->
  wpx (apply_node cfg)
    (fun e l' w' => stops (untouched r0) n0 e l' w' /\ tried cfg w0 l' w')
    (fun _ l' w' => consistent (marked_active r0 (detected_ip l)) n0 l' w' /\
       detected_ip l' = detected_ip l /\ applied (r_node l') cfg (detected_ip l) w0 w' /\
       expired l' = expired l /\ server_apply_succeeded l' = true /\
       (rotation_state (r_node l') = TUMGRD_ROTATION_NONE <-> rotation_state (r_node l) = TUMGRD_ROTATION_NONE)) l w.
Proof.
  intros Hc Hs Hn. apply wpx_bind, wpx_local, wpx_bind, wpx_try2.
  destruct (detected_ip l) as [|c ip] eqn:Hip.
  { apply wp_ret. cbn. split; [by split|by apply nothing_tried]. }
  rewrite <- Hip. assert (detected_ip l <> []) as Hne by congruence. clear Hip c ip.
  eapply wp_mono; [apply wp_and; [apply server_add_spec|wp_frame same_db]|].
  intros rc w1 [(Hle & adds & Hran & Hsub & Hrc) Hdb].
  assert (consistent (untouched r0) n0 l w1) as Hc1 by by eapply consistent_same_db.
  assert (commands_between adds w0 w1) as Hadds.
  { rewrite <- (app_nil_l adds). eapply commands_between_app; [exact Hn|by apply ran_commands]. }
  destruct (Z.ltb_spec rc 0).
  { split; [by split|]. exists adds. split; [done|]. by apply sublist_inserts_r. }
  destruct (Hrc ltac:(lia)) as [Hadded _].
  apply wpx_bind, wpx_assign. set (l1 := set_server_apply_succeeded true l). apply wpx_bind.
  destruct (Z.eqb_spec (rotation_state (r_node l)) TUMGRD_ROTATION_PENDING_REMOTE) as [Hremote|Hremote].
  - set (n2 := set_rotation_state TUMGRD_ROTATION_PENDING_LOCAL_RECOVERY (r_node l)).
    change (r_node l) with (r_node l1) at 1. set (f := fun r => set_c_rotation_state (Some TUMGRD_ROTATION_PENDING_LOCAL_RECOVERY) r).
    assert (wp (tumgrd_db_update_rotation_state (node_key (r_node l1)) TUMGRD_ROTATION_PENDING_LOCAL_RECOVERY)
      (fun rc w' => update_post (node_key (r_node l1)) (fun r => rotation_pending r && true) f w1 rc w' /\ no_commands w1 w') w1) as Hop.
    { apply wp_and; [|wp_frame no_commands]. apply (update_rotation_state_spec _ TUMGRD_ROTATION_PENDING_LOCAL_RECOVERY), Hc1. }
    apply wpx_bind, wpx_bind, wpx_lift. eapply wp_mono; [exact Hop|]. intros rc2 w2 [Hpost Hn12].
    pose proof Hc1 as (Hok1 & Hk1 & Hr1).
    destruct (row_at_update _ (untouched r0) (r_node l1) n2 _ _ _ _ _ Hpost Hr1) as [Hok2 [[-> Hr2]|[-> Hr2]]];
      [done|intros r Hv Ha; by split; [apply set_state_view|]|..].
    + apply wpx_ret, wpx_assign.
      assert (commands_between adds w0 w2) as Hadds2.
      { rewrite <- (app_nil_r adds). by eapply commands_between_app. }
      eapply wpx_mono; [apply (wpx_local_steps r0 n0 cfg w0 (set_r_node n2 l1) w2 adds); [by split_and!|done..]|done|].
      intros ? l3 w3 (-> & H3 & Happ). split_and!; [done..|]. cbn. by rewrite Hremote.
    + apply wpx_fail. split; [by split_and!|]. eapply (tried_same_commands cfg w0 l1); [|exact Hn12|done].
      exists adds. split; [done|]. by apply sublist_inserts_r.
  - apply wpx_ret. eapply wpx_mono; [by apply (wpx_local_steps r0 n0 cfg w0 l1 w1 adds)|done|].
    intros ? l3 w3 (-> & H3 & Happ). by split_and!.
Qed.

(** The time of the last application: as it was, cleared, or a time that a
    clock which can be believed has shown. *)
Definition sane_applied (r0 : row) (now : Z) (r : row) : Prop :=
  c_last_applied_at r = c_last_applied_at r0 \/ c_last_applied_at r = Some 0%Z \/
  (c_last_applied_at r = Some now /\ (TUMGRD_MIN_SANE_TIME <= now)%Z).

(** The time of the application of a node that was due, if the clock can be
    believed; otherwise the lifetime goes on from where it was. *)
Definition applied_time (now : Z) : Z := if (TUMGRD_MIN_SANE_TIME <=? now)%Z then now else 0%Z.
Definition stamped (r0 : row) (n0 : node) (now : Z) (r : row) : Prop :=
  (overdue now n0 -> c_last_applied_at r = Some (applied_time now)) /\
  (~ overdue now n0 -> c_last_applied_at r = c_last_applied_at r0).

Definition finished (r0 : row) (n0 : node) (now : Z) (ip : cstr) (r : row) : Prop :=
  c_status r = Some TUMGRD_STATUS_ACTIVE /\ c_current_ip r = Some ip /\ sane_applied r0 now r /\
  (settled n0 -> stamped r0 n0 now r).

Lemma consistent_weaken (P P' : row -> Prop) n0 l w :
  (forall r, P r -> P' r) -> consistent P n0 l w -> consistent P' n0 l w.
Proof. intros H (? & ? & Hr). split_and!; [done|done|by eapply row_at_weaken]. Qed.

Lemma untouched_sane r0 now r : untouched r0 r -> sane_applied r0 now r.
Proof. intros (_ & _ & H). by left. Qed.

Lemma wpx_finish_rotation r0 n0 now ip l w :
  consistent (marked_active r0 ip) n0 l w -> server_apply_succeeded l = true ->
  (expired l = true -> rotation_state (r_node l) <> TUMGRD_ROTATION_NONE \/ (TUMGRD_MIN_SANE_TIME <= now)%Z) ->
  (settled n0 -> expires now n0 l) ->
  wpx (finish_rotation now)
    (fun e l' w' => stops (sane_applied r0 now) n0 e l' w' /\ l' = l /\ no_commands w w')
    (fun _ l' w' => consistent (finished r0 n0 now ip) n0 l' w' /\ no_commands w w' /\
       rotation_state (r_node l') = TUMGRD_ROTATION_NONE /\ detected_ip l' = detected_ip l /\
       forall cfg ip, all_commands (r_node l') cfg ip = all_commands (r_node l) cfg ip /\
         server_add_commands (r_node l') cfg ip = server_add_commands (r_node l) cfg ip /\
         client_add_argv (r_node l') = client_add_argv (r_node l) /\
         client_del_argv (r_node l') = client_del_argv (r_node l)) l w.
Proof.
  intros Hc Happ Hexp Hdue. apply wpx_bind, wpx_local. rewrite Happ, !andb_true_r.
  assert (consistent (sane_applied r0 now) n0 l w) as Hsane.
  { eapply consistent_weaken; [|exact Hc]. intros r (_ & _ & H). by left. }
  pose proof Hc as (Hok & Hk & Hr).
  (* an update that must succeed, and what it leaves *)
  assert (forall m n' guard f,
    wp m (update_post (node_key (r_node l)) guard f w) w -> wp m (fun _ w' => no_commands w w') w ->
    same_settings (r_node l) n' -> rotation_state n' = TUMGRD_ROTATION_NONE ->
    (forall r, rotation_view r (r_node l) -> marked_active r0 ip r -> rotation_view (f r) n' /\ finished r0 n0 now ip (f r)) ->
    (forall cfg ip, all_commands n' cfg ip = all_commands (r_node l) cfg ip /\
       server_add_commands n' cfg ip = server_add_commands (r_node l) cfg ip /\
       client_add_argv n' = client_add_argv (r_node l) /\ client_del_argv n' = client_del_argv (r_node l)) ->
    wpx (must m;; assign (set_r_node n'))
      (fun e l' w' => stops (sane_applied r0 now) n0 e l' w' /\ l' = l /\ no_commands w w')
      (fun _ l' w' => consistent (finished r0 n0 now ip) n0 l' w' /\ no_commands w w' /\
        rotation_state (r_node l') = TUMGRD_ROTATION_NONE /\ detected_ip l' = detected_ip l /\
        forall cfg ip, all_commands (r_node l') cfg ip = all_commands (r_node l) cfg ip /\
          server_add_commands (r_node l') cfg ip = server_add_commands (r_node l) cfg ip /\
          client_add_argv (r_node l') = client_add_argv (r_node l) /\
          client_del_argv (r_node l') = client_del_argv (r_node l)) l w) as Hmust.
  { intros m n' guard f Hm Hn Hk' Hst Hf Hcmds. apply wpx_bind, wpx_bind, wpx_lift.
    eapply wp_mono; [apply wp_and; [exact Hm|exact Hn]|]. intros rc w' [Hpost Hn'].
    destruct (row_at_update _ (finished r0 n0 now ip) _ n' _ _ _ _ _ Hpost Hr (same_settings_key _ _ Hk') Hf) as [Hok' [[-> Hr']|[-> Hr']]].
    - apply wpx_ret, wpx_assign. split; [|by split_and!].
      split; [done|]. split; [exact (transitivity Hk Hk')|done].
    - apply wpx_fail. split; [|done]. split; [done|]. split; [done|]. split; [done|].
      eapply row_at_weaken; [|exact Hr']. intros r (_ & _ & H). by left. }
  destruct (Z.eqb_spec (rotation_state (r_node l)) TUMGRD_ROTATION_NONE) as [Hnone|Hrot]; cbn [negb].
  - destruct (expired l) eqn:He.
    + destruct (Hexp eq_refl) as [|Hnow]; [done|].
      eapply Hmust; [apply update_applied_spec, Hok|wp_frame no_commands|done|done| |done].
      intros r Hv (Hst & Hip & _). split; [done|]. split_and!; [done|done|by right; right|].
      intros Hs. destruct (Hdue Hs) as [[Hover _] _]. specialize (Hover He). split; [|done]. intros _. unfold applied_time.
      by rewrite (proj2 (Z.leb_le _ _) Hnow).
    + apply wpx_ret. split; [|split; [by exists []|by split_and!]].
      eapply consistent_weaken; [|exact Hc]. intros r (H1 & H2 & H3). split_and!; [done|done|by left|].
      intros Hs. destruct (Hdue Hs) as [[_ Hover] _]. split; [|done]. intros Ho. by rewrite Hover in He.
  - eapply Hmust; [apply complete_rotation_spec, Hok|wp_frame no_commands|done|done| |done].
    intros r (_ & Hkey & _) (Hst & Hip & _). split; [by split_and!|]. split_and!; [done|done| |].
    + destruct (Z.leb_spec TUMGRD_MIN_SANE_TIME now); [by right; right|by right; left].
    + intros Hs. destruct (Hdue Hs) as [[Hover _] He]. specialize (Hover (He Hrot)). by split.
Qed.

(** *** The whole pass *)
Definition outcome (cfg : config) (forced : bool) (r0 : row) (n0 : node) (now : Z) (w0 : world)
    (need : bool) (l : reconcile_locals) (w : world) : Prop :=
  detected n0 w0 (detected_ip l) w /\ rotation_state (r_node l) = TUMGRD_ROTATION_NONE /\
  if need then
    (forced = true \/ overdue now n0 \/ ~ up_to_date n0 (detected_ip l)) /\
    consistent (finished r0 n0 now (detected_ip l)) n0 l w /\ applied (r_node l) cfg (detected_ip l) w0 w
  else forced = false /\ up_to_date n0 (detected_ip l) /\ consistent (untouched r0) n0 l w /\ no_commands w0 w.

(** *** What a pass leaves alone *)
Section PassInstances.
Context (R : relation world) `{!Silent R, !FdSilent R, !DbSilent R, !forall name, Allows R (EvSql name),
  !forall m, Allows R (EvConnect m), !forall h p m q, Allows R (EvRequest h p m q)}.
Context `{!forall argv input has mem k1 k2, Respects R (exec argv input has mem k1 k2)}.

#[export] Instance respects_settle_rotation cfg now : RespectsX R (settle_rotation cfg now).
Proof.
  assert (RespectsX R fresh_key) as Hkey by (unfold fresh_key; apply _).
  assert (RespectsX R (repair_rotation cfg now)) as Hrepair by (unfold repair_rotation, must; apply _).
  assert (RespectsX R (begin_rotation cfg now)) as Hbegin by (unfold begin_rotation, must; apply _).
  unfold settle_rotation, resume_or_expire. cbv zeta. apply _.
Qed.
#[export] Instance respects_detect_and_decide : RespectsX R detect_and_decide.
Proof. unfold detect_and_decide. apply _. Qed.
#[export] Instance respects_apply_node cfg : RespectsX R (apply_node cfg).
Proof. unfold apply_node, must, mark_runtime, time. apply _. Qed.
#[export] Instance respects_finish_rotation now : RespectsX R (finish_rotation now).
Proof. unfold finish_rotation, must. cbv zeta. apply _. Qed.
#[export] Instance respects_mark_failed l : Respects R (mark_failed l).
Proof. unfold mark_failed, mark_runtime, time. apply _. Qed.
#[export] Instance respects_reconcile_one cfg n forced : Respects R (tumgrd_reconcile_one cfg n forced).
Proof. unfold tumgrd_reconcile_one, reconcile_block, time. apply _. Qed.
#[export] Instance respects_reconcile_nodes cfg forced nodes : Respects R (reconcile_nodes cfg forced nodes).
Proof. induction nodes; cbn [reconcile_nodes]; apply _. Qed.
#[export] Instance respects_reconcile_all cfg forced : Respects R (tumgrd_reconcile_all cfg forced).
Proof. unfold tumgrd_reconcile_all. apply _. Qed.
End PassInstances.

#[export] Instance exec_schema argv input has mem k1 k2 : Respects same_schema (exec argv input has mem k1 k2).
Proof. intros w x w' (Hc & Hcols & _)%exec_db. by split. Qed.

Lemma needed_why now forced n ready ip :
  (ready = true -> forced = true \/ overdue now n) -> node_needs_apply n ready ip = true ->
  forced = true \/ overdue now n \/ ~ up_to_date n ip.
Proof.
  intros Hwhy Hneed. destruct ready; [destruct (Hwhy eq_refl); auto|]. right. right. intros Hup.
  assert (node_needs_apply n false ip = false) by by apply needs_apply_false. congruence.
Qed.

(** Lines 171 to 217, for a node that is to be applied. *)
Lemma wpx_apply_and_finish r0 n0 cfg now w0 l w :
  consistent (untouched r0) n0 l w -> settled (r_node l) -> no_commands w0 w ->
  (expired l = true -> rotation_state (r_node l) <> TUMGRD_ROTATION_NONE \/ (TUMGRD_MIN_SANE_TIME <= now)%Z) ->
  (settled n0 -> expires now n0 l) ->
  wpx (apply_node cfg;; finish_rotation now)
    (fun e l' w' => stops (sane_applied r0 now) n0 e l' w' /\ tried cfg w0 l' w')
    (fun _ l' w' => rotation_state (r_node l') = TUMGRD_ROTATION_NONE /\ detected_ip l' = detected_ip l /\
       consistent (finished r0 n0 now (detected_ip l)) n0 l' w' /\ applied (r_node l') cfg (detected_ip l) w0 w') l w.
Proof.
  intros Hc Hs Hn Hexp Hdue. apply wpx_bind. eapply wpx_mono; [by apply (wpx_apply_node r0 n0 cfg w0 l w)| |].
  { intros e l' w' [[He Hc'] Ht]. split; [|done]. split; [done|]. eapply consistent_weaken; [|exact Hc']. apply untouched_sane. }
  intros ? l3 w3 (Hc3 & Hip3 & Happ3 & He3 & Hs3 & Hrot3).
  destruct Happ3 as (adds & resets & Hran & Hne & Hsub & Hres).
  eapply wpx_mono; [apply (wpx_finish_rotation r0 n0 now (detected_ip l)); [done|done| |]|..].
  - rewrite He3. intros He. destruct (Hexp He) as [Hpend|]; [left|by right]. intros H0. by apply Hpend, Hrot3.
  - intros Hs0. destruct (Hdue Hs0) as [Hiff Hrot]. split; rewrite He3; [done|]. intros Hn3. apply Hrot. by rewrite <- Hrot3.
  - intros e l' w' (Hs' & -> & Hn3). split; [done|]. eapply tried_same_commands; [|exact Hn3|done].
    exists (adds ++ resets). split; [done|]. rewrite Hip3. apply sublist_app; [done|].
    destruct Hres as [-> | ->]; [|done]. by apply sublist_cons.
  - intros ? l4 w4 (Hc4 & Hn4 & Hrot4 & Hip4 & Hsame). rewrite Hip4, Hip3. split_and!; [done..|].
    destruct (Hsame cfg (detected_ip l)) as (_ & Hadd & Hca & Hcd). exists adds, resets.
    rewrite Hadd, Hca, Hcd. split; [|done]. rewrite <- (app_nil_r (adds ++ resets)). by eapply commands_between_app.
Qed.

Lemma wpx_reconcile_block r0 n0 cfg now forced w0 w :
  table_ok (w_rows w) -> row_at (untouched r0) n0 w -> no_commands w0 w -> later w0 w ->
  wpx (reconcile_block cfg now)
    (fun e l' w' => stops (sane_applied r0 now) n0 e l' w' /\ tried cfg w0 l' w')
    (fun need l' w' => outcome cfg forced r0 n0 now w0 need l' w') (mkReconcile n0 [] [] forced false false) w.
Proof.
  intros Hok Hr Hn Hlat. set (l := mkReconcile n0 [] [] forced false false).
  assert (forall e l' w' w1, stops (untouched r0) n0 e l' w' -> no_commands w0 w1 -> no_commands w1 w' ->
    stops (sane_applied r0 now) n0 e l' w' /\ tried cfg w0 l' w') as Hweak.
  { intros e l' w' w1 [He Hc] H1 H2. split; [|apply nothing_tried; by transitivity w1].
    split; [done|]. eapply consistent_weaken; [|exact Hc]. apply untouched_sane. }
  apply wpx_bind. eapply wpx_mono.
  { apply wpx_and; [|apply wpx_and; [apply (wpx_respects no_commands)|apply (wpx_respects later)]; apply _].
    apply (wpx_settle_rotation (untouched r0) n0 cfg now l w); [apply _|by split|done|done]. }
  { intros e l' w' [Hs [Hn' _]]. by eapply Hweak. }
  intros [] l1 w1 [[Hc1 (Hwhy & Hs1 & Hf1 & Ha1 & He1 & Hx1)] [Hn1 Hlat1]].
  assert (no_commands w0 w1) as Hn01 by by transitivity w.
  apply wpx_bind. eapply wpx_mono; [by apply wpx_detect_and_decide| |].
  { intros e l' w' [Hs Hn']. by eapply Hweak. }
  intros need l2 w2 (Hc2 & Hn2 & Hl2 & Hdet & Hneed).
  apply (detected_later _ w0) with (w2 := w2) in Hdet; [|by transitivity w|done].
  assert (no_commands w0 w2) as Hn02 by by transitivity w1.
  destruct need; symmetry in Hneed.
  - assert (r_node l2 = r_node l1 /\ expired l2 = expired l1) as [Hnode Hexp] by by rewrite Hl2.
    apply wpx_bind_assoc, wpx_bind. eapply wpx_mono.
    { apply wpx_and; [|apply (wpx_respects later); apply _].
      apply (wpx_apply_and_finish r0 n0 cfg now w0 l2 w2); rewrite ?Hnode, ?Hexp; [done..|].
      unfold expires. by rewrite Hnode, Hexp. }
    { intros e l' w' [H _]. exact H. }
    intros ? l3 w3 [(Hrot & Hip & Hc3 & Happ) Hlat3]. apply wpx_ret. unfold outcome. rewrite Hip.
    split; [by apply (detected_later _ w0 w0 _ w2)|]. split; [done|]. split; [exact (needed_why _ _ _ _ _ Hwhy Hneed)|by split].
  - apply wpx_ret. apply needs_apply_false in Hneed as [Hforce Hup]. unfold outcome.
    assert (r_node l2 = r_node l1) as Hnode by by rewrite Hl2. rewrite Hnode.
    destruct (decide (rotation_state (r_node l1) = TUMGRD_ROTATION_NONE)) as [|Hne].
    + split_and!; try done. destruct forced; [|done]. rewrite Hf1 in Hforce; [done|by left].
    + rewrite Hf1 in Hforce; [done|by right].
Qed.

(** A failure leaves the error in the row, unless the engine fails again. *)
Definition marked_failed (w w' : world) (r : row) : Prop := c_status r = Some TUMGRD_STATUS_ERROR \/ sql_fault w w'.

Lemma wp_mark_failed r0 now n0 cfg w0 l w :
  consistent (sane_applied r0 now) n0 l w -> tried cfg w0 l w ->
  wp (mark_failed l) (fun _ w' => consistent (fun r => sane_applied r0 now r /\ marked_failed w w' r) n0 l w' /\ tried cfg w0 l w') w.
Proof.
  intros Hc Ht. eapply wp_mono.
  { apply wp_and; [|unfold mark_failed, mark_runtime, time; wp_frame no_commands].
    apply wp_bind, wp_time. intros w1 H1.
    assert (same_db w w1) as Hdb by (apply (calm_respects _ _ _ H1)).
    pose proof (consistent_same_db _ _ _ _ _ Hdb Hc) as (Hok1 & Hk1 & Hr1).
    set (ip := match detected_ip l with [] => current_ip (r_node l) | i => i end).
    eapply (wp_mono _ _ (fun (_ : Z) w' => consistent (fun r => sane_applied r0 now r /\ marked_failed w w' r) n0 l w'));
      [by apply update_runtime_spec|].
    intros rc w' Hpost.
    destruct (row_at_alter _ (fun r => sane_applied r0 now r /\ c_status r = Some TUMGRD_STATUS_ERROR) _ _ _ _ _ Hpost Hr1)
      as [Hok' [[-> Hr']|(-> & Hr' & Hf)]].
    - intros r Hv Hs. split; [done|]. by split.
    - split; [done|]. split; [done|]. eapply row_at_weaken; [|exact Hr']. intros r [Hs Hst]. split; [done|by left].
    - split; [done|]. split; [done|]. eapply row_at_weaken; [|exact Hr']. intros r Hs. split; [done|right].
      by eapply calm_fault. }
  intros rc w' [Hc' Hn]. split; [done|]. by eapply tried_same_commands.
Qed.

(** What a pass over the node [n] with the row [r0] may have come to. *)
Inductive pass_result (cfg : config) (forced : bool) (n : node) (r0 : row) (w : world) (n' : node) (w' : world) : Z -> Prop :=
| pass_skipped ip :
    no_commands w w' -> forced = false -> detected n w ip w' -> up_to_date n ip ->
    rotation_state n' = TUMGRD_ROTATION_NONE -> row_at (untouched r0) n' w' ->
    pass_result cfg forced n r0 w n' w' 0
| pass_applied ip :
    (forced = true \/ overdue (env_time (w_tick w)) n \/ ~ up_to_date n ip) -> detected n w ip w' ->
    applied n' cfg ip w w' -> rotation_state n' = TUMGRD_ROTATION_NONE ->
    row_at (finished r0 n (env_time (w_tick w)) ip) n' w' -> pass_result cfg forced n r0 w n' w' 0
| pass_failed rc ip cmds :
    (rc < 0)%Z -> commands_between cmds w w' -> cmds `sublist_of` all_commands n' cfg ip ->
    row_at (fun r => sane_applied r0 (env_time (w_tick w)) r /\ marked_failed w w' r) n' w' ->
    pass_result cfg forced n r0 w n' w' rc.

Lemma reconcile_one_spec cfg n forced r0 w :
  table_ok (w_rows w) -> store w = <[node_key n := r0]> m0 -> rotation_view r0 n ->
  wp (tumgrd_reconcile_one cfg n forced) (fun r w' => table_ok (w_rows w') /\ same_settings n r.2 /\
    pass_result cfg forced n r0 w r.2 w' r.1) w.
Proof.
  intros Hok Hr0 Hv. apply wp_bind, wp_time. intros w1 H1. set (now := env_time (w_tick w)).
  assert (no_commands w w1) as Hn01 by (apply (calm_respects _ _ _ H1)).
  assert (later w w1) as Hl01 by (apply (calm_respects _ _ _ H1)).
  pose proof (calm_fields _ _ H1) as (_ & _ & _ & Hrows & _).
  apply wp_bind, wp_wpx. eapply wpx_mono.
  { apply wpx_and; [|apply wpx_and; [apply (wpx_respects same_schema)|apply (wpx_respects later)]; apply _].
    apply (wpx_reconcile_block r0 n cfg now forced w w1); [by rewrite Hrows| |done|done].
    exists r0. rewrite Hrows. by split_and!. }
  - intros e l w2 [[[He Hc] Ht] [Hsc Hl]]. cbn [fst snd]. destruct (Z.eqb_spec e 0); [lia|]. apply wp_bind.
    eapply wp_mono; [by apply (wp_mark_failed r0 now n cfg w)|].
    intros rc w3 [(Hok3 & Hk3 & Hr3) (cmds & Hc3 & Hs3)]. apply wp_ret. split; [done|]. split; [done|].
    eapply pass_failed; [done|exact Hc3|exact Hs3|].
    eapply row_at_weaken; [|exact Hr3]. intros r [Hs [Hst|Hf]]; (split; [exact Hs|]); [by left|right].
    apply (calm_fault w w1); [done|]. by apply (sql_fault_wider w1 w2 w3).
  - intros need l w2 [(Hdet & Hrot & Hout) _]. apply wp_ret. cbn [fst snd]. destruct need.
    + destruct Hout as (Hwhy & (Hok2 & Hk2 & Hr2) & Happ). split; [done|]. split; [done|]. by eapply pass_applied.
    + destruct Hout as (Hf & Hup & (Hok2 & Hk2 & Hr2) & Hn). split; [done|]. split; [done|]. by eapply pass_skipped.
Qed.
End Rows.

(** ** The invariant of the database through a pass *)
Section Invariant.
Context `{E : Env} {Run : Exec} `{!ExecLaws Run}.

Definition keeps_invariant : relation world := keeps db_invariant.

#[export] Instance keeps_invariant_silent : Silent keeps_invariant.
Proof. apply keeps_silent. Qed.
#[export] Instance keeps_invariant_fd_silent : FdSilent keeps_invariant.
Proof. apply keeps_fd_silent. Qed.
#[export] Instance keeps_invariant_allows e : Allows keeps_invariant e.
Proof. apply keeps_allows. Qed.

Lemma run_op_keeps op : op_ok op -> Respects keeps_invariant (run_op op).
Proof. intros Hop w rc w' Hrun Hinv. exact (wp_elim _ _ _ _ _ (run_op_invariant op w Hop Hinv) Hrun). Qed.

#[export] Instance keeps_update_runtime k ip st ts : Respects keeps_invariant (tumgrd_db_update_runtime k ip st ts).
Proof. by apply (run_op_keeps (OpRuntime k ip st ts)). Qed.
#[export] Instance keeps_update_applied k ts : Respects keeps_invariant (tumgrd_db_update_applied k ts).
Proof. by apply (run_op_keeps (OpApplied k ts)). Qed.
#[export] Instance keeps_complete_rotation k ts : Respects keeps_invariant (tumgrd_db_complete_rotation k ts).
Proof. by apply (run_op_keeps (OpComplete k ts)). Qed.
#[export] Instance keeps_update_rotation_state k st : Respects keeps_invariant (tumgrd_db_update_rotation_state k st).
Proof. by apply (run_op_keeps (OpState k st)). Qed.
#[export] Instance keeps_clear_rotation k : Respects keeps_invariant (tumgrd_db_clear_rotation k).
Proof. by apply (run_op_keeps (OpClear k)). Qed.
#[export] Instance keeps_delete_node k : Respects keeps_invariant (tumgrd_db_delete_node k).
Proof. by apply (run_op_keeps (OpDelete k)). Qed.
#[export] Instance keeps_list_nodes : Respects keeps_invariant tumgrd_db_list_nodes.
Proof. apply respects_same_db_keeps. intros w r w' Hrun. destruct (wp_elim _ _ _ _ _ (list_spec w) Hrun) as [Hc _]. exact (calm_respects _ _ _ Hc). Qed.
#[export] Instance keeps_exec argv input has mem k1 k2 : Respects keeps_invariant (exec argv input has mem k1 k2).
Proof. apply respects_same_db_keeps. apply _. Qed.

(** A generated key fits the buffers. *)
Lemma hex_key_ok n key :
  length key = 2 * S n -> length key < SZ_XOR_KEY -> Forall (fun c => is_hex c = true) key -> key_ok key.
Proof.
  intros Hlen Hsz Hhex. split; [by intros ->|]. split; [|done].
  eapply Forall_impl; [exact Hhex|]. by intros c Hc ->.
Qed.

Lemma keeps_fresh_key {A} (f : cstr -> X reconcile_locals A) :
  (forall key, key_ok key -> RespectsX keeps_invariant (f key)) -> RespectsX keeps_invariant (bind fresh_key f).
Proof.
  intros Hf l. unfold bind, X_bind. intros w r w' Hrun.
  unfold bind, M_bind in Hrun. destruct (fresh_key l w) as [[[[e|key] l1] w1]|] eqn:Hkey; [..|done].
  - injection Hrun as <- <-.
    assert (Respects keeps_invariant (fresh_key l)) as Hk by (apply respects_x; unfold fresh_key; apply _).
    by apply (Hk w _ w1 Hkey).
  - assert (Respects keeps_invariant (fresh_key l)) as Hk by (apply respects_x; unfold fresh_key; apply _).
    assert (key_ok key) as Hne.
    { assert (wpx fresh_key (fun _ _ _ => True) (fun key _ _ => key_ok key) l w) as Hwp.
      { apply wpx_bind, wpx_local, wpx_bind, wpx_lift. eapply wp_mono; [apply wp_generate_random_hex_key|].
        intros [rc k] w2 [_ H]. cbn [fst snd] in *. apply wpx_bind, wpx_assign.
        destruct H as [[-> _]|(-> & _ & Hlen & Hsz & Hhex & _)]; [by apply wpx_fail|apply wpx_ret].
        by eapply hex_key_ok. }
      exact (wp_elim _ _ _ _ _ Hwp Hkey). }
    transitivity w1; [by apply (Hk w _ w1 Hkey)|]. exact (Hf key Hne l1 w1 r w' Hrun).
Qed.

Lemma keeps_repair_rotation cfg now : RespectsX keeps_invariant (repair_rotation cfg now).
Proof.
  unfold repair_rotation. apply respects_x_bind; [apply _|apply _|]. intros l. cbv zeta.
  destruct (_ && _); [|unfold must; apply _]. apply keeps_fresh_key. intros key Hne.
  assert (Respects keeps_invariant (tumgrd_db_replace_rotation (node_key (r_node l)) key now)).
  { by apply (run_op_keeps (OpReplace _ key now)). }
  unfold must. apply _.
Qed.

Lemma keeps_begin_rotation cfg now : RespectsX keeps_invariant (begin_rotation cfg now).
Proof.
  unfold begin_rotation. apply respects_x_bind; [apply _|apply _|]. intros l. cbv zeta.
  destruct (_ && _); [|apply _]. apply keeps_fresh_key. intros key Hne.
  assert (Respects keeps_invariant (tumgrd_db_begin_rotation (node_key (r_node l)) key TUMGRD_ROTATION_PENDING_REMOTE now)).
  { by apply (run_op_keeps (OpBegin _ key _ now)). }
  unfold must. apply _.
Qed.

#[export] Instance keeps_reconcile_one cfg n forced : Respects keeps_invariant (tumgrd_reconcile_one cfg n forced).
Proof.
  pose proof (keeps_repair_rotation cfg) as Hrepair. pose proof (keeps_begin_rotation cfg) as Hbegin.
  unfold tumgrd_reconcile_one, reconcile_block, settle_rotation, resume_or_expire, detect_and_decide, apply_node,
    finish_rotation, mark_failed, mark_runtime, must, time. cbv zeta. apply _.
Qed.

#[export] Instance keeps_reconcile_all cfg forced : Respects keeps_invariant (tumgrd_reconcile_all cfg forced).
Proof.
  assert (forall nodes, Respects keeps_invariant (reconcile_nodes cfg forced nodes)) as Hn.
  { induction nodes; cbn [reconcile_nodes]; apply _. }
  unfold tumgrd_reconcile_all. apply _.
Qed.
End Invariant.

(** ** Termination *)
Section PassReturns.
Context `{E : Env} {Run : Exec}.

(** Everything a pass waits for answers: the children within their deadline,
    /dev/urandom and the network. *)
Class Responsive : Prop := {
  responsive_exec :: ExecReturns Run;
  responsive_urandom :: UrandomResponsive;
  responsive_settles :: NetSettles;
  responsive_timeouts :: TimeoutsTaken
}.
Context `{!Responsive}.

#[export] Instance total_reconcile_one cfg n forced : Total watched (tumgrd_reconcile_one cfg n forced).
Proof.
  assert (TotalX watched fresh_key) as Hkey by (unfold fresh_key; apply _).
  assert (forall now, TotalX watched (repair_rotation cfg now)) as Hrepair by (intros now; unfold repair_rotation, must; apply _).
  assert (forall now, TotalX watched (begin_rotation cfg now)) as Hbegin by (intros now; unfold begin_rotation, must; apply _).
  assert (forall now, TotalX watched (settle_rotation cfg now)) as Hsettle.
  { intros now. unfold settle_rotation, resume_or_expire. cbv zeta. apply _. }
  assert (TotalX watched detect_and_decide) as Hdetect by (unfold detect_and_decide; apply _).
  assert (TotalX watched (apply_node cfg)) as Happly by (unfold apply_node, must, mark_runtime, time; apply _).
  assert (forall now, TotalX watched (finish_rotation now)) as Hfinish.
  { intros now. unfold finish_rotation, must. cbv zeta. apply _. }
  assert (forall l, Total watched (mark_failed l)) as Hmark by (intros l; unfold mark_failed, mark_runtime, time; apply _).
  unfold tumgrd_reconcile_one, reconcile_block, time. apply _.
Qed.

#[export] Instance total_reconcile_all cfg forced : Total watched (tumgrd_reconcile_all cfg forced).
Proof.
  assert (forall nodes, Total watched (reconcile_nodes cfg forced nodes)) as Hn.
  { induction nodes; cbn [reconcile_nodes]; apply _. }
  unfold tumgrd_reconcile_all. apply _.
Qed.
End PassReturns.

#[global] Typeclasses Opaque tumgrd_reconcile_one tumgrd_reconcile_all.
