(* ===== verification/ReconcileProps.v ===== *)
(** * ReconcileProps: the properties of reconcile.c

    What a pass over one node and over all nodes comes to, when keys change,
    and what a failure leaves behind. *)

From S2P Require Import Prelude CLib Types World Logic Helper Db DbSpec Exec ExecSpec Runner IpDetect IpDetectSpec Reconcile ReconcileSpec.

(** ** Keys through a pass *)

(** The key of the node has reached the end of its lifetime, by a clock that
    can be believed. *)
Definition due (cfg : config) (now : Z) (n : node) : Prop :=
  enable_xor cfg = true /\ xor_key n <> [] /\ rotation_state n = TUMGRD_ROTATION_NONE /\
  (TUMGRD_MIN_SANE_TIME <= now)%Z /\ (0 < lifetime n)%Z /\ last_applied_at n <> 0%Z /\
  (lifetime n <= now - last_applied_at n)%Z.

(** The node has the key, and is rotating if it should. *)
Definition holds_key (key : cstr) (rotating : bool) (l : reconcile_locals) : Prop :=
  xor_key (r_node l) = key /\ (rotating = true -> is_pending_state (rotation_state (r_node l)) = true).

Lemma pending_not_none st : is_pending_state st = true -> st <> TUMGRD_ROTATION_NONE.
Proof. by intros Hp ->. Qed.

Section Keys.
Context `{E : Env} {Run : Exec} `{!ExecLaws Run}.
Implicit Types (w : world) (l : reconcile_locals).

(** Operations whose effect on the world does not matter. *)
Lemma wp_any {A} (m : M A) (Q : A -> world -> Prop) w : (forall a w', Q a w') -> wp m Q w.
Proof. intros HQ. apply wp_intro. auto. Qed.

Lemma wpx_must_any {L} (m : M Z) QE (Q : unit -> L -> world -> Prop) (l : L) w :
  (forall w', QE (-1)%Z l w') -> (forall w', Q tt l w') -> wpx (must m) QE Q l w.
Proof. intros HE HQ. apply wpx_bind, wpx_lift, wp_any. intros rc w'. destruct (_ =? _)%Z; [by apply wpx_ret|by apply wpx_fail]. Qed.

Lemma wpx_try2_any {L} (m : M Z) QE (Q : Z -> L -> world -> Prop) (l : L) w :
  (forall e w', (e < 0)%Z -> QE e l w') -> (forall e w', Q e l w') -> wpx (try2 m) QE Q l w.
Proof. intros HE HQ. apply wpx_try2, wp_any. intros e w'. destruct (Z.ltb_spec e 0); auto. Qed.

(** A key made of 64 bytes that were read from /dev/urandom between the two
    worlds, in order. *)
Definition fresh_hex (w w' : world) (key : cstr) : Prop :=
  exists buf, drawn 64 (w_tick w) (w_tick w') buf /\ key = hex_of_bytes buf.

Lemma fresh_hex_shape w w' key : fresh_hex w w' key -> length key = 128 /\ Forall (fun c => is_hex c = true) key.
Proof.
  intros (buf & Hd & ->). destruct (hex_of_bytes_shape buf) as [Hl Hh]. apply drawn_length in Hd. split; [lia|done].
Qed.

Lemma fresh_hex_wider w1 w2 w3 w4 key : later w1 w2 -> later w3 w4 -> fresh_hex w2 w3 key -> fresh_hex w1 w4 key.
Proof. intros H12 H34 (buf & Hd & ->). exists buf. split; [|done]. by eapply drawn_weaken; [exact H12|exact H34|]. Qed.

Lemma key_result_fresh out w key w' : key_result out SZ_XOR_KEY 64 w 0 key w' -> fresh_hex w w' key.
Proof. intros [[? _]|(_ & _ & _ & _ & _ & buf & Hd & -> & _)]; [done|by exists buf]. Qed.

Lemma wpx_fresh_hex l w (QE : Z -> reconcile_locals -> world -> Prop) (Q : cstr -> reconcile_locals -> world -> Prop) :
  (forall key w', QE (-1)%Z (set_new_xor_key key l) w') ->
  (forall key w', fresh_hex w w' key -> Q key (set_new_xor_key key l) w') ->
  wpx fresh_key QE Q l w.
Proof.
  intros HE HQ. apply wpx_bind, wpx_local, wpx_bind, wpx_lift.
  eapply wp_mono; [apply wp_generate_random_hex_key|]. intros [rc key] w' [_ Hkey]. cbn [fst snd] in *.
  apply wpx_bind, wpx_assign. pose proof Hkey as [[-> _]|(-> & _)]; [by apply wpx_fail|].
  apply wpx_ret, HQ. by eapply key_result_fresh.
Qed.

Lemma hex_key_stored w w' key : fresh_hex w w' key -> snprintf_s SZ_XOR_KEY key = key.
Proof.
  intros [Hlen _]%fresh_hex_shape. apply snprintf_s_id. rewrite Hlen. unfold SZ_XOR_KEY. lia.
Qed.

Lemma rotated_key w w' key n : fresh_hex w w' key ->
  fresh_hex w w' (xor_key (rotated_node key n)) /\ is_pending_state (rotation_state (rotated_node key n)) = true.
Proof. intros Hk. unfold rotated_node. by rewrite (hex_key_stored w w'). Qed.

(** A node whose rotation is consistent keeps its key unless it is due. *)
Definition after_settling (cfg : config) (now : Z) (n : node) (w : world) (n' : node) (w' : world) : Prop :=
  (n' = n /\ ~ due cfg now n) \/
  (due cfg now n /\ fresh_hex w w' (xor_key n') /\ is_pending_state (rotation_state n') = true).

(** In a table that keeps the invariant, the row of a node says its state, and
    a rotation can be resumed. *)
Lemma invariant_row w k r : db_invariant (w_rows w) -> store w !! k = Some r -> rotation_ok r.
Proof.
  intros [Hok Hrot] [Hin _]%to_map_lookup; [|apply Hok]. rewrite Forall_forall in Hrot. by apply Hrot.
Qed.

Lemma row_state r n : rotation_ok r -> rotation_view r n -> c_rotation_state r = Some (rotation_state n).
Proof.
  intros Hok (Hst & _). rewrite <- Hst. destruct Hok as [-> |(s & y & -> & Hp & _)]; [done|].
  unfold is_pending_state in Hp. by apply orb_true_iff in Hp as [->%Z.eqb_eq| ->%Z.eqb_eq].
Qed.

Lemma row_settled r n : rotation_ok r -> rotation_view r n -> settled n.
Proof.
  intros Hok Hv. pose proof (row_state r n Hok Hv) as Hs. destruct Hv as (_ & Hx & Hpend).
  destruct Hok as [Hz|(s & y & Hs' & Hp & [Hne Hfit] & Hy & Hy')]; [left; rewrite Hz in Hs; by injection Hs as <-|right].
  rewrite Hs' in Hs. injection Hs as <-. split; [done|].
  by rewrite <- Hx, <- Hpend, Hy, Hy', column_text_id.
Qed.

Lemma invariant_settled w n r : db_invariant (w_rows w) -> store w !! node_key n = Some r -> rotation_view r n -> settled n.
Proof. intros Hinv Hr. by apply row_settled, (invariant_row w (node_key n)). Qed.

Lemma wpx_settle_key cfg now l w :
  settled (r_node l) ->
  wpx (settle_rotation cfg now) (fun e l' _ => (e < 0)%Z /\ r_node l' = r_node l /\ due cfg now (r_node l))
    (fun _ l' w' => after_settling cfg now (r_node l) w (r_node l') w') l w.
Proof.
  intros Hs. destruct (settled_valid _ Hs) as [Hinv Hmis]. apply wpx_bind, wpx_local. rewrite Hinv.
  apply wpx_bind, wpx_ret, wpx_bind, wpx_local. rewrite Hmis. apply wpx_bind, wpx_ret, wpx_bind, wpx_local. cbv zeta.
  destruct (Z.eqb_spec (rotation_state (r_node l)) TUMGRD_ROTATION_PENDING_LOCAL_RECOVERY) as [H2|H2].
  { apply wpx_assign. left. split; [done|]. intros (_ & _ & Hn & _). by rewrite H2 in Hn. }
  destruct (Z.eqb_spec (rotation_state (r_node l)) TUMGRD_ROTATION_PENDING_REMOTE) as [H1|H1].
  { apply wpx_assign. left. split; [done|]. intros (_ & _ & Hn & _). by rewrite H1 in Hn. }
  destruct (Z.ltb_spec now TUMGRD_MIN_SANE_TIME) as [|Hsane].
  { apply wpx_ret. left. split; [done|]. intros (_ & _ & _ & Hn & _). lia. }
  destruct (Z.ltb_spec 0 (lifetime (r_node l))) as [Hlt|Hlt]; cbn [andb].
  2:{ apply wpx_ret. left. split; [done|]. intros (_ & _ & _ & _ & Hn & _). lia. }
  destruct (Z.eqb_spec (last_applied_at (r_node l)) 0) as [H0|H0].
  { apply wpx_assign. left. split; [done|]. by intros (_ & _ & _ & _ & _ & Hn & _). }
  destruct (Z.leb_spec (lifetime (r_node l)) (now - last_applied_at (r_node l))) as [Hle|Hle].
  2:{ apply wpx_ret. left. split; [done|]. intros (_ & _ & _ & _ & _ & _ & Hn). lia. }
  apply wpx_bind, wpx_assign, wpx_bind, wpx_local. cbn [r_node set_force set_expired].
  destruct (enable_xor cfg) eqn:Hx; cbn [andb].
  2:{ apply wpx_ret. left. split; [done|]. intros (Hn & _). congruence. }
  destruct (decide (xor_key (r_node l) = [])) as [Hk|Hk].
  { rewrite (bool_decide_true _ Hk). apply wpx_ret. left. split; [done|]. by intros (_ & Hn & _). }
  rewrite (bool_decide_false _ Hk). cbn [negb].
  assert (due cfg now (r_node l)) as Hdue.
  { split_and!; try done. destruct Hs as [|(Hp & _)]; [done|]. unfold is_pending_state in Hp.
    by apply orb_true_iff in Hp as [?%Z.eqb_eq|?%Z.eqb_eq]. }
  apply wpx_bind, wpx_fresh_hex; [done|]. intros key w' Hkey.
  apply wpx_bind. eapply wpx_mono; [apply wpx_and; [|apply (wpx_respects later); unfold must; apply _]|by intros ??? [H _]; exact H|].
  { apply (wpx_must_any _ (fun e l' _ => (e < 0)%Z /\ r_node l' = r_node l /\ due cfg now (r_node l)) (fun _ l' _ => r_node l' = r_node l)); done. }
  intros ? l2 w2 [_ Hl2]. apply wpx_assign. right. split; [done|]. apply rotated_key.
  eapply fresh_hex_wider; [|exact Hl2|exact Hkey]. unfold later. done.
Qed.

(** The rest of the pass does not change the key, and ends the rotation only
    when it succeeds. *)
Lemma wpx_detect_key key b l w :
  holds_key key b l -> wpx detect_and_decide (fun e l' _ => (e < 0)%Z /\ holds_key key b l') (fun _ l' _ => holds_key key b l') l w.
Proof.
  intros H. apply wpx_bind, wpx_local, wpx_bind, wpx_lift, wp_any. intros r w'. apply wpx_bind, wpx_assign.
  destruct (Z.ltb_spec r.1 0); [by apply wpx_fail|by apply wpx_ret].
Qed.

Lemma wpx_apply_key cfg key b l w :
  holds_key key b l -> wpx (apply_node cfg) (fun e l' _ => (e < 0)%Z /\ holds_key key b l') (fun _ l' _ => holds_key key b l') l w.
Proof.
  intros H. apply wpx_bind, wpx_local, wpx_bind, wpx_try2_any; [done|]. intros _ w1. apply wpx_bind, wpx_assign, wpx_bind.
  assert (forall l1 w1, holds_key key b l1 ->
    wpx (l ← local; try2 (tumgrd_runner_reset_local_client (r_node l));;
       ts ← lift time; try2 (mark_runtime (r_node l) (detected_ip l) TUMGRD_STATUS_ACTIVE ts);; mret tt)
    (fun e l' _ => (e < 0)%Z /\ holds_key key b l') (fun _ l' _ => holds_key key b l') l1 w1) as Hrest.
  { intros l1 w2 H1. apply wpx_bind, wpx_local, wpx_bind, wpx_try2_any; [done|]. intros _ w3.
    apply wpx_bind, wpx_lift, wp_any. intros ts w4. apply wpx_bind, wpx_try2_any; [done|]. intros _ w5. by apply wpx_ret. }
  destruct (_ =? _)%Z; [|by apply wpx_ret, Hrest]. apply wpx_bind, wpx_must_any; [done|]. intros w2.
  apply wpx_assign, Hrest. split; [apply H|done].
Qed.

Lemma wpx_finish_key now key b l w :
  holds_key key b l -> wpx (finish_rotation now) (fun e l' _ => (e < 0)%Z /\ holds_key key b l') (fun _ l' _ => holds_key key false l') l w.
Proof.
  intros [Hk Hb]. assert (holds_key key false l) as H by by split. apply wpx_bind, wpx_local.
  destruct (_ && _); [|destruct (_ && _); [|by apply wpx_ret]]; apply wpx_bind, wpx_must_any; try done; intros w'; by apply wpx_assign.
Qed.

(** What a pass does to the key of a node whose rotation is consistent. *)
Definition key_outcome (cfg : config) (now : Z) (n : node) (w : world) (n' : node) (w' : world) (failed : bool) : Prop :=
  (~ due cfg now n /\ xor_key n' = xor_key n /\
     (failed = true -> is_pending_state (rotation_state n) = true -> is_pending_state (rotation_state n') = true)) \/
  (due cfg now n /\ fresh_hex w w' (xor_key n') /\ (failed = true -> is_pending_state (rotation_state n') = true)) \/
  (due cfg now n /\ failed = true /\ n' = n /\ no_commands w w').

(** The part of the pass that follows. *)
Definition apply_if_needed (cfg : config) (now : Z) : X reconcile_locals bool :=
  need_apply ← detect_and_decide;
  if (need_apply : bool) then apply_node cfg;; finish_rotation now;; mret true else mret false.

Lemma wpx_rest_key cfg now key b l w :
  holds_key key b l ->
  wpx (apply_if_needed cfg now) (fun e l' _ => (e < 0)%Z /\ holds_key key b l') (fun _ l' _ => holds_key key false l') l w.
Proof.
  intros H1. assert (forall l', holds_key key b l' -> holds_key key false l') as Hdrop by (by intros l' [Hk _]; split).
  apply wpx_bind. eapply wpx_mono; [by apply (wpx_detect_key key b)|done|].
  intros need l2 w2 H2. destruct need; [|by apply wpx_ret, Hdrop].
  apply wpx_bind. eapply wpx_mono; [by apply (wpx_apply_key cfg key b)|done|].
  intros ? l3 w3 H3. apply wpx_bind. eapply wpx_mono; [by apply (wpx_finish_key now key b)|done|].
  intros ? l4 w4 H4. by apply wpx_ret.
Qed.

Lemma wpx_block_key cfg now l w :
  settled (r_node l) ->
  wpx (reconcile_block cfg now) (fun e l' w' => (e < 0)%Z /\ key_outcome cfg now (r_node l) w (r_node l') w' true)
    (fun _ l' w' => key_outcome cfg now (r_node l) w (r_node l') w' false) l w.
Proof.
  intros Hs. set (n := r_node l). apply wpx_bind. eapply wpx_mono.
  { apply wpx_and; [by apply wpx_settle_key|apply (wpx_respects no_commands); apply _]. }
  { intros e l1 w1 [(He & Hn & Hd) Hno]. split; [done|]. right. by right. }
  intros ? l1 w1 [Hl1 _]. set (key := xor_key (r_node l1)). set (b := is_pending_state (rotation_state (r_node l1))).
  assert (forall (failed c : bool) l' w', later w1 w' -> holds_key key c l' -> (failed = true -> c = b) ->
    key_outcome cfg now n w (r_node l') w' failed) as Hdone.
  { intros failed c l' w' Hl [Hk' Hp'] Hc. destruct Hl1 as [[Heq Hnd]|(Hd & Hk & Hp)].
    - left. split; [done|]. split; [rewrite Hk'; unfold key; by rewrite Heq|]. intros Hf Hpn.
      apply Hp'. rewrite (Hc Hf). unfold b. by rewrite Heq.
    - right. left. split; [done|]. split; [rewrite Hk'; eapply fresh_hex_wider; [|exact Hl|exact Hk]; unfold later; done|].
      intros Hf. apply Hp'. by rewrite (Hc Hf). }
  eapply wpx_mono.
  { apply wpx_and; [by apply (wpx_rest_key cfg now key b)|apply (wpx_respects later); unfold apply_if_needed; apply _]. }
  - intros e l2 w2 [[He H2] Hl]. split; [done|]. by apply (Hdone true b).
  - intros ? l2 w2 [H2 Hl]. by apply (Hdone false false).
Qed.

Lemma reconcile_one_key cfg n forced w :
  settled n ->
  wp (tumgrd_reconcile_one cfg n forced) (fun r w' => exists failed : bool, (r.1 = 0%Z <-> failed = false) /\
    key_outcome cfg (env_time (w_tick w)) n w r.2 w' failed) w.
Proof.
  intros Hs. apply wp_bind, wp_time. intros w1 H1. set (now := env_time (w_tick w)).
  assert (no_commands w w1 /\ later w w1) as [Hn01 Hl01] by (split; apply (calm_respects _ _ _ H1)).
  assert (forall n' w2 w3 failed, key_outcome cfg now n w1 n' w2 failed -> no_commands w2 w3 -> later w2 w3 ->
    key_outcome cfg now n w n' w3 failed) as Hback.
  { intros n' w2 w3 failed [H|[(Hd & Hk & H)|(Hd & Hf & Hn & Hno)]] H23 L23; [by left|right; left|right; right].
    - split; [done|]. split; [by eapply fresh_hex_wider|done].
    - split_and!; [done..|]. by transitivity w1; [|transitivity w2]. }
  apply wp_bind, wp_wpx. eapply wpx_mono; [by apply (wpx_block_key cfg now (mkReconcile n [] [] forced false false) w1)| |].
  - intros e l w2 [He Hk]. cbn [fst snd]. destruct (Z.eqb_spec e 0); [lia|]. apply wp_bind.
    eapply wp_mono; [apply wp_and; [unfold mark_failed, mark_runtime, time; wp_frame no_commands|
      unfold mark_failed, mark_runtime, time; wp_frame later]|]. intros rc w3 [H23 L23]. apply wp_ret.
    exists true. split; [cbn; split; [lia|done]|]. by eapply Hback.
  - intros need l w2 Hk. apply wp_ret. exists false. split; [done|]. eapply Hback; [exact Hk|reflexivity|reflexivity].
Qed.
End Keys.

(** ** All nodes *)

(** The key of the row is what the buffers of a node hold. *)
Definition key_fits (r : row) : Prop :=
  text_fits SZ_UID (c_uid r) /\ text_fits SZ_TEXT (c_server_host r) /\ int_fits (c_server_port r) /\
  text_fits SZ_IP_VERSION (c_ip_version r).

(** One pass after the other, each over a node as its row says at that moment. *)
Inductive passes (cfg : config) (forced : bool) `{E : Env} : list node -> world -> list (Z * node) -> world -> Prop :=
| passes_nil w : passes cfg forced [] w [] w
| passes_cons n nodes r0 w rc n' w1 rs w' :
    store w !! node_key n = Some r0 -> (exists t, n = read_row (env_time t) r0) -> same_settings n n' ->
    pass_result (store w) cfg forced n r0 w n' w1 rc ->
    passes cfg forced nodes w1 rs w' ->
    passes cfg forced (n :: nodes) w ((rc, n') :: rs) w'.

(** The nodes are what their rows say, and none is there twice. *)
Definition listed `{E : Env} (w : world) (nodes : list node) : Prop :=
  NoDup (node_key <$> nodes) /\
  Forall (fun n => exists r, store w !! node_key n = Some r /\ exists t, n = read_row (env_time t) r) nodes.

Section Rows.
Context `{E : Env}.

Lemma read_row_view t r : rotation_view r (read_row t r).
Proof. by split. Qed.

Lemma read_row_key t r : key_fits r -> node_key (read_row t r) = row_key r.
Proof.
  intros (Hu & Hh & Hp & Hv). unfold node_key, row_key, read_row. cbn [server_host server_port uid ip_version].
  by rewrite !column_text_id, column_int_id by done.
Qed.

Lemma read_rows_keys rows nodes :
  Forall key_fits rows -> Forall2 (fun r n => exists t, n = read_row (env_time t) r) rows nodes ->
  node_key <$> nodes = row_key <$> rows.
Proof.
  intros Hfit. induction 1 as [|r n rows nodes (t & ->) _ IH]; [done|].
  apply Forall_cons in Hfit as [Hr Hfit]. rewrite !fmap_cons, IH by done. by rewrite read_row_key.
Qed.

Lemma read_rows_listed w rows nodes :
  table_ok (w_rows w) -> Forall key_fits (w_rows w) -> rows ≡ₚ w_rows w ->
  Forall2 (fun r n => exists t, n = read_row (env_time t) r) rows nodes -> listed w nodes.
Proof.
  intros [Hnd _] Hfit Hperm Hread.
  assert (node_key <$> nodes = row_key <$> rows) as Hkeys.
  { apply read_rows_keys; [by rewrite Hperm|done]. }
  split; [by rewrite Hkeys, Hperm|]. apply Forall_forall. intros n Hn.
  apply list_elem_of_lookup in Hn as [i Hi]. destruct (Forall2_lookup_r _ _ _ _ _ Hread Hi) as (r & Hr & t & ->).
  apply list_elem_of_lookup_2 in Hr. rewrite Hperm in Hr. rewrite Forall_forall in Hfit.
  exists r. split; [|by exists t]. rewrite read_row_key by auto. by apply to_map_lookup.
Qed.

End Rows.

Section All.
Context `{E : Env} {Run : Exec} `{!ExecLaws Run}.
Implicit Types (w : world).

Lemma pass_result_row m cfg forced n r0 w n' w' rc :
  pass_result m cfg forced n r0 w n' w' rc -> exists P, row_at m P n' w'.
Proof. intros [? ? ? H|? ? ? H|? ? ? ? ? ? H]; by eexists. Qed.

Lemma listed_after w w1 n nodes P n' :
  node_key n' = node_key n -> listed w (n :: nodes) -> row_at (store w) P n' w1 -> listed w1 nodes.
Proof.
  intros Hk [Hnd Hall] Hr. rewrite fmap_cons in Hnd. apply NoDup_cons in Hnd as [Hnotin Hnd].
  apply Forall_cons in Hall as [_ Hall]. split; [done|]. rewrite Forall_forall in Hall |- *. intros m Hm.
  destruct (Hall m Hm) as (r & Hr' & Hv). exists r. split; [|done]. rewrite (row_at_others _ _ _ _ _ Hr); [done|].
  intros Heq. apply Hnotin. rewrite <- Hk, <- Heq. by apply list_elem_of_fmap_2.
Qed.

Lemma reconcile_nodes_spec cfg forced nodes w :
  table_ok (w_rows w) -> listed w nodes ->
  wp (reconcile_nodes cfg forced nodes) (fun failed w' => table_ok (w_rows w') /\ exists rs,
    passes cfg forced nodes w rs w' /\ failed = length (filter (fun r => r.1 <> 0)%Z rs)) w.
Proof.
  revert w. induction nodes as [|n nodes IH]; intros w Hok Hl; cbn [reconcile_nodes].
  { apply wp_ret. split; [done|]. exists []. split; [constructor|done]. }
  pose proof Hl as [_ Hall]. apply Forall_cons in Hall as [(r0 & Hr0 & Hread) _].
  assert (rotation_view r0 n) as Hv by (destruct Hread as (t & ->); apply read_row_view).
  apply wp_bind. eapply wp_mono.
  { apply (reconcile_one_spec (store w) cfg n forced r0 w Hok); [by rewrite insert_id|done]. }
  intros [rc n'] w1 (Hok1 & Hk & Hres). cbn [fst snd] in *. destruct (pass_result_row _ _ _ _ _ _ _ _ _ Hres) as (P & Hrow).
  apply wp_bind. eapply wp_mono; [apply (IH w1 Hok1); by eapply listed_after, Hrow; [apply same_settings_key|]|].
  intros failed w2 (Hok2 & rs & Hp & ->). apply wp_ret. split; [done|]. exists ((rc, n') :: rs).
  split; [by eapply passes_cons|]. cbn [fst]. rewrite filter_cons. cbn [fst].
  destruct (Z.eqb_spec rc 0) as [->|]; [by rewrite decide_False by auto|by rewrite decide_True by done].
Qed.

Lemma dom_passes cfg forced nodes w rs w' : passes cfg forced nodes w rs w' -> dom (store w') = dom (store w).
Proof.
  induction 1 as [|n nodes r0 w rc n' w1 rs w' Hr0 _ Hk Hres _ IH]; [done|].
  destruct (pass_result_row _ _ _ _ _ _ _ _ _ Hres) as (P & r & Hr & _). rewrite IH, Hr, dom_insert_L, (same_settings_key _ _ Hk).
  apply elem_of_dom_2 in Hr0. set_solver.
Qed.

Lemma filter_none (rs : list (Z * node)) :
  length (filter (fun r => r.1 <> 0)%Z rs) = 0 <-> Forall (fun r => r.1 = 0%Z) rs.
Proof.
  induction rs as [|[rc n] rs IH]; [by split|]. rewrite filter_cons, Forall_cons. cbn [fst].
  destruct (decide (rc <> 0)%Z) as [Hne|Hnn]; cbn [length]; [naive_solver|].
  rewrite IH. split; [|by intros []]. intros H. split; [|done]. lia.
Qed.

(** What a pass over all nodes may have come to. *)
Definition reconciled (cfg : config) (forced : bool) (w : world) (rc : Z) (w' : world) : Prop :=
  ((rc < 0)%Z /\ calm w w' /\ sql_fault w w') \/
  exists nodes rs w1, calm w w1 /\ node_key <$> nodes = row_key <$> select_ordered (w_rows w) /\
    passes cfg forced nodes w1 rs w' /\ (rc = 0 \/ rc = -1)%Z /\ (rc = 0%Z <-> Forall (fun r => r.1 = 0%Z) rs).

Lemma reconciled_dom cfg forced w rc w' : reconciled cfg forced w rc w' -> dom (store w') = dom (store w).
Proof.
  intros [(_ & (_ & _ & _ & -> & _)%calm_fields & _)|(nodes & rs & w1 & (_ & _ & _ & <- & _)%calm_fields & _ & Hp & _)]; [done|].
  by eapply dom_passes.
Qed.

(** What the pass over all nodes reads of the table. *)
Lemma wp_list_listed w :
  table_ok (w_rows w) -> Forall key_fits (w_rows w) ->
  wp tumgrd_db_list_nodes (fun r w' => calm w w' /\
    ((r.1 = 0%Z /\ listed w' r.2 /\ node_key <$> r.2 = row_key <$> select_ordered (w_rows w) /\
      read_rows (select_ordered (w_rows w)) r.2) \/
     ((r.1 < 0)%Z /\ sql_fault w w'))) w.
Proof.
  intros Hok Hfit. eapply wp_mono; [apply list_spec|]. intros r w1 [H1 Hlist]. split; [done|].
  destruct Hlist as [[Hrc Hread]|(Hneg & _ & Hfault)]; [left|by right].
  pose proof (merge_sort_Permutation row_le (w_rows w)) as Hperm.
  pose proof (calm_fields _ _ H1) as (_ & _ & _ & Hrows & _).
  split; [done|]. split; [apply (read_rows_listed w1 (select_ordered (w_rows w))); by rewrite ?Hrows|].
  split; [|done]. eapply read_rows_keys; [|exact Hread]. unfold select_ordered. by rewrite Hperm.
Qed.

Lemma reconcile_all_spec cfg forced w :
  table_ok (w_rows w) -> Forall key_fits (w_rows w) ->
  wp (tumgrd_reconcile_all cfg forced) (reconciled cfg forced w) w.
Proof.
  intros Hok Hfit. apply wp_bind. eapply wp_mono; [by apply wp_list_listed|].
  intros [rc nodes] w1 [H1 Hlist]. cbn [fst snd] in *.
  destruct Hlist as [(-> & Hl & Hkeys & _)|(Hneg & Hfault)].
  2:{ destruct (Z.ltb_spec rc 0); [|lia]. apply wp_ret. by left. }
  pose proof (calm_fields _ _ H1) as (_ & _ & _ & Hrows & _).
  cbn [Z.ltb Z.compare]. apply wp_bind. eapply wp_mono; [by apply reconcile_nodes_spec; [rewrite Hrows|]|].
  intros failed w2 (_ & rs & Hp & ->). apply wp_ret. right. exists nodes, rs, w1.
  split; [done|]. split; [done|]. split; [done|]. rewrite <- filter_none. by destruct (length _); split; auto.
Qed.
End All.

(** ** The properties *)
Section Properties.
Context `{E : Env} {Run : Exec} `{!ExecLaws Run} `{!Responsive}.
Implicit Types (w : world).

(** C1: a pass over a node returns, given [Responsive], whatever the engine, the
    network and the children answer, and comes to one of three ends. It is
    skipped, with no command run and the outcome columns untouched, when it was
    not forced and the last pass applied the node at the address that is detected
    now; or, when it was forced, the rotation calls for it, the address has
    changed or the last pass failed, the server took the node at the address
    detected, the local client was reset, no rotation is left over, the row is
    active with that address, and, if its rotation was consistent, the time from
    which its lifetime counts is that of this pass if the node was due (0 if the
    clock cannot be believed) and otherwise as it was; or it fails with a negative
    code, having run a subsequence of the same commands, and the row says error
    unless the engine fails too. In each case the commands have the settings of
    the node, the row has the key and the rotation state that they were built
    from, and no other row has changed. *)
Theorem reconcile_one_outcome cfg n forced r0 w :
  watched w -> table_ok (w_rows w) -> store w !! node_key n = Some r0 -> rotation_view r0 n ->
  exists rc n' w', tumgrd_reconcile_one cfg n forced w = Some ((rc, n'), w') /\
    table_ok (w_rows w') /\ same_settings n n' /\ pass_result (store w) cfg forced n r0 w n' w' rc.
Proof.
  intros Hw Hok Hr Hv. assert (store w = <[node_key n := r0]> (store w)) as Hm by by rewrite insert_id.
  destruct (total_wp watched _ _ w Hw (reconcile_one_spec (store w) cfg n forced r0 w Hok Hm Hv)) as ([rc n'] & w' & Heq & Hend).
  by exists rc, n', w'.
Qed.

(** C8: a pass, which returns given [Responsive], changes the key of a settled
    node only when the key is due: rotation is enabled, no rotation is under way,
    the clock can be believed and the lifetime is over. Then it either fails
    before it has run a command, with the node as it was, or the key is the
    hexadecimal form of 64 bytes that this pass has read from /dev/urandom. *)
Theorem key_changes_only_when_due cfg n forced w :
  watched w -> settled n ->
  exists rc n' w', tumgrd_reconcile_one cfg n forced w = Some ((rc, n'), w') /\
    (~ due cfg (env_time (w_tick w)) n -> xor_key n' = xor_key n) /\
    (due cfg (env_time (w_tick w)) n -> fresh_hex w w' (xor_key n') \/ (rc <> 0%Z /\ n' = n /\ no_commands w w')).
Proof.
  intros Hw Hs. destruct (total_wp watched _ _ w Hw (reconcile_one_key cfg n forced w Hs)) as ([rc n'] & w' & Heq & failed & Hf & Hend).
  exists rc, n', w'. split; [done|]. cbn [fst snd] in *. split.
  - intros Hnd. by destruct Hend as [(_ & Hk & _)|[(Hd & _)|(Hd & _)]].
  - intros Hd. destruct Hend as [(Hnd & _)|[(_ & Hk & _)|(_ & Hfl & Hn & Hno)]]; [done|by left|right].
    split_and!; [|done|done]. intros H0. apply Hf in H0. congruence.
Qed.

(** A pass that fails never forgets a rotation: a node that was rotating,
    or whose key was replaced during the pass, is still rotating, in memory and
    in its row, so that the next pass resumes with the same key. *)
Theorem rotation_survives_failure cfg n forced r0 w rc n' w' :
  table_ok (w_rows w) -> store w !! node_key n = Some r0 -> rotation_view r0 n -> settled n ->
  tumgrd_reconcile_one cfg n forced w = Some ((rc, n'), w') -> (rc <> 0)%Z ->
  (is_pending_state (rotation_state n) = true \/ xor_key n' <> xor_key n) ->
  is_pending_state (rotation_state n') = true /\
  exists r, store w' !! node_key n = Some r /\ rotation_view r n'.
Proof.
  intros Hok Hr Hv Hs Hrun Hrc Hrot. split.
  - destruct (wp_elim _ _ _ _ _ (reconcile_one_key cfg n forced w Hs) Hrun) as (failed & Hf & Hend). cbn [fst snd] in *.
    assert (failed = true) as -> by (destruct failed; [done|by destruct (Hrc (proj2 Hf eq_refl))]).
    destruct Hend as [(_ & Hk & Hp)|[(_ & _ & Hp)|((_ & _ & Hn & _) & _ & -> & _)]]; [|by apply Hp|].
    + destruct Hrot as [Hrot|Hrot]; [by apply Hp|done].
    + destruct Hrot as [Hrot|Hrot]; [by destruct (pending_not_none _ Hrot)|done].
  - assert (store w = <[node_key n := r0]> (store w)) as Hm by by rewrite insert_id.
    destruct (wp_elim _ _ _ _ _ (reconcile_one_spec (store w) cfg n forced r0 w Hok Hm Hv) Hrun) as (_ & Hk & Hres).
    cbn [fst snd] in *. destruct (pass_result_row _ _ _ _ _ _ _ _ _ Hres) as (P & Hrow).
    destruct (row_at_lookup _ _ _ _ Hrow) as (r & Hr' & Hv' & _). rewrite (same_settings_key _ _ Hk) in Hr'. by exists r.
Qed.

(** C7: before a command is run the key is on disk and the rotation can be
    resumed: if the first part of a pass succeeds, whatever state the row was
    in, then the rotation is consistent, the row agrees with the node, which has
    kept its settings, no other row has changed and no command has been run. *)
Theorem rotation_is_written_ahead cfg now n forced r0 w l w' :
  table_ok (w_rows w) -> store w !! node_key n = Some r0 -> rotation_view r0 n ->
  settle_rotation cfg now (mkReconcile n [] [] forced false false) w = Some ((inr tt, l), w') ->
  settled (r_node l) /\ same_settings n (r_node l) /\ no_commands w w' /\
  (rotation_state (r_node l) <> TUMGRD_ROTATION_NONE -> force l = true) /\
  exists r, store w' = <[node_key n := r]> (store w) /\ rotation_view r (r_node l).
Proof.
  intros Hok Hr Hv Hrun.
  assert (row_at (store w) (untouched r0) n w) as Hrow by (exists r0; by rewrite insert_id).
  pose proof (wpx_settle_rotation (store w) (untouched r0) n cfg now (mkReconcile n [] [] forced false false) w) as Hwp.
  assert (Respects no_commands (settle_rotation cfg now (mkReconcile n [] [] forced false false))) as Hno.
  { apply respects_x. }
  destruct (wp_elim _ _ _ _ _ (Hwp _ (conj Hok (conj eq_refl Hrow)) eq_refl eq_refl) Hrun)
    as ((_ & Hk & r & Hr' & Hv' & _) & _ & Hs & Hf & _).
  split; [exact Hs|]. split; [exact Hk|]. split; [exact (Hno _ _ _ Hrun)|]. split; [intros Hne; apply Hf; by right|].
  exists r. cbn [fst snd] in *. by rewrite <- (same_settings_key _ _ Hk).
Qed.

(** C17: a pass over all nodes returns.  It visits the nodes in the order of
    their rows, each once and each as its row says at that moment;
    a node that fails does not keep the others from their turn.  It succeeds
    exactly when every visit did; no row appears or disappears, and the
    invariant of the database is kept, whatever fails. *)
Theorem reconcile_all_visits_every_node cfg forced w :
  watched w -> db_invariant (w_rows w) -> Forall key_fits (w_rows w) ->
  exists rc w', tumgrd_reconcile_all cfg forced w = Some (rc, w') /\
    db_invariant (w_rows w') /\ dom (store w') = dom (store w) /\
    (((rc < 0)%Z /\ calm w w' /\ sql_fault w w') \/
     exists nodes rs w1, calm w w1 /\ node_key <$> nodes = row_key <$> select_ordered (w_rows w) /\
       passes cfg forced nodes w1 rs w' /\ (rc = 0 \/ rc = -1)%Z /\ (rc = 0%Z <-> Forall (fun r => r.1 = 0%Z) rs)).
Proof.
  intros Hw Hinv Hfit.
  destruct (total_wp watched (tumgrd_reconcile_all cfg forced) (fun rc w' => db_invariant (w_rows w') /\
    reconciled cfg forced w rc w') w Hw) as (rc & w' & Heq & Hinv' & Hend).
  { apply wp_and; [|by apply reconcile_all_spec; [apply Hinv|]].
    apply wp_intro. intros rc w' Hrun. exact (keeps_reconcile_all cfg forced w rc w' Hrun Hinv). }
  exists rc, w'. split; [done|]. split; [done|]. split; [|exact Hend]. by apply (reconciled_dom _ _ _ _ _ Hend).
Qed.
End Properties.

(** ** Runs in a concrete environment *)

(** The check server answers with an address, children report an update;
    everything else succeeds, and the clock shows [now]. *)
Definition online_env (now : Z) : Env :=
  let q := ready_env in
  @mkEnv (@env_fuel q) (fun _ => now) (@env_alarm q) (@env_ok q) (fun _ => SOk (literal "server updated:")) (@env_urandom q) (@env_write q)
    (@env_waitpid q) (@env_pid q) (@env_mkdir q) (@env_getaddrinfo q) (@env_connect q) (@env_timeo q)
    (@env_sockname q) (@env_send q) (fun _ => SOk ("HTTP/1.1 200 OK" ++ [CR; LF; CR; LF] ++ literal "203.0.113.7" ++ [LF])) (@env_uci q) (@env_status q) (@env_environ q).

Lemma online_responsive now : @Responsive (online_env now) (@supervised_exec (online_env now)).
Proof.
  split.
  - apply supervised_exec_returns. apply prompt_responsive; [cbn; lia|done|by exists 4096%Z|by eexists].
  - split; [discriminate|]. intros t. exists 0. split; [cbn; lia|discriminate].
  - split; intros t; exists 0; (split; [cbn; lia|discriminate]).
  - done.
Qed.

Definition rotating_node : node := read_row 1700000000 sample_rotating.

Definition expired_node : node :=
  set_rotation_state 0 (set_xor_key_pending [] (set_lifetime 3600 (set_last_applied_at 1600000000 rotating_node))).
Definition expired_world : world := world_with (mkColumns true true true true) [row_of_node expired_node true].
Definition now0 : Z := 1700000000.

(** An expired key is replaced, applied and recorded in one pass. *)
Example expired_key_is_replaced :
  match @tumgrd_reconcile_one (online_env now0) (@supervised_exec (online_env now0)) sample_config expired_node false expired_world with
  | Some ((rc, n'), w') => rc = 0%Z /\ length (xor_key n') = 128 /\ length (commands (w_trace w')) = 3 /\
      (exists r, w_rows w' = [r] /\ c_xor_key r = Some (xor_key n') /\ c_rotation_state r = Some 0%Z /\
         c_last_applied_at r = Some now0)
  | None => False
  end.
Proof. vm_compute. split_and!; try done. by eexists. Qed.

Lemma single_stored r k cols : row_key r = k -> store (world_with cols [r]) !! k = Some r.
Proof. intros Hk. apply to_map_lookup; [apply NoDup_singleton|]. split; [by apply list_elem_of_singleton|done]. Qed.
Lemma rotating_stored : store rotating_world !! node_key rotating_node = Some sample_rotating.
Proof. apply single_stored. vm_compute. reflexivity. Qed.
Lemma rotating_view : rotation_view sample_rotating rotating_node.
Proof. by split. Qed.
Lemma expired_stored : store expired_world !! node_key expired_node = Some (row_of_node expired_node true).
Proof. apply single_stored. vm_compute. reflexivity. Qed.
Lemma expired_view : rotation_view (row_of_node expired_node true) expired_node.
Proof. split_and!; vm_compute; reflexivity. Qed.

Lemma reconcile_one_outcome_witness : exists rc n' w',
  @tumgrd_reconcile_one (online_env now0) (@supervised_exec (online_env now0)) sample_config rotating_node false rotating_world
    = Some ((rc, n'), w') /\
  @pass_result (online_env now0) (store rotating_world) sample_config false rotating_node sample_rotating rotating_world n' w' rc.
Proof.
  destruct (@reconcile_one_outcome (online_env now0) (@supervised_exec (online_env now0)) _ (online_responsive now0)
    sample_config rotating_node false sample_rotating rotating_world eq_refl (single_table_ok _) rotating_stored rotating_view)
    as (rc & n' & w' & Hrun & _ & _ & Hres).
  exists rc, n', w'. split; [exact Hrun|exact Hres].
Defined.

Lemma expired_is_due : due sample_config now0 expired_node.
Proof. unfold due. split_and!; vm_compute; done. Qed.

Lemma key_changes_only_when_due_witness : exists rc n' w',
  @tumgrd_reconcile_one (online_env now0) (@supervised_exec (online_env now0)) sample_config expired_node false expired_world
    = Some ((rc, n'), w') /\ (@fresh_hex (online_env now0) expired_world w' (xor_key n') \/ (rc <> 0%Z /\ n' = expired_node /\ no_commands expired_world w')).
Proof.
  destruct (@key_changes_only_when_due (online_env now0) (@supervised_exec (online_env now0)) _ (online_responsive now0)
    sample_config expired_node false expired_world eq_refl (or_introl eq_refl)) as (rc & n' & w' & Hrun & _ & Hdue).
  exists rc, n', w'. split; [exact Hrun|exact (Hdue expired_is_due)].
Defined.

Lemma rotating_settled : settled rotating_node.
Proof. right. by split_and!. Qed.

Lemma rotation_survives_failure_witness : exists n' w',
  @tumgrd_reconcile_one ready_env (@supervised_exec ready_env) sample_config rotating_node false rotating_world
    = Some (((-1)%Z, n'), w') /\ is_pending_state (rotation_state n') = true.
Proof.
  destruct (@tumgrd_reconcile_one ready_env (@supervised_exec ready_env) sample_config rotating_node false rotating_world)
    as [[[rc n'] w']|] eqn:Hrun; [|vm_compute in Hrun; discriminate].
  assert (rc = (-1)%Z) as Hrc by (vm_compute in Hrun; by injection Hrun).
  exists n', w'. split; [by rewrite Hrc|].
  apply (@rotation_survives_failure ready_env (@supervised_exec ready_env) _ sample_config rotating_node false sample_rotating
    rotating_world rc n' w' (single_table_ok _) rotating_stored rotating_view rotating_settled); [exact Hrun|by rewrite Hrc|by left].
Defined.

Lemma rotation_is_written_ahead_witness : exists l w',
  @settle_rotation ready_env sample_config now0 (mkReconcile expired_node [] [] false false false) expired_world
    = Some ((inr tt, l), w') /\ settled (r_node l).
Proof.
  destruct (@settle_rotation ready_env sample_config now0 (mkReconcile expired_node [] [] false false false) expired_world)
    as [[[[e|[]] l] w']|] eqn:Hrun; [vm_compute in Hrun; discriminate| |vm_compute in Hrun; discriminate].
  exists l, w'. split; [reflexivity|].
  apply (@rotation_is_written_ahead ready_env sample_config now0 expired_node false (row_of_node expired_node true)
    expired_world l w' (single_table_ok _) expired_stored expired_view Hrun).
Defined.

Lemma reconcile_all_visits_every_node_witness : exists rc w',
  @tumgrd_reconcile_all (online_env now0) (@supervised_exec (online_env now0)) sample_config true rotating_world = Some (rc, w') /\
  db_invariant (w_rows w').
Proof.
  destruct (@reconcile_all_visits_every_node (online_env now0) (@supervised_exec (online_env now0)) _ (online_responsive now0)
    sample_config true rotating_world eq_refl) as (rc & w' & Hrun & Hinv & _).
  - split; [apply single_table_ok|]. apply Forall_singleton, set_rotation_ok; [by apply key_ok_compute|done].
  - apply Forall_singleton. unfold key_fits, text_fits, int_fits. cbn. split_and!; try lia; by repeat constructor.
  - exists rc, w'. split; [exact Hrun|exact Hinv].
Defined.
