(* ===== verification/RetrySpec.v ===== *)
(** * RetrySpec: a rotation over several passes

    A pass that fails is followed by others, until one succeeds.  Between two
    of them the daemon may serve other requests, as long as they leave the row
    of the node alone. *)

From S2P Require Import Prelude CLib Types World Logic Helper Db DbSpec Exec ExecSpec Runner IpDetect IpDetectSpec Reconcile ReconcileSpec ReconcileProps.

Section Retry.
Context `{E : Env} {Run : Exec} `{!ExecLaws Run}.
Implicit Types (w : world).

(** From the node [n0] in [w0] to the same node in [w], through passes that
    failed; each begins with the node as it is read back from its row. *)
Inductive retried (cfg : config) (n0 : node) (w0 : world) : node -> world -> Prop :=
| retried_not_yet : retried cfg n0 w0 n0 w0
| retried_again n w forced rc n1 w1 n2 w2 :
    retried cfg n0 w0 n w ->
    tumgrd_reconcile_one cfg n forced w = Some ((rc, n1), w1) -> rc <> 0%Z ->
    db_invariant (w_rows w2) -> node_key n2 = node_key n ->
    (exists r, store w1 !! node_key n = Some r /\ store w2 !! node_key n = Some r /\ rotation_view r n2) ->
    retried cfg n0 w0 n2 w2.

(** The node is rotating with the key [x], and its row agrees. *)
Definition rotating_with (k : key) (x : cstr) (n : node) (w : world) : Prop :=
  db_invariant (w_rows w) /\ node_key n = k /\ xor_key n = x /\ is_pending_state (rotation_state n) = true /\
  exists r, store w !! k = Some r /\ rotation_view r n.

Lemma rotating_settled_at k x n w : rotating_with k x n w -> settled n.
Proof. intros (Hinv & <- & _ & _ & r & Hr & Hv). by eapply invariant_settled. Qed.

(** A rotating node is never skipped, whether the pass is forced or not. *)
Lemma rotating_is_forced cfg now n forced w :
  settled n -> is_pending_state (rotation_state n) = true ->
  settle_rotation cfg now (mkReconcile n [] [] forced false false) w = Some ((inr tt, mkReconcile n [] [] true true false), w).
Proof.
  intros Hs Hp. destruct (settled_valid n Hs) as [Hinv Hmis].
  cbv beta iota zeta delta [settle_rotation resume_or_expire bind X_bind M_bind local mret X_ret M_ret assign r_node].
  rewrite Hinv. cbv beta iota. rewrite Hmis. cbv beta iota.
  unfold is_pending_state in Hp. by apply orb_true_iff in Hp as [->%Z.eqb_eq| ->%Z.eqb_eq].
Qed.

Lemma rotating_pass_forced cfg n forced w :
  settled n -> is_pending_state (rotation_state n) = true ->
  tumgrd_reconcile_one cfg n forced w = tumgrd_reconcile_one cfg n true w.
Proof.
  intros Hs Hp.
  assert (forall now w1, reconcile_block cfg now (mkReconcile n [] [] forced false false) w1 =
    reconcile_block cfg now (mkReconcile n [] [] true false false) w1) as Hblock.
  { intros now w1. cbv beta iota zeta delta [reconcile_block bind X_bind M_bind]. by rewrite !rotating_is_forced. }
  unfold tumgrd_reconcile_one, bind, M_bind. destruct (time w) as [[now w1]|]; [|done]. by rewrite Hblock.
Qed.

(** What one more pass over the node [n] comes to. *)
Definition one_more (cfg : config) (n : node) (x : cstr) (w : world) (r : Z * node) (w' : world) : Prop :=
  same_settings n r.2 /\ xor_key r.2 = x /\ db_invariant (w_rows w') /\
  (exists row, store w' !! node_key n = Some row /\ rotation_view row r.2 /\
    (r.1 = 0%Z -> c_status row = Some TUMGRD_STATUS_ACTIVE)) /\
  (r.1 <> 0%Z -> is_pending_state (rotation_state r.2) = true) /\
  (r.1 = 0%Z -> rotation_state r.2 = TUMGRD_ROTATION_NONE /\ exists ip, detected n w ip w' /\ applied r.2 cfg ip w w').

Lemma wp_one_more cfg k x n forced w :
  rotating_with k x n w -> wp (tumgrd_reconcile_one cfg n forced) (one_more cfg n x w) w.
Proof.
  intros Hrot. pose proof (rotating_settled_at _ _ _ _ Hrot) as Hs. destruct Hrot as (Hinv & <- & <- & Hp & r0 & Hr0 & Hv).
  assert (store w = <[node_key n := r0]> (store w)) as Hm by by rewrite insert_id.
  unfold wp. rewrite (rotating_pass_forced cfg n forced w Hs Hp). eapply wp_mono.
  { apply wp_and; [exact (reconcile_one_spec (store w) cfg n true r0 w (proj1 Hinv) Hm Hv)|].
    apply wp_and; [by apply reconcile_one_key|apply (wp_respects keeps_invariant); apply _]. }
  intros [rc n'] w' ((_ & Hk & Hres) & (failed & Hf & Hkey) & Hinv'). cbn [fst snd] in *.
  assert (forall now, ~ due cfg now n) as Hnd.
  { intros now (_ & _ & Hz & _). by apply pending_not_none in Hp. }
  destruct Hkey as [(_ & Hx & Hpend)|[(Hd & _)|(Hd & _)]]; [|by destruct (Hnd _ Hd)..].
  unfold one_more. cbn [fst snd]. split; [done|]. split; [done|]. split; [by apply Hinv'|]. split; [|split].
  - destruct Hres as [? _ ?|ip _ _ _ _ Hrow|rc ip cmds Hneg _ _ Hrow]; [done|..];
      destruct (row_at_lookup _ _ _ _ Hrow) as (r & Hr & Hv' & HP); rewrite (same_settings_key _ _ Hk) in Hr;
      exists r; split_and!; try done.
    + intros _. apply HP.
    + intros ->. lia.
  - intros Hne. apply Hpend; [|done]. destruct failed; [done|]. by destruct (Hne (proj2 Hf eq_refl)).
  - intros ->. inversion Hres as [? ? ?|ip _ Hdet Happ Hz Hrow|? ? ? Hneg]; [done|split; [done|by exists ip]|lia].
Qed.

Lemma retried_rotating cfg k x n0 w0 n w :
  rotating_with k x n0 w0 -> retried cfg n0 w0 n w -> rotating_with k x n w.
Proof.
  intros H0. induction 1 as [|n w forced rc n1 w1 n2 w2 _ IH Hrun Hrc Hinv Hkey (r & Hr1 & Hr2 & Hv)]; [done|].
  pose proof (wp_elim _ _ _ _ _ (wp_one_more cfg k x n forced w IH) Hrun) as Hone.
  unfold one_more in Hone. destruct IH as (_ & Hk & _). rewrite Hk in *. destruct Hone as (_ & Hx & _ & (row & Hrow & (Hs1 & Hx1 & _) & _) & Hp & _).
  cbn [fst snd] in *. rewrite Hrow in Hr1. injection Hr1 as ->. pose proof Hv as (Hs2 & Hx2 & _).
  split; [done|]. split; [done|]. split; [congruence|]. split; [|by exists r]. rewrite <- Hs2, Hs1. by apply Hp.
Qed.

(** One pass that failed, when nothing happens before the next. *)
Lemma retried_again_once cfg n0 w0 (p : Z * node * world) n2 r :
  db_invariant (w_rows w0) -> tumgrd_reconcile_one cfg n0 false w0 = Some p -> p.1.1 <> 0%Z ->
  node_key n2 = node_key n0 -> store p.2 !! node_key n0 = Some r -> rotation_view r n2 ->
  retried cfg n0 w0 n2 p.2.
Proof.
  destruct p as [[rc n1] w1]. intros Hinv Hrun Hrc Hk Hr Hv.
  eapply (retried_again _ _ _ n0 w0 false rc n1 w1); [constructor|done|done| |done|by exists r].
  exact (wp_elim _ _ _ _ _ (wp_respects keeps_invariant _ _) Hrun Hinv).
Qed.

Context `{!Responsive}.

(** C6: a rotation that has begun is retried with one and the same key until it
    is complete.  After any number of passes that failed, the next one
    returns, and has the key that the rotation began with: either it fails and
    the node is still rotating, or the server and the local client have been
    given the node with that key, at the address detected in that pass, the row
    is active and the rotation is over. *)
Theorem rotation_is_retried_with_one_key cfg n0 r0 w0 n w forced :
  db_invariant (w_rows w0) -> store w0 !! node_key n0 = Some r0 -> rotation_view r0 n0 ->
  is_pending_state (rotation_state n0) = true -> retried cfg n0 w0 n w -> watched w ->
  exists rc n' w', tumgrd_reconcile_one cfg n forced w = Some ((rc, n'), w') /\
    node_key n = node_key n0 /\ one_more cfg n (xor_key n0) w (rc, n') w'.
Proof.
  intros Hinv Hr0 Hv Hp Hret Hw.
  assert (rotating_with (node_key n0) (xor_key n0) n0 w0) as H0 by (split_and!; [apply Hinv..|done|done|done|by exists r0]).
  pose proof (retried_rotating _ _ _ _ _ _ _ H0 Hret) as Hrot.
  destruct (total_wp watched _ _ w Hw (wp_one_more cfg _ _ n forced w Hrot)) as ([rc n'] & w' & Hrun & Hone).
  exists rc, n', w'. split; [done|]. split; [apply Hrot|exact Hone].
Qed.
End Retry.

(** ** A run in a concrete environment *)

(** The name of the check server does not resolve during the first pass; after
    that everything succeeds. *)
Definition recovering_env : Env :=
  let q := online_env now0 in
  @mkEnv (@env_fuel q) (@env_time q) (@env_alarm q) (@env_ok q) (@env_read q) (@env_urandom q) (@env_write q)
    (@env_waitpid q) (@env_pid q) (@env_mkdir q) (fun t => if decide (t < 12) then None else Some 1) (@env_connect q) (@env_timeo q)
    (@env_sockname q) (@env_send q) (@env_recv q) (@env_uci q) (@env_status q) (@env_environ q).

Definition first_pass := @tumgrd_reconcile_one recovering_env (@supervised_exec recovering_env) sample_config rotating_node false rotating_world.
Definition pass_end : Z * node * world := default (0%Z, node_zero, rotating_world) first_pass.
(** The node as the second pass reads it from its row. *)
Definition second_node : node := read_row now0 (default sample_rotating (store pass_end.2 !! node_key rotating_node)).

Lemma recovering_responsive : @Responsive recovering_env (@supervised_exec recovering_env).
Proof.
  split.
  - apply supervised_exec_returns. apply prompt_responsive; [cbn; lia|done|by exists 4096%Z|by eexists].
  - split; [discriminate|]. intros t. exists 0. split; [cbn; lia|discriminate].
  - split; intros t; exists 0; (split; [cbn; lia|discriminate]).
  - done.
Qed.

Lemma rotating_table_ok : db_invariant (w_rows rotating_world).
Proof. split; [apply single_table_ok|]. apply Forall_singleton, set_rotation_ok; [by apply key_ok_compute|done]. Qed.

Lemma first_pass_ran :
  @tumgrd_reconcile_one recovering_env (@supervised_exec recovering_env) sample_config rotating_node false rotating_world = Some pass_end.
Proof. vm_compute. reflexivity. Qed.
Lemma first_pass_rc : pass_end.1.1 <> 0%Z.
Proof. vm_compute. discriminate. Qed.
Lemma second_stored : store pass_end.2 !! node_key rotating_node = Some (default sample_rotating (store pass_end.2 !! node_key rotating_node)).
Proof. vm_compute. reflexivity. Qed.
Lemma second_node_key : node_key second_node = node_key rotating_node.
Proof. vm_compute. reflexivity. Qed.
Lemma second_watched : watched pass_end.2.
Proof. vm_compute. reflexivity. Qed.
Lemma second_view : rotation_view (default sample_rotating (store pass_end.2 !! node_key rotating_node)) second_node.
Proof. split_and!; vm_compute; reflexivity. Qed.

(** The first pass fails, and leaves a row from which the second begins. *)
Lemma first_pass_failed : @retried recovering_env (@supervised_exec recovering_env) sample_config rotating_node rotating_world
  second_node pass_end.2.
Proof.
  exact (@retried_again_once recovering_env (@supervised_exec recovering_env) _ sample_config rotating_node rotating_world
    pass_end second_node _ rotating_table_ok first_pass_ran first_pass_rc second_node_key second_stored second_view).
Qed.

(** The second pass completes the rotation that the first one could not. *)
Example second_pass_completes :
  match @tumgrd_reconcile_one recovering_env (@supervised_exec recovering_env) sample_config second_node false pass_end.2 with
  | Some ((rc, n'), w') => rc = 0%Z /\ rotation_state n' = TUMGRD_ROTATION_NONE /\ xor_key n' = xor_key rotating_node /\
      length (commands (w_trace w')) = 3
  | None => False
  end.
Proof. vm_compute. split_and!; reflexivity. Qed.

Lemma rotation_is_retried_with_one_key_witness : exists rc n' w',
  @tumgrd_reconcile_one recovering_env (@supervised_exec recovering_env) sample_config second_node false pass_end.2
    = Some ((rc, n'), w') /\
  node_key second_node = node_key rotating_node /\
  @one_more recovering_env sample_config second_node (xor_key rotating_node) pass_end.2 (rc, n') w'.
Proof.
  exact (@rotation_is_retried_with_one_key recovering_env (@supervised_exec recovering_env) _ recovering_responsive
    sample_config rotating_node sample_rotating rotating_world second_node pass_end.2 false
    rotating_table_ok rotating_stored rotating_view eq_refl first_pass_failed second_watched).
Defined.
