(* ===== verification/HealthSpec.v ===== *)
(** * HealthSpec: a pass succeeds in a healthy system

    What is needed from outside for a pass to succeed, and that this is enough:
    no state of the program, its database and its rotations makes a pass fail
    by itself. *)

From S2P Require Import Prelude CLib Types World Logic Helper Db DbSpec Exec ExecSpec Runner IpDetect IpDetectSpec Reconcile ReconcileSpec ReconcileProps RetrySpec.

(** The system from the call number [t0] on, for the passes over the node [n]
    with the configuration [cfg]. *)
Class Healthy `{E : Env} {Run : Exec} (n : node) (t0 : nat) : Prop := {
  (** calls that only succeed or fail succeed, the engine's among them *)
  healthy_calls t : t0 <= t -> env_ok t = true;
  (** a read of /dev/urandom delivers the bytes of a key *)
  healthy_urandom t : t0 <= t -> exists d, env_urandom t = SOk d /\ 64 <= length d;
  (** the name of the check server resolves, it accepts connections and takes
      a request in one piece *)
  healthy_resolver t : t0 <= t -> exists k, env_getaddrinfo t = Some (S k);
  healthy_connect t : t0 <= t -> env_connect t = ConnOk;
  healthy_timeouts t : t0 <= t -> env_timeo t = true;
  healthy_send t : t0 <= t -> exists k, env_send t = SOk k /\ (512 <= k)%Z;
  (** it answers with an address *)
  healthy_answer w : t0 <= w_tick w -> wp (recv_loop 4095 true 4095 [])
    (fun r _ => exists response text, r = Some response /\ response_body response 512 = Some text /\
       forall out, (extract_ip text (ip_version n) out 64).1 = 0%Z) w;
  healthy_url : exists u, parse_url_host_path (pick_ip_check_url n) 128 256 = Some u;
  (** [inet_ntop] prints something *)
  healthy_ntop t ll text : env_sockname t = SockIn6 ll text -> text <> [];
  (** [tuctl_client] says that the server was updated *)
  healthy_server m script w : t0 <= w_tick w ->
    wp (exec (tuctl_argv m) script (has_memlimit m) (memlimit m) 2048 2048)
      (fun r _ => r.1 = 0%Z /\ strstr (trim_inplace r.2.1) "server updated:" <> None) w;
  (** [ktuctl] adds a client, and is not held when it deletes one *)
  healthy_client_add m w : t0 <= w_tick w -> wp (exec (client_add_argv m) [] 0 0 1024 1024) (fun r _ => r.1 = 0%Z) w;
  healthy_client_del m w : t0 <= w_tick w ->
    wp (exec (client_del_argv m) [] 0 0 1024 1024) (fun _ w' => w_timed_out w' = false) w
}.

(** ** Requests *)

(** The request for a URL that is accepted fits the buffers. *)
Lemma request_fits_buffer u :
  u_host u <> [] -> length (u_host u) < 128 -> (1 <= u_port u <= 65535)%Z -> length (u_path u) < 256 ->
  length (host_header (u_host u) (u_port u)) < 288 /\
  length (http_request (u_path u) (host_header (u_host u) (u_port u))) < 512.
Proof.
  intros _ Hh Hp Hpath.
  assert (length (host_header (u_host u) (u_port u)) <= 150) as Hlen.
  { pose proof (fmt_d_length (u_port u) ltac:(lia)). unfold host_header.
    destruct (is_ipv6 _), (negb _); rewrite ?length_app; cbn [length literal String.list_ascii_of_string]; lia. }
  split; [lia|]. unfold http_request. rewrite !length_app.
  cbn [length literal String.list_ascii_of_string CRLF]. lia.
Qed.

(** ** Operations that do not fail *)

(** A block reaches its end. *)
Definition reaches {L A} (m : X L A) (l : L) (w : world) : Prop := wpx m (fun _ _ _ => False) (fun _ _ _ => True) l w.

(** What is known of a block that may fail, when it does not. *)
Lemma reaches_wpx {L A} (m : X L A) QE Q l w :
  wpx m QE Q l w -> reaches m l w -> wpx m (fun _ _ _ => False) Q l w.
Proof.
  intros H Hr. eapply wpx_mono; [apply wpx_and; [exact H|exact Hr]|by intros e l' w' []|by intros a l' w' []].
Qed.

Lemma reaches_bind {L A B} (m : X L B) (f : B -> X L A) QE Q l w :
  wpx m QE Q l w -> reaches m l w -> (forall b l' w', Q b l' w' -> reaches (f b) l' w') -> reaches (bind m f) l w.
Proof.
  intros H Hr Hf. apply wpx_bind. eapply wpx_mono; [exact (reaches_wpx _ _ _ _ _ H Hr)|done|exact Hf].
Qed.

Section Health.
Context `{E : Env} {Run : Exec} (n0 : node) (t0 : nat) `{!Healthy n0 t0}.
Implicit Types (w : world).

(** From here on the system is healthy, and the database is open. *)
Definition since (w : world) : Prop := t0 <= w_tick w.
Definition steady (w : world) : Prop := since w /\ db_ready w.

Lemma since_later w w' : since w -> later w w' -> since w'.
Proof. unfold since, later. lia. Qed.

Lemma since_call w k b : since w -> w_tick w < k -> since (set_w_tick k (set_w_timed_out b w)).
Proof. unfold since. cbn. lia. Qed.

Lemma steady_later w w' : steady w -> later w w' -> same_schema w w' -> steady w'.
Proof. intros [Hs Hr] Hl Hsc. split; [by eapply since_later|by eapply same_schema_ready]. Qed.

Lemma steady_calm w w' : steady w -> calm w w' -> steady w'.
Proof. intros Hs Hc. eapply steady_later; [exact Hs|..]; apply (calm_respects _ _ _ Hc). Qed.

Lemma steady_no_fault w w' : steady w -> ~ sql_fault w w'.
Proof.
  intros [Hs Hr] [Hn|(t & Ht & Hf)]; [done|]. rewrite healthy_calls in Hf; [done|]. unfold since in Hs. lia.
Qed.

Lemma wp_succeeds_true (Q : bool -> world -> Prop) w :
  since w -> (forall w', calm w w' -> Q true w') -> wp succeeds Q w.
Proof. intros Hs HQ. apply wp_succeeds. intros w' Hw' _. rewrite healthy_calls by done. by apply HQ. Qed.

Lemma since_calm w w' : since w -> calm w w' -> since w'.
Proof. intros Hs Hc. eapply since_later; [exact Hs|apply (calm_respects _ _ _ Hc)]. Qed.

(** *** Files and keys *)
Lemma wp_open_file w : since w -> wp open_file (fun fd w' => (0 <= fd)%Z /\ since w') w.
Proof.
  intros Hs. apply wp_bind, wp_succeeds_true; [done|]. intros w1 H1. cbv iota.
  unfold wp, alloc_fd. split; [apply new_fd_spec|]. exact (since_calm _ _ Hs H1).
Qed.

Lemma wp_urandom_key n w : 0 < n <= 64 -> since w -> wp (urandom_loop n n []) (fun r _ => r <> None) w.
Proof.
  intros Hn Hs. destruct n as [|n]; [lia|]. remember (S n) as k eqn:Hk. rewrite Hk at 1. cbn [urandom_loop length].
  destruct (Nat.ltb_spec 0 k); [|lia]. apply wp_bind.
  eapply (wp_mono _ (fun r _ => exists d, r = Some d /\ length d = k)).
  - apply (wp_retry_inv since); [|done]. clear w Hs. intros w Hs. apply wp_bind. unfold wp, blocking.
    destruct (healthy_urandom (w_tick w) Hs) as (d & -> & Hd).
    assert (length (take (k - 0) d) = k) as Hl by (rewrite length_take; lia).
    destruct (take (k - 0) d) as [|c d'] eqn:Ht; [cbn in Hl; lia|]. by exists (c :: d').
  - intros r w1 (d & -> & Hd). cbn [app]. destruct n; cbn [urandom_loop]; rewrite Hd, Nat.ltb_irrefl; by apply wp_ret.
Qed.

Lemma wp_new_key out w : since w -> wp (generate_random_hex_key out SZ_XOR_KEY 64) (fun r _ => r.1 = 0%Z) w.
Proof.
  intros Hs. unfold generate_random_hex_key.
  change (SZ_XOR_KEY <? 64 * 2 + 1) with false. change ((64 <? 16) || (64 <? 64)) with false. cbv iota.
  apply wp_bind. eapply wp_mono; [by apply wp_open_file|]. intros fd w1 [Hfd H1].
  destruct (Z.ltb_spec fd 0); [lia|]. apply wp_bind. eapply wp_mono; [apply wp_urandom_key; [lia|done]|].
  intros [buf|] w2 Hb; [|done]. by apply wp_bind, wp_modify, wp_ret.
Qed.

Lemma reaches_fresh_key l w : since w -> reaches fresh_key l w.
Proof.
  intros Hs. apply wpx_bind, wpx_local, wpx_bind, wpx_lift. eapply wp_mono; [by apply wp_new_key|].
  intros r w1 Hr. apply wpx_bind, wpx_assign. rewrite Hr. by apply wpx_ret.
Qed.

(** *** The address *)
Lemma wp_connects k w :
  since w -> wp (connect_addresses (S k)) (fun c w' => exists fd m, c = Some (mkConnection fd m true true) /\ since w') w.
Proof.
  intros Hs. cbn [connect_addresses]. apply wp_bind. eapply wp_mono; [by apply wp_open_file|]. intros fd w1 [Hfd H1].
  destruct (Z.ltb_spec fd 0); [lia|]. apply wp_bind, wp_bind, wp_succeeds_true; [done|]. intros w2 H2.
  pose proof (since_calm _ _ H1 H2) as Hs2. apply wp_bind, wp_reads, wp_ret.
  apply wp_bind, wp_call_silent. intros n3 b3 Hn3. rewrite healthy_timeouts by done.
  pose proof (since_call _ _ b3 Hs2 Hn3) as Hs3. apply wp_bind, wp_call_silent. intros n4 b4 Hn4. rewrite healthy_timeouts by done.
  pose proof (since_call _ _ b4 Hs3 Hn4) as Hs4. apply wp_bind, wp_emit, wp_bind, wp_bind, wp_call_silent. intros n b Hn. rewrite healthy_connect by done.
  apply wp_ret, wp_ret. eexists fd, _. split; [done|]. by apply (since_call _ _ b Hs4 Hn).
Qed.

Lemma wp_sends rounds len w :
  0 < rounds -> 0 < len <= 512 -> since w -> wp (send_loop rounds true len 0) (fun ok w' => ok = true /\ since w') w.
Proof.
  intros Hr Hlen Hs. destruct rounds as [|rounds]; [lia|]. cbn [send_loop].
  destruct (Nat.ltb_spec 0 len); [|lia]. apply wp_bind.
  eapply (wp_mono _ (fun r w' => r = Some len /\ since w')).
  - apply (wp_retry_inv since); [|done]. clear w Hs. intros w Hs. apply wp_bind, wp_bind, wp_call_silent. intros n b Hn.
    destruct (healthy_send (w_tick w) Hs) as (k & -> & Hk). apply wp_ret, wp_ret. destruct (Z.leb_spec k 0); [lia|].
    split; [f_equal; lia|by apply since_call].
  - intros r w1 [-> H1]. destruct rounds; cbn [send_loop Nat.add]; rewrite Nat.ltb_irrefl; by apply wp_ret.
Qed.

(** The answer of the check server, as a text of which something is known. *)
Definition server_says (Said : cstr -> Prop) : Prop := forall w, since w ->
  wp (recv_loop 4095 true 4095 []) (fun r _ => exists response text, r = Some response /\
    response_body response 512 = Some text /\ Said text) w.

Lemma wp_exchanges Said fd m u w :
  server_says Said -> parse_url_host_path (pick_ip_check_url n0) 128 256 = Some u -> since w ->
  wp (exchange (mkConnection fd m true true) (u_host u) (u_port u) (u_path u) 512)
    (fun r _ => exists text, r = Some text /\ Said text) w.
Proof.
  intros Hsays Hu Hs. destruct (parse_url_bounds _ _ _ _ Hu) as (Hne & Hh & Hp & _ & Hpath).
  destruct (request_fits_buffer u Hne Hh Hp Hpath) as [H1 H2]. unfold exchange. cbv zeta.
  set (header := host_header _ _) in *. clearbody header.
  assert (0 < length (http_request (u_path u) header)) as Hpos by (unfold http_request; rewrite length_app; cbn; lia).
  revert H2 Hpos. generalize (http_request (u_path u) header) as request. intros request H2 Hpos.
  apply Nat.leb_gt in H1 as ->. pose proof H2 as Hlen. apply Nat.leb_gt in Hlen as ->. cbn [sndtimeo rcvtimeo].
  apply wp_bind. eapply wp_mono; [apply wp_sends; [lia|lia|done]|]. intros ok w1 [-> Hs1]. cbn [negb].
  apply wp_bind, wp_emit, wp_bind. eapply wp_mono; [by apply Hsays|].
  intros r w2 (response & text & -> & Hbody & Hip). apply wp_ret. rewrite Hbody. by exists text.
Qed.

Lemma wp_http_gets Said u w :
  server_says Said -> parse_url_host_path (pick_ip_check_url n0) 128 256 = Some u -> since w ->
  wp (http_get_with_mark (u_host u) (u_port u) (u_path u) 512)
    (fun r _ => exists text, r = Some text /\ Said text) w.
Proof.
  intros Hsays Hu Hs. unfold http_get_with_mark. cbn [Nat.eqb]. apply wp_bind, wp_call_silent. intros n b Hn.
  destruct (healthy_resolver (w_tick w) Hs) as (k & ->). apply wp_bind.
  eapply wp_mono; [apply wp_connects; by apply since_call|]. intros c w1 (fd & m & -> & H1).
  apply wp_bind. eapply wp_mono; [by apply (wp_exchanges Said fd m u)|]. intros r w2 (text & -> & Ht).
  apply wp_bind, wp_modify, wp_ret. by exists text.
Qed.

(** The address that is found: the one in the answer, or that of the probe. *)
Lemma wp_finds (Found : Z * cstr -> Prop) url version out w :
  url = pick_ip_check_url n0 -> version = ip_version n0 -> since w ->
  server_says (fun text => forall out, (extract_ip text version out 64).1 = 0%Z /\ Found (extract_ip text version out 64)) ->
  (forall ip, ip_family_from_version version = 6%Z -> Found (0%Z, ip)) ->
  wp (detect_public_ip url version out 64) (fun r _ => r.1 = 0%Z /\ Found r) w.
Proof.
  intros -> -> Hs Hsays Hprobe. unfold detect_public_ip. cbn [Nat.eqb]. cbv zeta.
  destruct healthy_url as (u & Hu). destruct (pick_ip_check_url n0) as [|c url] eqn:Hpick; [done|]. rewrite Hu.
  apply wp_bind. eapply (wp_mono _ (fun probed w1 => later w w1 /\ (probed.1 = 0%Z -> ip_family_from_version (ip_version n0) = 6%Z))).
  { destruct (Z.eqb_spec (ip_family_from_version (ip_version n0)) 6); cbn [andb]; [|by apply wp_ret].
    eapply wp_mono; [wp_frame later|]. by intros. }
  intros [rc ip] w1 [H1 Hfam]. cbn [fst snd] in *.
  destruct (Z.eqb_spec rc 0) as [->|_]; [by apply wp_ret; split; [|apply Hprobe, Hfam]|].
  apply wp_bind. eapply wp_mono; [apply (wp_http_gets _ u w1 Hsays); [by rewrite Hpick|by eapply since_later]|].
  intros r w2 (text & -> & Ht). apply wp_ret. destruct (Ht ip) as [H0 HF]. destruct (extract_ip text _ _ _) as [rc' ip'].
  cbn [fst snd] in *. by subst rc'.
Qed.

Lemma wp_detects url version out w :
  url = pick_ip_check_url n0 -> version = ip_version n0 -> since w ->
  wp (detect_public_ip url version out 64) (fun r _ => r.1 = 0%Z /\ r.2 <> []) w.
Proof.
  intros Hurl Hver Hs. eapply wp_mono.
  { apply wp_and; [apply detect_public_ip_spec|apply (wp_finds (fun _ => True)); [done..| |done]].
    intros w1 Hw1. eapply wp_mono; [by apply healthy_answer|]. intros r w2 (response & text & -> & Hbody & Ht).
    exists response, text. rewrite Hver. split_and!; [done..|]. intros o. by split. }
  intros r w1 [(_ & _ & Hok) [H0 _]]. split; [done|]. destruct (Hok H0) as [Hw|(_ & t & Ht & _)].
  - by apply is_wanted_spec in Hw as (_ & _ & Hne).
  - by eapply healthy_ntop.
Qed.

(** *** The commands *)
Lemma wp_script_works m script w : since w -> wp (run_tuctl_script m script "server updated:") (fun rc _ => rc = 0%Z) w.
Proof.
  intros Hs. apply wp_bind. eapply wp_mono; [by apply healthy_server|]. intros r w1 [-> Hm]. cbn [Z.eqb negb].
  change (literal "server updated:") with ("s"%char :: literal "erver updated:"). cbv iota.
  change ("s"%char :: literal "erver updated:") with (literal "server updated:").
  destruct (strstr (trim_inplace r.2.1) _); [by apply wp_ret|done].
Qed.

Lemma wp_server_add_works m cfg ip w :
  ip <> [] -> since w -> wp (tumgrd_runner_server_add m cfg ip) (fun rc _ => rc = 0%Z) w.
Proof.
  intros Hip Hs. unfold tumgrd_runner_server_add. destruct ip as [|c ip]; [done|].
  assert (forall script w1, since w1 ->
    wp (run (try_asprintf;; try2 (run_tuctl_script m script "server updated:");; mret tt)) (fun rc _ => rc = 0%Z) w1) as Hlast.
  { intros script w1 H1. apply wp_run, wpx_bind, wpx_bind, wpx_lift, wp_succeeds_true; [done|]. intros w2 H2.
    apply wpx_ret, wpx_try2_tail. eapply wp_mono; [apply wp_script_works; by eapply since_calm|]. by intros rc w3 ->. }
  apply wp_bind, wp_wpx. destruct (use_client_ip cfg); [|by apply wpx_ret, Hlast].
  apply wpx_bind, wpx_bind, wpx_lift, wp_succeeds_true; [done|]. intros w1 H1.
  apply wpx_ret, wpx_bind, wpx_lift. eapply wp_mono; [apply wp_script_works; by eapply since_calm|].
  intros rc w2 ->. by apply wpx_ret, wp_ret.
Qed.

Context `{!ExecLaws Run}.
Lemma wp_reset_works m w : since w -> wp (tumgrd_runner_reset_local_client m) (fun rc _ => rc = 0%Z) w.
Proof.
  intros Hs. apply wp_bind, wp_bind. eapply wp_mono; [apply wp_and; [by apply healthy_client_del|wp_frame later]|].
  intros r w1 [Hto Hl]. apply wp_ret, wp_bind, wp_reads. rewrite Hto.
  apply wp_bind. eapply wp_mono; [apply healthy_client_add; by eapply since_later|]. intros r2 w2 Hr. by apply wp_ret.
Qed.

(** *** The updates *)

(** Before every step: a healthy system, a table that keeps the invariant, the
    node in agreement with its row, and what is needed to find the address. *)
Record ready (l : reconcile_locals) (w : world) : Prop := {
  ready_steady : steady w;
  ready_invariant : db_invariant (w_rows w);
  ready_row : exists r, store w !! node_key (r_node l) = Some r /\ rotation_view r (r_node l);
  ready_version : ip_version (r_node l) = ip_version n0;
  ready_url : pick_ip_check_url (r_node l) = pick_ip_check_url n0
}.

(** An update of the row of the node does its work. *)
Lemma must_reaches m guard f l w :
  wp m (update_post (node_key (r_node l)) guard f w) w -> ready l w ->
  (forall r, rotation_view r (r_node l) -> c_rotation_state r = Some (rotation_state (r_node l)) -> guard r = true) ->
  reaches (must m) l w.
Proof.
  intros Hm Hl Hg. destruct (ready_row _ _ Hl) as (r & Hr & Hv).
  apply wpx_bind, wpx_lift. eapply wp_mono; [exact Hm|].
  intros rc w1 [_ [(-> & _)|(_ & _ & [Hf|Hno])]]; [by apply wpx_ret|..].
  - by apply steady_no_fault in Hf; [|apply Hl].
  - specialize (Hno r Hr). rewrite Hg in Hno; [done|done|]. apply row_state; [|done].
    by eapply invariant_row; [apply Hl|].
Qed.

Lemma ready_same l l' w w' :
  ready l w -> r_node l' = r_node l -> same_db w w' -> later w w' -> ready l' w'.
Proof.
  intros [Hs Hinv Hr Hver Hurl] Hn Hdb Hl. pose proof Hdb as (Hc & Hcols & Hrows).
  split; rewrite ?Hn, ?Hrows; try done. by eapply steady_later.
Qed.

(** One that is mirrored in memory. *)
Lemma must_assign_reaches m n' guard f l w :
  wp m (update_post (node_key (r_node l)) guard f w) w -> ready l w ->
  (forall r, rotation_view r (r_node l) -> c_rotation_state r = Some (rotation_state (r_node l)) -> guard r = true) ->
  reaches (must m;; assign (set_r_node n')) l w.
Proof.
  intros Hm Hl Hg. apply wpx_bind. eapply wpx_mono; [by eapply must_reaches|done|]. intros _ l1 w1 _. by apply wpx_assign.
Qed.

(** *** The steps of a pass *)
Lemma wpx_fresh_key_keeps l w :
  wpx fresh_key (fun _ _ _ => True) (fun _ l' w' => r_node l' = r_node l /\ same_db w w' /\ later w w') l w.
Proof.
  apply wpx_bind, wpx_local, wpx_bind, wpx_lift.
  eapply wp_mono; [apply wp_and; [wp_frame same_db|wp_frame later]|]. intros r w1 [Hdb Hl].
  apply wpx_bind, wpx_assign. destruct (_ =? _)%Z; [by apply wpx_ret|by apply wpx_fail].
Qed.

Lemma reaches_resume cfg now l w : ready l w -> settled (r_node l) -> reaches (resume_or_expire cfg now) l w.
Proof.
  intros Hl Hset. apply wpx_bind, wpx_local. cbv zeta.
  destruct (Z.eqb_spec (rotation_state (r_node l)) TUMGRD_ROTATION_PENDING_LOCAL_RECOVERY) as [|Hne2]; [by apply wpx_assign|].
  destruct (Z.eqb_spec (rotation_state (r_node l)) TUMGRD_ROTATION_PENDING_REMOTE) as [|Hne1]; [by apply wpx_assign|].
  assert (rotation_state (r_node l) = 0%Z) as H0.
  { destruct Hset as [|(Hp & _)]; [done|]. by apply orb_true_iff in Hp as [?%Z.eqb_eq|?%Z.eqb_eq]. }
  destruct (now <? _)%Z; [by apply wpx_ret|]. destruct (_ && _); [by apply wpx_assign|].
  destruct (_ && _); [|by apply wpx_ret].
  apply wpx_bind, wpx_assign, wpx_bind, wpx_local. destruct (_ && _); [|by apply wpx_ret].
  assert (ready (set_force true (set_expired true l)) w) as Hl1.
  { by apply (ready_same l _ w w); [| |split_and!|unfold later]. }
  eapply reaches_bind; [apply wpx_fresh_key_keeps|eapply reaches_fresh_key, Hl1|].
  intros key l1 w1 (Hn1 & Hdb1 & Hlater1). assert (ready l1 w1) as H1 by by eapply ready_same.
  rewrite <- Hn1. change (r_node (set_force true (set_expired true l))) with (r_node l) in Hn1.
  eapply must_assign_reaches; [apply begin_rotation_spec, H1|done|].
  intros r _ Hst. unfold rotation_is. rewrite Hst, Hn1, H0. done.
Qed.

(** In a table that keeps the invariant nothing has to be repaired. *)
Lemma wpx_settle_resume cfg now QE (Q : unit -> reconcile_locals -> world -> Prop) l w :
  settled (r_node l) -> wpx (resume_or_expire cfg now) QE Q l w -> wpx (settle_rotation cfg now) QE Q l w.
Proof.
  intros Hs Hr. destruct (settled_valid _ Hs) as [Hinv Hmis]. apply wpx_bind, wpx_local, wpx_bind.
  rewrite Hinv. apply wpx_ret, wpx_bind, wpx_local, wpx_bind. rewrite Hmis. by apply wpx_ret.
Qed.

Lemma wpx_resume_url cfg now l w :
  wpx (resume_or_expire cfg now) (fun _ _ _ => True) (fun _ l' _ => pick_ip_check_url (r_node l') = pick_ip_check_url (r_node l)) l w.
Proof.
  apply wpx_bind, wpx_local. cbv zeta.
  destruct (_ =? _)%Z; [by apply wpx_assign|]. destruct (_ =? _)%Z; [by apply wpx_assign|].
  destruct (now <? _)%Z; [by apply wpx_ret|]. destruct (_ && _); [by apply wpx_assign|].
  destruct (_ && _); [|by apply wpx_ret]. apply wpx_bind, wpx_assign, wpx_bind, wpx_local. destruct (_ && _); [|by apply wpx_ret].
  apply wpx_bind. eapply wpx_mono; [apply wpx_fresh_key_keeps|done|]. intros key l1 w1 _.
  apply wpx_bind, wpx_bind, wpx_lift. eapply (wp_mono _ (fun _ _ => True)); [by apply wp_intro|]. intros rc w2 _.
  destruct (rc =? 0)%Z; [by apply wpx_ret, wpx_assign|by apply wpx_fail].
Qed.

Lemma settled_ready l w : ready l w -> settled (r_node l).
Proof. intros Hl. destruct (ready_row _ _ Hl) as (r & Hr & Hv). eapply invariant_settled; [apply Hl|done|done]. Qed.

#[local] Instance keeps_settle_rotation cfg now : RespectsX keeps_invariant (settle_rotation cfg now).
Proof.
  pose proof (keeps_repair_rotation cfg) as Hrepair. pose proof (keeps_begin_rotation cfg) as Hbegin.
  unfold settle_rotation, resume_or_expire. cbv zeta. apply _.
Qed.

Lemma wpx_settles cfg now l w :
  ready l w -> expired l = false -> server_apply_succeeded l = false ->
  wpx (settle_rotation cfg now) (fun _ _ _ => False) (fun _ l' w' => ready l' w') l w.
Proof.
  intros Hl Hexp Happ. pose proof (settled_ready _ _ Hl) as Hset. destruct (ready_row _ _ Hl) as (r & Hr & Hv).
  assert (consistent (store w) (untouched r) (r_node l) l w) as Hc.
  { split; [apply Hl|]. split; [done|]. exists r. by rewrite insert_id. }
  eapply reaches_wpx.
  - eapply wpx_mono; [apply wpx_and; [by apply (wpx_settle_rotation (store w) (untouched r) (r_node l) cfg now l w); [apply _|..]|]|..].
    + apply wpx_and; [|apply wpx_and; [|apply wpx_and]];
        [apply (wpx_respects keeps_invariant)|apply (wpx_respects later)|apply (wpx_respects same_schema)|]; [apply _..|].
      apply wpx_settle_resume; [done|apply wpx_resume_url].
    + intros e l' w' _. exact I.
    + intros [] l' w' [[(Hok & Hk & Hrow) _] [Hkeep [Hlat [Hsc Hu]]]]. destruct Hl as [Hs Hinv _ Hver Hurl]. split.
      * by eapply steady_later.
      * by apply Hkeep.
      * destruct (row_at_lookup _ _ _ _ Hrow) as (r' & Hr' & Hv' & _). by exists r'.
      * rewrite <- Hver. by injection Hk.
      * congruence.
  - apply wpx_settle_resume; [done|by apply reaches_resume].
Qed.

Lemma wpx_detects l w :
  ready l w -> wpx detect_and_decide (fun _ _ _ => False) (fun _ l' w' => ready l' w' /\ detected_ip l' <> []) l w.
Proof.
  intros Hl. apply wpx_bind, wpx_local, wpx_bind, wpx_lift. eapply wp_mono.
  { apply wp_and; [apply wp_detects; [apply Hl..|apply (ready_steady _ _ Hl)]|apply wp_and; [wp_frame same_db|wp_frame later]]. }
  intros r w1 [[Hr Hip] [Hdb Hlat]]. apply wpx_bind, wpx_assign. rewrite Hr. apply wpx_ret.
  split; [by eapply ready_same|done].
Qed.

(** The update that says that the server has the new key. *)
Lemma wpx_record_server l w :
  ready l w -> rotation_state (r_node l) = TUMGRD_ROTATION_PENDING_REMOTE ->
  wpx (must (tumgrd_db_update_rotation_state (node_key (r_node l)) TUMGRD_ROTATION_PENDING_LOCAL_RECOVERY);;
       assign (set_r_node (set_rotation_state TUMGRD_ROTATION_PENDING_LOCAL_RECOVERY (r_node l))))
    (fun _ _ _ => False) (fun _ l' w' => ready l' w' /\ detected_ip l' = detected_ip l) l w.
Proof.
  intros Hl Hst. set (s := TUMGRD_ROTATION_PENDING_LOCAL_RECOVERY). destruct (ready_row _ _ Hl) as (r & Hr & Hv).
  pose proof (row_state r _ (invariant_row _ _ _ (ready_invariant _ _ Hl) Hr) Hv) as Hrs. rewrite Hst in Hrs.
  apply wpx_bind, wpx_bind, wpx_lift. eapply wp_mono.
  { apply wp_and; [apply (update_rotation_state_spec _ s), Hl|].
    apply wp_and; [apply (wp_respects keeps_invariant); apply _|apply wp_and; [wp_frame later|wp_frame same_schema]]. }
  intros rc w1 [[_ Hpost] [Hkeep [Hlat Hsc]]].
  destruct Hpost as [(-> & r' & Hr' & _ & Hstore)|(_ & _ & [Hf|Hno])].
  - apply wpx_ret, wpx_assign. rewrite Hr in Hr'. injection Hr' as <-. destruct Hl as [Hs Hinv _ Hver Hurl]. split; [|done].
    split; [by eapply steady_later|by apply Hkeep| |done|done].
    exists (set_c_rotation_state (Some s) r). rewrite Hstore. split; [apply lookup_insert_eq|]. by apply set_state_view.
  - by apply steady_no_fault in Hf; [|apply Hl].
  - specialize (Hno r Hr). unfold rotation_pending, rotation_is in Hno. by rewrite Hrs in Hno.
Qed.

(** The local client and the row. *)
Lemma wpx_local_works l w :
  ready l w ->
  wpx (l ← local; try2 (tumgrd_runner_reset_local_client (r_node l));;
       ts ← lift time; try2 (mark_runtime (r_node l) (detected_ip l) TUMGRD_STATUS_ACTIVE ts);; mret tt)
    (fun _ _ _ => False) (fun _ l' w' => ready l' w') l w.
Proof.
  intros Hl. apply wpx_bind, wpx_local, wpx_bind, wpx_try2.
  eapply wp_mono; [apply wp_and; [apply wp_reset_works, (ready_steady _ _ Hl)|apply wp_and; [wp_frame same_db|wp_frame later]]|].
  intros rc w1 [-> [Hdb Hlat]]. cbn [Z.ltb Z.compare].
  assert (ready l w1) as H1 by by eapply ready_same. clear Hl Hdb Hlat.
  apply wpx_bind, wpx_lift, wp_time. intros w2 Hc.
  assert (ready l w2) as H2 by (eapply ready_same; [exact H1|done|apply (calm_respects _ _ _ Hc)..]). clear H1 Hc.
  destruct (ready_row _ _ H2) as (r & Hr & Hv). apply wpx_try2_tail. unfold mark_runtime. eapply wp_mono.
  { apply wp_and; [apply update_runtime_spec, H2|].
    apply wp_and; [apply (wp_respects keeps_invariant); apply _|apply wp_and; [wp_frame later|wp_frame same_schema]]. }
  intros rc w3 [[_ [[-> Hstore]|(_ & _ & Hf)]] [Hkeep [Hlat Hsc]]]; [|by apply steady_no_fault in Hf; [|apply H2]].
  cbn [Z.ltb Z.compare]. destruct H2 as [Hs Hinv _ Hver Hurl]. split; [by eapply steady_later|by apply Hkeep| |done|done].
  eexists. rewrite Hstore, lookup_alter_eq, Hr. split; [reflexivity|done].
Qed.

Lemma wpx_applies cfg l w :
  ready l w -> detected_ip l <> [] -> wpx (apply_node cfg) (fun _ _ _ => False) (fun _ l' w' => ready l' w') l w.
Proof.
  intros Hl Hip. apply wpx_bind, wpx_local, wpx_bind, wpx_try2.
  eapply wp_mono; [apply wp_and; [apply wp_server_add_works; [done|apply (ready_steady _ _ Hl)]|apply wp_and; [wp_frame same_db|wp_frame later]]|].
  intros rc w1 [-> [Hdb Hlat]]. cbn [Z.ltb Z.compare]. apply wpx_bind, wpx_assign, wpx_bind.
  assert (ready (set_server_apply_succeeded true l) w1) as H1 by by eapply ready_same.
  destruct (Z.eqb_spec (rotation_state (r_node l)) TUMGRD_ROTATION_PENDING_REMOTE) as [Hst|Hst]; [|by apply wpx_ret, wpx_local_works].
  eapply wpx_mono; [apply (wpx_record_server (set_server_apply_succeeded true l) w1 H1 Hst)|done|].
  intros [] l2 w2 [H2 _]. by apply wpx_local_works.
Qed.

Lemma reaches_finish now l w : ready l w -> reaches (finish_rotation now) l w.
Proof.
  intros Hl. apply wpx_bind, wpx_local. destruct (_ && _) eqn:Hrot.
  - apply andb_true_iff in Hrot as [Hne _]. eapply must_assign_reaches; [apply complete_rotation_spec, Hl|done|].
    intros r _ Hst. unfold rotation_not_zero. by rewrite Hst.
  - destruct (expired l && server_apply_succeeded l); [|by apply wpx_ret]. eapply must_assign_reaches; [apply update_applied_spec, Hl|done|done].
Qed.

Lemma reaches_block cfg now n forced w :
  ready (mkReconcile n [] [] forced false false) w -> reaches (reconcile_block cfg now) (mkReconcile n [] [] forced false false) w.
Proof.
  intros Hl. apply wpx_bind. eapply wpx_mono; [by apply wpx_settles|done|]. intros [] l1 w1 H1.
  apply wpx_bind. eapply wpx_mono; [by apply wpx_detects|done|]. intros need l2 w2 [H2 Hip].
  destruct need; [|by apply wpx_ret].
  apply wpx_bind. eapply wpx_mono; [by apply wpx_applies|done|]. intros [] l3 w3 H3.
  apply wpx_bind. eapply wpx_mono; [by apply reaches_finish|done|]. intros [] l4 w4 _. by apply wpx_ret.
Qed.
End Health.

Lemma wp_healthy_pass `{E : Env} {Run : Exec} `{!ExecLaws Run} cfg n forced r0 w :
  db_invariant (w_rows w) -> db_ready w -> store w !! node_key n = Some r0 -> rotation_view r0 n ->
  Healthy n (w_tick w) -> wp (tumgrd_reconcile_one cfg n forced) (fun r _ => r.1 = 0%Z) w.
Proof.
  intros Hinv Hready Hr Hv Hh. apply wp_bind, wp_time. intros w1 H1.
  assert (ready n (w_tick w) (mkReconcile n [] [] forced false false) w1) as Hl.
  { apply (ready_same n (w_tick w) (mkReconcile n [] [] forced false false) _ w w1); [|done|apply (calm_respects _ _ _ H1)..].
    split; [split; [unfold since; lia|done]|done|by exists r0|done|done]. }
  apply wp_bind, wp_wpx. eapply wpx_mono; [exact (reaches_block n (w_tick w) cfg _ n forced w1 Hl)|done|].
  intros need l' w2 _. by apply wp_ret.
Qed.

(** ** The property *)
Section Property.
Context `{E : Env} {Run : Exec} `{!ExecLaws Run} `{!Responsive}.

(** In a healthy system every pass succeeds.  If from now on the calls to
    the kernel and the engine succeed, the check server answers with an
    address, [tuctl_client] updates the server and [ktuctl] adds the client,
    then a pass over any node of a well-formed table returns 0, whatever state
    its rotation is in; no rotation is left, and either the row was left as it
    was because the last pass had applied the node at the address that is
    detected now, or the server and the local client have been given the node
    at that address and the row is active. *)
Theorem healthy_pass_succeeds cfg n forced r0 w :
  watched w -> db_invariant (w_rows w) -> db_ready w -> store w !! node_key n = Some r0 -> rotation_view r0 n ->
  Healthy n (w_tick w) ->
  exists n' w', tumgrd_reconcile_one cfg n forced w = Some ((0%Z, n'), w') /\
    same_settings n n' /\ rotation_state n' = TUMGRD_ROTATION_NONE /\ exists ip, detected n w ip w' /\
    ((forced = false /\ up_to_date n ip /\ no_commands w w' /\ row_at (store w) (untouched r0) n' w') \/
     (applied n' cfg ip w w' /\ row_at (store w) (finished r0 n (env_time (w_tick w)) ip) n' w')).
Proof.
  intros Hw Hinv Hready Hr Hv Hh.
  assert (store w = <[node_key n := r0]> (store w)) as Hm by by rewrite insert_id.
  destruct (total_wp watched _ _ w Hw (wp_and _ _ _ _ (wp_healthy_pass cfg n forced r0 w Hinv Hready Hr Hv Hh)
    (reconcile_one_spec (store w) cfg n forced r0 w (proj1 Hinv) Hm Hv))) as ([rc n'] & w' & Hrun & Hrc & _ & Hsame & Hres).
  cbn [fst snd] in *. subst rc. exists n', w'. split; [done|]. split; [done|].
  inversion Hres as [ip Hn Hf Hdet Hup Hz Hrow|ip _ Hdet Happ Hz Hrow|? ? ? Hneg]; [|..|lia];
    (split; [done|]; exists ip; split; [done|]); [by left|by right].
Qed.
End Property.

(** ** A healthy system *)

(** Commands that do what they are asked to. *)
Definition working_exec : Exec := fun argv input _ _ _ _ w =>
  Some ((0, (literal "server updated:", []))%Z, set_w_timed_out false (set_w_trace (EvSpawn 7 argv input [] :: w_trace w) w)).

Definition healthy_env : Env :=
  let q := ready_env in
  @mkEnv (@env_fuel q) (@env_time q) (@env_alarm q) (@env_ok q) (@env_read q) (@env_urandom q) (@env_write q)
    (@env_waitpid q) (@env_pid q) (@env_mkdir q) (@env_getaddrinfo q) (@env_connect q) (@env_timeo q) (@env_sockname q) (@env_send q)
    (fun _ => SOk ("HTTP/1.1 200 OK" ++ [CR; LF; CR; LF] ++ literal "203.0.113.7" ++ repeat LF 4095))
    (@env_uci q) (@env_status q) (@env_environ q).

#[local] Existing Instance healthy_env.

Lemma working_exec_laws : ExecLaws working_exec.
Proof.
  split.
  - intros argv input has mem n1 n2 w _. left. split_and!; [done..|].
    exists [EvSpawn 7 argv input []]. split_and!; [done..|]. by apply Forall_singleton.
  - by intros argv input has mem n1 n2 w r w' [= <- <-].
  - intros argv input has mem n1 n2 w r w' [= <- <-]. unfold later. done.
  - intros argv input has mem n1 n2 w r w' [= <- <-]. exists [EvSpawn 7 argv input []]. split; [done|]. by apply Forall_singleton.
Qed.

Lemma healthy_responsive : @Responsive healthy_env working_exec.
Proof.
  split.
  - intros argv input has mem n1 n2 w Hw. by do 2 eexists.
  - split; [discriminate|]. intros t. exists 0. split; [cbn; lia|discriminate].
  - split; intros t; exists 0; (split; [cbn; lia|discriminate]).
  - done.
Qed.

(** What the check server sends, cut to the buffer. *)
Definition full_response : list ascii := Eval vm_compute in
  take 4095 ("HTTP/1.1 200 OK" ++ [CR; LF; CR; LF] ++ literal "203.0.113.7" ++ repeat LF 4095).

Lemma healthy_receives w : wp (recv_loop 4095 true 4095 []) (fun r _ => r = Some full_response) w.
Proof. destruct w as [tick tr conn cols rows ch to us [] fds mark]; vm_compute; reflexivity. Qed.

Lemma healthy_system : @Healthy healthy_env working_exec rotating_node 0.
Proof.
  split.
  - intros t _. reflexivity.
  - intros t _. eexists. split; [reflexivity|]. cbn. lia.
  - intros t _. by exists 0.
  - intros t _. reflexivity.
  - intros t _. reflexivity.
  - intros t _. eexists. split; [reflexivity|done].
  - intros w _. eapply wp_mono; [apply healthy_receives|]. intros r w' ->. eexists _, _. split; [reflexivity|].
    split; [vm_compute; reflexivity|intros out; vm_compute; reflexivity].
  - eexists. vm_compute. reflexivity.
  - discriminate.
  - intros m script w _. split; [reflexivity|]. vm_compute. discriminate.
  - intros m w _. reflexivity.
  - intros m w _. reflexivity.
Qed.

Lemma rotating_ready : db_ready rotating_world.
Proof. split; [done|]. by eexists. Qed.

Lemma healthy_pass_succeeds_witness : exists n' w',
  @tumgrd_reconcile_one healthy_env working_exec sample_config rotating_node false rotating_world = Some ((0%Z, n'), w') /\
  rotation_state n' = TUMGRD_ROTATION_NONE.
Proof.
  destruct (@healthy_pass_succeeds healthy_env working_exec working_exec_laws healthy_responsive
    sample_config rotating_node false sample_rotating rotating_world eq_refl rotating_table_ok rotating_ready
    rotating_stored rotating_view healthy_system) as (n' & w' & Hrun & _ & Hz & _).
  exists n', w'. split; [exact Hrun|exact Hz].
Defined.
