(* ===== verification/ConvergeSpec.v ===== *)
(** * ConvergeSpec: the whole table converges in a healthy system

    A pass over all nodes is what the timers and the bus start.  In a healthy
    system one of them is enough to leave every node applied and every rotation
    finished, whatever the table was left in by the passes before it. *)

From S2P Require Import Prelude CLib Types World Logic Helper Db DbSpec Exec ExecSpec Runner IpDetect IpDetectSpec Reconcile ReconcileSpec ReconcileProps RetrySpec HealthSpec.

(** The row of a node that needs nothing: no rotation is left, and the last
    pass applied it; after a forced pass, this pass. *)
Definition converged (forced : bool) (r : row) : Prop :=
  c_rotation_state r = Some TUMGRD_ROTATION_NONE /\
  c_status r <> Some TUMGRD_STATUS_ERROR /\ c_status r <> Some TUMGRD_STATUS_SYNCING /\
  (forced = true -> c_status r = Some TUMGRD_STATUS_ACTIVE).

(** The node of every row is in a healthy system from now on, and so is the
    engine. *)
Definition healthy_table `{E : Env} {Run : Exec} (w : world) : Prop :=
  (forall t, w_tick w <= t -> env_ok t = true) /\
  Forall (fun r => forall t, Healthy (read_row (env_time t) r) (w_tick w)) (w_rows w).

(** Only the check server of a node, and the family asked for, matter. *)
Lemma healthy_for `{E : Env} {Run : Exec} n n' t0 t1 :
  t0 <= t1 -> ip_version n' = ip_version n -> pick_ip_check_url n' = pick_ip_check_url n -> Healthy n t0 -> Healthy n' t1.
Proof.
  intros Ht Hv Hu H. split; rewrite ?Hv, ?Hu.
  - intros t Hle. apply (healthy_calls (n := n) (t0 := t0)). lia.
  - intros t Hle. apply (healthy_urandom (n := n) (t0 := t0)). lia.
  - intros t Hle. apply (healthy_resolver (n := n) (t0 := t0)). lia.
  - intros t Hle. apply (healthy_connect (n := n) (t0 := t0)). lia.
  - intros t Hle. apply (healthy_timeouts (n := n) (t0 := t0)). lia.
  - intros t Hle. apply (healthy_send (n := n) (t0 := t0)). lia.
  - intros w Hle. apply (healthy_answer (n := n) (t0 := t0)). lia.
  - exact (healthy_url (n := n) (t0 := t0)).
  - exact (healthy_ntop (n := n) (t0 := t0)).
  - intros m script w Hle. apply (healthy_server (n := n) (t0 := t0)). lia.
  - intros m w Hle. apply (healthy_client_add (n := n) (t0 := t0)). lia.
  - intros m w Hle. apply (healthy_client_del (n := n) (t0 := t0)). lia.
Qed.

Section Converge.
Context `{E : Env} {Run : Exec} `{!ExecLaws Run}.
Implicit Types (w : world).

(** What must not change between the passes. *)
Definition sound (w w' : world) : Prop := db_invariant (w_rows w') /\ db_ready w' /\ later w w'.

(** One node. *)
Lemma wp_node_converges cfg n forced r0 w :
  db_invariant (w_rows w) -> db_ready w -> store w !! node_key n = Some r0 ->
  (exists t, n = read_row (env_time t) r0) -> Healthy n (w_tick w) ->
  wp (tumgrd_reconcile_one cfg n forced) (fun r w' => r.1 = 0%Z /\ node_key r.2 = node_key n /\ sound w w' /\
    row_at (store w) (converged forced) r.2 w') w.
Proof.
  intros Hinv Hready Hr0 [t Hread] Hh.
  assert (rotation_view r0 n) as Hv by (rewrite Hread; apply read_row_view).
  assert (store w = <[node_key n := r0]> (store w)) as Hm by by rewrite insert_id.
  eapply wp_mono.
  { apply wp_and; [by apply (wp_healthy_pass cfg n forced r0)|].
    apply wp_and; [by apply (reconcile_one_spec (store w) cfg n forced r0 w (proj1 Hinv))|].
    apply wp_and; [apply (wp_respects keeps_invariant); apply _|apply wp_and; [wp_frame later|wp_frame same_schema]]. }
  intros [rc n'] w' (Hrc & (_ & Hsame & Hres) & Hkeep & Hlat & Hsc). cbn [fst snd] in *. subst rc.
  assert (db_invariant (w_rows w')) as Hinv' by by apply Hkeep.
  split; [done|]. split; [by apply same_settings_key|].
  split; [split; [done|split; [by eapply same_schema_ready|done]]|].
  assert (forall r P, row_at (store w) P n' w' -> store w' !! node_key n' = Some r -> rotation_view r n' ->
    rotation_state n' = TUMGRD_ROTATION_NONE -> c_rotation_state r = Some TUMGRD_ROTATION_NONE) as Hstate.
  { intros r P _ Hr Hvr <-. apply row_state; [|done]. by eapply invariant_row. }
  inversion Hres as [ip _ Hf _ Hup Hz Hrow|ip _ _ _ Hz Hrow|? ? ? Hneg]; [| |lia];
    pose proof Hrow as (r & Hs & Hvr & HP); exists r; (split; [exact Hs|]); (split; [exact Hvr|]);
    assert (store w' !! node_key n' = Some r) as Hr by (by rewrite Hs, lookup_insert_eq);
    (split; [exact (Hstate r _ Hrow Hr Hvr Hz)|]).
  - destruct HP as (-> & _). destruct Hup as (_ & He & Hsy). rewrite Hread in He, Hsy.
    split; [|split; [|by rewrite Hf]]; intros Hst; unfold read_row in He, Hsy; cbn [status] in He, Hsy;
      rewrite Hst in He, Hsy; [by apply He|by apply Hsy].
  - by destruct HP as (-> & _).
Qed.

(** A pass over a node whose row was [Good] leaves a row in the relation [P] to
    it. *)
Definition each_pass (cfg : config) (forced : bool) (Good : row -> Prop) (P : row -> row -> Prop) (t0 : nat) : Prop :=
  forall n r0 w, Good r0 -> t0 <= w_tick w -> db_invariant (w_rows w) -> db_ready w -> store w !! node_key n = Some r0 ->
    (exists t, n = read_row (env_time t) r0) ->
    wp (tumgrd_reconcile_one cfg n forced) (fun r w' => r.1 = 0%Z /\ node_key r.2 = node_key n /\ sound w w' /\
      row_at (store w) (P r0) r.2 w') w.

(** The nodes after each other. *)
Lemma wp_nodes_each cfg forced Good P t0 nodes w :
  each_pass cfg forced Good P t0 ->
  db_invariant (w_rows w) -> db_ready w -> listed w nodes ->
  (forall k r0, k ∈ node_key <$> nodes -> store w !! k = Some r0 -> Good r0) -> t0 <= w_tick w ->
  wp (reconcile_nodes cfg forced nodes) (fun failed w' => failed = 0 /\
    (forall k r0, k ∈ node_key <$> nodes -> store w !! k = Some r0 -> exists r, store w' !! k = Some r /\ P r0 r) /\
    (forall k, k ∉ node_key <$> nodes -> store w' !! k = store w !! k)) w.
Proof.
  intros Hone. revert w. induction nodes as [|n nodes IH]; intros w Hinv Hready Hl Hgood Ht; cbn [reconcile_nodes].
  { apply wp_ret. split; [done|]. split; [|done]. intros k r0 Hk. by apply not_elem_of_nil in Hk. }
  pose proof Hl as [Hnd Hall].
  apply Forall_cons in Hall as [(r0 & Hr0 & Hread) _]. rewrite fmap_cons in Hnd. apply NoDup_cons in Hnd as [Hnot _].
  apply wp_bind. eapply wp_mono; [apply (Hone n r0 w); [|done..]; apply (Hgood (node_key n)); [by apply elem_of_cons; left|done]|].
  intros [rc n'] w1 (Hrc & Hk & (Hinv1 & Hready1 & Hlat1) & Hrow). cbn [fst snd] in *. subst rc.
  assert (forall k, k <> node_key n -> store w1 !! k = store w !! k) as Hothers.
  { intros k Hne. eapply row_at_others; [exact Hrow|congruence]. }
  assert (forall k, k ∈ node_key <$> nodes -> store w1 !! k = store w !! k) as Hsame by (intros k Hin; apply Hothers; congruence).
  apply wp_bind. eapply wp_mono.
  { apply IH; [done|done|by eapply listed_after| |].
    - intros k r Hin. rewrite Hsame by done. apply Hgood. by apply elem_of_cons; right.
    - unfold later in Hlat1. lia. }
  intros failed w2 (-> & Hin & Hout). apply wp_ret. split; [done|].
  rewrite fmap_cons. split; [intros k r1|intros k]; rewrite elem_of_cons.
  - intros [->|Hin'] Hr1; [|apply Hin; [done|by rewrite Hsame]]. rewrite Hout by done. rewrite <- Hk.
    destruct (row_at_lookup _ _ _ _ Hrow) as (r & Hr & _ & Hc). assert (r0 = r1) as <- by congruence. by exists r.
  - intros Hk'. rewrite Hout by tauto. apply Hothers. tauto.
Qed.

(** Every row of the table. *)
Lemma wp_all_each cfg forced Good P w :
  each_pass cfg forced Good P (w_tick w) ->
  db_invariant (w_rows w) -> db_ready w -> Forall key_fits (w_rows w) -> (forall t, w_tick w <= t -> env_ok t = true) ->
  Forall Good (w_rows w) ->
  wp (tumgrd_reconcile_all cfg forced) (fun rc w' => rc = 0%Z /\
    forall k r0, store w !! k = Some r0 -> exists r, store w' !! k = Some r /\ P r0 r) w.
Proof.
  intros Hone Hinv Hready Hfit Hcalls Hh. apply wp_bind.
  eapply wp_mono; [by apply wp_list_listed; [apply Hinv|]|].
  intros [rc nodes] w1 [H1 Hlist]. cbn [fst snd] in *.
  destruct Hlist as [(-> & Hl & Hkeys & Hread)|(_ & [Hno|(t & Ht & Hf)])]; [|done|by rewrite Hcalls in Hf by lia].
  pose proof (calm_fields _ _ H1) as (_ & _ & _ & Hrows & _).
  cbn [Z.ltb Z.compare]. apply wp_bind. eapply wp_mono.
  { apply (wp_nodes_each cfg forced Good P (w_tick w)); [done|by rewrite Hrows| |done| |].
    - eapply same_schema_ready; [apply (calm_respects _ _ _ H1)|done].
    - intros k r0 _ Hr. rewrite Hrows in Hr. apply to_map_lookup in Hr as [Hr _]; [|apply Hinv].
      rewrite Forall_forall in Hh. by apply Hh.
    - change (later w w1). apply (calm_respects _ _ _ H1). }
  intros failed w2 (-> & Hin & _). apply wp_ret. split; [done|]. intros k r0 Hr.
  apply Hin; [|by rewrite Hrows]. rewrite Hkeys. apply to_map_lookup in Hr as [Hr <-]; [|apply Hinv].
  apply list_elem_of_fmap_2. unfold select_ordered. by rewrite merge_sort_Permutation.
Qed.

Lemma wp_all_converge cfg forced w :
  db_invariant (w_rows w) -> db_ready w -> Forall key_fits (w_rows w) -> healthy_table w ->
  wp (tumgrd_reconcile_all cfg forced) (fun rc w' => rc = 0%Z /\
    forall k, k ∈ dom (store w) -> exists r, store w' !! k = Some r /\ converged forced r) w.
Proof.
  intros Hinv Hready Hfit [Hcalls Hh]. eapply wp_mono.
  - apply (wp_all_each cfg forced (fun r => forall t, Healthy (read_row (env_time t) r) (w_tick w)) (fun _ => converged forced)); try done.
    intros n r0 w1 Hn Ht Hinv1 Hready1 Hr0 [t Hread]. apply (wp_node_converges cfg n forced r0 w1); [done..|by eexists|].
    eapply healthy_for; [exact Ht|by rewrite Hread..|exact (Hn t)].
  - intros rc w' [-> Hrows]. split; [done|]. intros k [r0 Hr]%elem_of_dom. by eapply Hrows.
Qed.

Context `{!Responsive}.

(** C3: in a healthy system one pass over all nodes is enough.  If from now on
    the calls to the kernel and the engine succeed, the check server answers
    for every node, [tuctl_client] updates the servers and [ktuctl] adds the
    clients, then the pass returns 0, whatever the rotations and the failures
    before it have left in a well-formed table; every visit succeeds, the
    table keeps its nodes, and no row has a rotation left or an error to
    retry.  After a forced pass every row is active. *)
Theorem healthy_table_converges cfg forced w :
  watched w -> db_invariant (w_rows w) -> db_ready w -> Forall key_fits (w_rows w) -> healthy_table w ->
  exists w', tumgrd_reconcile_all cfg forced w = Some (0%Z, w') /\
    db_invariant (w_rows w') /\ dom (store w') = dom (store w) /\ Forall (converged forced) (w_rows w') /\
    exists nodes rs w1, calm w w1 /\ node_key <$> nodes = row_key <$> select_ordered (w_rows w) /\
      passes cfg forced nodes w1 rs w' /\ Forall (fun r => r.1 = 0%Z) rs.
Proof.
  intros Hw Hinv Hready Hfit Hh.
  destruct (total_wp watched (tumgrd_reconcile_all cfg forced) _ w Hw
    (wp_and _ _ _ _ (wp_all_converge cfg forced w Hinv Hready Hfit Hh)
      (reconcile_all_spec cfg forced w (proj1 Hinv) Hfit))) as (rc & w' & Hrun & [-> Hconv] & Hrec).
  pose proof (keeps_reconcile_all cfg forced w _ w' Hrun Hinv) as Hinv'. pose proof (reconciled_dom _ _ _ _ _ Hrec) as Hdom.
  exists w'. split; [done|]. split; [done|]. split; [done|]. split.
  - apply to_map_forall; [apply Hinv'|]. intros k r Hr. destruct (Hconv k) as (r' & Hr' & Hc); [|congruence].
    rewrite <- Hdom. by eapply elem_of_dom_2.
  - destruct Hrec as [(Hneg & _)|(nodes & rs & w1 & H1 & Hk & Hp & _ & Hall)]; [lia|].
    exists nodes, rs, w1. split_and!; [done..|by apply Hall].
Qed.
End Converge.

(** ** A healthy system *)

(** Beside the node that is rotating, one that the last pass could not apply. *)
Definition failed_row : row :=
  set_c_status (Some TUMGRD_STATUS_ERROR) (row_of_node (filled 1 1 (set_uid "other" (set_client_port 40001 sample_node))) true).
Definition troubled_world : world := world_with (mkColumns true true true true) [sample_rotating; failed_row].

Lemma troubled_invariant : db_invariant (w_rows troubled_world).
Proof.
  split; [split; apply (bool_decide_eq_true_1 _); vm_compute; reflexivity|].
  apply Forall_cons. split; [|apply Forall_singleton; by left].
  exact (proj1 (Forall_singleton _ _) (proj2 rotating_table_ok)).
Qed.

Lemma troubled_keys_fit : Forall key_fits (w_rows troubled_world).
Proof.
  apply Forall_cons. split; [|apply Forall_singleton]; unfold key_fits, text_fits, int_fits; cbn;
    (split_and!; try lia; by repeat constructor).
Qed.

Lemma troubled_ready : db_ready troubled_world.
Proof. split; [done|]. by eexists. Qed.

Lemma troubled_healthy : @healthy_table healthy_env working_exec troubled_world.
Proof.
  split; [done|].
  apply Forall_cons. split; [|apply Forall_singleton]; intros t; apply (@healthy_for healthy_env working_exec rotating_node _ 0 0);
    solve [lia|vm_compute; reflexivity|exact healthy_system].
Qed.

(** The pass repairs both: three commands for the one, three for the other. *)
Example both_are_repaired :
  match @tumgrd_reconcile_all healthy_env working_exec sample_config false troubled_world with
  | Some (rc, w') => rc = 0%Z /\ length (commands (w_trace w')) = 6 /\
      Forall (fun r => c_status r = Some TUMGRD_STATUS_ACTIVE /\ c_rotation_state r = Some 0%Z) (w_rows w')
  | None => False
  end.
Proof. vm_compute. split_and!; [reflexivity..|]. repeat constructor. Qed.

Lemma healthy_table_converges_witness : exists w',
  @tumgrd_reconcile_all healthy_env working_exec sample_config false troubled_world = Some (0%Z, w') /\
  Forall (converged false) (w_rows w').
Proof.
  destruct (@healthy_table_converges healthy_env working_exec working_exec_laws healthy_responsive sample_config false
    troubled_world eq_refl troubled_invariant troubled_ready troubled_keys_fit troubled_healthy) as (w' & Hrun & _ & _ & Hc & _).
  exists w'. split; [exact Hrun|exact Hc].
Defined.
