(* ===== verification/UbusIf.v ===== *)
(** * UbusIf: ubus_if.c

    The methods of the bus object, the callbacks of the event loop, and the
    set-up and tear-down of the connection.  [blobmsg_parse] of libubox gives a
    handler one attribute or NULL for each entry of its policy, of the type the
    policy names; a request is that table.  The answers of libubus are those of
    the environment. *)

From S2P Require Import Prelude CLib Types World Logic Helper Db DbSpec Exec ExecSpec Runner IpDetect Reconcile.

(** The codes that the handlers return. *)
Inductive ubus_status := UBUS_STATUS_OK | UBUS_STATUS_INVALID_ARGUMENT | UBUS_STATUS_UNKNOWN_ERROR.

#[export] Instance ubus_status_eq_dec : EqDecision ubus_status.
Proof. solve_decision. Defined.

Definition TUMGRD_STARTUP_RECONCILE_DELAY_MS : Z := 3000.

(** The return code and [out]. *)
Definition normalize_ip_version (input : option cstr) (out_len : nat) : Z * cstr :=
  match input with
  | None | Some [] => (0%Z, [])
  | Some v =>
      if streqcase input (Some (literal "4")) || streqcase input (Some (literal "-4")) || streqcase input (Some (literal "ipv4"))
      then (0%Z, copy_string [] out_len (Some (literal "ipv4")))
      else if streqcase input (Some (literal "6")) || streqcase input (Some (literal "-6")) || streqcase input (Some (literal "ipv6"))
      then (0%Z, copy_string [] out_len (Some (literal "ipv6")))
      else ((-1)%Z, [])
  end.

(** [None] if the version is not one. *)
Definition get_normalized_ip_version (attr : option cstr) : option cstr :=
  let r := normalize_ip_version (Some (default [] attr)) SZ_IP_VERSION in
  if (r.1 =? 0)%Z then Some r.2 else None.

Definition blobmsg_get_bool_default (attr : option Z) (defval : bool) : bool :=
  match attr with None => defval | Some v => negb (v =? 0)%Z end.

(** ** What a reply says of a node *)
Definition add_optional (name value : cstr) : list blob := match value with [] => [] | _ => [BStr name value] end.

Definition expires (n : node) : bool :=
  (0 <? lifetime n)%Z && (1 <? last_applied_at n)%Z && (last_applied_at n <=? INT64_MAX - lifetime n)%Z.

Definition add_node_brief (n : node) : list blob :=
  [BStr "uid" (uid n); BStr "server_host" (server_host n); BU32 "server_port" (uint32 (server_port n));
   BStr "psk" (psk n); BU32 "client_port" (uint32 (client_port n))] ++
  add_optional "description" (description n) ++ add_optional "client_comment" (client_comment n) ++
  add_optional "ip_check_url" (ip_check_url n) ++ add_optional "ip_version" (ip_version n) ++
  [BStr "current_ip" (current_ip n); BStr "node_status" (status n);
   BU64 "created_at" (uint64 (created_at n)); BU64 "last_updated" (uint64 (last_updated n))] ++
  (if (has_memlimit n =? 0)%Z then [] else [BU32 "memlimit" (uint32 (memlimit n))]) ++
  add_optional "xor" (xor_key n) ++ [BU64 "lifetime" (uint64 (lifetime n))] ++
  (if expires n then [BU64 "expires_at" (uint64 (last_applied_at n + lifetime n))] else []) ++
  (if (rotation_state n =? TUMGRD_ROTATION_NONE)%Z then []
   else [BU32 "rotation_state" (uint32 (rotation_state n))] ++ add_optional "xor_key_pending" (xor_key_pending n)).

(** ** Requests *)
Record register_request := mkRegister {
  reg_uid : option cstr;
  reg_server_host : option cstr;
  reg_server_port : option Z;
  reg_client_port : option Z;
  reg_psk : option cstr;
  reg_description : option cstr;
  reg_client_comment : option cstr;
  reg_memlimit : option Z;
  reg_ip_check_url : option cstr;
  reg_ip_version : option cstr;
  reg_xor_key : option cstr;
  reg_lifetime : option Z
}.

(** The attributes that name a node: those of deregister, and some of refresh. *)
Record node_request := mkNodeRequest {
  req_uid : option cstr;
  req_server_host : option cstr;
  req_server_port : option Z;
  req_ip_version : option cstr
}.

Record refresh_request := mkRefresh {
  ref_node : node_request;
  ref_force : option Z;
  ref_all : option Z
}.

(** *** The fields a request sets *)
Definition bad_port (p : Z) : bool := (p <=? 0)%Z || (65535 <? p)%Z.

(** [snprintf(field, sizeof(field), "%s", attr)] if the attribute is there. *)
Definition set_text (set : cstr -> node -> node) (size : nat) (attr : option cstr) (n : node) : node :=
  match attr with Some s => set (snprintf_s size s) n | None => n end.

Definition set_required (uid0 host0 psk0 : cstr) (port0 cport0 : Z) (n : node) : node :=
  set_psk (snprintf_s SZ_TEXT psk0) (set_client_port cport0 (set_server_port port0
    (set_server_host (snprintf_s SZ_TEXT host0) (set_uid (snprintf_s SZ_UID uid0) n)))).

Definition set_memlimit_attr (attr : option Z) (n : node) : node :=
  match attr with
  | None => n
  | Some u =>
      let val := int32 u in
      if (0 <? val)%Z then set_memlimit val (set_has_memlimit 1 n) else set_memlimit 0 (set_has_memlimit 0 n)
  end.

Definition set_optional (tb : register_request) (version : cstr) (n : node) : node :=
  set_ip_version (snprintf_s SZ_IP_VERSION version)
    (set_text set_ip_check_url SZ_TEXT (reg_ip_check_url tb)
      (set_memlimit_attr (reg_memlimit tb)
        (set_text set_client_comment SZ_TEXT (reg_client_comment tb)
          (set_text set_description SZ_TEXT (reg_description tb) n)))).

(** [None]: the request is refused. *)
Definition override_xor (attr : option cstr) (n : node) : option node :=
  match attr with
  | None => Some n
  | Some k =>
      if negb (is_safe_id (Some k)) then None
      else if negb (rotation_state n =? TUMGRD_ROTATION_NONE)%Z then None
      else Some (set_xor_key (snprintf_s SZ_XOR_KEY k) n)
  end.

(** The node and whether its lifetime is to be stored. *)
Definition override_lifetime (attr : option Z) (created : bool) (n : node) : option (node * bool) :=
  match attr with
  | None => Some (n, created)
  | Some lt =>
      if negb (lt =? 0)%Z && (lt <? TUMGRD_LIFETIME_MIN)%Z then None
      else if (TUMGRD_LIFETIME_MAX <? lt)%Z then None
      else Some (set_lifetime lt n, true)
  end.

Section Handlers.
Context `{E : Env} {Run : Exec}.
Implicit Types (cfg : config).

Definition ubus_send_reply (msg : list blob) : M unit := emit (EvReply msg).

Definition reply_simple (status message : option cstr) : M unit :=
  ubus_send_reply (match status with Some s => [BStr "status" s] | None => [] end ++
                   match message with Some s => [BStr "message" s] | None => [] end).

(** The return code and [*out]. *)
Definition resolve_node (k : key) (out : node) : M (Z * node) :=
  r ← tumgrd_db_get_node k out;
  mret (if (r.1 =? 0)%Z then 0 else if (r.1 =? 1)%Z then 1 else -1, r.2)%Z.

(** The row of a node read again after a pass, or the node if that fails. *)
Definition refetch (n : node) : M node :=
  r ← tumgrd_db_get_node (node_key n) node_zero;
  mret (if (r.1 =? 0)%Z then r.2 else n).

(** ** register *)

(** The node a request starts from, and whether it is a new one. *)
Definition register_start cfg (k : key) : M (option (node * bool)) :=
  got ← tumgrd_db_get_node k node_zero;
  if (got.1 =? 0)%Z then mret (Some (got.2, false))
  else if (got.1 =? 1)%Z then
    now ← time;
    mret (Some (set_last_applied_at (if (TUMGRD_MIN_SANE_TIME <=? now)%Z then now else 0%Z)
                  (set_lifetime (default_lifetime cfg) node_zero), true))
  else mret None.

Definition register_key cfg (created : bool) (n : node) : M (option node) :=
  if created && enable_xor cfg then
    r ← generate_random_hex_key (xor_key n) SZ_XOR_KEY 64;
    mret (if (r.1 =? 0)%Z then Some (set_xor_key r.2 n) else None)
  else mret (Some n).

(** From the node as it will be stored: store, apply, read again, reply. *)
Definition register_apply cfg (created set_lt : bool) (n : node) : M ubus_status :=
  rc ← tumgrd_db_upsert_node n set_lt;
  if negb (rc =? 0)%Z then mret UBUS_STATUS_UNKNOWN_ERROR
  else
    r ← tumgrd_reconcile_one cfg n true;
    n' ← refetch r.2;
    ubus_send_reply
      ([BStr "status" (if (r.1 =? 0)%Z then literal "ok" else literal "stored_but_apply_failed");
        BStr "action" (if created then literal "created" else literal "updated");
        BU8 "applied" (if (r.1 =? 0)%Z then 1 else 0)%Z] ++ add_node_brief n');;
    mret UBUS_STATUS_OK.

Definition register_node cfg (tb : register_request) (k : key) (cport : Z) (psk0 : cstr) : M ubus_status :=
  start ← register_start cfg k;
  match start with
  | None => mret UBUS_STATUS_UNKNOWN_ERROR
  | Some (n0, created) =>
      keyed ← register_key cfg created (set_required (k_uid k) (k_host k) psk0 (k_port k) cport n0);
      match keyed with
      | None => mret UBUS_STATUS_UNKNOWN_ERROR
      | Some n1 =>
          match override_xor (reg_xor_key tb) (set_optional tb (k_version k) n1) with
          | None => mret UBUS_STATUS_INVALID_ARGUMENT
          | Some n2 =>
              match override_lifetime (reg_lifetime tb) created n2 with
              | None => mret UBUS_STATUS_INVALID_ARGUMENT
              | Some (n3, set_lt) => register_apply cfg created set_lt n3
              end
          end
      end
  end.

Definition handle_register cfg (tb : register_request) : M ubus_status :=
  match reg_uid tb, reg_server_host tb, reg_server_port tb, reg_client_port tb, reg_psk tb with
  | Some uid0, Some host0, Some port0, Some cport0, Some psk0 =>
      if negb (is_safe_id (Some uid0)) then mret UBUS_STATUS_INVALID_ARGUMENT
      else if bad_port (int32 port0) then mret UBUS_STATUS_INVALID_ARGUMENT
      else if bad_port (int32 cport0) then mret UBUS_STATUS_INVALID_ARGUMENT
      else match get_normalized_ip_version (reg_ip_version tb) with
           | None => mret UBUS_STATUS_INVALID_ARGUMENT
           | Some version => register_node cfg tb (mkKey host0 (int32 port0) uid0 version) (int32 cport0) psk0
           end
  | _, _, _, _, _ => mret UBUS_STATUS_INVALID_ARGUMENT
  end.

(** ** deregister *)

(** The key that a request names, or nothing if it is incomplete or invalid. *)
Definition requested_key (tb : node_request) : option key :=
  match req_uid tb, req_server_host tb, req_server_port tb with
  | Some uid0, Some host0, Some port0 =>
      option_map (mkKey host0 (int32 port0) uid0) (get_normalized_ip_version (req_ip_version tb))
  | _, _, _ => None
  end.

Definition deregister_node (n : node) : M ubus_status :=
  rc_server ← tumgrd_runner_server_del n;
  rc_client ← tumgrd_runner_client_del n;
  rc_db ← tumgrd_db_delete_node (node_key n);
  let flag rc := if (rc =? 0)%Z then 1%Z else 0%Z in
  ubus_send_reply
    ((if negb (rc_db =? 0)%Z then [BStr "status" "error"; BStr "message" "database delete failed"]
      else if (rc_server =? 0)%Z && (rc_client =? 0)%Z then [BStr "status" "deleted"]
      else [BStr "status" "deleted_with_cleanup_errors"]) ++
     [BU8 "server_deleted" (flag rc_server); BU8 "client_deleted" (flag rc_client); BU8 "db_deleted" (flag rc_db)] ++
     add_node_brief n);;
  mret UBUS_STATUS_OK.

Definition handle_deregister (tb : node_request) : M ubus_status :=
  match requested_key tb with
  | None => mret UBUS_STATUS_INVALID_ARGUMENT
  | Some k =>
      r ← resolve_node k node_zero;
      if (r.1 =? 1)%Z then reply_simple (Some (literal "not_found")) (Some (literal "node not found"));; mret UBUS_STATUS_OK
      else if negb (r.1 =? 0)%Z then mret UBUS_STATUS_UNKNOWN_ERROR
      else deregister_node r.2
  end.

(** ** refresh *)
Definition refresh_all cfg (force : bool) : M ubus_status :=
  err ← tumgrd_reconcile_all cfg force;
  ubus_send_reply [BStr "status" (if (err =? 0)%Z then literal "ok" else literal "partial_error"); BStr "scope" "all";
                   BU8 "force" (if force then 1 else 0)%Z];;
  mret UBUS_STATUS_OK.

Definition refresh_node cfg (force : bool) (n : node) : M ubus_status :=
  r ← tumgrd_reconcile_one cfg n force;
  n' ← refetch r.2;
  ubus_send_reply
    ([BStr "status" (if (r.1 =? 0)%Z then literal "ok" else literal "error"); BStr "scope" "one";
      BU8 "force" (if force then 1 else 0)%Z;
      BStr "note" "force=true forces apply; otherwise apply only when IP changed or status error"] ++ add_node_brief n');;
  mret UBUS_STATUS_OK.

Definition handle_refresh cfg (tb : refresh_request) : M ubus_status :=
  let is_all := blobmsg_get_bool_default (ref_all tb) false in
  let is_force := blobmsg_get_bool_default (ref_force tb) false in
  if is_all then refresh_all cfg is_force
  else match requested_key (ref_node tb) with
       | None => mret UBUS_STATUS_INVALID_ARGUMENT
       | Some k =>
           r ← resolve_node k node_zero;
           if (r.1 =? 1)%Z then ubus_send_reply [BStr "status" "not_found"];; mret UBUS_STATUS_OK
           else if negb (r.1 =? 0)%Z then mret UBUS_STATUS_UNKNOWN_ERROR
           else refresh_node cfg is_force r.2
       end.

(** ** status and dump *)
Definition handle_status : M ubus_status :=
  r ← tumgrd_db_list_nodes;
  if negb (r.1 =? 0)%Z then mret UBUS_STATUS_UNKNOWN_ERROR
  else
    ubus_send_reply [BStr "status" "ok"; BU32 "count" (uint32 (Z.of_nat (length r.2)));
                     BArray "nodes" (add_node_brief <$> r.2)];;
    mret UBUS_STATUS_OK.

(** ** Callbacks *)

(** [None] for a NULL message; otherwise its [action] and [interface]. *)
Definition net_event_cb (uci_enabled : bool) cfg (msg : option (option cstr * option cstr)) : M unit :=
  match msg with
  | Some (Some action, Some ifname) =>
      if streq (Some action) (Some (literal "ifup")) then
        r ← check_wan_interface uci_enabled (Some ifname) false;
        if negb (r.1 =? 0)%Z then mret tt
        else if (r.2 : bool) then tumgrd_reconcile_all cfg true;; mret tt
        else mret tt
      else mret tt
  | _ => mret tt
  end.

Definition uloop_timeout_set (t : timer) (msecs : Z) : M unit := emit (EvTimer t (int32 msecs)).
Definition uloop_timeout_cancel (t : timer) : M unit := emit (EvTimerCancel t).

Definition startup_reconcile_timer_cb cfg : M unit := tumgrd_reconcile_all cfg true;; mret tt.

Definition periodic_reconcile_timer_cb cfg : M unit :=
  tumgrd_reconcile_all cfg false;;
  uloop_timeout_set PeriodicTimer (uint32 (interval_sec cfg * 1000)).
End Handlers.

(** ** The connection *)

(** The members of [struct tumgrd_ctx] for the bus: whether [ubus] is not NULL,
    and the two flags. *)
Record ubus_state := mkUbus {
  ubus : bool;
  net_event_registered : bool;
  ubus_obj_added : bool
}.

Section Connection.
Context `{E : Env}.

Definition ubus_call (name : string) : M unit := emit (EvUbus name).

Definition tumgrd_ubus_cleanup (st : ubus_state) : M ubus_state :=
  if negb (ubus st) then mret st
  else
    (if net_event_registered st then ubus_call "unregister_event_handler" else mret tt);;
    (if ubus_obj_added st then ubus_call "remove_object" else mret tt);;
    uloop_timeout_cancel StartupTimer;;
    uloop_timeout_cancel PeriodicTimer;;
    ubus_call "free";;
    mret (mkUbus false false false).

(** The return code and the state. *)
Definition tumgrd_ubus_init (cfg : config) (st : ubus_state) : M (Z * ubus_state) :=
  connected ← succeeds;                                     (* ubus_connect *)
  if negb connected then mret ((-1)%Z, mkUbus false (net_event_registered st) (ubus_obj_added st))
  else
    ubus_call "connect";;
    registered ← call env_status;                            (* ubus_register_event_handler *)
    (if (registered =? 0)%Z then ubus_call "register_event_handler" else mret tt);;
    added ← call env_status;                                 (* ubus_add_object *)
    let st1 := mkUbus true (registered =? 0)%Z false in
    if negb (added =? 0)%Z then st2 ← tumgrd_ubus_cleanup st1; mret (added, st2)
    else
      ubus_call "add_object";;
      uloop_timeout_set StartupTimer TUMGRD_STARTUP_RECONCILE_DELAY_MS;;
      uloop_timeout_set PeriodicTimer (uint32 (interval_sec cfg * 1000));;
      mret (0%Z, mkUbus true (registered =? 0)%Z true).
End Connection.

(** ** What is held

    A timer that is set is pending until it fires or is cancelled. *)

(** What the process holds of the bus, read off its calls; [None] after a call
    that is out of order: something registered without a connection or twice,
    or a connection freed while an object or a handler is registered. *)
Record bus := mkBus { b_conn : bool; b_handler : bool; b_object : bool; b_startup : bool; b_periodic : bool }.

Definition bus_idle : bus := mkBus false false false false false.

Definition bus_call (name : string) (b : bus) : option bus :=
  let 'mkBus c h o s p := b in
  if decide (name = "connect"%string) then if c then None else Some (mkBus true h o s p)
  else if decide (name = "register_event_handler"%string) then if c && negb h then Some (mkBus c true o s p) else None
  else if decide (name = "unregister_event_handler"%string) then if c && h then Some (mkBus c false o s p) else None
  else if decide (name = "add_object"%string) then if c && negb o then Some (mkBus c h true s p) else None
  else if decide (name = "remove_object"%string) then if c && o then Some (mkBus c h false s p) else None
  else if decide (name = "free"%string) then if c && negb h && negb o then Some (mkBus false h o s p) else None
  else None.

Definition bus_step (e : event) (b : option bus) : option bus :=
  match b with
  | None => None
  | Some b =>
      match e with
      | EvUbus name => bus_call name b
      | EvTimer StartupTimer _ => Some (mkBus (b_conn b) (b_handler b) (b_object b) true (b_periodic b))
      | EvTimer PeriodicTimer _ => Some (mkBus (b_conn b) (b_handler b) (b_object b) (b_startup b) true)
      | EvTimerCancel StartupTimer | EvTimerFired StartupTimer => Some (mkBus (b_conn b) (b_handler b) (b_object b) false (b_periodic b))
      | EvTimerCancel PeriodicTimer | EvTimerFired PeriodicTimer => Some (mkBus (b_conn b) (b_handler b) (b_object b) (b_startup b) false)
      | _ => Some b
      end
  end.

Definition bus_after (t : list event) : option bus := foldr bus_step (Some bus_idle) t.
