(* ===== verification/UbusSpec.v ===== *)
(** * UbusSpec: what ubus_if.c promises

    Each request is answered once or refused, and what is said in the answer
    is what happened; a refused request leaves the database and the system
    alone; the desired state of a node changes only on request. *)

From S2P Require Import Prelude CLib Types World Logic Helper Db DbSpec Exec ExecSpec Runner IpDetect IpDetectSpec Reconcile ReconcileSpec ReconcileProps UbusIf.

(** ** Replies between two worlds *)
Definition reply_of (e : event) : option (list blob) := match e with EvReply msg => Some msg | _ => None end.
Definition replies (t : list event) : list (list blob) := reverse (omap reply_of t).

Definition replies_between (msgs : list (list blob)) (w w' : world) : Prop :=
  exists t, w_trace w' = t ++ w_trace w /\ replies t = msgs.

Lemma replies_between_app m1 m2 w1 w2 w3 :
  replies_between m1 w1 w2 -> replies_between m2 w2 w3 -> replies_between (m1 ++ m2) w1 w3.
Proof.
  intros (t1 & H1 & <-) (t2 & H2 & <-). exists (t2 ++ t1). rewrite H2, H1, app_assoc. split; [done|].
  unfold replies. by rewrite omap_app, reverse_app.
Qed.

Definition no_replies : relation world := replies_between [].

#[export] Instance no_replies_silent : Silent no_replies.
Proof.
  split; [split|].
  - intros w. by exists [].
  - intros w1 w2 w3. apply (replies_between_app [] []).
  - intros w n b _. by exists [].
Qed.
#[export] Instance no_replies_fd_silent : FdSilent no_replies.
Proof. intros w s. by exists []. Qed.
#[export] Instance no_replies_db_silent : DbSilent no_replies.
Proof. intros w rows n. by exists []. Qed.
#[export] Instance no_replies_sql name : Allows no_replies (EvSql name).
Proof. intros w. by exists [EvSql name]. Qed.
#[export] Instance no_replies_connect m : Allows no_replies (EvConnect m).
Proof. intros w. by exists [EvConnect m]. Qed.
#[export] Instance no_replies_request h p m q : Allows no_replies (EvRequest h p m q).
Proof. intros w. by exists [EvRequest h p m q]. Qed.

Lemma process_events_reply t : Forall process_event t -> replies t = [].
Proof.
  intros Ht. unfold replies. replace (omap reply_of t) with (@nil (list blob)); [done|].
  induction Ht as [|e t He _ IH]; [done|]. by destruct e.
Qed.

#[export] Instance no_replies_exec `{E : Env} {Run : Exec} `{!ExecLaws Run} argv input has mem n1 n2 :
  Respects no_replies (exec argv input has mem n1 n2).
Proof. intros w r w' (t & Ht & Hp)%exec_events. exists t. split; [done|]. by apply process_events_reply. Qed.

(** ** The desired state *)

(** The columns that say what the user asked for, and the key of the row. *)
Definition desired (r : row) :=
  (row_key r, (c_psk r, c_client_port r, c_memlimit r), (c_description r, c_client_comment r, c_ip_check_url r),
   (c_created_at r, c_lifetime r)).

(** The rows are the same but for their outcome and their rotation. *)
Definition same_desired : relation world := fun w w' =>
  table_ok (w_rows w) -> table_ok (w_rows w') /\ desired <$> store w' = desired <$> store w.

#[export] Instance same_desired_silent : Silent same_desired.
Proof.
  split; [split|].
  - intros w. by split.
  - intros w1 w2 w3 H1 H2 Hok. destruct (H1 Hok) as [Hok2 <-]. by apply H2.
  - intros w n b _. by split.
Qed.
#[export] Instance same_desired_fd_silent : FdSilent same_desired.
Proof. intros w s. by split. Qed.
#[export] Instance same_desired_allows e : Allows same_desired e.
Proof. intros w. by split. Qed.

Lemma same_db_desired {A} (m : M A) : Respects same_db m -> Respects same_desired m.
Proof. intros Hm w a w' (_ & _ & Hr)%Hm Hok. by rewrite Hr. Qed.

Lemma desired_insert (m : gmap key row) k r (f : row -> row) :
  m !! k = Some r -> desired (f r) = desired r -> desired <$> <[k := f r]> m = desired <$> m.
Proof. intros Hk Hf. rewrite fmap_insert, Hf, insert_id; [done|]. by rewrite lookup_fmap, Hk. Qed.

Section Desired.
Context `{E : Env}.

(** Operations of the database that only touch the outcome or the rotation. *)
Definition outcome_op (op : db_op) : bool := match op with OpUpsert _ _ | OpDelete _ => false | _ => true end.

Lemma abs_update_desired k guard f m rc m' :
  (forall r, desired (f r) = desired r) -> abs_update k guard f m rc m' -> desired <$> m' = desired <$> m.
Proof.
  intros Hf. unfold abs_update. destruct (m !! k) as [r|] eqn:Hk; [|by intros [_ ->]].
  destruct (guard r); intros [_ ->]; [by apply desired_insert|done].
Qed.

Lemma abs_step_desired op m rc m' : outcome_op op = true -> abs_step op m rc m' -> desired <$> m' = desired <$> m.
Proof.
  destruct op; try done; intros _; cbn [abs_step];
    try (eapply abs_update_desired; intros r; reflexivity).
  intros [_ ->]. apply map_eq. intros k'. rewrite !lookup_fmap.
  destruct (decide (k = k')) as [<-|Hne]; [|by rewrite lookup_alter_ne].
  rewrite lookup_alter_eq. by destruct (m !! k).
Qed.

Lemma run_op_desired op : outcome_op op = true -> Respects same_desired (run_op op).
Proof.
  intros Hop w rc w' Hrun Hok. destruct (wp_elim _ _ _ _ _ (run_op_spec op w Hok) Hrun) as [Hok' [Hs|(_ & Hr & _)]].
  - split; [done|]. by eapply abs_step_desired.
  - by rewrite Hr.
Qed.

#[export] Instance desired_update_runtime k ip st ts : Respects same_desired (tumgrd_db_update_runtime k ip st ts).
Proof. by apply (run_op_desired (OpRuntime k ip st ts)). Qed.
#[export] Instance desired_update_applied k ts : Respects same_desired (tumgrd_db_update_applied k ts).
Proof. by apply (run_op_desired (OpApplied k ts)). Qed.
#[export] Instance desired_begin_rotation k x st now : Respects same_desired (tumgrd_db_begin_rotation k x st now).
Proof. by apply (run_op_desired (OpBegin k x st now)). Qed.
#[export] Instance desired_complete_rotation k ts : Respects same_desired (tumgrd_db_complete_rotation k ts).
Proof. by apply (run_op_desired (OpComplete k ts)). Qed.
#[export] Instance desired_update_rotation_state k st : Respects same_desired (tumgrd_db_update_rotation_state k st).
Proof. by apply (run_op_desired (OpState k st)). Qed.
#[export] Instance desired_replace_rotation k x now : Respects same_desired (tumgrd_db_replace_rotation k x now).
Proof. by apply (run_op_desired (OpReplace k x now)). Qed.
#[export] Instance desired_clear_rotation k : Respects same_desired (tumgrd_db_clear_rotation k).
Proof. by apply (run_op_desired (OpClear k)). Qed.
#[export] Instance desired_list_nodes : Respects same_desired tumgrd_db_list_nodes.
Proof.
  apply same_db_desired. intros w r w' Hrun.
  destruct (wp_elim _ _ _ _ _ (list_spec w) Hrun) as [Hc _]. exact (calm_respects _ _ _ Hc).
Qed.

Context {Run : Exec} `{!ExecLaws Run}.

#[export] Instance desired_exec argv input has mem k1 k2 : Respects same_desired (exec argv input has mem k1 k2).
Proof. apply same_db_desired. apply _. Qed.

#[export] Instance desired_reconcile_one cfg n forced : Respects same_desired (tumgrd_reconcile_one cfg n forced).
Proof.
  assert (RespectsX same_desired fresh_key) as Hkey by (unfold fresh_key; apply _).
  assert (forall now, RespectsX same_desired (repair_rotation cfg now)) as Hrepair by (intros; unfold repair_rotation, must; apply _).
  assert (forall now, RespectsX same_desired (begin_rotation cfg now)) as Hbegin by (intros; unfold begin_rotation, must; apply _).
  unfold tumgrd_reconcile_one, reconcile_block, settle_rotation, resume_or_expire, detect_and_decide, apply_node,
    finish_rotation, mark_failed, mark_runtime, must, time. cbv zeta. apply _.
Qed.

#[export] Instance desired_reconcile_all cfg forced : Respects same_desired (tumgrd_reconcile_all cfg forced).
Proof.
  assert (forall nodes, Respects same_desired (reconcile_nodes cfg forced nodes)) as Hn.
  { induction nodes; cbn [reconcile_nodes]; apply _. }
  unfold tumgrd_reconcile_all. apply _.
Qed.
End Desired.

(** ** Versions of the IP protocol *)

(** Normalising a version accepts an empty one and the six spellings of 4
    and 6 in any case, gives one of three strings, leaves those as they are,
    and does not change which flag the tools get; the address check then
    understands the result.  Anything else is refused with an empty output. *)
Theorem normalize_ip_version_spec input :
  let r := normalize_ip_version (Some input) SZ_IP_VERSION in
  (r = ((-1)%Z, []) /\ input <> [] /\ ip_version_flag input = None) \/
  (r.1 = 0%Z /\ normalize_ip_version (Some r.2) SZ_IP_VERSION = r /\ ip_version_flag r.2 = ip_version_flag input /\
   ((r.2 = [] /\ input = []) \/ (r.2 = "ipv4" /\ ip_family_from_version r.2 = 4%Z) \/ (r.2 = "ipv6" /\ ip_family_from_version r.2 = 6%Z))).
Proof.
  destruct input as [|c s]; [right; split_and!; try done; by left|].
  unfold normalize_ip_version, ip_version_flag at 1 3. cbv beta iota zeta.
  set (is4 := streqcase (Some (c :: s)) (Some (literal "4"))). set (ism4 := streqcase (Some (c :: s)) (Some (literal "-4"))).
  set (isv4 := streqcase (Some (c :: s)) (Some (literal "ipv4"))). set (is6 := streqcase (Some (c :: s)) (Some (literal "6"))).
  set (ism6 := streqcase (Some (c :: s)) (Some (literal "-6"))). set (isv6 := streqcase (Some (c :: s)) (Some (literal "ipv6"))).
  destruct is4, ism4, isv4; cbn [orb];
    try (right; split_and!; [done..|right; left; by split]).
  destruct is6, ism6, isv6; cbn [orb]; try (right; split_and!; [done..|right; right; by split]).
  by left.
Qed.

(** ** What a reply says of a node *)
Definition blob_name (b : blob) : cstr :=
  match b with BStr n _ | BU8 n _ | BU32 n _ | BU64 n _ | BArray n _ => n end.

(** The attribute of a name. *)
Definition blob_field (name : cstr) (msg : list blob) : option blob := List.find (fun b => bool_decide (blob_name b = name)) msg.

Definition text_of (name : cstr) (msg : list blob) : cstr :=
  match blob_field name msg with Some (BStr _ v) => v | _ => [] end.
Definition int_of (name : cstr) (msg : list blob) : Z :=
  match blob_field name msg with Some (BU32 _ v) => int32 v | _ => 0%Z end.
Definition long_of (name : cstr) (msg : list blob) : Z :=
  match blob_field name msg with Some (BU64 _ v) => int64 v | _ => 0%Z end.

Lemma field_cons name b msg :
  blob_field name (b :: msg) = if bool_decide (blob_name b = name) then Some b else blob_field name msg.
Proof. done. Qed.

Lemma field_app name a b : blob_field name (a ++ b) = match blob_field name a with Some x => Some x | None => blob_field name b end.
Proof. induction a as [|x a IH]; [done|]. rewrite <- app_comm_cons, !field_cons. by destruct (bool_decide _). Qed.

Lemma field_optional name name' v :
  blob_field name (add_optional name' v) =
  if bool_decide (name' = name) then match v with [] => None | _ => Some (BStr name' v) end else None.
Proof. unfold add_optional. destruct v; [by destruct (bool_decide _)|]. by rewrite field_cons. Qed.

Lemma wrapped_id z : int_fits z -> int32 (uint32 z) = z.
Proof. intros Hz. rewrite wrap_s_u by lia. by apply wrap_s_id; [lia|]. Qed.

Lemma optional_sublist name v : (blob_name <$> add_optional name v) `sublist_of` [name].
Proof. destruct v; [apply sublist_nil_l|done]. Qed.

(** The names that may occur, in their order. *)
Definition brief_names : list cstr :=
  ["uid" : cstr; "server_host" : cstr; "server_port" : cstr; "psk" : cstr; "client_port" : cstr] ++
  ["description" : cstr] ++ ["client_comment" : cstr] ++ ["ip_check_url" : cstr] ++ ["ip_version" : cstr] ++
  ["current_ip" : cstr; "node_status" : cstr; "created_at" : cstr; "last_updated" : cstr] ++
  ["memlimit" : cstr] ++ ["xor" : cstr] ++ ["lifetime" : cstr] ++ ["expires_at" : cstr] ++
  ["rotation_state" : cstr; "xor_key_pending" : cstr].

Lemma brief_names_sublist n : (blob_name <$> add_node_brief n) `sublist_of` brief_names.
Proof.
  unfold add_node_brief, brief_names. rewrite !fmap_app.
  repeat (apply sublist_app; [first [apply optional_sublist|by repeat (case_match; try apply sublist_nil_l)]|]).
  destruct (rotation_state n =? _)%Z; [apply sublist_nil_l|]. rewrite fmap_app.
  apply (sublist_app _ ["rotation_state" : cstr] _ ["xor_key_pending" : cstr]); [done|apply optional_sublist].
Qed.

Lemma brief_names_nodup : NoDup brief_names.
Proof. by apply (bool_decide_unpack _). Qed.

(** Look for a field past the ones of other names. *)
Lemma field_if (name : cstr) (c : bool) a b : blob_field name (if c then a else b) = if c then blob_field name a else blob_field name b.
Proof. by destruct c. Qed.

Lemma none_if {A} (c : bool) : (if c then None else None) = @None A.
Proof. by destruct c. Qed.

Ltac find_field :=
  unfold text_of, int_of, long_of, add_node_brief;
  repeat first [rewrite field_app | rewrite field_cons | rewrite field_optional | rewrite field_if];
  cbn [blob_name];
  repeat match goal with |- context [bool_decide (?a = ?b)] =>
    let v := eval vm_compute in (bool_decide (a = b)) in change (bool_decide (a = b)) with v end;
  cbn [blob_field List.find]; rewrite ?none_if.

(** C30: what a reply says of a node can be read back.  No attribute occurs
    twice, and those of the key, the ports, the texts, the status, the two
    times, the lifetime, the memory limit and the rotation give the members of
    the node, the times as integers of 64 bits; the memory limit is there
    exactly if the node has one, and the rotation and its key exactly if one is
    under way; [expires_at] is there exactly if a lifetime runs from a known
    application, and is their sum, which is in the range of the type. *)
Theorem node_brief_reads_back n :
  node_fits n ->
  let msg := add_node_brief n in
  NoDup (blob_name <$> msg) /\
  (text_of "uid" msg = uid n /\ text_of "server_host" msg = server_host n /\ int_of "server_port" msg = server_port n /\
   text_of "ip_version" msg = ip_version n /\ int_of "client_port" msg = client_port n /\ text_of "psk" msg = psk n) /\
  (text_of "description" msg = description n /\ text_of "client_comment" msg = client_comment n /\
   text_of "ip_check_url" msg = ip_check_url n /\ text_of "current_ip" msg = current_ip n /\
   text_of "node_status" msg = status n /\ text_of "xor" msg = xor_key n) /\
  (long_of "created_at" msg = int64 (created_at n) /\ long_of "last_updated" msg = int64 (last_updated n) /\
   long_of "lifetime" msg = lifetime n) /\
  (int_of "memlimit" msg = memlimit n /\ (blob_field "memlimit" msg = None <-> has_memlimit n = 0%Z)) /\
  (int_of "rotation_state" msg = rotation_state n /\
   (blob_field "rotation_state" msg = None <-> rotation_state n = TUMGRD_ROTATION_NONE) /\
   text_of "xor_key_pending" msg = if (rotation_state n =? TUMGRD_ROTATION_NONE)%Z then [] else xor_key_pending n) /\
  (forall v, blob_field "expires_at" msg = Some (BU64 "expires_at" v) <->
     (0 < lifetime n)%Z /\ (1 < last_applied_at n)%Z /\ v = (last_applied_at n + lifetime n)%Z /\ (v <= INT64_MAX)%Z).
Proof.
  intros Hfit msg. split; [exact (sublist_NoDup _ _ brief_names_nodup (brief_names_sublist n))|].
  subst msg. destruct Hfit. split; [|split; [|split; [|split; [|split]]]].
  - split_and!; find_field; rewrite ?wrapped_id by done; try done; by destruct (ip_version n).
  - split_and!; find_field; try done; match goal with |- _ = ?v => by destruct v end.
  - split_and!; find_field; rewrite wrap_s_u by lia; [done|done|]. apply wrap_s_id; [lia|].
    unfold TUMGRD_LIFETIME_MIN, TUMGRD_LIFETIME_MAX, INT32_MAX in *. lia.
  - split; find_field; destruct fits_has_memlimit as [[-> Hm]| ->]; cbn; try done.
    + by apply wrapped_id.
  - split_and!; find_field; destruct (Z.eqb_spec (rotation_state n) TUMGRD_ROTATION_NONE) as [Hz|Hz]; try done.
    + by apply wrapped_id.
    + by destruct (xor_key_pending n).
  - intros v. find_field. unfold expires, INT64_MAX.
    unfold TUMGRD_LIFETIME_MAX, TUMGRD_LIFETIME_MIN in *.
    destruct (Z.ltb_spec 0 (lifetime n)), (Z.ltb_spec 1 (last_applied_at n)),
      (Z.leb_spec (last_applied_at n) (9223372036854775807 - lifetime n)); cbn [andb];
      try (split; [by destruct (rotation_state n =? 0)%Z|intros; lia]).
    split.
    + intros Hv. assert (v = uint64 (last_applied_at n + lifetime n)) as -> by congruence.
      rewrite wrap_u_id by lia. lia.
    + intros (_ & _ & -> & _). by rewrite wrap_u_id by lia.
Qed.

(** ** The handlers *)
Section HandlerInstances.
Context `{E : Env} {Run : Exec} `{!ExecLaws Run}.
Context (R : relation world) `{!Silent R, !FdSilent R, !DbSilent R, !forall name, Allows R (EvSql name),
  !forall m, Allows R (EvConnect m), !forall h p m q, Allows R (EvRequest h p m q), !forall msg, Allows R (EvReply msg)}.
Context `{!forall argv input has mem k1 k2, Respects R (exec argv input has mem k1 k2)}.

#[export] Instance respects_register_node cfg tb k cport psk0 : Respects R (register_node cfg tb k cport psk0).
Proof.
  unfold register_node, register_start, register_key, register_apply, refetch, ubus_send_reply, time. apply _.
Qed.
#[export] Instance respects_handle_register cfg tb : Respects R (handle_register cfg tb).
Proof. unfold handle_register. apply _. Qed.
#[export] Instance respects_handle_deregister tb : Respects R (handle_deregister tb).
Proof. unfold handle_deregister, deregister_node, resolve_node, reply_simple, ubus_send_reply. cbv zeta. apply _. Qed.
#[export] Instance respects_handle_refresh cfg tb : Respects R (handle_refresh cfg tb).
Proof. unfold handle_refresh, refresh_all, refresh_node, refetch, resolve_node, ubus_send_reply. cbv zeta. apply _. Qed.
#[export] Instance respects_handle_status : Respects R handle_status.
Proof. unfold handle_status, ubus_send_reply. apply _. Qed.
End HandlerInstances.

Section HandlerReturns.
Context `{E : Env} {Run : Exec} `{!Responsive}.

#[export] Instance total_handle_register cfg tb : Total watched (handle_register cfg tb).
Proof.
  unfold handle_register, register_node, register_start, register_key, register_apply, refetch, ubus_send_reply, time.
  apply _.
Qed.
#[export] Instance total_handle_deregister tb : Total watched (handle_deregister tb).
Proof. unfold handle_deregister, deregister_node, resolve_node, reply_simple, ubus_send_reply. cbv zeta. apply _. Qed.
#[export] Instance total_handle_refresh cfg tb : Total watched (handle_refresh cfg tb).
Proof. unfold handle_refresh, refresh_all, refresh_node, refetch, resolve_node, ubus_send_reply. cbv zeta. apply _. Qed.
#[export] Instance total_handle_status : Total watched handle_status.
Proof. unfold handle_status, ubus_send_reply. apply _. Qed.
#[export] Instance total_net_event_cb uci cfg msg : Total watched (net_event_cb uci cfg msg).
Proof. unfold net_event_cb, check_wan_interface. apply _. Qed.
#[export] Instance total_startup_cb cfg : Total watched (startup_reconcile_timer_cb cfg).
Proof. unfold startup_reconcile_timer_cb. apply _. Qed.
#[export] Instance total_periodic_cb cfg : Total watched (periodic_reconcile_timer_cb cfg).
Proof. unfold periodic_reconcile_timer_cb, uloop_timeout_set. apply _. Qed.
End HandlerReturns.

