(* ===== verification/Registry.v ===== *)
(** * Registry: what the users of the bus have asked for

    The abstract state of the daemon: a finite map from the keys of the nodes to
    what was asked for them.  It is what remains of the table when the outcome
    of the passes and the state of the rotations are left out, and it is read
    off a row as the daemon reads the row. *)

From S2P Require Import Prelude CLib Types World Logic Helper Db DbSpec Exec ExecSpec Runner IpDetect IpDetectSpec Reconcile ReconcileSpec ReconcileProps UbusIf UbusSpec.

Record registration := mkRegistration {
  g_psk : cstr;
  g_client_port : Z;
  g_memlimit : option Z;
  g_description : cstr;
  g_comment : cstr;
  g_url : cstr;
  g_lifetime : Z
}.

(** What a node says of it. *)
Definition node_registration (n : node) : registration :=
  mkRegistration (psk n) (client_port n) (if (has_memlimit n =? 0)%Z then None else Some (memlimit n))
    (description n) (client_comment n) (ip_check_url n) (lifetime n).

Definition row_registration (r : row) : registration := node_registration (read_row 0 r).

Abbreviation registry := (gmap key registration).

Abbreviation registry_of w := (row_registration <$> store w).

(** ** A request, as a function on registrations *)

(** An attribute that is absent leaves what was there. *)
Definition asked_text (attr : option cstr) (kept : cstr) : cstr :=
  match attr with Some s => snprintf_s SZ_TEXT s | None => kept end.

Definition asked_memlimit (attr : option Z) (kept : option Z) : option Z :=
  match attr with Some u => if (0 <? int32 u)%Z then Some (int32 u) else None | None => kept end.

(** A node that no request has described yet. *)
Definition blank (cfg : config) : registration := mkRegistration [] 0 None [] [] [] (default_lifetime cfg).

Definition with_url (url : cstr) (g : registration) : registration :=
  mkRegistration (g_psk g) (g_client_port g) (g_memlimit g) (g_description g) (g_comment g) url (g_lifetime g).

Definition with_lifetime (l : Z) (g : registration) : registration :=
  mkRegistration (g_psk g) (g_client_port g) (g_memlimit g) (g_description g) (g_comment g) (g_url g) l.

(** An empty URL is stored as the default one. *)
Definition url_filled (g : registration) : registration :=
  match g_url g with [] => with_url TUMGRD_DEFAULT_IP_CHECK_URL g | _ => g end.

Definition request_on (tb : register_request) (g : registration) : registration :=
  mkRegistration (snprintf_s SZ_TEXT (default [] (reg_psk tb))) (int32 (default 0%Z (reg_client_port tb)))
    (asked_memlimit (reg_memlimit tb) (g_memlimit g)) (asked_text (reg_description tb) (g_description g))
    (asked_text (reg_client_comment tb) (g_comment g)) (asked_text (reg_ip_check_url tb) (g_url g))
    (default (g_lifetime g) (reg_lifetime tb)).

Definition register_on (cfg : config) (old : option registration) (tb : register_request) : registration :=
  url_filled (request_on tb (default (blank cfg) old)).

(** The requests that are not refused, and the key of the node they name. *)
Definition port_ok (p : Z) : Prop := (1 <= p <= 65535)%Z.
Definition lifetime_ok (l : Z) : Prop := (l = 0 \/ TUMGRD_LIFETIME_MIN <= l <= TUMGRD_LIFETIME_MAX)%Z.

Definition admissible (tb : register_request) (k : key) : Prop :=
  (reg_uid tb = Some (k_uid k) /\ is_safe_id (Some (k_uid k)) = true) /\
  reg_server_host tb = Some (k_host k) /\
  (exists p, reg_server_port tb = Some p /\ k_port k = int32 p /\ port_ok (k_port k)) /\
  get_normalized_ip_version (reg_ip_version tb) = Some (k_version k) /\
  (exists c, reg_client_port tb = Some c /\ port_ok (int32 c)) /\ is_Some (reg_psk tb) /\
  (forall l, reg_lifetime tb = Some l -> lifetime_ok l) /\
  (forall x, reg_xor_key tb = Some x -> is_safe_id (Some x) = true).

(** ** Registrations and rows *)

(** A registration that a row can hold. *)
Definition registration_fits (g : registration) : Prop :=
  text_fits SZ_TEXT (g_psk g) /\ int_fits (g_client_port g) /\
  (forall m, g_memlimit g = Some m -> int_fits m) /\ text_fits SZ_TEXT (g_description g) /\
  text_fits SZ_TEXT (g_comment g) /\ text_fits SZ_TEXT (g_url g) /\ lifetime_ok (g_lifetime g).

Lemma read_row_registration t r : node_registration (read_row t r) = row_registration r.
Proof. done. Qed.

Lemma row_registration_fits r : registration_fits (row_registration r).
Proof.
  unfold registration_fits, row_registration, node_registration, read_row.
  cbn [g_psk g_client_port g_memlimit g_description g_comment g_url g_lifetime psk client_port has_memlimit memlimit
    description client_comment ip_check_url lifetime].
  assert (0 < SZ_TEXT) as Hpos by (unfold SZ_TEXT; lia).
  split_and!; try (by apply column_text_fits); try apply column_int_fits.
  - intros m. destruct (c_memlimit r) as [m0|]; [|done]. intros [= <-]. apply column_int_fits.
  - unfold lifetime_ok. by destruct (decide _); [|left].
Qed.

(** Columns that a pass does not change are enough to know it. *)
Lemma desired_registration r r' : desired r' = desired r -> row_registration r' = row_registration r.
Proof.
  destruct r, r'. unfold desired. cbn. intros [= _ _ _ _ -> -> -> -> -> -> _ ->].
  reflexivity.
Qed.

Lemma desired_registry (m m' : gmap key row) : desired <$> m' = desired <$> m -> row_registration <$> m' = row_registration <$> m.
Proof.
  intros H. apply map_eq. intros k. pose proof (f_equal (fun m => m !! k) H) as Hk. cbv beta in Hk.
  rewrite !lookup_fmap in Hk. rewrite !lookup_fmap. destruct (m !! k) as [r|], (m' !! k) as [r'|]; try done.
  apply (inj Some) in Hk. cbn. f_equal. by apply desired_registration.
Qed.

(** *** Writing *)

(** The lifetime that a row is read with. *)
Definition lifetime_read (v : option Z) : Z := if decide (lifetime_ok (default 0%Z v)) then default 0%Z v else 0%Z.

(** The columns of a row that hold the registration. *)
Definition holds (g : registration) (r : row) : Prop :=
  c_psk r = g_psk g /\ c_client_port r = g_client_port g /\ c_memlimit r = g_memlimit g /\
  c_description r = bind_text_or_null (nonempty_or_null (Some (g_description g))) /\
  c_client_comment r = bind_text_or_null (nonempty_or_null (Some (g_comment g))) /\
  c_ip_check_url r = bind_text_or_null (nonempty_or_null (Some (g_url g))) /\
  lifetime_read (c_lifetime r) = g_lifetime g.

Lemma holds_registration g r : registration_fits g -> holds g r -> row_registration r = g.
Proof.
  intros (Fp & Fc & Fm & Fd & Fcc & Fu & _) (Hp & Hc & Hm & Hd & Hcc & Hu & Hl). destruct g as [gp gc gm gd gcc gu gl].
  unfold row_registration, node_registration, read_row.
  cbn [psk client_port has_memlimit memlimit description client_comment ip_check_url lifetime] in *.
  cbn [g_psk g_client_port g_memlimit g_description g_comment g_url g_lifetime] in *.
  rewrite Hp, Hc, Hm, Hd, Hcc, Hu, !column_text_null, column_text_id, column_int_id by done. f_equal; [|exact Hl].
  destruct gm as [m|]; [|done]. cbn. by rewrite column_int_id by auto.
Qed.

Lemma url_filled_fits g : registration_fits g -> registration_fits (url_filled g).
Proof.
  unfold url_filled. destruct (g_url g) as [|c u] eqn:Hu; [|done]. intros (? & ? & ? & ? & ? & _ & ?).
  split_and!; try done. split; [by apply (bool_decide_unpack _); vm_compute|cbn; unfold SZ_TEXT; lia].
Qed.

Lemma url_filled_lifetime g : g_lifetime (url_filled g) = g_lifetime g.
Proof. unfold url_filled. by destruct (g_url g). Qed.

Lemma written_holds t1 t2 n :
  lifetime_ok (lifetime n) -> holds (url_filled (node_registration n)) (row_of_node (filled t1 t2 n) true).
Proof.
  intros Hl. unfold filled, url_filled, holds, lifetime_read. cbn [g_url node_registration]. cbv zeta.
  destruct (created_at n =? 0)%Z; cbn; destruct (last_updated _ =? 0)%Z; cbn; destruct (ip_check_url n) eqn:Hu; cbn;
    destruct (status n); cbn; rewrite decide_True by done; destruct (has_memlimit n =? 0)%Z; split_and!; by rewrite ?Hu.
Qed.

(** What a registration of a node leaves in its row: as asked, or with the
    lifetime that was there if none is to be stored. *)
Lemma merged_registration t1 t2 n sl m :
  registration_fits (node_registration n) ->
  (sl = false -> exists old, m !! node_key n = Some old /\ lifetime n = g_lifetime (row_registration old)) ->
  row_registration (spec_merged (row_of_node (filled t1 t2 n) sl) m) = url_filled (node_registration n).
Proof.
  intros Hfit Hsl. apply holds_registration; [by apply url_filled_fits|].
  destruct (written_holds t1 t2 n) as (Hp & Hc & Hm & Hd & Hcc & Hu & Hl); [apply Hfit|].
  unfold spec_merged. rewrite row_of_node_key, filled_key. destruct (m !! node_key n) as [old|] eqn:Hold.
  - split_and!; try done. cbn [c_lifetime upsert_merge]. destruct sl; [exact Hl|].
    destruct (Hsl eq_refl) as (old' & [= ->] & Heq). cbn [row_of_node c_lifetime].
    rewrite url_filled_lifetime. symmetry. exact Heq.
  - destruct sl; [done|]. destruct (Hsl eq_refl) as (old' & [=] & _).
Qed.

(** ** The node that a request builds *)

(** The node it starts from: what the row says, or a blank one. *)
Definition starts_from `{E : Env} (cfg : config) (old : option row) (created : bool) (n0 : node) : Prop :=
  if created then old = None /\ exists t, n0 = set_last_applied_at t (set_lifetime (default_lifetime cfg) node_zero)
  else exists r t, old = Some r /\ n0 = read_row (env_time t) r.

(** A new node gets a key if the daemon is to make them, read from /dev/urandom
    between the two worlds. *)
Definition keyed_from `{E : Env} (cfg : config) (w w' : world) (created : bool) (n0 n1 : node) : Prop :=
  if created && enable_xor cfg then exists key, fresh_hex w w' key /\ n1 = set_xor_key key n0 else n1 = n0.

Lemma keyed_from_either `{E : Env} cfg w w' created n0 n1 :
  keyed_from cfg w w' created n0 n1 -> n1 = n0 \/ (created = true /\ exists key, fresh_hex w w' key /\ n1 = set_xor_key key n0).
Proof. unfold keyed_from. destruct created, (enable_xor cfg); cbn [andb]; auto. Qed.

(** The key that the node of an accepted request has: the one asked for, which
    a rotation forbids, or the one that was there, or a new one. *)
Definition key_asked `{E : Env} (cfg : config) (old : option row) (tb : register_request) (n : node) (w w' : world) : Prop :=
  match reg_xor_key tb with
  | Some x => rotation_state n = TUMGRD_ROTATION_NONE /\ xor_key n = snprintf_s SZ_XOR_KEY x
  | None =>
      match old with
      | Some r => xor_key n = column_text (c_xor_key r) SZ_XOR_KEY
      | None => if enable_xor cfg then fresh_hex w w' (xor_key n) else xor_key n = []
      end
  end.

Lemma key_asked_wider `{E : Env} cfg old tb n w1 w2 w3 w4 :
  later w1 w2 -> later w3 w4 -> key_asked cfg old tb n w2 w3 -> key_asked cfg old tb n w1 w4.
Proof.
  intros H12 H34. unfold key_asked. destruct (reg_xor_key tb), old; try done. destruct (enable_xor cfg); [|done].
  by apply fresh_hex_wider.
Qed.

Lemma override_xor_registration attr n n' : override_xor attr n = Some n' -> node_registration n' = node_registration n.
Proof.
  unfold override_xor. destruct attr as [x|]; [|by intros [= <-]].
  destruct (negb (is_safe_id _)); [done|]. destruct (negb _); [done|]. by intros [= <-].
Qed.

Lemma override_lifetime_registration attr created n n' sl : override_lifetime attr created n = Some (n', sl) ->
  node_registration n' = node_registration (set_lifetime (default (lifetime n) attr) n) /\
  (attr = None -> sl = created) /\ (forall l, attr = Some l -> sl = true /\ lifetime_ok l).
Proof.
  unfold override_lifetime. destruct attr as [l|]; [|by intros [= <- <-]].
  destruct (negb (l =? 0)%Z && (l <? TUMGRD_LIFETIME_MIN)%Z) eqn:Hlo; [done|].
  destruct (Z.ltb_spec TUMGRD_LIFETIME_MAX l); [done|]. intros [= <- <-]. split_and!; [done|done|].
  intros l' [= <-]. split; [done|]. unfold lifetime_ok. apply andb_false_iff in Hlo as [?%negb_false_iff%Z.eqb_eq|?%Z.ltb_ge]; lia.
Qed.

(** The optional attributes of a request. *)
Definition optional_on (tb : register_request) (g : registration) : registration :=
  mkRegistration (g_psk g) (g_client_port g) (asked_memlimit (reg_memlimit tb) (g_memlimit g))
    (asked_text (reg_description tb) (g_description g)) (asked_text (reg_client_comment tb) (g_comment g))
    (asked_text (reg_ip_check_url tb) (g_url g)) (g_lifetime g).

Lemma set_required_registration u h s p c n :
  let g := node_registration n in
  node_registration (set_required u h s p c n) =
  mkRegistration (snprintf_s SZ_TEXT s) c (g_memlimit g) (g_description g) (g_comment g) (g_url g) (g_lifetime g).
Proof. done. Qed.

Lemma set_xor_registration key n : node_registration (set_xor_key key n) = node_registration n.
Proof. done. Qed.

Lemma set_optional_registration tb v n : node_registration (set_optional tb v n) = optional_on tb (node_registration n).
Proof.
  unfold optional_on, set_optional, set_text, set_memlimit_attr, asked_memlimit, asked_text.
  destruct (reg_ip_check_url tb), (reg_memlimit tb) as [u|], (reg_client_comment tb), (reg_description tb);
    try destruct (0 <? int32 u)%Z; reflexivity.
Qed.

(** The strings of a request are strings of C. *)
Definition request_text (tb : register_request) : Prop :=
  Forall (fun attr => forall s, attr = Some s -> nonul s)
    [reg_psk tb; reg_description tb; reg_client_comment tb; reg_ip_check_url tb; reg_xor_key tb].

Lemma asked_text_fits attr kept :
  (forall s, attr = Some s -> nonul s) -> text_fits SZ_TEXT kept -> text_fits SZ_TEXT (asked_text attr kept).
Proof.
  intros Ha Hk. destruct attr as [s|]; [|done]. split; [by apply Forall_take, Ha|].
  apply snprintf_s_length. unfold SZ_TEXT. lia.
Qed.

Lemma request_on_fits tb g :
  request_text tb -> (forall l, reg_lifetime tb = Some l -> lifetime_ok l) -> registration_fits g ->
  registration_fits (request_on tb g).
Proof.
  intros Htext Hlife (_ & _ & Fm & Fd & Fc & Fu & Fl).
  apply Forall_cons in Htext as [Tp [Td [Tc [Tu _]%Forall_cons]%Forall_cons]%Forall_cons].
  unfold registration_fits. cbn [request_on g_psk g_client_port g_memlimit g_description g_comment g_url g_lifetime].
  split_and!; try (by apply asked_text_fits).
  - replace (snprintf_s SZ_TEXT (default [] (reg_psk tb))) with (asked_text (reg_psk tb) []) by by destruct (reg_psk tb).
    apply asked_text_fits; [done|]. split; [constructor|cbn; unfold SZ_TEXT; lia].
  - apply (column_int_fits (Some _)).
  - unfold asked_memlimit. destruct (reg_memlimit tb) as [m|]; [|exact Fm].
    destruct (0 <? int32 m)%Z; [|done]. intros m' [= <-]. apply (column_int_fits (Some m)).
  - destruct (reg_lifetime tb) as [l|]; [by apply Hlife|done].
Qed.

Section Build.
Context `{E : Env}.

Lemma starts_registration cfg old created n0 :
  lifetime_ok (default_lifetime cfg) -> starts_from cfg old created n0 ->
  node_registration n0 = default (blank cfg) (row_registration <$> old) /\ registration_fits (node_registration n0).
Proof.
  intros Hcfg. destruct created.
  - intros [-> (t & ->)]. split; [done|]. unfold registration_fits. cbn.
    assert (text_fits SZ_TEXT []) as H0 by (split; [constructor|cbn; unfold SZ_TEXT; lia]). split_and!; try done; unfold int_fits; lia.
  - intros (r & t & -> & ->). split; [done|]. apply row_registration_fits.
Qed.

(** What is stored for an accepted request is the function of what was stored
    before. *)
Lemma requested_registration cfg ws ws' old created tb u h s p c v n0 n1 n2 n3 sl :
  lifetime_ok (default_lifetime cfg) -> request_text tb -> reg_client_port tb = Some c -> reg_psk tb = Some s ->
  starts_from cfg old created n0 -> keyed_from cfg ws ws' created (set_required u h s p (int32 c) n0) n1 ->
  override_xor (reg_xor_key tb) (set_optional tb v n1) = Some n2 ->
  override_lifetime (reg_lifetime tb) created n2 = Some (n3, sl) ->
  registration_fits (node_registration n3) /\
  url_filled (node_registration n3) = register_on cfg (row_registration <$> old) tb /\
  (sl = false -> exists r, old = Some r /\ lifetime n3 = g_lifetime (row_registration r)).
Proof.
  intros Hcfg Htext Hc Hs Hstart Hkeyed Hx Hl. destruct (starts_registration cfg old created n0 Hcfg Hstart) as [Hg0 Hfit].
  apply override_xor_registration in Hx. apply override_lifetime_registration in Hl as (Hl & Hnone & Hsome).
  assert (node_registration n1 = node_registration (set_required u h s p (int32 c) n0)) as H1.
  { destruct (keyed_from_either _ _ _ _ _ _ Hkeyed) as [->|(_ & key & _ & ->)]; [done|apply set_xor_registration]. }
  rewrite set_optional_registration, H1, set_required_registration in Hx. cbv zeta in Hx.
  revert Hfit Hg0 Hx. generalize (node_registration n0). intros g Hfit Hg0 Hx.
  assert (lifetime n2 = g_lifetime g) as Hl2 by exact (f_equal g_lifetime Hx).
  assert (node_registration n3 = request_on tb g) as H3.
  { rewrite Hl, Hl2. change (with_lifetime (default (g_lifetime g) (reg_lifetime tb)) (node_registration n2) = request_on tb g).
    rewrite Hx. unfold request_on. by rewrite Hs, Hc. }
  split; [|split].
  - rewrite H3. apply request_on_fits; [done| |done]. intros l Hl'. by apply Hsome.
  - unfold register_on. by rewrite H3, Hg0.
  - intros ->. destruct (reg_lifetime tb) as [l|] eqn:Hlife; [by destruct (Hsome l eq_refl)|].
    pose proof (Hnone eq_refl) as <-. destruct Hstart as (r & t & -> & _). exists r. split; [done|].
    pose proof (f_equal g_lifetime H3) as H4. cbn [request_on g_lifetime] in H4. rewrite Hlife, Hg0 in H4. exact H4.
Qed.
End Build.
