(* ===== verification/RegisterSpec.v ===== *)
(** * RegisterSpec: the register method of ubus_if.c

    From a request to the row it leaves: a registration that is refused or
    fails early leaves no trace; one that is answered has stored what was
    asked, has kept the rotation that was under way, and says truthfully
    whether the node was applied. *)

From S2P Require Import Prelude CLib Types World Logic Helper Db DbSpec Exec ExecSpec Runner IpDetect IpDetectSpec Reconcile ReconcileSpec ReconcileProps UbusIf UbusSpec Registry.

(** ** Registration *)

(** Nothing happened that anyone can see: no row changed, no command was run
    and no reply was sent. *)
Definition unchanged (w w' : world) : Prop := w_rows w' = w_rows w /\ no_commands w w' /\ no_replies w w'.

Lemma calm_unchanged w w' : calm w w' -> unchanged w w'.
Proof.
  intros H. pose proof (calm_fields _ _ H) as (_ & _ & _ & Hr & _). split; [done|].
  split; apply (calm_respects _ _ _ H).
Qed.

Lemma unchanged_trans w1 w2 w3 : unchanged w1 w2 -> unchanged w2 w3 -> unchanged w1 w3.
Proof. intros (H1 & H2 & H3) (H4 & H5 & H6). split; [congruence|]. split; by etransitivity. Qed.

(** A reply on top of what was done before it. *)
Lemma replied msg w w1 : no_replies w w1 -> replies_between [msg] w (set_w_trace (EvReply msg :: w_trace w1) w1).
Proof.
  intros (t & Ht & Hr). exists (EvReply msg :: t). cbn [w_trace set_w_trace]. rewrite Ht. split; [done|].
  unfold replies in *. cbn [omap list_omap reply_of]. by rewrite reverse_cons, Hr.
Qed.

(** How the rotation of a node that is about to be stored relates to the row
    that is there. *)
Definition continues (old : option row) (n : node) : Prop :=
  text_fits SZ_XOR_KEY (xor_key n) /\
  match old with
  | None => rotation_state n = TUMGRD_ROTATION_NONE /\ xor_key_pending n = []
  | Some r => rotation_state n = column_int (c_rotation_state r) /\
      xor_key_pending n = column_text (c_xor_key_pending r) SZ_XOR_KEY /\
      (rotation_state n <> TUMGRD_ROTATION_NONE -> xor_key n = column_text (c_xor_key r) SZ_XOR_KEY)
  end.

(** Members that no attribute of a request but the key changes. *)
Definition same_rotation (n n' : node) : Prop :=
  xor_key n' = xor_key n /\ rotation_state n' = rotation_state n /\ xor_key_pending n' = xor_key_pending n.

Lemma continues_same old n n' : same_rotation n n' -> continues old n -> continues old n'.
Proof. intros (H1 & H2 & H3). unfold continues. by rewrite H1, H2, H3. Qed.

Lemma set_optional_rotation tb v n : same_rotation n (set_optional tb v n).
Proof.
  unfold set_optional, set_text, set_memlimit_attr. cbv zeta.
  destruct (reg_ip_check_url tb), (reg_memlimit tb) as [u|], (reg_client_comment tb), (reg_description tb);
    try destruct (0 <? int32 u)%Z; by split_and!.
Qed.

Lemma override_xor_continues old attr n n' :
  (forall k, attr = Some k -> nonul k) -> override_xor attr n = Some n' -> continues old n -> continues old n'.
Proof.
  unfold override_xor. destruct attr as [k|]; [|by intros _ [= <-]]. intros Hk.
  destruct (negb (is_safe_id _)); [done|]. destruct (Z.eqb_spec (rotation_state n) TUMGRD_ROTATION_NONE) as [H0|]; [|done].
  intros [= <-] [_ Hc]. split.
  - cbn [xor_key set_xor_key]. split; [by apply Forall_take, Hk|by apply snprintf_s_length; unfold SZ_XOR_KEY; lia].
  - destruct old; [|done]. cbn. destruct Hc as (H1 & H2 & _). split_and!; [done..|]. by rewrite H0.
Qed.

Lemma override_lifetime_rotation attr created n n' sl : override_lifetime attr created n = Some (n', sl) -> same_rotation n n'.
Proof.
  unfold override_lifetime. destruct attr as [lt|]; [|by intros [= <- _]].
  destruct (_ && _); [done|]. destruct (_ <? _)%Z; [done|]. by intros [= <- _].
Qed.

Lemma rotation_ok_int r : rotation_ok r ->
  (c_rotation_state r = Some 0%Z /\ column_int (c_rotation_state r) = 0%Z /\ rotation_not_zero r = false) \/
  (column_int (c_rotation_state r) <> 0%Z /\ rotation_not_zero r = true /\ is_pending_state (column_int (c_rotation_state r)) = true /\
   exists x, key_ok x /\ c_xor_key r = Some x /\ c_xor_key_pending r = Some x /\
     column_text (c_xor_key r) SZ_XOR_KEY = x /\ column_text (c_xor_key_pending r) SZ_XOR_KEY = x).
Proof.
  intros [H0|(s & x & Hs & Hp & [Hne Hfit] & Hx & Hpend)]; [left; unfold rotation_not_zero; by rewrite H0|right].
  unfold rotation_not_zero. rewrite Hs. assert (int_fits s /\ s <> 0%Z) as [Hi H0].
  { unfold is_pending_state in Hp. by apply orb_true_iff in Hp as [->%Z.eqb_eq| ->%Z.eqb_eq]. }
  rewrite column_int_id by done. destruct (Z.eqb_spec s 0); [done|]. split_and!; try done.
  exists x. rewrite Hx, Hpend, !column_text_id by done. by split_and!.
Qed.

Lemma continues_op_ok old n sl :
  (forall r, old = Some r -> rotation_ok r) -> continues old n -> rotation_ok (row_of_node n sl).
Proof.
  intros Hold [Hfit Hc]. destruct old as [r|]; [|left; destruct Hc as [Hc _]; cbn; by rewrite Hc].
  destruct Hc as (Hst & Hpend & Hkey). specialize (Hold r eq_refl).
  destruct (rotation_ok_int r Hold) as [(_ & H0 & _)|(Hne & _ & Hp & x & Hx & _ & _ & Hk & Hpk)].
  - left. cbn. by rewrite Hst, H0.
  - right. exists (rotation_state n), x. rewrite Hst in *. specialize (Hkey Hne). split; [by rewrite <- Hst|].
    split; [done|]. split; [exact Hx|]. destruct Hx as [Hx0 _]. cbn. rewrite Hkey, Hpend, Hk, Hpk. by destruct x.
Qed.

Lemma continues_view m n sl t1 t2 :
  (forall k r, m !! k = Some r -> rotation_ok r) -> continues (m !! node_key n) n ->
  rotation_view (spec_merged (row_of_node (filled t1 t2 n) sl) m) n.
Proof.
  intros Hok [Hfit Hc]. unfold spec_merged. rewrite row_of_node_key, filled_key.
  assert (c_rotation_state (row_of_node (filled t1 t2 n) sl) = Some (rotation_state n) /\
    c_xor_key (row_of_node (filled t1 t2 n) sl) = bind_text_or_null (nonempty_or_null (Some (xor_key n))) /\
    c_xor_key_pending (row_of_node (filled t1 t2 n) sl) = bind_text_or_null (nonempty_or_null (Some (xor_key_pending n)))) as (H1 & H2 & H3).
  { unfold filled. cbv zeta. destruct (created_at n =? 0)%Z; cbn;
      destruct (last_updated _ =? 0)%Z; cbn; destruct (ip_check_url n); cbn; by destruct (status n). }
  destruct (m !! node_key n) as [old|] eqn:Hold.
  - destruct Hc as (Hst & Hpend & Hkey). unfold rotation_view. cbn [c_rotation_state c_xor_key c_xor_key_pending upsert_merge].
    split; [done|]. split; [|done]. rewrite H2.
    destruct (rotation_ok_int old (Hok _ _ Hold)) as [(_ & H0 & ->)|(Hne & -> & _)].
    + by apply column_text_null.
    + symmetry. apply Hkey. by rewrite Hst.
  - destruct Hc as [Hst Hpend]. unfold rotation_view. rewrite H1, H2, H3, Hst, Hpend. split; [done|]. split; [by apply column_text_null|done].
Qed.

(** ** The steps of a registration *)
Section Register.
Context `{E : Env} {Run : Exec} `{!ExecLaws Run}.
Implicit Types (w : world).

Lemma wp_register_start cfg k w :
  table_ok (w_rows w) ->
  wp (register_start cfg k) (fun o w' => calm w w' /\
    match o with None => True | Some (n0, created) => starts_from cfg (store w !! k) created n0 end) w.
Proof.
  intros Hok. apply wp_bind. eapply wp_mono; [by apply get_spec|]. intros [rc n0] w1 [H1 Hres]. cbn [fst snd] in *.
  destruct Hres as [(-> & r & t & Hr & ->)|[(-> & _ & Hr)|(-> & _ & _)]].
  - apply wp_ret. split; [done|]. by exists r, t.
  - cbn [Z.eqb]. apply wp_bind, wp_time. intros w2 H2. apply wp_ret. split; [by transitivity w1|].
    split; [done|]. by eexists.
  - by apply wp_ret.
Qed.

Lemma wp_register_key cfg created n w :
  wp (register_key cfg created n) (fun o w' => unchanged w w' /\
    forall n', o = Some n' -> keyed_from cfg w w' created n n') w.
Proof.
  unfold register_key, keyed_from. destruct (created && enable_xor cfg).
  2:{ apply wp_ret. split; [apply calm_unchanged; reflexivity|]. by intros n' [= <-]. }
  apply wp_bind. eapply wp_mono.
  { apply wp_and; [apply wp_generate_random_hex_key|apply wp_and; [wp_frame same_db|apply wp_and; [wp_frame no_commands|wp_frame no_replies]]]. }
  intros [rc key] w' [[_ Hkey] [(_ & _ & Hrows) [Hn Hr]]]. cbn [fst snd] in *. apply wp_ret. split; [done|].
  intros n'. destruct (Z.eqb_spec rc 0) as [->|]; [|done]. intros [= <-]. exists key. split; [|done].
  by eapply key_result_fresh.
Qed.

#[export] Instance later_register_key cfg created n : Respects later (register_key cfg created n).
Proof. unfold register_key. apply _. Qed.

(** What an answered request leaves: the registry as the request has changed
    it, the row of the node with the key that the pass used, and the answer,
    which says truthfully what was done. *)
Definition registered (cfg : config) (tb : register_request) (n : node) (w w' : world) : Prop :=
  exists msg n' r, replies_between [msg] w w' /\
    text_of "action" msg = match store w !! node_key n with Some _ => literal "updated" | None => literal "created" end /\
    registry_of w' = <[node_key n := register_on cfg (registry_of w !! node_key n) tb]> (registry_of w) /\
    same_settings n n' /\ (xor_key n' = xor_key n \/ exists t, due cfg (env_time t) n /\ fresh_hex w w' (xor_key n')) /\
    store w' !! node_key n = Some r /\ rotation_view r n' /\
    (text_of "status" msg = literal "ok" ->
       c_status r = Some TUMGRD_STATUS_ACTIVE /\ rotation_state n' = TUMGRD_ROTATION_NONE /\
       exists ip, detected n w ip w' /\ applied n' cfg ip w w').

Lemma wp_refetch n w : table_ok (w_rows w) -> wp (refetch n) (fun _ w' => calm w w') w.
Proof.
  intros Hok. apply wp_bind. eapply wp_mono; [by apply get_spec|]. intros r w1 [H1 _]. by apply wp_ret.
Qed.

(** The pass over the node, from the row that was stored for it. *)
Lemma wp_registered_pass cfg n r1 m w1 :
  db_invariant (w_rows w1) -> store w1 = <[node_key n := r1]> m -> rotation_view r1 n ->
  wp (tumgrd_reconcile_one cfg n true) (fun r w2 => db_invariant (w_rows w2) /\ no_replies w1 w2 /\
    registry_of w2 = registry_of w1 /\ same_settings n r.2 /\
    (xor_key r.2 = xor_key n \/ exists t, due cfg (env_time t) n /\ fresh_hex w1 w2 (xor_key r.2)) /\
    exists r2, store w2 !! node_key n = Some r2 /\ rotation_view r2 r.2 /\
      (r.1 = 0%Z -> c_status r2 = Some TUMGRD_STATUS_ACTIVE /\ rotation_state r.2 = TUMGRD_ROTATION_NONE /\
         exists ip, detected n w1 ip w2 /\ applied r.2 cfg ip w1 w2)) w1.
Proof.
  intros Hinv Hs Hv.
  assert (settled n) as Hset by (apply (invariant_settled w1 n r1); [done|by rewrite Hs, lookup_insert_eq|done]).
  eapply wp_mono.
  { apply wp_and; [by apply (reconcile_one_spec m cfg n true r1 w1 (proj1 Hinv) Hs)|].
    apply wp_and; [by apply reconcile_one_key|].
    apply wp_and; [wp_frame same_desired|]. apply wp_and; [wp_frame keeps_invariant|wp_frame no_replies]. }
  intros [rc n'] w2 [(_ & Hsame & Hres) [(failed & _ & Hkey) [Hdes [Hinv2 Hr2]]]]. cbn [fst snd] in *.
  split; [by apply Hinv2|]. split; [done|]. split; [by apply desired_registry, Hdes, Hinv|]. split; [done|]. split.
  { destruct Hkey as [(_ & Hk & _)|[(Hd & Hk & _)|(_ & _ & -> & _)]]; [by left|right; by eexists|by left]. }
  pose proof (same_settings_key _ _ Hsame) as Hk.
  destruct Hres as [? _ ?|ip _ Hdet Happ Hst Hrow|rc ip cmds Hneg _ _ Hrow]; [done|..];
    destruct (row_at_lookup _ _ _ _ Hrow) as (r & Hr & Hvr & HP); rewrite Hk in Hr; exists r; (split; [done|]); (split; [done|]).
  - intros _. split; [apply HP|]. split; [done|]. by exists ip.
  - lia.
Qed.

Lemma wp_register_apply cfg created set_lt tb n w :
  db_invariant (w_rows w) -> continues (store w !! node_key n) n ->
  created = match store w !! node_key n with Some _ => false | None => true end ->
  registration_fits (node_registration n) ->
  (set_lt = false -> exists old, store w !! node_key n = Some old /\ lifetime n = g_lifetime (row_registration old)) ->
  url_filled (node_registration n) = register_on cfg (registry_of w !! node_key n) tb ->
  wp (register_apply cfg created set_lt n) (fun st w' => db_invariant (w_rows w') /\
    ((st = UBUS_STATUS_UNKNOWN_ERROR /\ unchanged w w') \/
     (st = UBUS_STATUS_OK /\ registered cfg tb n w w'))) w.
Proof.
  intros Hinv Hcont Hcr Hfit Hlt Hreg. pose proof Hinv as [Hok Hrot].
  assert (forall k r, store w !! k = Some r -> rotation_ok r) as Hrows by (intros k r; by apply invariant_row).
  apply wp_bind. eapply wp_mono.
  { apply wp_and; [by apply upsert_spec|].
    apply wp_and; [|apply wp_and; [wp_frame no_commands|apply wp_and; [wp_frame no_replies|wp_frame later]]].
    apply (run_op_invariant (OpUpsert n set_lt)); [|done]. eapply continues_op_ok; [|exact Hcont]. intros r. apply Hrows. }
  intros rc w1 [(Hok1 & t1 & t2 & Hup) [Hinv1 [Hn1 [Hr1 Hl1]]]]. cbv zeta in Hup.
  destruct Hup as [(-> & _ & Hs1)|(-> & Hsame & _)]; [|by apply wp_ret; split; [|left]].
  cbn [Z.eqb negb]. apply wp_bind. eapply wp_mono; [eapply (wp_registered_pass cfg n _ (store w)); [done|exact Hs1|by apply continues_view]|].
  intros [rc n'] w2 (Hinv2 & Hr2 & Hreg2 & Hset & Hkey & r2 & Hrow & Hv & Hend). cbn [fst snd] in *.
  apply wp_bind. eapply wp_mono; [by apply wp_refetch, Hinv2|]. intros n2 w3 H3.
  apply wp_bind, wp_emit, wp_ret. set (msg := _ ++ add_node_brief n2).
  assert (later w2 w3) as Hl3 by (apply (calm_respects _ _ _ H3)).
  pose proof (calm_fields _ _ H3) as (_ & _ & _ & Hrows3 & _). cbn [w_rows set_w_trace]. rewrite Hrows3.
  split; [done|]. right. split; [done|]. exists msg, n', r2. cbn [w_rows set_w_trace]. rewrite Hrows3.
  split; [apply replied; transitivity w1; [done|]; transitivity w2; [done|by apply calm_unchanged]|].
  split; [subst created; by destruct (rc =? 0)%Z, (store w !! node_key n)|].
  split; [by rewrite Hreg2, Hs1, fmap_insert, merged_registration, Hreg|]. split_and!; try done.
  { destruct Hkey as [Hkey|(t & Hd & Hkey)]; [by left|right; exists t; split; [done|]]. by eapply fresh_hex_wider. }
  intros Hmsg. destruct Hend as (Hact & Hst & ip & Hdet & Happ); [by destruct (Z.eqb_spec rc 0)|].
  split; [done|]. split; [done|]. exists ip. split; [exact (detected_later n w w1 ip w2 w3 Hl1 Hdet Hl3)|].
  eapply applied_wider; [exact Hn1|exact Happ|]. transitivity w3; [by apply calm_unchanged|by exists [EvReply msg]].
Qed.
End Register.

(** ** The node that a request builds *)

(** Its key. *)
Lemma override_xor_key attr n n' : override_xor attr n = Some n' ->
  node_key n' = node_key n /\
  match attr with
  | Some x => is_safe_id (Some x) = true /\ rotation_state n = TUMGRD_ROTATION_NONE /\ n' = set_xor_key (snprintf_s SZ_XOR_KEY x) n
  | None => n' = n
  end.
Proof.
  unfold override_xor. destruct attr as [x|]; [|by intros [= <-]].
  destruct (is_safe_id _); [|done]. cbn [negb]. destruct (Z.eqb_spec (rotation_state n) TUMGRD_ROTATION_NONE); [|done].
  by intros [= <-].
Qed.

Lemma override_lifetime_key attr created n n' sl : override_lifetime attr created n = Some (n', sl) -> node_key n' = node_key n.
Proof.
  unfold override_lifetime. destruct attr as [l|]; [|by intros [= <- _]].
  destruct (_ && _); [done|]. destruct (_ <? _)%Z; [done|]. by intros [= <- _].
Qed.

Lemma set_optional_key tb v n : node_key (set_optional tb v n) =
  mkKey (server_host n) (server_port n) (uid n) (snprintf_s SZ_IP_VERSION v).
Proof.
  unfold set_optional, set_text, set_memlimit_attr.
  destruct (reg_ip_check_url tb), (reg_memlimit tb) as [u|], (reg_client_comment tb), (reg_description tb);
    try destruct (0 <? int32 u)%Z; reflexivity.
Qed.

(** Names that fit their buffers, and strings of C. *)
Definition request_fits (tb : register_request) : Prop :=
  (forall u, reg_uid tb = Some u -> text_fits SZ_UID u) /\
  (forall h, reg_server_host tb = Some h -> text_fits SZ_TEXT h) /\ request_text tb.

Lemma request_text_key tb : request_text tb -> forall x, reg_xor_key tb = Some x -> nonul x.
Proof. intros H. unfold request_text in H. rewrite !Forall_cons in H. apply H. Qed.

Lemma normalized_fits attr v : get_normalized_ip_version attr = Some v -> length v < SZ_IP_VERSION.
Proof.
  unfold get_normalized_ip_version, normalize_ip_version. unfold SZ_IP_VERSION.
  destruct (default [] attr) as [|c s]; [intros [= <-]; cbn; lia|].
  destruct (_ || _ || _); [intros [= <-]; cbn; lia|]. destruct (_ || _ || _); [intros [= <-]; cbn; lia|done].
Qed.

Lemma bad_port_false p : bad_port p = false -> port_ok p.
Proof. unfold bad_port, port_ok. intros [H1%Z.leb_gt H2%Z.ltb_ge]%orb_false_iff. lia. Qed.

Section Handle.
Context `{E : Env} {Run : Exec} `{!ExecLaws Run}.
Implicit Types (w : world).

(** A request is answered, or there is no trace of it. *)
Definition answered (cfg : config) (tb : register_request) (w : world) (st : ubus_status) (w' : world) : Prop :=
  db_invariant (w_rows w') /\
  ((st <> UBUS_STATUS_OK /\ unchanged w w') \/
   (st = UBUS_STATUS_OK /\ exists n, admissible tb (node_key n) /\
      url_filled (node_registration n) = register_on cfg (registry_of w !! node_key n) tb /\
      key_asked cfg (store w !! node_key n) tb n w w' /\ registered cfg tb n w w')).

Lemma registered_later cfg tb n w w1 w' :
  later w w1 -> unchanged w w1 -> registered cfg tb n w1 w' -> registered cfg tb n w w'.
Proof.
  intros Hl (Hrows & Hn & Hnr) (msg & n' & r & Hm & Ha & Hreg & Hsame & Hkey & Hr & Hv & Hend). rewrite Hrows in Ha, Hreg.
  exists msg, n', r. split; [change [msg] with ([] ++ [msg]); by eapply replies_between_app|]. split_and!; try done.
  { destruct Hkey as [Hkey|(t & Hd & Hkey)]; [by left|right; exists t; split; [done|]].
    eapply fresh_hex_wider; [exact Hl| |exact Hkey]. unfold later. done. }
  intros Hok. destruct (Hend Hok) as (Hact & Hst & ip & Hdet & Happ). split; [done|]. split; [done|]. exists ip.
  split; [by eapply detected_later; [exact Hl|exact Hdet|]|]. by eapply applied_wider; [exact Hn|exact Happ|].
Qed.

Lemma answered_refused cfg tb w st w' : db_invariant (w_rows w) -> st <> UBUS_STATUS_OK -> unchanged w w' -> answered cfg tb w st w'.
Proof. intros Hinv Hst Hu. split; [|by left]. destruct Hu as (-> & _). exact Hinv. Qed.

(** The rotation and the key of the node that a registration stores. *)
Lemma register_continues cfg ws ws' old tb u h s p c v (created : bool) n0 n1 n2 n3 sl :
  (forall k, reg_xor_key tb = Some k -> nonul k) ->
  starts_from cfg old created n0 -> keyed_from cfg ws ws' created (set_required u h s p c n0) n1 ->
  override_xor (reg_xor_key tb) (set_optional tb v n1) = Some n2 ->
  override_lifetime (reg_lifetime tb) created n2 = Some (n3, sl) ->
  continues old n3.
Proof.
  intros Hfk Hstart Hkeyed Hx Hl. eapply continues_same; [by eapply override_lifetime_rotation|].
  eapply override_xor_continues; [exact Hfk|exact Hx|].
  eapply continues_same; [apply set_optional_rotation|]. apply keyed_from_either in Hkeyed.
  destruct created.
  - destruct Hstart as [-> (t & ->)]. destruct Hkeyed as [->|(_ & key & Hkey0 & ->)].
    + split; [|by split]. by split; [constructor|cbn; unfold SZ_XOR_KEY; lia].
    + split; [|by split]. apply fresh_hex_shape in Hkey0 as [Hlen Hhex]. split; [|cbn [xor_key set_xor_key]; rewrite Hlen; unfold SZ_XOR_KEY; lia].
      eapply Forall_impl; [exact Hhex|]. by intros ch Hch ->.
  - destruct Hstart as (r & t & -> & ->). destruct Hkeyed as [->|[? _]]; [|done].
    split; [|by split_and!]. apply column_text_fits. unfold SZ_XOR_KEY. lia.
Qed.

Lemma register_keeps_key cfg ws ws' tb u h s p c v (created : bool) n0 n1 n2 n3 sl :
  keyed_from cfg ws ws' created (set_required u h s p c n0) n1 ->
  override_xor (reg_xor_key tb) (set_optional tb v n1) = Some n2 ->
  override_lifetime (reg_lifetime tb) created n2 = Some (n3, sl) ->
  node_key n3 = mkKey (snprintf_s SZ_TEXT h) p (snprintf_s SZ_UID u) (snprintf_s SZ_IP_VERSION v).
Proof.
  intros Hkeyed [Hx _]%override_xor_key Hl%override_lifetime_key. rewrite Hl, Hx, set_optional_key.
  by destruct (keyed_from_either _ _ _ _ _ _ Hkeyed) as [->|(_ & key & _ & ->)].
Qed.

Lemma register_key_asked cfg ws ws' old tb u h s p c v (created : bool) n0 n1 n2 n3 sl :
  starts_from cfg old created n0 -> keyed_from cfg ws ws' created (set_required u h s p c n0) n1 ->
  override_xor (reg_xor_key tb) (set_optional tb v n1) = Some n2 ->
  override_lifetime (reg_lifetime tb) created n2 = Some (n3, sl) ->
  key_asked cfg old tb n3 ws ws' /\ (forall x, reg_xor_key tb = Some x -> is_safe_id (Some x) = true).
Proof.
  intros Hstart Hkeyed [_ Hx]%override_xor_key (Hkey & Hst & _)%override_lifetime_rotation.
  destruct (set_optional_rotation tb v n1) as (Ok & Os & _). unfold key_asked.
  destruct (reg_xor_key tb) as [x|].
  - destruct Hx as (Hsafe & Hz & ->). rewrite Hst, Hkey. split; [by split|]. by intros x' [= <-].
  - subst n2. split; [|done]. rewrite Hkey, Ok. clear Hkey Hst Ok Os. unfold keyed_from in Hkeyed. destruct created.
    + destruct Hstart as [-> (t & ->)]. destruct (enable_xor cfg); cbn [andb] in Hkeyed; [|by subst n1].
      by destruct Hkeyed as (key & Hf & ->).
    + destruct Hstart as (r & t & -> & ->). cbn [andb] in Hkeyed. by subst n1.
Qed.

Lemma starts_created cfg old created n0 : starts_from cfg old created n0 ->
  created = match old with Some _ => false | None => true end.
Proof. destruct created; [by intros [-> _]|by intros (r & t & -> & _)]. Qed.

(** The node that is about to be stored for an accepted request. *)
Record built (cfg : config) (tb : register_request) (old : option row) (k : key) (created sl : bool) (n : node) (ws ws' : world) : Prop := {
  built_key : node_key n = k;
  built_created : created = match old with Some _ => false | None => true end;
  built_continues : continues old n;
  built_fits : registration_fits (node_registration n);
  built_lifetime : sl = false -> exists r, old = Some r /\ lifetime n = g_lifetime (row_registration r);
  built_registration : url_filled (node_registration n) = register_on cfg (row_registration <$> old) tb;
  built_asked : key_asked cfg old tb n ws ws'
}.

Lemma register_built cfg ws ws' tb old u h p c s v created n0 n1 n2 n3 sl :
  request_fits tb -> lifetime_ok (default_lifetime cfg) ->
  reg_uid tb = Some u -> reg_server_host tb = Some h -> reg_client_port tb = Some c -> reg_psk tb = Some s ->
  get_normalized_ip_version (reg_ip_version tb) = Some v ->
  starts_from cfg old created n0 -> keyed_from cfg ws ws' created (set_required u h s p (int32 c) n0) n1 ->
  override_xor (reg_xor_key tb) (set_optional tb v n1) = Some n2 ->
  override_lifetime (reg_lifetime tb) created n2 = Some (n3, sl) ->
  built cfg tb old (mkKey h p u v) created sl n3 ws ws'.
Proof.
  intros (Hfu & Hfh & Htext) Hcfg Hu Hh Hc Hs Hv Hstart Hkeyed Hx Hl.
  destruct (requested_registration cfg ws ws' old created tb _ _ s _ c _ n0 n1 n2 n3 sl Hcfg Htext Hc Hs Hstart Hkeyed Hx Hl) as (Hfit & Hreg & Hlt).
  split; [|by eapply starts_created|eapply register_continues; eauto using request_text_key|done|done|done|].
  - rewrite (register_keeps_key cfg ws ws' tb _ _ _ _ _ _ created n0 n1 n2 n3 sl Hkeyed Hx Hl).
    by rewrite !snprintf_s_id by (first [apply Hfh|apply Hfu|eapply normalized_fits]; done).
  - apply (register_key_asked cfg ws ws' _ tb _ _ _ _ _ _ created n0 n1 n2 n3 sl Hstart Hkeyed Hx Hl).
Qed.

Lemma wp_register_node cfg tb u h p c s v w :
  db_invariant (w_rows w) -> request_fits tb -> lifetime_ok (default_lifetime cfg) ->
  reg_uid tb = Some u -> reg_server_host tb = Some h -> reg_server_port tb = Some p -> reg_client_port tb = Some c ->
  reg_psk tb = Some s -> get_normalized_ip_version (reg_ip_version tb) = Some v ->
  is_safe_id (Some u) = true -> port_ok (int32 p) -> port_ok (int32 c) ->
  wp (register_node cfg tb (mkKey h (int32 p) u v) (int32 c) s) (answered cfg tb w) w.
Proof.
  intros Hinv Hfits Hcfg Hu Hh Hp Hc Hs Hv Hsafe Hpok Hcok. set (k := mkKey h (int32 p) u v).
  apply wp_bind. eapply wp_mono; [apply (wp_register_start cfg k), Hinv|].
  intros start w1 [H1 Hstart]. pose proof (calm_unchanged _ _ H1) as Hu1.
  assert (forall st w', st <> UBUS_STATUS_OK -> unchanged w w' -> answered cfg tb w st w') as Hrefuse.
  { intros st w'. by apply answered_refused. }
  destruct start as [[n0 created]|]; [|by apply wp_ret, Hrefuse].
  apply wp_bind. eapply wp_mono; [apply wp_and; [apply wp_register_key|wp_frame later]|].
  intros keyed w2 [[Hu2 Hkeyed] Hl2]. assert (later w w1) as Hl1 by (apply (calm_respects _ _ _ H1)).
  assert (unchanged w w2) as Hu02 by by eapply unchanged_trans.
  destruct keyed as [n1|]; [|by apply wp_ret, Hrefuse]. specialize (Hkeyed n1 eq_refl).
  destruct (override_xor _ _) as [n2|] eqn:Hx; [|by apply wp_ret, Hrefuse].
  destruct (override_lifetime _ _ _) as [[n3 sl]|] eqn:Hl; [|by apply wp_ret, Hrefuse].
  destruct (register_built cfg w1 w2 tb _ u h (int32 p) c s v created n0 n1 n2 n3 sl Hfits Hcfg Hu Hh Hc Hs Hv Hstart Hkeyed Hx Hl)
    as [Hk Hcr Hcont Hfit Hlt Hreg Hasked]. fold k in Hk.
  assert (w_rows w2 = w_rows w) as Hrows by apply Hu02.
  rewrite <- Hk in Hcont, Hcr, Hasked, Hreg, Hlt. eapply wp_mono.
  { apply wp_and; [apply (wp_register_apply cfg created sl tb n3 w2); rewrite ?Hrows, ?lookup_fmap; done|].
    unfold register_apply, refetch. wp_frame later. }
  intros st w3 [[Hinv3 Hend] Hl3]. split; [done|]. destruct Hend as [[-> Hu3]|[-> Hdone]]; [left; by split; [|eapply unchanged_trans]|right].
  split; [done|]. exists n3. rewrite lookup_fmap. split; [|split; [done|split; [by eapply key_asked_wider; [exact Hl1|exact Hl3|]|]]].
  - rewrite Hk. split; [done|]. split; [done|]. split; [by exists p|]. split; [done|]. split; [by exists c|].
    split; [by rewrite Hs|]. split; [|apply (register_key_asked cfg w1 w2 _ tb _ _ _ _ _ _ created n0 n1 n2 n3 sl Hstart Hkeyed Hx Hl)].
    intros l Hl'. apply override_lifetime_registration in Hl as (_ & _ & Hl). by apply Hl.
  - apply (registered_later cfg tb n3 w w2); [by transitivity w1|done|done].
Qed.

Lemma wp_handle_register cfg tb w :
  db_invariant (w_rows w) -> request_fits tb -> lifetime_ok (default_lifetime cfg) ->
  wp (handle_register cfg tb) (answered cfg tb w) w.
Proof.
  intros Hinv Hfit Hcfg. unfold handle_register.
  assert (wp (mret UBUS_STATUS_INVALID_ARGUMENT) (answered cfg tb w) w) as Hrefuse.
  { apply wp_ret, answered_refused; [done|done|]. apply calm_unchanged. reflexivity. }
  destruct (reg_uid tb) as [u|] eqn:Hu; [|done]. destruct (reg_server_host tb) as [h|] eqn:Hh; [|done].
  destruct (reg_server_port tb) as [p|] eqn:Hp; [|done]. destruct (reg_client_port tb) as [c|] eqn:Hc; [|done].
  destruct (reg_psk tb) as [s|] eqn:Hs; [|done].
  destruct (is_safe_id _) eqn:Hsafe; [|done]. cbn [negb].
  destruct (bad_port (int32 p)) eqn:Hbp; [done|]. destruct (bad_port (int32 c)) eqn:Hbc; [done|].
  destruct (get_normalized_ip_version _) as [v|] eqn:Hv; [|done].
  apply wp_register_node; auto using bad_port_false.
Qed.
End Handle.
