(* ===== verification/MethodsSpec.v ===== *)
(** * MethodsSpec: the other methods, the callbacks and the connection

    deregister tells the truth about the three things it removes, status
    reports every row, refresh and the callbacks only reconcile, and the
    connection to the bus is taken up and given back in order. *)

From S2P Require Import Prelude CLib Types World Logic Helper Db DbSpec Exec ExecSpec Runner IpDetect IpDetectSpec Reconcile ReconcileSpec ReconcileProps UbusIf UbusSpec RegisterSpec.

Definition flag_of (name : cstr) (msg : list blob) : Z :=
  match blob_field name msg with Some (BU8 _ v) => v | _ => 0%Z end.

Section Methods.
Context `{E : Env} {Run : Exec} `{!ExecLaws Run}.
Implicit Types (w : world).

Lemma commands_replied cmds msg w w1 :
  commands_between cmds w w1 -> commands_between cmds w (set_w_trace (EvReply msg :: w_trace w1) w1).
Proof. intros (t & Ht & Hc). exists (EvReply msg :: t). cbn [w_trace set_w_trace]. by rewrite Ht. Qed.

(** ** deregister *)

(** What was done for the three removals, and what is said of them: the server
    was told to delete the node, with the result [rcs], then the local tool,
    with the result [rcc], and then the row; each flag of the answer is 1 if
    that removal succeeded and 0 if it did not. *)
Definition deregistered (k : key) (n : node) (msg : list blob) (w w' : world) : Prop :=
  (exists cmds, commands_between cmds w w' /\ cmds `sublist_of` [tuctl n (server_del_script n); ktuctl (client_del_argv n)]) /\
  exists w0 rcs w1 rcc w2,
    calm w w0 /\ one_script n (server_del_script n) DELETED w0 rcs w1 /\ ktuctl_run (client_del_argv n) w1 rcc w2 /\
    later w2 w' /\
    flag_of "server_deleted" msg = (if (rcs =? 0)%Z then 1%Z else 0%Z) /\
    flag_of "client_deleted" msg = (if (rcc =? 0)%Z then 1%Z else 0%Z) /\
    ((flag_of "db_deleted" msg = 1%Z /\ store w' = delete k (store w) /\
        text_of "status" msg = if (rcs =? 0)%Z && (rcc =? 0)%Z then literal "deleted" else literal "deleted_with_cleanup_errors") \/
     (flag_of "db_deleted" msg = 0%Z /\ store w' = store w /\ text_of "status" msg = literal "error" /\ sql_fault w w')).

Lemma wp_resolve_node k out w :
  table_ok (w_rows w) ->
  wp (resolve_node k out) (fun r w' => calm w w' /\
    ((r.1 = 0%Z /\ exists row t, store w !! k = Some row /\ r.2 = read_row (env_time t) row) \/
     (r.1 = 1%Z /\ store w !! k = None) \/ (r.1 = (-1)%Z /\ sql_fault w w'))) w.
Proof.
  intros Hok. apply wp_bind. eapply wp_mono; [by apply get_spec|]. intros [rc n] w1 [H1 H]. cbn [fst snd] in *.
  apply wp_ret. split; [done|]. cbn [fst snd].
  destruct H as [(-> & H)|[(-> & _ & H)|(-> & _ & H)]]; [by left|by right; left|by right; right].
Qed.

Lemma wp_deregister_node k n w :
  table_ok (w_rows w) -> node_key n = k -> is_Some (store w !! k) ->
  wp (deregister_node n) (fun st w' => st = UBUS_STATUS_OK /\ table_ok (w_rows w') /\
    exists msg, replies_between [msg] w w' /\ deregistered k n msg w w') w.
Proof.
  intros Hok <- Hsome.
  apply wp_bind. eapply wp_mono; [apply wp_and; [apply wp_and; [apply server_del_spec|apply wp_server_deleted]|apply wp_and; [wp_frame same_db|apply wp_and; [wp_frame same_schema|apply wp_and; [wp_frame later|wp_frame no_replies]]]]|].
  intros rcs w1 [[(_ & dels & Hran1 & Hsub1 & _) Hscript] [(_ & _ & Hdb1) [Hsc1 [Hl1 Hr1]]]].
  apply wp_bind. eapply wp_mono; [apply wp_and; [apply wp_and; [apply client_del_spec|apply wp_ktuctl_run]|apply wp_and; [wp_frame same_db|apply wp_and; [wp_frame same_schema|apply wp_and; [wp_frame later|wp_frame no_replies]]]]|].
  intros rcc w2 [[Hrun2 Htool] [(_ & _ & Hdb2) [Hsc2 [Hl2 Hr2]]]]. apply run_result_some in Hrun2 as (_ & resets & Hran2 & Hsub2 & _).
  assert (table_ok (w_rows w2)) as Hokw2 by by rewrite Hdb2, Hdb1.
  apply wp_bind. eapply wp_mono; [apply wp_and; [by apply delete_spec|apply wp_and; [wp_frame no_commands|apply wp_and; [wp_frame no_replies|wp_frame later]]]|].
  intros rcd w3 [[Hok3 Hdel] [Hc3 [Hr3 Hl3]]]. cbv zeta. apply wp_bind, wp_emit, wp_ret. split; [done|]. split; [done|].
  set (msg := _ ++ _ ++ add_node_brief n). exists msg.
  assert (no_replies w w3) as Hr by (by transitivity w1; [|transitivity w2]). split; [by apply replied|].
  assert (flag_of "server_deleted" msg = if (rcs =? 0)%Z then 1%Z else 0%Z) as Fs.
  { subst msg. destruct (rcd =? 0)%Z, (rcs =? 0)%Z, (rcc =? 0)%Z; reflexivity. }
  assert (flag_of "client_deleted" msg = if (rcc =? 0)%Z then 1%Z else 0%Z) as Fc.
  { subst msg. destruct (rcd =? 0)%Z, (rcs =? 0)%Z, (rcc =? 0)%Z; reflexivity. }
  assert (flag_of "db_deleted" msg = if (rcd =? 0)%Z then 1%Z else 0%Z) as Fd.
  { subst msg. destruct (rcd =? 0)%Z, (rcs =? 0)%Z, (rcc =? 0)%Z; reflexivity. }
  assert (text_of "status" msg = if (rcd =? 0)%Z then if (rcs =? 0)%Z && (rcc =? 0)%Z then literal "deleted"
    else literal "deleted_with_cleanup_errors" else literal "error") as Ft.
  { subst msg. destruct (rcd =? 0)%Z, (rcs =? 0)%Z, (rcc =? 0)%Z; reflexivity. }
  clearbody msg. unfold deregistered. rewrite Fs, Fc, Fd, Ft. split.
  - exists (dels ++ resets). split; [|by apply (sublist_app _ [_] _ [_])].
    apply commands_replied. rewrite <- (app_nil_r (dels ++ resets)). eapply commands_between_app; [|exact Hc3].
    eapply commands_between_app; by apply ran_commands.
  - exists w, rcs, w1, rcc, w2. split; [reflexivity|]. split; [exact Hscript|]. split; [exact Htool|]. split; [exact Hl3|].
    split; [done|]. split; [done|].
    cbn [w_rows set_w_trace]. rewrite Hdb2, Hdb1 in Hdel. destruct Hdel as [(-> & _ & Hs)|[(_ & Hn & _)|(-> & Hs & Hf)]].
    + left. by cbn [Z.eqb].
    + rewrite Hn in Hsome. by destruct Hsome.
    + right. cbn [Z.eqb]. split; [done|]. split; [by rewrite Hs, ?Hdb2, ?Hdb1|]. split; [done|].
      apply (sql_fault_wider w w2 w3); [by transitivity w1..| |done]. unfold later. done.
Qed.

Lemma wp_handle_deregister tb w :
  table_ok (w_rows w) -> Forall key_fits (w_rows w) ->
  wp (handle_deregister tb) (fun st w' => table_ok (w_rows w') /\
    ((st <> UBUS_STATUS_OK /\ unchanged w w') \/
     (st = UBUS_STATUS_OK /\ exists k msg, requested_key tb = Some k /\ replies_between [msg] w w' /\
        ((store w !! k = None /\ w_rows w' = w_rows w /\ no_commands w w' /\ text_of "status" msg = literal "not_found") \/
         (exists r t, store w !! k = Some r /\ deregistered k (read_row t r) msg w w'))))) w.
Proof.
  intros Hok Hfit. unfold handle_deregister. destruct (requested_key tb) as [k|].
  2:{ apply wp_ret. split; [done|]. left. split; [done|]. apply calm_unchanged. reflexivity. }
  apply wp_bind. eapply wp_mono; [by apply wp_resolve_node|]. intros [rc n] w1 [H1 Hres]. cbn [fst snd] in *.
  pose proof (calm_unchanged _ _ H1) as (Hrows1 & Hn1 & Hr1).
  destruct Hres as [(-> & r & t & Hr & ->)|[(-> & Hnone)|(-> & _)]].
  - change (0 =? 1)%Z with false. change (negb (0 =? 0)%Z) with false. cbv iota.
    assert (row_key r = k /\ key_fits r) as [Hk Hkf].
    { apply to_map_lookup in Hr as [Hin Hk]; [|apply Hok]. rewrite Forall_forall in Hfit. auto. }
    eapply wp_mono; [apply (wp_deregister_node k)|].
    + by rewrite Hrows1.
    + by rewrite read_row_key.
    + rewrite Hrows1. by exists r.
    + intros st w2 (-> & Hok2 & msg & Hmsg & (cmds & Hc & Hsub) & w0 & rcs & w3 & rcc & w4 & H0 & Hs & Htl & Hl & Fs & Fc & Hdb).
      split; [done|]. right. split; [done|].
      exists k, msg. split; [done|]. split; [change [msg] with ([] ++ [msg]); by eapply replies_between_app|].
      right. exists r, (env_time t). split; [done|]. split.
      * exists cmds. split; [|done]. change cmds with ([] ++ cmds). by eapply commands_between_app.
      * exists w0, rcs, w3, rcc, w4. split; [by transitivity w1|]. split_and!; [done..|].
        rewrite Hrows1 in Hdb. destruct Hdb as [H|(H2 & H3 & H4 & Hf)]; [by left|right]. split_and!; [done..|].
        by eapply calm_fault.
  - cbn [Z.eqb]. apply wp_bind, wp_emit, wp_ret. split; [cbn; by rewrite Hrows1|]. right. split; [done|].
    eexists k, _. split; [done|]. split; [by apply replied|]. left. split; [done|]. split; [exact Hrows1|]. split; [|done].
    by apply commands_replied.
  - apply wp_ret. split; [by rewrite Hrows1|]. by left.
Qed.

(** ** status *)
Lemma wp_handle_status w :
  wp handle_status (fun st w' =>
    (st = UBUS_STATUS_UNKNOWN_ERROR /\ unchanged w w' /\ sql_fault w w') \/
    (st = UBUS_STATUS_OK /\ w_rows w' = w_rows w /\ no_commands w w' /\ exists nodes, 
       read_rows (select_ordered (w_rows w)) nodes /\
       replies_between [[BStr "status" "ok"; BU32 "count" (uint32 (Z.of_nat (length (w_rows w)))); BArray "nodes" (add_node_brief <$> nodes)]] w w')) w.
Proof.
  apply wp_bind. eapply wp_mono; [apply list_spec|]. intros [rc nodes] w1 [H1 H]. cbn [fst snd] in *.
  pose proof (calm_unchanged _ _ H1) as (Hrows1 & Hn1 & Hr1). destruct H as [[-> Hread]|(Hneg & _ & Hf)].
  - cbn [Z.eqb negb]. apply wp_bind, wp_emit, wp_ret. right. split; [done|]. split; [exact Hrows1|].
    split; [by apply commands_replied|]. exists nodes. split; [done|].
    replace (length (w_rows w)) with (length nodes); [by apply replied|].
    rewrite <- (Forall2_length _ _ _ Hread). apply Permutation_length, merge_sort_Permutation.
  - destruct (Z.eqb_spec rc 0); [lia|]. apply wp_ret. left. done.
Qed.

(** ** refresh *)

(** What the answer says: of all nodes, or of the one that is named. *)
Definition refresh_says (tb : refresh_request) (m : gmap key row) (msg : list blob) : Prop :=
  if blobmsg_get_bool_default (ref_all tb) false then text_of "scope" msg = literal "all"
  else exists k, requested_key (ref_node tb) = Some k /\ (text_of "status" msg = literal "not_found" <-> m !! k = None).

(** Reconciling, and one reply if it was accepted. *)
Definition only_reconciled (tb : refresh_request) (st : ubus_status) (w w' : world) : Prop :=
  db_invariant (w_rows w') /\ same_desired w w' /\
  ((st <> UBUS_STATUS_OK /\ unchanged w w') \/
   (st = UBUS_STATUS_OK /\ exists msg, replies_between [msg] w w' /\ refresh_says tb (store w) msg)).

Lemma wp_handle_refresh cfg tb w :
  db_invariant (w_rows w) -> wp (handle_refresh cfg tb) (fun st w' => only_reconciled tb st w w') w.
Proof.
  intros Hinv. unfold handle_refresh. cbv zeta. set (force := blobmsg_get_bool_default (ref_force tb) false).
  assert (forall msg w1, refresh_says tb (store w) msg -> db_invariant (w_rows w1) -> same_desired w w1 -> no_replies w w1 ->
    wp (ubus_send_reply msg;; mret UBUS_STATUS_OK) (fun st w' => only_reconciled tb st w w') w1) as Hreply.
  { intros msg w1 Hsays Hi Hd Hr. apply wp_bind, wp_emit, wp_ret. split; [done|]. split; [exact Hd|].
    right. split; [done|]. exists msg. split; [by apply replied|done]. }
  assert (forall st w1, st <> UBUS_STATUS_OK -> calm w w1 ->
    wp (mret st) (fun st w' => only_reconciled tb st w w') w1) as Hrefuse.
  { intros st w1 Hst H1. apply wp_ret. pose proof (calm_unchanged _ _ H1) as Hu.
    pose proof Hu as (Hrows & _ & Hr). split; [by rewrite Hrows|]. split; [apply (calm_respects _ _ _ H1)|by left]. }
  unfold refresh_says in Hreply. destruct (blobmsg_get_bool_default (ref_all tb) false).
  - apply wp_bind. eapply wp_mono; [apply wp_and; [wp_frame keeps_invariant|apply wp_and; [wp_frame same_desired|wp_frame no_replies]]|].
    intros rc w1 [Hi [Hd Hr]]. apply Hreply; [by destruct (rc =? 0)%Z|by apply Hi|done|done].
  - destruct (requested_key _) as [k|]; [|apply Hrefuse; [done|reflexivity]].
    apply wp_bind. eapply wp_mono; [apply wp_resolve_node, Hinv|]. intros [rc n] w1 [H1 Hres]. cbn [fst snd] in *.
    pose proof (calm_unchanged _ _ H1) as (Hrows1 & Hn1 & Hr1).
    assert (same_desired w w1) as Hd1 by (apply (calm_respects _ _ _ H1)).
    destruct Hres as [(-> & row & t & Hrow & _)|[(-> & Hnone)|(-> & _)]]; cbn [Z.eqb negb]; [|by apply Hreply; [exists k|rewrite Hrows1|..]|by apply Hrefuse].
    apply wp_bind. eapply wp_mono; [apply wp_and; [wp_frame keeps_invariant|apply wp_and; [wp_frame same_desired|wp_frame no_replies]]|].
    intros r w2 [Hi2 [Hd2 Hr2]]. assert (db_invariant (w_rows w2)) as Hinv2 by (apply Hi2; by rewrite Hrows1).
    apply wp_bind. eapply wp_mono; [apply wp_refetch, Hinv2|]. intros n' w3 H3.
    pose proof (calm_unchanged _ _ H3) as (Hrows3 & _ & Hr3).
    assert (same_desired w2 w3) as Hd3 by (apply (calm_respects _ _ _ H3)).
    apply Hreply; [|by rewrite Hrows3| |]; [|transitivity w1; [done|]; by transitivity w2..].
    exists k. split; [done|]. rewrite Hrow. by destruct (r.1 =? 0)%Z.
Qed.

(** ** Callbacks *)
Lemma wp_net_event_cb uci cfg msg w :
  wp (net_event_cb uci cfg msg) (fun _ w' => keeps_invariant w w' /\ same_desired w w' /\ no_replies w w' /\
    (unchanged w w' \/ exists ifname, msg = Some (Some (literal "ifup"), Some ifname) /\ uci = true /\
       exists t o, w_tick w <= t < w_tick w' /\ env_uci t = Some o /\ option_is_wan o (Some ifname) = true)) w.
Proof.
  assert (forall w', calm w w' -> wp (mret tt) (fun _ w' => keeps_invariant w w' /\ same_desired w w' /\ no_replies w w' /\
    (unchanged w w' \/ exists ifname, msg = Some (Some (literal "ifup"), Some ifname) /\ uci = true /\
       exists t o, w_tick w <= t < w_tick w' /\ env_uci t = Some o /\ option_is_wan o (Some ifname) = true)) w') as Hquiet.
  { intros w1 H1. apply wp_ret. pose proof (calm_unchanged _ _ H1).
    split_and!; [apply (calm_respects _ _ _ H1)..|by left]. }
  unfold net_event_cb. destruct msg as [[[action|] [ifname|]]|]; try (apply Hquiet; reflexivity).
  destruct (streq (Some action) _) eqn:Hup; [|apply Hquiet; reflexivity].
  assert (action = literal "ifup") as -> by (unfold streq, strcmp_eq in Hup; by apply bool_decide_eq_true in Hup).
  unfold check_wan_interface. destruct uci; [|apply wp_bind, wp_ret, Hquiet; reflexivity].
  apply wp_bind, wp_bind, wp_succeeds. intros w1 H1 Ht1. destruct (env_ok _); [|apply wp_ret; by apply Hquiet]. cbn [negb].
  apply wp_bind, wp_call_silent. intros n b Hn. set (w2 := set_w_tick n _).
  assert (calm w w2) as H2 by (transitivity w1; [done|exists n, b; split; [lia|done]]).
  destruct (env_uci (w_tick w1)) as [o|] eqn:Hu; apply wp_ret; cbn [fst snd Z.eqb negb]; [|by apply Hquiet].
  destruct (option_is_wan o (Some ifname)) eqn:Hwan; [|by apply Hquiet].
  apply wp_bind. eapply wp_mono; [apply wp_and; [wp_frame keeps_invariant|apply wp_and; [wp_frame same_desired|apply wp_and; [wp_frame no_replies|wp_frame later]]]|].
  intros rc w3 [Hi [Hd [Hr Hl]]]. apply wp_ret.
  split_and!; [transitivity w2; [apply (calm_respects _ _ _ H2)|done]..|].
  right. exists ifname. split; [done|]. split; [done|]. exists (w_tick w1), o. split; [|done].
  unfold later in Hl. cbn in Hl. lia.
Qed.
End Methods.

(** ** The connection to the bus *)

Section Connection.
Context `{E : Env}.
Implicit Types (w : world).

(** What is held agrees with the flags; the timers may be pending or not. *)
Definition bus_agrees (st : ubus_state) (w : world) : Prop :=
  exists s p, bus_after (w_trace w) =
    Some (if ubus st then mkBus true (net_event_registered st) (ubus_obj_added st) s p else bus_idle).

Lemma wp_cleanup st w :
  bus_agrees st w ->
  wp (tumgrd_ubus_cleanup st) (fun st' w' => ubus st' = false /\ bus_after (w_trace w') = Some bus_idle) w.
Proof.
  destruct st as [[] h o]; intros (s & p & Hb); cbn [ubus net_event_registered ubus_obj_added] in Hb; [|by apply wp_ret].
  unfold tumgrd_ubus_cleanup, wp. cbn [negb ubus net_event_registered ubus_obj_added].
  destruct h, o; cbn; unfold bus_after in *; cbn [foldr w_trace set_w_trace]; rewrite Hb; by split.
Qed.

Lemma wp_ubus_init cfg st w :
  bus_after (w_trace w) = Some bus_idle ->
  wp (tumgrd_ubus_init cfg st) (fun r w' =>
    (r.1 = 0%Z /\ ubus r.2 = true /\ ubus_obj_added r.2 = true /\ 
       bus_after (w_trace w') = Some (mkBus true (net_event_registered r.2) true true true)) \/
    (r.1 <> 0%Z /\ ubus r.2 = false /\ bus_after (w_trace w') = Some bus_idle)) w.
Proof.
  intros Hb. apply wp_bind, wp_succeeds. intros w1 (Ht1 & _)%calm_fields _.
  destruct (env_ok _); [|apply wp_ret; right; by rewrite Ht1]. cbn [negb].
  apply wp_bind, wp_emit, wp_bind, wp_call_silent. intros n b _. set (w2 := set_w_tick n _).
  set (reg := (env_status _ =? 0)%Z).
  assert (exists w3, (if reg then ubus_call "register_event_handler" else mret tt) w2 = Some (tt, w3) /\
    bus_after (w_trace w3) = Some (mkBus true reg false false false)) as (w3 & Heq & Hb3).
  { destruct reg; (eexists; split; [reflexivity|]); unfold w2, bus_after in *; cbn [foldr w_trace set_w_trace set_w_tick set_w_timed_out];
      rewrite Ht1, Hb; reflexivity. }
  apply wp_bind. unfold wp at 1. rewrite Heq. apply wp_bind, wp_call_silent. intros n' b' _. set (w4 := set_w_tick n' _).
  destruct (Z.eqb_spec (env_status (w_tick w3)) 0) as [Hz|Hnz]; cbn [negb].
  - unfold wp. cbn. left. split; [done|]. split; [done|]. split; [done|]. unfold bus_after in *. cbn [foldr]. rewrite Hb3. reflexivity.
  - apply wp_bind. eapply wp_mono; [apply wp_cleanup; exists false, false; exact Hb3|]. intros st' w5 [Hu Hb5]. apply wp_ret. by right.
Qed.
End Connection.
