(* ===== verification/UbusProps.v ===== *)
(** * UbusProps: the properties of ubus_if.c, and runs of it *)

From S2P Require Import Prelude CLib Types World Logic Helper Db DbSpec Exec ExecSpec Runner IpDetect IpDetectSpec Reconcile ReconcileSpec ReconcileProps UbusIf UbusSpec Registry RegisterSpec MethodsSpec.

Section Properties.
Context `{E : Env} {Run : Exec} `{!ExecLaws Run} `{!Responsive}.
Implicit Types (w : world).

(** C14: given [Responsive], a request to register returns and is answered once,
    or refused with no trace: no row changed, no command run, no reply. The uid
    and the host of the request must fit their arrays (what happens otherwise is
    in [TruncationSpec]), the default lifetime must be in range, and the table
    well formed. An answer means that the request was admissible and that the
    registry, what was asked for every node, is as before but for this node, which
    has what the request says, each text cut to its array, and otherwise what it
    had; its key is the one asked for, the one it had, or one made of bytes read
    from /dev/urandom during the call. The reply says whether the node was there,
    and one that says ok means that the row is active, that no rotation is left
    over, and that the commands that give the server and the local client the
    node, with these settings and the key of the row, at the address that was
    detected, were run. The invariant of the database is kept, whatever fails. *)
Theorem register_outcome cfg tb w :
  watched w -> db_invariant (w_rows w) -> request_fits tb -> lifetime_ok (default_lifetime cfg) ->
  exists st w', handle_register cfg tb w = Some (st, w') /\ db_invariant (w_rows w') /\
    ((st <> UBUS_STATUS_OK /\ unchanged w w') \/
     (st = UBUS_STATUS_OK /\ exists n, admissible tb (node_key n) /\
        url_filled (node_registration n) = register_on cfg (registry_of w !! node_key n) tb /\
        key_asked cfg (store w !! node_key n) tb n w w' /\ registered cfg tb n w w')).
Proof. intros Hw Hinv Hfit Hcfg. exact (total_wp watched _ _ w Hw (wp_handle_register cfg tb w Hinv Hfit Hcfg)). Qed.

(** C15: given [Responsive], a request to deregister returns. It is refused with
    no trace, or answered once: a node that is not there is reported as such and
    nothing is done. Otherwise the server is told to delete the node, then the
    local tool, then the row is deleted, and the three flags of the answer say of
    each whether it succeeded, in both directions: the first is 1 if and only if
    [tuctl_client] exited with 0 and printed the marker, the second if and only if
    [ktuctl] exited with 0, the third if and only if the row is gone, which only a
    failure of the engine prevents. The status is "deleted" if all three are 1,
    "deleted_with_cleanup_errors" if the row is gone but another removal failed,
    and "error" if the row is not gone. *)
Theorem deregister_outcome tb w :
  watched w -> table_ok (w_rows w) -> Forall key_fits (w_rows w) ->
  exists st w', handle_deregister tb w = Some (st, w') /\ table_ok (w_rows w') /\
    ((st <> UBUS_STATUS_OK /\ unchanged w w') \/
     (st = UBUS_STATUS_OK /\ exists k msg, requested_key tb = Some k /\ replies_between [msg] w w' /\
        ((store w !! k = None /\ w_rows w' = w_rows w /\ no_commands w w' /\ text_of "status" msg = literal "not_found") \/
         (exists r t, store w !! k = Some r /\ deregistered k (read_row t r) msg w w')))).
Proof. intros Hw Hok Hfit. exact (total_wp watched _ _ w Hw (wp_handle_deregister tb w Hok Hfit)). Qed.

(** Status answers with the number of rows and one table for each, in the
    order of the table, and changes nothing; it is refused only for a fault of
    the engine or of the allocator. *)
Theorem status_reports_every_row w :
  watched w ->
  exists st w', handle_status w = Some (st, w') /\
    ((st = UBUS_STATUS_UNKNOWN_ERROR /\ unchanged w w' /\ sql_fault w w') \/
     (st = UBUS_STATUS_OK /\ w_rows w' = w_rows w /\ no_commands w w' /\ exists nodes,
        read_rows (select_ordered (w_rows w)) nodes /\
        replies_between [[BStr "status" "ok"; BU32 "count" (uint32 (Z.of_nat (length (w_rows w))));
                          BArray "nodes" (add_node_brief <$> nodes)]] w w')).
Proof. intros Hw. exact (total_wp watched _ _ w Hw (wp_handle_status w)). Qed.

(** A request to refresh returns, keeps the invariant of the database, and
    never changes what the user asked for: keys, ports, secrets, texts, limits
    and lifetimes of all rows are as before.  It is refused with no trace, or
    answered once; the answer is about all nodes if that was asked, and
    otherwise says truthfully whether the node that was named is there. *)
Theorem refresh_only_reconciles cfg tb w :
  watched w -> db_invariant (w_rows w) ->
  exists st w', handle_refresh cfg tb w = Some (st, w') /\ db_invariant (w_rows w') /\ same_desired w w' /\
    ((st <> UBUS_STATUS_OK /\ unchanged w w') \/
     (st = UBUS_STATUS_OK /\ exists msg, replies_between [msg] w w' /\ refresh_says tb (store w) msg)).
Proof. intros Hw Hinv. exact (total_wp watched _ _ w Hw (wp_handle_refresh cfg tb w Hinv)). Qed.

(** C31: an event of the network returns, keeps the invariant of the database
    and what the user asked for, and sends no reply; unless it says that an
    interface came up which the configuration names as WAN, nothing happens
    at all. *)
Theorem net_event_reconciles_only_for_wan uci cfg msg w :
  watched w ->
  exists w', net_event_cb uci cfg msg w = Some (tt, w') /\
    keeps_invariant w w' /\ same_desired w w' /\ no_replies w w' /\
    (unchanged w w' \/ exists ifname, msg = Some (Some (literal "ifup"), Some ifname) /\ uci = true /\
       exists t o, w_tick w <= t < w_tick w' /\ env_uci t = Some o /\ option_is_wan o (Some ifname) = true).
Proof.
  intros Hw. destruct (total_wp watched _ _ w Hw (wp_net_event_cb uci cfg msg w)) as ([] & w' & Heq & Hend).
  by exists w'.
Qed.
End Properties.

(** C39: the bus is taken up and given back in order, whatever fails on the way:
    no call is made without a connection, nothing is registered or removed
    twice, and no connection is freed with something registered.  A set-up that
    succeeds leaves the connection, the object and both timers; one that fails
    leaves nothing; and after the tear-down nothing is left in either case. *)
Theorem bus_is_given_back `{E : Env} cfg st w :
  bus_after (w_trace w) = Some bus_idle ->
  exists rc st1 w1 st2 w2, tumgrd_ubus_init cfg st w = Some ((rc, st1), w1) /\
    tumgrd_ubus_cleanup st1 w1 = Some (st2, w2) /\
    bus_after (w_trace w1) = Some (if (rc =? 0)%Z then mkBus true (net_event_registered st1) true true true else bus_idle) /\
    bus_after (w_trace w2) = Some bus_idle /\ ubus st2 = false.
Proof.
  intros Hb.
  assert (Total (fun _ => True) (tumgrd_ubus_init cfg st)) as HT.
  { unfold tumgrd_ubus_init, tumgrd_ubus_cleanup, ubus_call, uloop_timeout_set, uloop_timeout_cancel, succeeds. cbv zeta. apply _. }
  destruct (total_wp (fun _ => True) _ _ w I (wp_ubus_init cfg st w Hb)) as ([rc st1] & w1 & H1 & Hend). cbn [fst snd] in Hend.
  assert (Total (fun _ => True) (tumgrd_ubus_cleanup st1)) as HT1.
  { unfold tumgrd_ubus_cleanup, ubus_call, uloop_timeout_cancel. apply _. }
  assert (bus_agrees st1 w1) as Hst1.
  { unfold bus_agrees. destruct Hend as [(_ & -> & -> & Hb1)|(_ & -> & Hb1)]; [by exists true, true|by exists false, false]. }
  destruct (total_wp (fun _ => True) _ _ w1 I (wp_cleanup st1 w1 Hst1)) as (st2 & w2 & H2 & Hu & Hb2).
  exists rc, st1, w1, st2, w2. split_and!; [done|done| |done|done].
  destruct Hend as [(-> & _ & _ & Hb1)|(Hne & _ & Hb1)]; [done|]. by destruct (Z.eqb_spec rc 0).
Qed.

(** ** Runs *)
Definition sample_request : register_request :=
  mkRegister (Some (literal "n1")) (Some (literal "vpn.example")) (Some 443%Z) (Some 5000%Z) (Some (literal "secret"))
    (Some (literal "home")) None None None (Some (literal "4")) None (Some 3600%Z).
Definition sample_name : node_request :=
  mkNodeRequest (Some (literal "n1")) (Some (literal "vpn.example")) (Some 443%Z) (Some (literal "4")).

Lemma sample_request_fits : request_fits sample_request.
Proof.
  unfold request_fits, request_text, text_fits. split_and!.
  1-2: intros ? [= <-]; split; [by repeat constructor|cbn; unfold SZ_UID, SZ_TEXT; lia].
  repeat (apply Forall_cons; split); try done; intros ? [= <-]; by repeat constructor.
Qed.

Lemma new_world_invariant : db_invariant (w_rows new_world).
Proof. split; [apply empty_table_ok|constructor]. Qed.

(** A node is registered, reported, and removed. *)
Example register_then_deregister :
  let run := @handle_register (online_env now0) (@supervised_exec (online_env now0)) sample_config sample_request new_world in
  match run with
  | Some (st, w1) =>
      st = UBUS_STATUS_OK /\ map (fun m => text_of "status" m) (replies (w_trace w1)) = [literal "ok"] /\
      map (fun r => (c_status r, option_map (fun k => length k) (c_xor_key r), c_lifetime r)) (w_rows w1)
        = [(Some TUMGRD_STATUS_ACTIVE, Some 128, Some 3600%Z)] /\
      match @handle_deregister (online_env now0) (@supervised_exec (online_env now0)) sample_name w1 with
      | Some (st2, w2) => st2 = UBUS_STATUS_OK /\ w_rows w2 = [] /\
          map (fun m => text_of "status" m) (replies (w_trace w2)) = [literal "ok"; literal "deleted_with_cleanup_errors"]
      | None => False
      end
  | None => False
  end.
Proof. vm_compute. split_and!; reflexivity. Qed.

Lemma register_outcome_witness : exists st w',
  @handle_register (online_env now0) (@supervised_exec (online_env now0)) sample_config sample_request new_world = Some (st, w') /\
  db_invariant (w_rows w').
Proof.
  destruct (@register_outcome (online_env now0) (@supervised_exec (online_env now0)) _ (online_responsive now0)
    sample_config sample_request new_world eq_refl new_world_invariant sample_request_fits (or_introl eq_refl)) as (st & w' & Hrun & Hinv & _).
  exists st, w'. split; [exact Hrun|exact Hinv].
Defined.

Lemma rotating_fits : Forall key_fits (w_rows rotating_world).
Proof. apply Forall_singleton. unfold key_fits, text_fits, int_fits. cbn. split_and!; try lia; by repeat constructor. Qed.
Lemma rotating_invariant : db_invariant (w_rows rotating_world).
Proof.
  split; [apply single_table_ok|]. apply Forall_singleton, set_rotation_ok; [by apply key_ok_compute|done].
Qed.

Lemma deregister_outcome_witness : exists st w',
  @handle_deregister (online_env now0) (@supervised_exec (online_env now0)) sample_name rotating_world = Some (st, w') /\
  table_ok (w_rows w').
Proof.
  destruct (@deregister_outcome (online_env now0) (@supervised_exec (online_env now0)) _ (online_responsive now0)
    sample_name rotating_world eq_refl (single_table_ok _) rotating_fits) as (st & w' & Hrun & Hok & _).
  exists st, w'. split; [exact Hrun|exact Hok].
Defined.

Lemma status_reports_every_row_witness : exists st w',
  @handle_status (online_env now0) rotating_world = Some (st, w').
Proof.
  destruct (@status_reports_every_row (online_env now0) rotating_world eq_refl)
    as (st & w' & Hrun & _). exists st, w'. exact Hrun.
Defined.

Lemma refresh_only_reconciles_witness : exists st w',
  @handle_refresh (online_env now0) (@supervised_exec (online_env now0)) sample_config (mkRefresh sample_name None None) rotating_world
    = Some (st, w') /\ db_invariant (w_rows w').
Proof.
  destruct (@refresh_only_reconciles (online_env now0) (@supervised_exec (online_env now0)) _ (online_responsive now0)
    sample_config (mkRefresh sample_name None None) rotating_world eq_refl rotating_invariant) as (st & w' & Hrun & Hrec & _).
  exists st, w'. split; [exact Hrun|exact Hrec].
Defined.

Lemma net_event_reconciles_only_for_wan_witness : exists w',
  @net_event_cb (online_env now0) (@supervised_exec (online_env now0)) true sample_config
    (Some (Some (literal "ifup"), Some (literal "wan"))) rotating_world = Some (tt, w') /\ keeps_invariant rotating_world w'.
Proof.
  destruct (@net_event_reconciles_only_for_wan (online_env now0) (@supervised_exec (online_env now0)) _ (online_responsive now0)
    true sample_config (Some (Some (literal "ifup"), Some (literal "wan"))) rotating_world eq_refl) as (w' & Hrun & Hinv & _).
  exists w'. split; [exact Hrun|exact Hinv].
Defined.

Lemma bus_is_given_back_witness : exists rc st1 w1,
  @tumgrd_ubus_init ready_env sample_config (mkUbus false false false) new_world = Some ((rc, st1), w1) /\
  bus_after (w_trace w1) = Some (if (rc =? 0)%Z then mkBus true (net_event_registered st1) true true true else bus_idle).
Proof.
  destruct (@bus_is_given_back ready_env sample_config (mkUbus false false false) new_world eq_refl)
    as (rc & st1 & w1 & st2 & w2 & Hrun & _ & Hb & _).
  exists rc, st1, w1. split; [exact Hrun|exact Hb].
Defined.

Lemma node_brief_reads_back_witness : NoDup (blob_name <$> add_node_brief sample_node).
Proof. exact (proj1 (node_brief_reads_back sample_node sample_fits)). Defined.
