(* ===== verification/ServeSpec.v ===== *)
(** * ServeSpec: an admissible request is served

    A registration may be refused because it is not admissible, because the port
    of its client is taken, because it would replace the key of a node that is
    rotating, or because something outside fails.  There is no other reason: in
    a healthy system every other request is stored, applied and answered with
    ok, whatever state the table and the node are in. *)

From S2P Require Import Prelude CLib Types World Logic Helper Db DbSpec Exec ExecSpec Runner IpDetect IpDetectSpec Reconcile ReconcileSpec ReconcileProps RetrySpec HealthSpec ConvergeSpec UbusIf UbusSpec Registry RegisterSpec MethodsSpec UbusProps.

(** The parts of a node that the check of its address depends on. *)
Definition check_node (k : key) (g : registration) : node := set_ip_check_url (g_url g) (set_ip_version (k_version k) node_zero).

(** No other node has the client port on the server. *)
Definition client_port_free (k : key) (port : Z) (m : gmap key row) : Prop :=
  forall k' r, m !! k' = Some r -> k' <> k -> row_port_key r <> (k_host k, k_port k, port, k_version k).

Lemma merged_keys t1 t2 n sl m :
  (forall k r, m !! k = Some r -> row_key r = k) ->
  let r := spec_merged (row_of_node (filled t1 t2 n) sl) m in
  row_key r = node_key n /\ row_port_key r = (server_host n, server_port n, client_port n, ip_version n).
Proof.
  intros Hm. cbv zeta. unfold spec_merged. rewrite row_of_node_key, filled_key.
  assert (row_port_key (row_of_node (filled t1 t2 n) sl) = (server_host n, server_port n, client_port n, ip_version n)) as Hp.
  { unfold filled. cbv zeta. destruct (created_at n =? 0)%Z; cbn;
      destruct (last_updated _ =? 0)%Z; cbn; destruct (ip_check_url n); cbn; by destruct (status n). }
  destruct (m !! node_key n) as [old|] eqn:Hold; [|by rewrite row_of_node_key, filled_key].
  apply Hm in Hold. split; [done|]. unfold row_key, node_key in Hold. injection Hold as Hh Hpo _ Hv.
  unfold row_port_key, row_of_node in *. cbn [c_server_host c_server_port c_client_port c_ip_version upsert_merge] in *.
  injection Hp as _ _ Hc _. congruence.
Qed.

(** The URL of a registration is never empty, and is the one a pass picks. *)
Lemma pick_registered n : pick_ip_check_url n = g_url (url_filled (node_registration n)).
Proof. unfold pick_ip_check_url, url_filled. cbn [g_url node_registration]. by destruct (ip_check_url n) eqn:Hu; cbn; rewrite ?Hu. Qed.

Lemma url_filled_nonempty g : g_url (url_filled g) <> [].
Proof. unfold url_filled. by destruct (g_url g) eqn:Hu; [|rewrite Hu]. Qed.

Lemma check_node_url cfg old tb k : pick_ip_check_url (check_node k (register_on cfg old tb)) = g_url (register_on cfg old tb).
Proof.
  unfold pick_ip_check_url. cbn [ip_check_url check_node set_ip_check_url]. pose proof (url_filled_nonempty (request_on tb (default (blank cfg) old))).
  unfold register_on. by destruct (g_url (url_filled _)).
Qed.

(** What the node of an accepted request has of it. *)
Lemma registered_parts cfg tb old n c :
  reg_client_port tb = Some c -> url_filled (node_registration n) = register_on cfg old tb ->
  client_port n = int32 c /\ pick_ip_check_url n = g_url (register_on cfg old tb).
Proof.
  intros Hc Hreg. split; [|by rewrite pick_registered, Hreg].
  assert (forall g, g_client_port (url_filled g) = g_client_port g) as Hp by (intros g; unfold url_filled; by destruct (g_url g)).
  pose proof (f_equal g_client_port Hreg) as H. unfold register_on in H. rewrite !Hp in H. cbn in H. by rewrite Hc in H.
Qed.

Section Serve.
Context `{E : Env} {Run : Exec} `{!ExecLaws Run} (n0 : node) (t0 : nat) `{!Healthy n0 t0}.
Implicit Types (w : world).

Definition says_ok (w : world) (st : ubus_status) (w' : world) : Prop :=
  st = UBUS_STATUS_OK /\ exists msg, replies_between [msg] w w' /\ text_of "status" msg = literal "ok".

Lemma says_ok_later w w1 st w' : no_replies w w1 -> says_ok w1 st w' -> says_ok w st w'.
Proof. intros H1 (-> & msg & Hm & Ht). split; [done|]. exists msg. split; [exact (replies_between_app [] [msg] _ _ _ H1 Hm)|done]. Qed.

Lemma wp_apply_served cfg ws ws' tb k created sl n w :
  built cfg tb (store w !! k) k created sl n ws ws' -> db_invariant (w_rows w) -> steady t0 w ->
  client_port_free k (client_port n) (store w) -> Healthy n (w_tick w) ->
  wp (register_apply cfg created sl n) (says_ok w) w.
Proof.
  intros [<- _ Hcont _ _ _ _] Hinv Hst Hfree Hh. pose proof Hinv as [Hok _].
  assert (forall k r, store w !! k = Some r -> rotation_ok r) as Hrows by (intros k r; by apply invariant_row).
  apply wp_bind. eapply wp_mono.
  { apply wp_and; [by apply upsert_spec|].
    apply wp_and; [|apply wp_and; [wp_frame same_schema|apply wp_and; [wp_frame no_replies|wp_frame later]]].
    apply (run_op_invariant (OpUpsert n sl)); [|done]. eapply continues_op_ok; [|exact Hcont].
    intros r. apply Hrows. }
  intros rc w1 [(_ & t1 & t2 & Hup) [Hinv1 [Hsc [Hr1 Hl1]]]]. cbv zeta in Hup.
  destruct (merged_keys t1 t2 n sl (store w)) as [Hk Hp]; [by intros k r [_ Hk]%to_map_lookup; [|apply Hok]|].
  destruct Hup as [(-> & _ & Hs1)|(_ & _ & [Hf|Hno])].
  2:{ by apply (steady_no_fault n0 t0) in Hf. }
  2:{ destruct Hno. intros k' r Hr Hne. rewrite Hk in Hne. rewrite Hp. by apply (Hfree k' r). }
  cbn [Z.eqb negb]. apply wp_bind. eapply wp_mono.
  { apply wp_and; [|apply wp_and; [wp_frame keeps_invariant|wp_frame no_replies]].
    apply (wp_healthy_pass cfg n true (spec_merged (row_of_node (filled t1 t2 n) sl) (store w)) w1); [done| | | |].
    - eapply same_schema_ready; [exact Hsc|apply Hst].
    - by rewrite Hs1, lookup_insert_eq.
    - by apply continues_view.
    - eapply healthy_for; [exact Hl1|done..]. }
  intros [rc n'] w2 [Hrc [Hkeep Hr2]]. cbn [fst snd] in *. subst rc.
  apply wp_bind. eapply wp_mono; [by apply wp_refetch, Hkeep|]. intros n2 w3 H3. apply wp_bind, wp_emit, wp_ret.
  split; [done|]. eexists. split; [apply replied|reflexivity].
  transitivity w1; [done|]. transitivity w2; [done|]. apply (calm_respects _ _ _ H3).
Qed.

Lemma wp_start_served cfg k w :
  table_ok (w_rows w) -> steady t0 w -> wp (register_start cfg k) (fun o _ => o <> None) w.
Proof.
  intros Hok Hst. apply wp_bind. eapply wp_mono; [by apply get_spec|]. intros [rc n] w1 [H1 Hres]. cbn [fst snd] in *.
  destruct Hres as [(-> & _)|[(-> & _)|(_ & _ & Hf)]].
  - by apply wp_ret.
  - apply wp_bind, wp_time. intros w2 _. by apply wp_ret.
  - by apply (steady_no_fault n0 t0) in Hf.
Qed.

Lemma wp_key_served cfg created n w : since t0 w -> wp (register_key cfg created n) (fun o _ => o <> None) w.
Proof.
  intros Hs. unfold register_key. destruct (created && enable_xor cfg); [|by apply wp_ret].
  apply wp_bind. eapply wp_mono; [by apply (wp_new_key n0 t0)|]. intros r w1 ->. by apply wp_ret.
Qed.

#[export] Instance schema_register_key cfg created n : Respects same_schema (register_key cfg created n).
Proof. unfold register_key. apply _. Qed.

(** A key that is asked for is taken if it is safe and no rotation is under way,
    and a lifetime if it is in range. *)
Lemma override_xor_some attr n :
  (forall x, attr = Some x -> is_safe_id (Some x) = true /\ rotation_state n = TUMGRD_ROTATION_NONE) -> is_Some (override_xor attr n).
Proof.
  unfold override_xor. destruct attr as [x|]; [|by eexists]. intros Hx. destruct (Hx x eq_refl) as [-> ->]. by eexists.
Qed.

Lemma override_lifetime_some attr created n :
  (forall l, attr = Some l -> lifetime_ok l) -> is_Some (override_lifetime attr created n).
Proof.
  unfold override_lifetime. destruct attr as [l|]; [|by eexists]. intros Hl. specialize (Hl l eq_refl). unfold lifetime_ok in Hl.
  unfold TUMGRD_LIFETIME_MIN, TUMGRD_LIFETIME_MAX in *. destruct (Z.eqb_spec l 0); cbn [negb andb].
  - subst l. destruct (Z.ltb_spec INT32_MAX 0); [unfold INT32_MAX in *; lia|by eexists].
  - destruct (Z.ltb_spec l 60); [lia|]. destruct (Z.ltb_spec INT32_MAX l); [lia|by eexists].
Qed.

(** The rotation of the node that a registration starts from is that of its row. *)
Lemma start_rotation cfg ws ws' old created m0 m1 m2 tb u h s p c v :
  starts_from cfg old created m0 -> keyed_from cfg ws ws' created (set_required u h s p c m0) m1 -> m2 = set_optional tb v m1 ->
  rotation_state m2 = match old with Some r => column_int (c_rotation_state r) | None => TUMGRD_ROTATION_NONE end.
Proof.
  intros Hstart Hkeyed ->. destruct (set_optional_rotation tb v m1) as (_ & -> & _). apply keyed_from_either in Hkeyed.
  destruct created.
  - destruct Hstart as [-> (t & ->)]. by destruct Hkeyed as [->|(_ & key & _ & ->)].
  - destruct Hstart as (r & t & -> & ->). by destruct Hkeyed as [->|[? _]].
Qed.

Lemma wp_register_served cfg tb k w c :
  db_invariant (w_rows w) -> steady t0 w -> request_fits tb -> lifetime_ok (default_lifetime cfg) -> admissible tb k ->
  reg_client_port tb = Some c -> client_port_free k (int32 c) (store w) ->
  (forall r, reg_xor_key tb <> None -> store w !! k = Some r -> c_rotation_state r = Some TUMGRD_ROTATION_NONE) ->
  n0 = check_node k (register_on cfg (registry_of w !! k) tb) ->
  wp (handle_register cfg tb) (says_ok w) w.
Proof.
  intros Hinv Hst Hfits Hcfg Hadm Hc Hfree Hxor Hn0. pose proof Hinv as [Hok _].
  destruct Hadm as ([Hu Hsafe] & Hh & (p & Hp & Hpk & Hpok) & Hv & (c' & Hc' & Hcok) & [s Hs] & Hlife & Hxs).
  assert (c' = c) as -> by congruence. unfold handle_register. rewrite Hu, Hh, Hp, Hc, Hs, Hsafe, Hv. cbn [negb].
  assert (forall z, port_ok z -> bad_port z = false) as Hgood.
  { intros z [H1 H2]. unfold bad_port. destruct (Z.leb_spec z 0), (Z.ltb_spec 65535 z); first [done|lia]. }
  rewrite Hpk in Hpok. rewrite !Hgood, <- Hpk by done.
  assert (mkKey (k_host k) (k_port k) (k_uid k) (k_version k) = k) as Hkk by by destruct k. rewrite Hkk. clear Hgood.
  apply wp_bind. eapply wp_mono; [apply wp_and; [by apply wp_start_served|by apply wp_register_start]|].
  intros start w1 [Hsome [H1 Hstart]]. destruct start as [[m0 created]|]; [|done].
  assert (steady t0 w1) as Hst1 by by eapply (steady_calm t0).
  apply wp_bind. eapply wp_mono.
  { apply wp_and; [by apply wp_key_served, Hst1|apply wp_and; [apply wp_register_key|apply wp_and; [wp_frame later|wp_frame same_schema]]]. }
  intros keyed w2 [Hsome2 [[Hu2 Hkeyed] [Hl2 Hsc2]]]. destruct keyed as [m1|]; [|done]. specialize (Hkeyed m1 eq_refl).
  pose proof (start_rotation cfg w1 w2 _ created m0 m1 _ tb _ _ _ _ _ (k_version k) Hstart Hkeyed eq_refl) as Hrot.
  destruct (override_xor_some (reg_xor_key tb) (set_optional tb (k_version k) m1)) as [m2 Hx].
  { intros x Hx. split; [by apply Hxs|]. rewrite Hrot. destruct (store w !! k) as [r|] eqn:Hr; [|done].
    rewrite (Hxor r); [done|by rewrite Hx|done]. }
  destruct (override_lifetime_some (reg_lifetime tb) created m2 Hlife) as [[m3 sl] Hl]. rewrite Hx, Hl.
  pose proof (register_built cfg w1 w2 tb _ _ _ (k_port k) c s _ created m0 m1 m2 m3 sl Hfits Hcfg Hu Hh Hc Hs Hv Hstart Hkeyed Hx Hl) as Hb.
  rewrite Hkk in Hb. pose proof (calm_unchanged _ _ H1) as (Hrows1 & _ & Hr1). destruct Hu2 as (Hrows2 & _ & Hr2).
  assert (w_rows w2 = w_rows w) as Hrows by congruence.
  destruct (registered_parts cfg tb (registry_of w !! k) m3 c Hc) as [Hport Hurl]; [rewrite lookup_fmap; apply Hb|].
  eapply wp_mono; [apply (wp_apply_served cfg w1 w2 tb k created sl m3 w2); rewrite ?Hrows; [done|done| |by rewrite Hport|]|].
  - by eapply (steady_later t0 w1).
  - apply (healthy_for n0 m3 t0); [apply (steady_later t0 w1 w2 Hst1 Hl2 Hsc2)| | |done].
    + pose proof (f_equal k_version (built_key _ _ _ _ _ _ _ _ _ Hb)) as Hver. by rewrite Hn0.
    + by rewrite Hurl, Hn0, check_node_url.
  - intros st w3 H3. apply (says_ok_later w w1); [done|]. by apply (says_ok_later w1 w2).
Qed.
End Serve.

(** A request names one key, and the replies of a run are what they are. *)
Lemma admissible_key tb k k' : admissible tb k -> admissible tb k' -> k' = k.
Proof.
  intros ([Hu _] & Hh & (p & Hp & Hpk & _) & Hv & _) ([Hu' _] & Hh' & (p' & Hp' & Hpk' & _) & Hv' & _).
  destruct k, k'. cbn in *. congruence.
Qed.

Lemma replies_unique m1 m2 w w' : replies_between m1 w w' -> replies_between m2 w w' -> m1 = m2.
Proof. intros (t1 & H1 & <-) (t2 & H2 & <-). rewrite H1 in H2. by apply app_inv_tail in H2 as ->. Qed.

Section Served.
Context `{E : Env} {Run : Exec} `{!ExecLaws Run} `{!Responsive}.

(** C13: in a healthy system an admissible request is served. Take a well-formed
    table in an open database and a default lifetime in range. If the uid and the
    host in the request fit their arrays, no other node has the client port on
    that server, no key is asked for while the node is rotating, and from now on
    the calls succeed, the check server answers and the commands work, then
    register returns OK and answers ok: the registry holds what was asked for
    under the key of the request, each text cut to its array, and the row is
    active, whatever state it was in. *)
Theorem admissible_request_is_served cfg tb k c w :
  watched w -> db_invariant (w_rows w) -> db_ready w -> request_fits tb -> lifetime_ok (default_lifetime cfg) ->
  admissible tb k -> reg_client_port tb = Some c -> client_port_free k (int32 c) (store w) ->
  (forall r, reg_xor_key tb <> None -> store w !! k = Some r -> c_rotation_state r = Some TUMGRD_ROTATION_NONE) ->
  Healthy (check_node k (register_on cfg (registry_of w !! k) tb)) (w_tick w) ->
  exists w' msg r, handle_register cfg tb w = Some (UBUS_STATUS_OK, w') /\ replies_between [msg] w w' /\
    text_of "status" msg = literal "ok" /\ db_invariant (w_rows w') /\
    registry_of w' = <[k := register_on cfg (registry_of w !! k) tb]> (registry_of w) /\
    store w' !! k = Some r /\ c_status r = Some TUMGRD_STATUS_ACTIVE.
Proof.
  intros Hw Hinv Hready Hfits Hcfg Hadm Hc Hfree Hxor Hh.
  assert (steady (w_tick w) w) as Hst by (split; [unfold since; lia|done]).
  destruct (total_wp watched (handle_register cfg tb) _ w Hw
    (wp_and _ _ _ _ (wp_register_served _ (w_tick w) cfg tb k w c Hinv Hst Hfits Hcfg Hadm Hc Hfree Hxor eq_refl)
      (wp_handle_register cfg tb w Hinv Hfits Hcfg))) as (st & w' & Hrun & (-> & msg & Hmsg & Hok) & Hinv' & Hans).
  destruct Hans as [[Hne _]|(_ & n & Hadm' & _ & _ & msg' & n' & r & Hmsg' & _ & Hreg & _ & _ & Hr & _ & Hend)]; [done|].
  rewrite (admissible_key _ _ _ Hadm Hadm') in Hreg, Hr.
  pose proof (replies_unique _ _ _ _ Hmsg' Hmsg) as [= ->].
  exists w', msg, r. split_and!; try done. by apply Hend.
Qed.
End Served.

(** ** A request in a healthy system *)

(** The system is healthy for every node of version 4 with this check server. *)
Lemma healthy_system_for n :
  ip_version n = literal "ipv4" -> pick_ip_check_url n = TUMGRD_DEFAULT_IP_CHECK_URL -> @Healthy healthy_env working_exec n 0.
Proof.
  intros Hv Hu. destruct healthy_system as [H1 H2 H3 H4 H4' H5 _ _ H8 H9 H10 H11].
  split; [exact H1|exact H2|exact H3|exact H4|exact H4'|exact H5| | |exact H8|exact H9|exact H10|exact H11].
  - intros w _. eapply wp_mono; [apply healthy_receives|]. intros r w' ->. eexists _, _. split; [reflexivity|].
    rewrite Hv. split; [vm_compute; reflexivity|intros out; vm_compute; reflexivity].
  - rewrite Hu. eexists. vm_compute. reflexivity.
Qed.

Definition sample_key : key := mkKey "vpn.example" 443 "n1" "ipv4".

Lemma sample_admissible : admissible sample_request sample_key.
Proof.
  split; [done|]. split; [done|]. split; [exists 443%Z; split_and!; [done|done|by split; vm_compute]|]. split; [done|].
  split; [exists 5000%Z; split; [done|by split; vm_compute]|]. split; [by eexists|]. split; [|done].
  intros l [= <-]. right. by split; vm_compute.
Qed.

Lemma admissible_request_is_served_witness : exists w',
  @handle_register healthy_env working_exec sample_config sample_request new_world = Some (UBUS_STATUS_OK, w') /\
  size (registry_of w') = 1.
Proof.
  destruct (@admissible_request_is_served healthy_env working_exec working_exec_laws healthy_responsive sample_config
    sample_request sample_key 5000 new_world eq_refl new_world_invariant) as (w' & msg & r & Hrun & _ & _ & _ & Hreg & _).
  - split; [done|]. by eexists.
  - exact sample_request_fits.
  - by left.
  - exact sample_admissible.
  - done.
  - by intros k' r.
  - by intros r _.
  - apply healthy_system_for; [reflexivity|vm_compute; reflexivity].
  - exists w'. split; [exact Hrun|]. by rewrite Hreg.
Defined.
