(* ===== verification/Daemon.v ===== *)
(** * Daemon: main.c and the event loop

    [getopt_long] of libc turns the command line into options, or reports one
    that it does not know; uloop delivers the calls, events and timers whose
    source is set up, in an order that the environment chooses, until a signal
    ends it. *)

From S2P Require Import Prelude CLib Types World Logic Helper Log Db DbSpec Exec ExecSpec Runner IpDetect Reconcile UbusIf.

(** ** The command line *)
Inductive opt :=
| OptDatabase (optarg : cstr)
| OptInterval (optarg : cstr)
| OptSocket (optarg : cstr)
| OptLogLevel (optarg : cstr)
| OptEnableXor
| OptDisableXor
| OptFwmark (optarg : cstr)
| OptUseClientIp
| OptNoClientIp
| OptLifetime (optarg : cstr)
| OptHelp
| OptUnknown.

Definition DEFAULT_LOG_LEVEL : cstr := "info".
Definition DEFAULT_INTERVAL : Z := 60.

Definition config_init : config :=
  mkConfig TUMGRD_DB_PATH None DEFAULT_LOG_LEVEL DEFAULT_INTERVAL false true TUMGRD_IPDETECT_FWMARK 0.

(** What [--help] prints, with the defaults above. *)
Definition usage (prog : cstr) : cstr :=
  let line s := s ++ [LF] in
  line (literal "Usage: " ++ prog ++ literal " [options]") ++ line [] ++
  line (literal "Options:") ++
  line (literal "  -d, --database PATH      sqlite database path (default: " ++ TUMGRD_DB_PATH ++ literal ")") ++
  line (literal "  -i, --interval SEC       monitor interval seconds (10-3600) (default: " ++ fmt_d DEFAULT_INTERVAL ++ literal ")") ++
  line (literal "  -s, --socket PATH        unix socket path (default: ubus default socket)") ++
  line (literal "      --log-level LEVEL    log level: debug|info|warn|error (default: " ++ DEFAULT_LOG_LEVEL ++ literal ")") ++
  line (literal "      --enable-xor         enable automatic XOR key generation for new nodes") ++
  line (literal "      --disable-xor        disable automatic XOR key generation (default)") ++
  line (literal "      --use-client-ip      use @client_ip@ placeholder (default)") ++
  line (literal "      --no-client-ip       use detected IP instead of @client_ip@") ++
  line (literal "      --fwmark NUM         SO_MARK value for IP detection (0-255, default: " ++ fmt_d TUMGRD_IPDETECT_FWMARK ++ literal ")") ++
  line (literal "      --lifetime SEC       default node lifetime in seconds (0=disabled, >=60, default: 0)") ++
  line (literal "  -h, --help               show this help").

(** The conversion of [--fwmark]: base 10, nothing left over, 0 to 255. *)
Definition parse_fwmark (long_bits : Z) (optarg : cstr) : option Z :=
  match parse_subject 10 optarg with
  | None => None
  | Some j =>
      let val := (strtol_value long_bits j).1 in
      if bool_decide (sj_rest j <> []) || (val <? 0)%Z || (255 <? val)%Z then None else Some val
  end.

Definition with_config (cfg : config) (db : cstr) (sock : option cstr) (level : cstr) : config :=
  mkConfig db sock level (interval_sec cfg) (enable_xor cfg) (use_client_ip cfg) (fwmark cfg) (default_lifetime cfg).
Definition with_numbers (cfg : config) (interval mark life : Z) : config :=
  mkConfig (db_path cfg) (socket_path cfg) (log_level cfg) interval (enable_xor cfg) (use_client_ip cfg) mark life.
Definition with_switches (cfg : config) (xor client : bool) : config :=
  mkConfig (db_path cfg) (socket_path cfg) (log_level cfg) (interval_sec cfg) xor client (fwmark cfg) (default_lifetime cfg).

(** One turn of the loop: an error code, or the configuration. *)
Definition parse_option (long_bits : Z) (o : opt) (cfg : config) : Z + config :=
  match o with
  | OptDatabase a => inr (with_config cfg a (socket_path cfg) (log_level cfg))
  | OptInterval a =>
      let r := parse_interval long_bits a (interval_sec cfg) in
      if (r.1 <? 0)%Z then inl r.1 else inr (with_numbers cfg r.2 (fwmark cfg) (default_lifetime cfg))
  | OptSocket a => inr (with_config cfg (db_path cfg) (Some a) (log_level cfg))
  | OptLogLevel a => inr (with_config cfg (db_path cfg) (socket_path cfg) a)
  | OptEnableXor => inr (with_switches cfg true (use_client_ip cfg))
  | OptDisableXor => inr (with_switches cfg false (use_client_ip cfg))
  | OptFwmark a =>
      match parse_fwmark long_bits a with
      | None => inl (-1)%Z
      | Some v => inr (with_numbers cfg (interval_sec cfg) (int32 v) (default_lifetime cfg))
      end
  | OptUseClientIp => inr (with_switches cfg (enable_xor cfg) true)
  | OptNoClientIp => inr (with_switches cfg (enable_xor cfg) false)
  | OptLifetime a =>
      let r := parse_lifetime (Some a) (default_lifetime cfg) in
      if (r.1 <? 0)%Z then inl r.1 else inr (with_numbers cfg (interval_sec cfg) (fwmark cfg) r.2)
  | OptHelp => inl 1%Z
  | OptUnknown => inl (-1)%Z
  end.

(** The options, and whether a positional argument follows them. *)
Fixpoint parse_args (long_bits : Z) (opts : list opt) (positional : bool) (cfg : config) : Z + config :=
  match opts with
  | [] => if positional then inl (-1)%Z else inr cfg
  | o :: opts' =>
      match parse_option long_bits o cfg with
      | inl err => inl err
      | inr cfg' => parse_args long_bits opts' positional cfg'
      end
  end.

Definition parse_log_level (s : cstr) : option verbosity :=
  let same (l : cstr) := streqcase (Some s) (Some l) in
  match s with
  | [] => None
  | _ :: _ =>
      if same "error" then Some LOG_ERROR
      else if same "warn" then Some LOG_WARN
      else if same "info" then Some LOG_INFO
      else if same "debug" then Some LOG_DEBUG
      else if same "trace" then Some LOG_TRACE
      else None
  end.

(** ** The event loop *)
Inductive method_call :=
| MRegister (tb : register_request)
| MDeregister (tb : node_request)
| MRefresh (tb : refresh_request)
| MStatus
| MDump.

Inductive loop_event :=
| Call (m : method_call)
| NetEvent (msg : option (option cstr * option cstr))
| TimerExpired (t : timer).

Definition deliverable (b : option bus) (ev : loop_event) : bool :=
  match b with
  | None => false
  | Some b =>
      match ev with
      | Call _ => b_conn b && b_object b
      | NetEvent _ => b_conn b && b_handler b
      | TimerExpired StartupTimer => b_startup b
      | TimerExpired PeriodicTimer => b_periodic b
      end
  end.

Section Daemon.
Context `{E : Env} {Run : Exec}.

(** The table of methods. *)
Definition call_method (cfg : config) (m : method_call) : M ubus_status :=
  match m with
  | MRegister tb => handle_register cfg tb
  | MDeregister tb => handle_deregister tb
  | MRefresh tb => handle_refresh cfg tb
  | MStatus | MDump => handle_status
  end.

Definition dispatch (uci_enabled : bool) (cfg : config) (ev : loop_event) : M unit :=
  match ev with
  | Call m => call_method cfg m;; mret tt
  | NetEvent msg => net_event_cb uci_enabled cfg msg
  | TimerExpired StartupTimer => emit (EvTimerFired StartupTimer);; startup_reconcile_timer_cb cfg
  | TimerExpired PeriodicTimer => emit (EvTimerFired PeriodicTimer);; periodic_reconcile_timer_cb cfg
  end.

(** What arrives before the signal; an event without a source does not. *)
Fixpoint uloop_run (uci_enabled : bool) (cfg : config) (evs : list loop_event) : M unit :=
  match evs with
  | [] => mret tt
  | ev :: evs' =>
      b ← reads (fun w => bus_after (w_trace w));
      (if deliverable b ev then dispatch uci_enabled cfg ev else mret tt);;
      uloop_run uci_enabled cfg evs'
  end.

(** ** main *)

(** The locals that the clean-up of [main] uses. *)
Record main_locals := mkMain { m_ubus : ubus_state; db_opened : bool }.

(** Lines 174 to 185: before anything can wait for a child. *)
Definition main_prepare (cfg : config) : X main_locals unit :=
  (match parse_log_level (log_level cfg) with None => fail (-1)%Z | Some _ => mret tt end);;
  try2 (call env_status);;                                   (* uloop_init *)
  lift (set_ipdetect_fwmark (fwmark cfg));;
  lift tumgrd_runner_install_watchdog.

(** Lines 187 to 197. *)
Definition main_serve (uci_enabled : bool) (cfg : config) (evs : list loop_event) : X main_locals unit :=
  try2 (tumgrd_db_open (Some (db_path cfg)));;
  assign (fun l => mkMain (m_ubus l) true);;
  try2 tumgrd_db_init_schema;;
  l ← local;
  r ← lift (tumgrd_ubus_init cfg (m_ubus l));
  assign (fun l => mkMain r.2 (db_opened l));;
  (if (r.1 <? 0)%Z then fail r.1 else mret tt);;
  lift (uloop_run uci_enabled cfg evs).

Definition main_body (uci_enabled : bool) (cfg : config) (evs : list loop_event) : X main_locals unit :=
  main_prepare cfg;; main_serve uci_enabled cfg evs.

Definition main_cleanup (l : main_locals) : M unit :=
  tumgrd_ubus_cleanup (m_ubus l);;
  uloop_timeout_cancel StartupTimer;;
  uloop_timeout_cancel PeriodicTimer;;
  if db_opened l then tumgrd_db_close else mret tt.

(** The exit code. *)
Definition main (long_bits : Z) (uci_enabled : bool) (opts : list opt) (positional : bool) (evs : list loop_event) : M Z :=
  let init := mkMain (mkUbus false false false) false in
  match parse_args long_bits opts positional config_init with
  | inl err => if (0 <? err)%Z then mret 0%Z else main_cleanup init;; mret err
  | inr cfg =>
      r ← main_body uci_enabled cfg evs init;
      main_cleanup r.2;;
      mret (match r.1 with inl err => err | inr _ => 0%Z end)
  end.
End Daemon.
