(* ===== verification/DaemonSpec.v ===== *)
(** * DaemonSpec: what main.c and the event loop promise

    The configuration that comes out of the command line is in range; the loop
    never stops serving and keeps the table well formed whatever it is sent;
    and [main] gives back what it took up. *)

From S2P Require Import Prelude CLib Types World Logic Helper Log Db DbSpec Exec ExecSpec Runner IpDetect IpDetectSpec Reconcile ReconcileSpec ReconcileProps UbusIf UbusSpec Registry RegisterSpec MethodsSpec UbusProps Daemon.

(** ** The table through an event *)

(** The table is well formed and every key in it can be looked up again. *)
Definition table_good (t : list row) : Prop := db_invariant t /\ Forall key_fits t.

Definition keeps_good : relation world := keeps table_good.

#[export] Instance keeps_good_silent : Silent keeps_good.
Proof. apply keeps_silent. Qed.
#[export] Instance keeps_good_fd_silent : FdSilent keeps_good.
Proof. apply keeps_fd_silent. Qed.
#[export] Instance keeps_good_allows e : Allows keeps_good e.
Proof. apply keeps_allows. Qed.

Definition key_ok_fits (k : key) : Prop :=
  text_fits SZ_UID (k_uid k) /\ text_fits SZ_TEXT (k_host k) /\ int_fits (k_port k) /\ text_fits SZ_IP_VERSION (k_version k).

Lemma key_fits_dom t : table_ok t -> (Forall key_fits t <-> forall k, is_Some (to_map t !! k) -> key_ok_fits k).
Proof.
  intros [Hnd _]. rewrite Forall_forall. split.
  - intros H k [r [Hin <-]%to_map_lookup]; [|done]. exact (H r Hin).
  - intros H r Hr. apply (H (row_key r)). exists r. by apply to_map_lookup.
Qed.

Lemma good_same_keys w w' :
  keeps_invariant w w' -> same_desired w w' -> keeps_good w w'.
Proof.
  intros Hi Hd [Hinv Hfit]. assert (db_invariant (w_rows w')) as Hinv' by by apply Hi.
  split; [done|]. apply (key_fits_dom _ (proj1 Hinv')). pose proof (proj1 (key_fits_dom _ (proj1 Hinv)) Hfit) as Hall.
  destruct (Hd (proj1 Hinv)) as [_ Heq]. intros k Hk. apply Hall.
  pose proof (f_equal (fun m => m !! k) Heq) as Hk'. cbv beta in Hk'. rewrite !lookup_fmap in Hk'.
  destruct Hk as [r Hr]. rewrite Hr in Hk'. by destruct (store w !! k).
Qed.

Section Good.
Context `{E : Env} {Run : Exec} `{!ExecLaws Run}.
Implicit Types (w : world).

Lemma respects_good {A} (m : M A) : Respects keeps_invariant m -> Respects same_desired m -> Respects keeps_good m.
Proof. intros Hi Hd w a w' Hrun. apply good_same_keys; [by eapply Hi|by eapply Hd]. Qed.

#[export] Instance good_reconcile_one cfg n forced : Respects keeps_good (tumgrd_reconcile_one cfg n forced).
Proof. apply respects_good; apply _. Qed.
#[export] Instance good_reconcile_all cfg forced : Respects keeps_good (tumgrd_reconcile_all cfg forced).
Proof. apply respects_good; apply _. Qed.
#[export] Instance good_exec argv input has mem n1 n2 : Respects keeps_good (exec argv input has mem n1 n2).
Proof. apply respects_same_db_keeps. apply _. Qed.
#[export] Instance good_list_nodes : Respects keeps_good tumgrd_db_list_nodes.
Proof. apply respects_good; apply _. Qed.

Lemma calm_good w w' : calm w w' -> keeps_good w w'.
Proof. apply calm_respects, _. Qed.

(** Reading a node changes no row. *)
Lemma wp_get_good k out w Q :
  table_good (w_rows w) -> (forall r w', table_good (w_rows w') ->
    (r.1 = 0%Z -> exists row t, store w' !! k = Some row /\ r.2 = read_row (env_time t) row) ->
    (r.1 = 1%Z -> store w' !! k = None) -> Q r w') ->
  wp (tumgrd_db_get_node k out) Q w.
Proof.
  intros Hg HQ. eapply wp_mono; [apply get_spec, Hg|]. intros r w' [H1 H].
  pose proof (calm_fields _ _ H1) as (_ & _ & _ & Hr & _). apply HQ; rewrite Hr; [done|..].
  - intros H0. destruct H as [[_ H]|[[? _]|[? _]]]; [done|congruence|congruence].
  - intros H0. destruct H as [[? _]|[(_ & _ & H)|[? _]]]; [congruence|done|congruence].
Qed.

(** Storing a node whose rotation is consistent and whose key fits. *)
Lemma wp_upsert_good n sl w :
  table_good (w_rows w) -> rotation_ok (row_of_node n true) -> key_ok_fits (node_key n) ->
  wp (tumgrd_db_upsert_node n sl) (fun _ w' => table_good (w_rows w')) w.
Proof.
  intros [Hinv Hfit] Hop Hk. eapply wp_mono.
  { apply wp_and; [apply upsert_spec, Hinv|by apply (run_op_invariant (OpUpsert n sl))]. }
  intros rc w' [(Hok' & t1 & t2 & H) Hinv']. split; [done|]. cbv zeta in H. destruct H as [(_ & _ & Hs)|(_ & -> & _)]; [|done].
  apply key_fits_dom; [done|]. rewrite Hs. intros k Hdom. destruct (decide (k = node_key n)) as [->|Hne]; [done|].
  rewrite lookup_insert_ne in Hdom by done. by apply (proj1 (key_fits_dom _ (proj1 Hinv)) Hfit).
Qed.

(** Deleting a row keeps the others as they are. *)
#[export] Instance good_delete_node k : Respects keeps_good (tumgrd_db_delete_node k).
Proof.
  intros w rc w' Hrun [Hinv Hfit]. pose proof (keeps_delete_node k w rc w' Hrun Hinv) as Hinv'. split; [done|].
  destruct (wp_elim _ _ _ _ _ (delete_spec k w (proj1 Hinv)) Hrun) as [Hok' H].
  apply key_fits_dom; [done|]. intros k' Hk'. apply (proj1 (key_fits_dom _ (proj1 Hinv)) Hfit).
  destruct H as [(_ & _ & Hs)|[(_ & _ & Hs)|(_ & Hs & _)]]; [|by rewrite <- Hs|by rewrite <- Hs].
  rewrite Hs in Hk'. destruct Hk' as [r Hr]. apply lookup_delete_Some in Hr as [_ Hr]. by exists r.
Qed.

#[export] Instance good_get_node k out : Respects keeps_good (tumgrd_db_get_node k out).
Proof.
  intros w r w' Hrun Hg. destruct (wp_elim _ _ _ _ _ (get_spec k out w (proj1 (proj1 Hg))) Hrun) as [H1 _].
  by apply (calm_good _ _ H1).
Qed.

(** *** register *)

(** The strings of a request are strings of C. *)
Definition request_strings (tb : register_request) : Prop :=
  (forall u, reg_uid tb = Some u -> nonul u) /\ (forall h, reg_server_host tb = Some h -> nonul h) /\
  request_text tb.

Lemma snprintf_fits n s : 0 < n -> nonul s -> text_fits n (snprintf_s n s).
Proof. intros Hn Hs. split; [by apply Forall_take|by apply snprintf_s_length]. Qed.

Lemma register_apply_good cfg created sl n w :
  table_good (w_rows w) -> rotation_ok (row_of_node n true) -> key_ok_fits (node_key n) ->
  wp (register_apply cfg created sl n) (fun _ w' => table_good (w_rows w')) w.
Proof.
  intros Hg Hop Hk. apply wp_bind. eapply wp_mono; [by apply wp_upsert_good|]. intros rc w1 Hg1.
  destruct (negb _); [by apply wp_ret|]. eapply wp_mono; [apply (wp_respects keeps_good); unfold refetch, ubus_send_reply; apply _|].
  intros st w2 H2. by apply H2.
Qed.

Lemma register_node_good cfg tb u h p c s v w :
  table_good (w_rows w) -> nonul u -> nonul h -> request_text tb ->
  nonul v -> length v < SZ_IP_VERSION -> int_fits p ->
  wp (register_node cfg tb (mkKey h p u v) c s) (fun _ w' => table_good (w_rows w')) w.
Proof.
  intros Hg Hu Hh Hx Hv Hvl Hp. apply wp_bind. eapply wp_mono.
  { apply wp_and; [apply (wp_register_start cfg (mkKey h p u v)), Hg|].
    apply (wp_respects keeps_good). unfold register_start, time. apply _. }
  intros start w1 [[H1 Hstart] Hg1]. specialize (Hg1 Hg). destruct start as [[n0 created]|]; [|by apply wp_ret].
  cbn [k_host k_port k_uid k_version]. apply wp_bind. eapply wp_mono; [apply wp_register_key|].
  intros keyed w2 [(Hrows2 & _) Hkeyed]. destruct keyed as [n1|]; [|apply wp_ret; by rewrite Hrows2]. specialize (Hkeyed n1 eq_refl).
  destruct (override_xor _ _) as [n2|] eqn:Hov; [|apply wp_ret; by rewrite Hrows2].
  destruct (override_lifetime _ _ _) as [[n3 sl]|] eqn:Hl; [|apply wp_ret; by rewrite Hrows2].
  assert (exists old, continues old n3 /\ forall r, old = Some r -> rotation_ok r) as (old & Hcont & Hold).
  { exists (store w !! mkKey h p u v). split; [by eapply register_continues; [by apply request_text_key| | | |]|].
    intros r Hr. apply to_map_lookup in Hr as [Hin _]; [|apply Hg]. destruct Hg as [[_ Hrot] _].
    rewrite Forall_forall in Hrot. auto. }
  apply register_apply_good; [by rewrite Hrows2|by eapply continues_op_ok|].
  rewrite (register_keeps_key cfg w1 w2 tb u h s p c v created n0 n1 n2 n3 sl Hkeyed Hov Hl).
  unfold key_ok_fits. cbn [k_uid k_host k_port k_version].
  split; [|split; [|split; [done|]]]; apply snprintf_fits; try done; apply Nat.ltb_lt; reflexivity.
Qed.

Lemma normalized_text attr v : get_normalized_ip_version attr = Some v -> text_fits SZ_IP_VERSION v.
Proof.
  intros Hv. split; [|by eapply normalized_fits]. revert Hv. unfold get_normalized_ip_version, normalize_ip_version.
  destruct (default [] attr) as [|c s]; [intros [= <-]; constructor|].
  destruct (_ || _ || _); [intros [= <-]; by repeat constructor|]. destruct (_ || _ || _); [intros [= <-]; by repeat constructor|done].
Qed.

Lemma good_handle_register cfg tb : request_strings tb -> Respects keeps_good (handle_register cfg tb).
Proof.
  intros (Hu & Hh & Hx) w st w' Hrun Hg.
  refine (wp_elim _ (fun _ w' => table_good (w_rows w')) w st w' _ Hrun). clear Hrun st w'. unfold handle_register.
  assert (wp (mret UBUS_STATUS_INVALID_ARGUMENT) (fun _ w' => table_good (w_rows w')) w) as Hrefuse by by apply wp_ret.
  destruct (reg_uid tb) as [u|]; [|done]. destruct (reg_server_host tb) as [h|]; [|done].
  destruct (reg_server_port tb) as [p|]; [|done]. destruct (reg_client_port tb) as [c|]; [|done].
  destruct (reg_psk tb) as [s|]; [|done]. destruct (negb _); [done|]. destruct (bad_port _); [done|]. destruct (bad_port _); [done|].
  destruct (get_normalized_ip_version _) as [v|] eqn:Hv; [|done]. apply normalized_text in Hv as [Hv1 Hv2].
  apply register_node_good; auto. pose proof (wrap_s_range 32 p). unfold int_fits. lia.
Qed.

Definition event_strings (ev : loop_event) : Prop :=
  match ev with Call (MRegister tb) => request_strings tb | _ => True end.

Lemma good_dispatch uci cfg ev : event_strings ev -> Respects keeps_good (dispatch uci cfg ev).
Proof.
  intros Hev. destruct ev as [[tb|tb|tb| |]|msg|[]]; cbn [dispatch call_method] in *.
  - pose proof (good_handle_register cfg tb Hev). apply _.
  - unfold handle_deregister, deregister_node, resolve_node, reply_simple, ubus_send_reply. cbv zeta. apply _.
  - unfold handle_refresh, refresh_all, refresh_node, refetch, resolve_node, ubus_send_reply. cbv zeta. apply _.
  - unfold handle_status, ubus_send_reply. apply _.
  - unfold handle_status, ubus_send_reply. apply _.
  - unfold net_event_cb, check_wan_interface. apply _.
  - unfold startup_reconcile_timer_cb. apply _.
  - unfold periodic_reconcile_timer_cb, uloop_timeout_set. apply _.
Qed.
End Good.

(** ** The event loop *)
Definition same_bus : relation world := fun w w' => bus_after (w_trace w') = bus_after (w_trace w).

Lemma allows_same_bus e : (forall b, bus_step e b = b) -> Allows same_bus e.
Proof. intros He w. unfold same_bus, bus_after. cbn [w_trace set_w_trace foldr]. by rewrite He. Qed.

#[export] Instance same_bus_silent : Silent same_bus.
Proof.
  split; [split|].
  - intros w. done.
  - intros w1 w2 w3 H1 H2. unfold same_bus in *. congruence.
  - intros w n b _. done.
Qed.
#[export] Instance same_bus_fd_silent : FdSilent same_bus.
Proof. by intros w s. Qed.
#[export] Instance same_bus_db_silent : DbSilent same_bus.
Proof. by intros w rows n. Qed.
#[export] Instance same_bus_sql name : Allows same_bus (EvSql name).
Proof. apply allows_same_bus. by intros [b|]. Qed.
#[export] Instance same_bus_request h p m q : Allows same_bus (EvRequest h p m q).
Proof. apply allows_same_bus. by intros [b|]. Qed.
#[export] Instance same_bus_connect m : Allows same_bus (EvConnect m).
Proof. apply allows_same_bus. by intros [b|]. Qed.
#[export] Instance same_bus_reply msg : Allows same_bus (EvReply msg).
Proof. apply allows_same_bus. by intros [b|]. Qed.

Lemma process_events_bus t t0 : Forall process_event t -> bus_after (t ++ t0) = bus_after t0.
Proof.
  unfold bus_after. induction 1 as [|e t He _ IH]; [done|]. cbn [app foldr]. rewrite IH.
  by destruct e, (foldr _ _ t0).
Qed.

#[export] Instance same_bus_exec `{E : Env} {Run : Exec} `{!ExecLaws Run} argv input has mem n1 n2 :
  Respects same_bus (exec argv input has mem n1 n2).
Proof. intros w r w' (t & Ht & Hp)%exec_events. unfold same_bus. rewrite Ht. by apply process_events_bus. Qed.

Definition is_periodic (ev : loop_event) : bool := match ev with TimerExpired PeriodicTimer => true | _ => false end.

Section Loop.
Context `{E : Env} {Run : Exec} `{!ExecLaws Run}.
Implicit Types (w : world).

(** An event that is delivered changes at most the timers, and the periodic
    one is set again. *)
Lemma wp_dispatch_bus uci cfg ev c h o s p w :
  bus_after (w_trace w) = Some (mkBus c h o s p) ->
  wp (dispatch uci cfg ev) (fun _ w' => exists s', bus_after (w_trace w') =
    Some (mkBus c h o s' (p || is_periodic ev))) w.
Proof.
  intros Hb.
  assert (forall (m : M unit), Respects same_bus m -> is_periodic ev = false -> wp m (fun _ w' => exists s', bus_after (w_trace w') =
    Some (mkBus c h o s' (p || is_periodic ev))) w) as Hsame.
  { intros m Hm Hne. eapply wp_mono; [by apply (wp_respects same_bus)|]. intros ? w' Hw'. exists s.
    rewrite Hne, orb_false_r. unfold same_bus in Hw'. congruence. }
  destruct ev as [[tb|tb|tb| |]|msg|[]]; cbn [dispatch call_method].
  1-6: apply Hsame; [|done]; unfold net_event_cb, check_wan_interface; apply _.
  - apply wp_bind, wp_emit. eapply wp_mono; [apply (wp_respects same_bus); unfold startup_reconcile_timer_cb; apply _|].
    intros ? w' Hw'. unfold same_bus in Hw'. exists false. rewrite Hw'. unfold bus_after in *. cbn [w_trace set_w_trace foldr].
    rewrite Hb. cbn. by rewrite orb_false_r.
  - apply wp_bind, wp_emit, wp_bind. eapply wp_mono; [apply (wp_respects same_bus); apply _|].
    intros ? w' Hw'. unfold same_bus in Hw'. apply wp_emit. exists s. unfold bus_after in *. cbn [w_trace set_w_trace foldr] in *.
    rewrite Hw', Hb. cbn. by rewrite orb_true_r.
Qed.

(** The daemon after a start that succeeded: the deadline is installed, the
    table is good, the object is on the bus and the periodic timer pending. *)
Definition serving (w : world) : Prop :=
  watched w /\ table_good (w_rows w) /\ exists h s, bus_after (w_trace w) = Some (mkBus true h true s true).

(** One event that arrives. *)
Inductive loop_step (uci : bool) (cfg : config) (w w' : world) : Prop :=
| loop_deliver ev :
    event_strings ev -> deliverable (bus_after (w_trace w)) ev = true ->
    dispatch uci cfg ev w = Some (tt, w') -> loop_step uci cfg w w'.

Lemma bus_pending w h s : bus_after (w_trace w) = Some (mkBus true h true s true) ->
  deliverable (bus_after (w_trace w)) (TimerExpired PeriodicTimer) = true.
Proof. by intros ->. Qed.

Context `{!Responsive}.

Lemma dispatch_serving uci cfg ev w :
  event_strings ev -> deliverable (bus_after (w_trace w)) ev = true -> serving w ->
  exists w', dispatch uci cfg ev w = Some (tt, w') /\ serving w'.
Proof.
  intros Hev Hdel (Hw & Hg & h & s & Hb).
  assert (Total watched (dispatch uci cfg ev)) as HT.
  { destruct ev as [[]|msg|[]]; cbn [dispatch call_method]; apply _. }
  destruct (total w Hw) as ([] & w' & Hrun & Hw'). exists w'. split; [done|]. split; [done|].
  split; [exact (good_dispatch uci cfg ev Hev w tt w' Hrun Hg)|].
  destruct (wp_elim _ _ _ _ _ (wp_dispatch_bus uci cfg ev _ _ _ _ _ w Hb) Hrun) as (s' & Hb'). by exists h, s'.
Qed.

(** A run of the loop from a serving state, by induction on what arrives: an
    event is handled, or it is lost if nothing is set up to deliver it. *)
Lemma serving_run_ind uci cfg (Ok : loop_event -> Prop) (P : list loop_event -> world -> world -> Prop) :
  (forall ev, Ok ev -> event_strings ev) -> (forall w, P [] w w) ->
  (forall ev evs w w1 w', serving w -> Ok ev ->
     (deliverable (bus_after (w_trace w)) ev = true /\ dispatch uci cfg ev w = Some (tt, w1)) \/ w1 = w ->
     P evs w1 w' -> P (ev :: evs) w w') ->
  forall evs w, serving w -> Forall Ok evs -> exists w', uloop_run uci cfg evs w = Some (tt, w') /\ serving w' /\ P evs w w'.
Proof.
  intros Hstr Hnil Hcons. induction evs as [|ev evs IH]; intros w Hs Hevs; [by exists w|].
  apply Forall_cons in Hevs as [Hev Hevs]. cbn [uloop_run]. unfold bind, M_bind, reads.
  destruct (deliverable (bus_after (w_trace w)) ev) eqn:Hdel.
  - destruct (dispatch_serving uci cfg ev w (Hstr ev Hev) Hdel Hs) as (w1 & Hrun1 & Hs1). rewrite Hrun1.
    destruct (IH w1 Hs1 Hevs) as (w' & Hrun & Hs' & HP). exists w'. split; [exact Hrun|]. split; [done|]. apply (Hcons ev evs w w1 w' Hs Hev); [by left|done].
  - destruct (IH w Hs Hevs) as (w' & Hrun & Hs' & HP). exists w'. split; [exact Hrun|]. split; [done|]. apply (Hcons ev evs w w w' Hs Hev); [by right|done].
Qed.

Lemma loop_step_serving uci cfg w w' : serving w -> loop_step uci cfg w w' -> serving w'.
Proof.
  intros Hs [ev Hev Hdel Hrun]. destruct (dispatch_serving uci cfg ev w Hev Hdel Hs) as (w1 & Hrun1 & Hs1).
  by replace w' with w1 by congruence.
Qed.
End Loop.

(** ** Properties of the loop *)
Section LoopProperties.
Context `{E : Env} {Run : Exec} `{!ExecLaws Run} `{!Responsive}.

(** C11: every state that the running daemon can reach, by whatever calls, network
    events and timers in whatever order, is a serving state: the deadline for
    children is installed, the table keeps its constraints and its rotations can
    be resumed, the object is on the bus, and the periodic timer is pending. Any
    event that can arrive there is handled to the end, so the daemon can take
    another step, even if the check server never answers and children never end:
    it is enough that the kernel takes the timeouts of a socket, that a killed
    child can be reaped, that /dev/urandom does not block, and that no call is
    interrupted for ever ([Responsive]). *)
Theorem daemon_keeps_serving uci cfg w0 w :
  serving w0 -> rtc (loop_step uci cfg) w0 w ->
  serving w /\ deliverable (bus_after (w_trace w)) (TimerExpired PeriodicTimer) = true /\
  forall ev, event_strings ev -> deliverable (bus_after (w_trace w)) ev = true ->
    exists w', dispatch uci cfg ev w = Some (tt, w') /\ loop_step uci cfg w w'.
Proof.
  intros Hs Hsteps. assert (serving w) as Hw.
  { induction Hsteps as [|w1 w2 w3 H12 _ IH]; [done|]. apply IH. by eapply loop_step_serving. }
  split; [done|]. split; [destruct Hw as (_ & _ & h & s & Hb); by eapply bus_pending|].
  intros ev Hev Hdel. destruct (dispatch_serving uci cfg ev w Hev Hdel Hw) as (w' & Hrun & _).
  exists w'. split; [done|]. by econstructor.
Qed.

(** Whatever arrives before the signal, in whatever order, the loop comes
    to an end; its run is a sequence of steps, one for each event whose source
    is set up, and the daemon is still serving after it. *)
Theorem event_loop_returns uci cfg evs w :
  serving w -> Forall event_strings evs ->
  exists w', uloop_run uci cfg evs w = Some (tt, w') /\ serving w' /\ rtc (loop_step uci cfg) w w'.
Proof.
  apply (serving_run_ind uci cfg event_strings (fun _ => rtc (loop_step uci cfg))); [done|done|].
  intros ev evs' w1 w2 w3 _ Hev [[Hdel Hrun]| ->] Hsteps; [|done]. eapply rtc_l; [|done]. by econstructor.
Qed.
End LoopProperties.

(** ** The command line *)

(** A configuration in range. *)
Definition config_valid (cfg : config) : Prop :=
  (10 <= interval_sec cfg <= 3600)%Z /\ (0 <= fwmark cfg <= 255)%Z /\
  (default_lifetime cfg = 0 \/ TUMGRD_LIFETIME_MIN <= default_lifetime cfg <= TUMGRD_LIFETIME_MAX)%Z.

Lemma parse_interval_range long_bits a out : (parse_interval long_bits a out).1 = 0%Z ->
  (10 <= (parse_interval long_bits a out).2 <= 3600)%Z.
Proof.
  unfold parse_interval. destruct (parse_u32 _ _ _) as [e v].
  destruct (Z.eqb_spec e 0), (Z.ltb_spec v 10), (Z.ltb_spec 3600 v); cbn [negb orb fst snd]; unfold EINVAL; lia.
Qed.

Lemma parse_interval_code long_bits a out : (parse_interval long_bits a out).1 = 0%Z \/ ((parse_interval long_bits a out).1 < 0)%Z.
Proof.
  unfold parse_interval. destruct (parse_u32 _ _ _) as [e v]. destruct (_ || _ || _); cbn; unfold EINVAL; lia.
Qed.

Lemma parse_lifetime_range a out : (parse_lifetime a out).1 = 0%Z ->
  ((parse_lifetime a out).2 = 0 \/ TUMGRD_LIFETIME_MIN <= (parse_lifetime a out).2 <= TUMGRD_LIFETIME_MAX)%Z.
Proof.
  unfold parse_lifetime. destruct a as [s|]; [|cbn; unfold EINVAL; lia].
  destruct (parse_subject 0 s) as [j|]; [|cbn; unfold EINVAL; lia]. destruct (strtol_value 64 j) as [v er].
  destruct (_ || er); [cbn; unfold EINVAL; lia|].
  destruct (Z.eqb_spec v 0), (Z.ltb_spec v TUMGRD_LIFETIME_MIN), (Z.ltb_spec TUMGRD_LIFETIME_MAX v);
    cbn [negb andb fst snd]; unfold EINVAL; lia.
Qed.

Lemma parse_lifetime_code a out : (parse_lifetime a out).1 = 0%Z \/ ((parse_lifetime a out).1 < 0)%Z.
Proof.
  unfold parse_lifetime. destruct a as [s|]; [|cbn; unfold EINVAL; lia].
  destruct (parse_subject 0 s) as [j|]; [|cbn; unfold EINVAL; lia]. destruct (strtol_value 64 j) as [v er].
  repeat (case_match; [cbn; unfold EINVAL; lia|]). by left.
Qed.

Lemma parse_option_valid long_bits o cfg cfg' :
  parse_option long_bits o cfg = inr cfg' -> config_valid cfg -> config_valid cfg'.
Proof.
  intros Hp (Hi & Hf & Hl). unfold config_valid. destruct o; cbn [parse_option] in Hp; cbv zeta in Hp; try (injection Hp as <-; done); try done.
  - destruct (parse_interval_code long_bits optarg (interval_sec cfg)) as [H0|H0]; destruct (Z.ltb_spec (parse_interval long_bits optarg (interval_sec cfg)).1 0); try lia; [|done].
    injection Hp as <-. pose proof (parse_interval_range long_bits optarg (interval_sec cfg) H0). by split; [|split].
  - destruct (parse_fwmark long_bits optarg) as [v|] eqn:Hv; [|done]. injection Hp as <-. split; [done|]. split; [|done].
    unfold parse_fwmark in Hv. destruct (parse_subject _ _) as [j|]; [|done]. cbv zeta in Hv.
    destruct (Z.ltb_spec (strtol_value long_bits j).1 0), (Z.ltb_spec 255 (strtol_value long_bits j).1); rewrite ?orb_true_r in Hv; try done.
    destruct (bool_decide _); [done|]. injection Hv as <-. cbn [fwmark with_numbers].
    rewrite wrap_s_id; lia.
  - destruct (parse_lifetime_code (Some optarg) (default_lifetime cfg)) as [H0|H0]; destruct (Z.ltb_spec (parse_lifetime (Some optarg) (default_lifetime cfg)).1 0); try lia; [|done].
    injection Hp as <-. pose proof (parse_lifetime_range (Some optarg) (default_lifetime cfg) H0). by split; [|split].
Qed.

Lemma parse_args_valid long_bits opts positional cfg cfg' :
  parse_args long_bits opts positional cfg = inr cfg' -> config_valid cfg -> config_valid cfg' /\ positional = false.
Proof.
  revert cfg. induction opts as [|o opts IH]; intros cfg; cbn [parse_args].
  - destruct positional; [done|]. by intros [= <-].
  - destruct (parse_option long_bits o cfg) as [e|cfg1] eqn:Ho; [done|]. intros Hp Hv. eapply IH; [exact Hp|].
    by eapply parse_option_valid.
Qed.

(** C37: a command line that is accepted gives a configuration in range: the
    interval is between 10 and 3600 seconds, so that the delay of the periodic
    timer is computed without overflow; the mark fits 8 bits; the lifetime is 0
    or at least a minute and fits 31 bits; and no argument was left over. *)
Theorem accepted_configuration_is_valid long_bits opts positional cfg :
  parse_args long_bits opts positional config_init = inr cfg ->
  config_valid cfg /\ positional = false /\
  int32 (uint32 (interval_sec cfg * 1000)) = (interval_sec cfg * 1000)%Z.
Proof.
  intros Hp. destruct (parse_args_valid _ _ _ _ _ Hp) as [Hv Hpos]; [unfold config_valid; cbn; unfold DEFAULT_INTERVAL, TUMGRD_IPDETECT_FWMARK; lia|].
  split; [done|]. split; [done|]. rewrite wrap_s_u by lia. destruct Hv as [Hi _]. apply wrap_s_id; lia.
Qed.

Lemma accepted_configuration_is_valid_witness : exists cfg,
  parse_args 32 [OptInterval (literal "300"); OptEnableXor; OptFwmark (literal "7"); OptLifetime (literal "86400")] false config_init = inr cfg /\
  config_valid cfg.
Proof.
  eexists. split; [vm_compute; reflexivity|].
  refine (proj1 (accepted_configuration_is_valid 32
    [OptInterval (literal "300"); OptEnableXor; OptFwmark (literal "7"); OptLifetime (literal "86400")] false _ _)).
  vm_compute. reflexivity.
Defined.

(** ** Start and end *)

(** Relations that do not see the schema and the rows. *)
Class ColsSilent (R : relation world) : Prop := cols_silent w cols rows : R w (set_w_cols cols (set_w_rows rows w)).

#[export] Instance same_bus_cols_silent : ColsSilent same_bus.
Proof. by intros w cols rows. Qed.

(** The connection to the database is as before. *)
Definition same_conn : relation world := fun w w' => w_conn w' = w_conn w.
#[export] Instance same_conn_silent : Silent same_conn.
Proof.
  split; [split|].
  - intros w. done.
  - intros w1 w2 w3 H1 H2. unfold same_conn in *. congruence.
  - intros w n b _. done.
Qed.
#[export] Instance same_conn_fd_silent : FdSilent same_conn.
Proof. by intros w s. Qed.
#[export] Instance same_conn_db_silent : DbSilent same_conn.
Proof. by intros w rows n. Qed.
#[export] Instance same_conn_cols_silent : ColsSilent same_conn.
Proof. by intros w cols rows. Qed.
#[export] Instance same_conn_allows e : Allows same_conn e.
Proof. by intros w. Qed.
#[export] Instance same_conn_exec `{E : Env} {Run : Exec} `{!ExecLaws Run} argv input has mem n1 n2 :
  Respects same_conn (exec argv input has mem n1 n2).
Proof. intros w r w' (Hc & _)%exec_db. exact Hc. Qed.

Section Main.
Context `{E : Env} {Run : Exec} `{!ExecLaws Run}.
Implicit Types (w : world).

Lemma respects_init_schema R :
  Silent R -> DbSilent R -> ColsSilent R -> (forall name, Allows R (EvSql name)) -> Respects R tumgrd_db_init_schema.
Proof.
  intros HR HD HC HA.
  assert (forall present add fill, Respects R (migrate_add_column present add fill)) as Hmig.
  { intros present add fill. unfold migrate_add_column, succeeds.
    assert (forall c, Respects R (modify (fun w => set_w_cols (Some (add c)) (set_w_rows (fill <$> w_rows w) w)))) as Hm.
    { intros c w a w' [= <- <-]. apply cols_silent. }
    apply _. }
  assert (Respects R create_table) as Hcreate.
  { unfold create_table, succeeds. apply respects_bind; [apply _|apply _|]. intros []; cbn [negb]; [|apply _].
    apply respects_bind; [apply _| |apply _]. intros w a w' [= <- <-].
    destruct (w_cols w); [reflexivity|]. apply cols_silent. }
  assert (forall m, Respects R m -> RespectsX R (require_ok m)) as Hreq by (intros; unfold require_ok; apply _).
  unfold tumgrd_db_init_schema. apply _.
Qed.

(** Making directories is seen only by relations that see directories. *)
Lemma respects_ensure_parent_dir R path :
  Silent R -> (forall d, Allows R (EvMkdir d)) -> Respects R (ensure_parent_dir path).
Proof.
  intros HR HA.
  assert (forall rest pre, Respects R (mkdir_p_loop pre rest)) as Hloop.
  { induction rest as [|c rest IH]; intros pre; cbn [mkdir_p_loop]; unfold mkdir; apply _. }
  unfold ensure_parent_dir, mkdir_p. cbv zeta. apply _.
Qed.

Lemma total_ensure_parent_dir P path : SilentP P -> TraceSilentP P -> Total P (ensure_parent_dir path).
Proof.
  intros HS HT.
  assert (forall rest pre, Total P (mkdir_p_loop pre rest)) as Hloop.
  { induction rest as [|c rest IH]; intros pre; cbn [mkdir_p_loop]; unfold mkdir; apply _. }
  unfold ensure_parent_dir, mkdir_p. cbv zeta. apply _.
Qed.

(** Opening the database: the bus, the file and the deadline are as before. *)
Definition opening : relation world := fun w w' =>
  same_bus w w' /\ w_cols w' = w_cols w /\ w_rows w' = w_rows w /\ w_usable w' = w_usable w.

#[local] Instance opening_silent : Silent opening.
Proof.
  split; [split|].
  - intros w. by split_and!.
  - intros w1 w2 w3 (H1 & H2 & H3 & H4) (H5 & H6 & H7 & H8). unfold opening, same_bus in *. split_and!; congruence.
  - intros w n b _. by split_and!.
Qed.
#[local] Instance opening_mkdir d : Allows opening (EvMkdir d).
Proof. intros w. split; [|by split_and!]. apply allows_same_bus. by intros [b|]. Qed.
#[local] Instance opening_sql name : Allows opening (EvSql name).
Proof. intros w. split; [|by split_and!]. apply allows_same_bus. by intros [b|]. Qed.

Lemma wp_db_open path w :
  wp (tumgrd_db_open path) (fun rc w' => opening w w' /\ (rc = 0%Z \/ rc < 0)%Z /\ w_conn w' = (rc =? 0)%Z) w.
Proof.
  apply wp_run, wpx_bind, wpx_lift, wp_modify. set (w0 := set_w_conn false w).
  assert (opening w w0) as H0 by by split_and!.
  set (R := fun w w' => opening w w' /\ same_conn w w').
  assert (Silent R) as HR.
  { split; [split|]; unfold R.
    - intros x. by split.
    - intros w1 w2 w3 [H1 H2] [H3 H4]. split; by etransitivity.
    - intros x n b Hn. by split; apply silent_call. }
  assert (forall d, Allows R (EvMkdir d)) as Hmk by (intros d x; split; apply allows).
  apply wpx_bind, wpx_try2. eapply wp_mono; [apply (wp_respects R), respects_ensure_parent_dir; apply _|].
  intros rc w1 [H1 Hc1]. destruct (Z.ltb_spec rc 0).
  { split; [by etransitivity|]. split; [by right|]. destruct (Z.eqb_spec rc 0); [lia|]. exact Hc1. }
  apply wpx_bind, wpx_sqlite_try.
  - intros w2 H2 _. split; [transitivity w1; [by etransitivity|]; apply (calm_respects _ _ _ H2)|].
    split; [by right|]. by rewrite (proj1 (proj2 (calm_fields _ _ H2))).
  - intros w2 H2. assert (opening w w2) as Hw2.
    { transitivity w1; [by etransitivity|]. apply (calm_respects _ _ _ H2). }
    apply wpx_bind, wpx_lift, wp_modify, wpx_bind, wpx_lift, wp_succeeds. intros w3 H3 _.
    apply wpx_bind, wpx_lift, wp_emit, wpx_lift, wp_emit. cbn [w_conn set_w_trace].
    pose proof (calm_fields _ _ H3) as (_ & Hconn & _). split; [|split; [by left|by rewrite Hconn]].
    transitivity (set_w_conn true w2); [transitivity w2; [done|by split_and!]|].
    transitivity w3; [apply (calm_respects _ _ _ H3)|].
    eapply transitivity; apply allows; apply _.
Qed.

#[local] Instance total_db_open path : Total watched (tumgrd_db_open path).
Proof.
  pose proof (fun p => total_ensure_parent_dir watched p _ _) as Hdir.
  assert (forall c, Total watched (modify (set_w_conn c))) as Hconn by (intros c w Hw; by do 2 eexists).
  unfold tumgrd_db_open, sqlite_try, succeeds. cbv zeta. apply _.
Qed.

#[local] Instance same_conn_dispatch uci cfg ev : Respects same_conn (dispatch uci cfg ev).
Proof.
  destruct ev as [[tb|tb|tb| |]|msg|[]]; cbn [dispatch call_method];
    unfold net_event_cb, check_wan_interface, startup_reconcile_timer_cb, periodic_reconcile_timer_cb, uloop_timeout_set; apply _.
Qed.

Lemma wp_uloop_run uci cfg evs st w :
  bus_agrees st w -> wp (uloop_run uci cfg evs) (fun _ w' => bus_agrees st w' /\ same_conn w w') w.
Proof.
  revert w. induction evs as [|ev evs IH]; intros w (s & p & Hb); cbn [uloop_run].
  { apply wp_ret. split; [by exists s, p|done]. }
  apply wp_bind, wp_reads, wp_bind. rewrite Hb. destruct (deliverable _ ev) eqn:Hdel.
  - destruct (ubus st) eqn:Hu; [|by destruct ev as [| |[]]].
    eapply wp_mono; [apply wp_and; [exact (wp_dispatch_bus uci cfg ev _ _ _ _ _ w Hb)|apply (wp_respects same_conn); apply _]|].
    intros [] w1 [(s' & Hb1) Hc1]. eapply wp_mono; [apply IH|].
    + exists s', (p || is_periodic ev). by rewrite Hu.
    + intros [] w2 [Hb2 Hc2]. split; [done|by etransitivity].
  - apply wp_ret, IH. by exists s, p.
Qed.

(** What the clean-up of [main] relies on. *)
Definition to_clean (l : main_locals) (w : world) : Prop :=
  bus_agrees (m_ubus l) w /\ (w_conn w = true -> db_opened l = true).

Lemma wpx_main_body uci cfg evs w :
  bus_after (w_trace w) = Some bus_idle -> w_conn w = false ->
  wpx (main_body uci cfg evs) (fun e l' w' => to_clean l' w') (fun _ l' w' => to_clean l' w')
    (mkMain (mkUbus false false false) false) w.
Proof.
  intros Hb Hc. set (l0 := mkMain _ false).
  assert (forall w', same_bus w w' -> w_conn w' = false -> to_clean l0 w') as Hclean.
  { intros w' Hsb Hc'. split; [|by rewrite Hc']. exists false, false. cbn. unfold same_bus in Hsb. congruence. }
  apply wpx_bind, wpx_bind. destruct (parse_log_level _); [apply wpx_ret|by apply wpx_fail, Hclean].
  apply wpx_bind, wpx_try2, wp_call_silent. intros n b _. destruct (_ <? 0)%Z; [by apply Hclean|].
  apply wpx_bind, wpx_lift, wp_modify, wpx_lift, wp_bind, wp_call_silent. intros n' b' _. apply wp_modify.
  set (w1 := set_w_usable _ _). assert (same_bus w w1) as H1 by done.
  apply wpx_bind, wpx_try2. eapply wp_mono; [apply wp_db_open|]. intros rc w2 ((H2 & _) & Hrc & Hconn).
  assert (same_bus w w2) as H02 by by transitivity w1.
  destruct (Z.ltb_spec rc 0). { apply Hclean; [done|]. rewrite Hconn. by destruct (Z.eqb_spec rc 0); [lia|]. }
  apply wpx_bind, wpx_assign. set (l1 := mkMain (m_ubus l0) true).
  assert (forall w', same_bus w w' -> to_clean l1 w') as Hclean1.
  { intros w' Hsb. split; [|done]. exists false, false. cbn. unfold same_bus in Hsb. congruence. }
  apply wpx_bind, wpx_try2. eapply wp_mono; [apply (wp_respects same_bus), respects_init_schema; apply _|].
  intros rc3 w3 H3. assert (same_bus w w3) as H03 by by transitivity w2.
  destruct (rc3 <? 0)%Z; [by apply Hclean1|]. apply wpx_bind, wpx_local, wpx_bind, wpx_lift.
  eapply wp_mono; [apply wp_ubus_init; unfold same_bus in H03; congruence|]. intros [rc4 st] w4 Hinit. cbn [fst snd] in *.
  apply wpx_bind, wpx_assign. set (l2 := mkMain st true).
  assert (bus_agrees st w4) as Hst.
  { unfold bus_agrees. destruct Hinit as [(_ & -> & -> & Hb4)|(_ & -> & Hb4)]; [by exists true, true|by exists false, false]. }
  apply wpx_bind. destruct (rc4 <? 0)%Z; [apply wpx_fail; by split|apply wpx_ret].
  apply wpx_lift. eapply wp_mono; [by apply wp_uloop_run|]. intros [] w5 [Hb5 _]. by split.
Qed.

Lemma wp_main_cleanup l w :
  to_clean l w -> wp (main_cleanup l) (fun _ w' => bus_after (w_trace w') = Some bus_idle /\ w_conn w' = false) w.
Proof.
  intros [Hb Hc]. apply wp_bind. eapply wp_mono.
  { apply wp_and; [by apply wp_cleanup|apply (wp_respects same_conn)].
    unfold tumgrd_ubus_cleanup, ubus_call, uloop_timeout_cancel. apply _. }
  intros st w1 [[_ Hb1] Hc1]. apply wp_bind, wp_emit, wp_bind, wp_emit. unfold same_conn in Hc1.
  unfold bus_after in *. destruct (db_opened l) eqn:Ho; [apply wp_modify|apply wp_ret]; cbn [w_trace w_conn set_w_trace set_w_conn foldr];
    rewrite Hb1; (split; [done|]); [done|]. rewrite Hc1. by destruct (w_conn w); [discriminate Hc|].
Qed.

Lemma wp_main long_bits uci opts positional evs w :
  bus_after (w_trace w) = Some bus_idle -> w_conn w = false ->
  wp (main long_bits uci opts positional evs) (fun _ w' => bus_after (w_trace w') = Some bus_idle /\ w_conn w' = false) w.
Proof.
  intros Hb Hc. unfold main. cbv zeta. destruct (parse_args _ _ _ _) as [e|cfg].
  - destruct (0 <? e)%Z; [by apply wp_ret|]. apply wp_bind. eapply wp_mono.
    { apply wp_main_cleanup. split; [by exists false, false|by rewrite Hc]. }
    intros [] w1 H1. by apply wp_ret.
  - apply wp_bind, wp_wpx. eapply wpx_mono; [by apply wpx_main_body| |]; intros r l w1 Hl; cbn [fst snd];
      (apply wp_bind; eapply wp_mono; [by apply wp_main_cleanup|]; intros [] w2 H2; by apply wp_ret).
Qed.

(** *** With the deadline installed *)

(** The rows of a table of an earlier release, brought up to date. *)
Definition migrated (w : world) : list row :=
  match w_cols w with Some c => migrate_row c <$> w_rows w | None => [] end.

Lemma calm_table w w' : calm w w' -> table_good (w_rows w) -> table_good (w_rows w').
Proof. intros H. by apply calm_good. Qed.

Lemma good_uloop_run uci cfg evs : Forall event_strings evs -> Respects keeps_good (uloop_run uci cfg evs).
Proof.
  induction 1 as [|ev evs Hev _ IH]; cbn [uloop_run]; [apply _|]. pose proof (good_dispatch uci cfg ev Hev). apply _.
Qed.

Lemma wpx_serve_good uci cfg evs l w :
  table_good (migrated w) -> Forall event_strings evs ->
  wpx (main_serve uci cfg evs) (fun e _ _ => (e < 0)%Z) (fun _ _ w' => table_good (w_rows w')) l w.
Proof.
  intros Hg Hevs. apply wpx_bind, wpx_try2. eapply wp_mono; [apply wp_db_open|]. intros rc w1 ((_ & Hcols & Hrows & _) & _ & _).
  destruct (Z.ltb_spec rc 0); [done|]. apply wpx_bind, wpx_assign, wpx_bind, wpx_try2.
  eapply wp_mono; [apply wp_init_schema|]. intros rc2 w2 H2.
  destruct (Z.ltb_spec rc2 0) as [|Hge]; [done|].
  assert (table_good (w_rows w2)) as Hg2.
  { destruct H2 as [[Hlt _]|(_ & c & (_ & _ & -> & _) & _)]; [lia|]. rewrite Hcols, Hrows. exact Hg. }
  apply wpx_bind, wpx_local, wpx_bind, wpx_lift.
  eapply wp_mono; [apply (wp_respects keeps_good)|].
  { unfold tumgrd_ubus_init, tumgrd_ubus_cleanup, ubus_call, uloop_timeout_set, uloop_timeout_cancel, succeeds. cbv zeta. apply _. }
  intros [rc3 st] w3 H3. apply wpx_bind, wpx_assign, wpx_bind. cbn [fst snd].
  destruct (Z.ltb_spec rc3 0); [by apply wpx_fail|]. apply wpx_ret, wpx_lift.
  eapply wp_mono; [apply (wp_respects keeps_good); by apply good_uloop_run|]. intros [] w4 H4. by apply H4, H3.
Qed.

Context `{!Responsive}.

Lemma total_serve uci cfg evs : TotalX watched (main_serve uci cfg evs).
Proof.
  assert (forall ev, Total watched (dispatch uci cfg ev)) as Hd.
  { intros [[]|msg|[]]; cbn [dispatch call_method]; apply _. }
  assert (Total watched (uloop_run uci cfg evs)) as Hloop.
  { induction evs as [|ev evs' IH]; cbn [uloop_run]; apply _. }
  assert (SchemaSilentP watched) as HS by (split; intros; done).
  assert (forall st, Total watched (tumgrd_ubus_init cfg st)) as Hinit.
  { intros st. unfold tumgrd_ubus_init, tumgrd_ubus_cleanup, ubus_call, uloop_timeout_set, uloop_timeout_cancel, succeeds. cbv zeta. apply _. }
  unfold main_serve. apply _.
Qed.

Lemma total_main_cleanup P l : SilentP P -> TraceSilentP P -> SchemaSilentP P -> Total P (main_cleanup l).
Proof.
  intros HS HT HC. assert (Total P tumgrd_db_close) as Hc.
  { intros w Hw. do 2 eexists. split; [reflexivity|]. by apply db_silent_p_conn. }
  unfold main_cleanup, tumgrd_ubus_cleanup, ubus_call, uloop_timeout_cancel. apply _.
Qed.

(** The start up to the deadline; [sigaction] succeeds. *)
Lemma wpx_prepare cfg l w :
  env_ok (S (w_tick w)) = true ->
  wpx (main_prepare cfg) (fun e _ _ => (e < 0)%Z) (fun _ _ w' => watched w' /\ migrated w' = migrated w) l w.
Proof.
  intros Hok. apply wpx_bind. destruct (parse_log_level _); [apply wpx_ret|by apply wpx_fail].
  apply wpx_bind, wpx_try2, wp_call. destruct (deliver_alarm_flag (S (w_tick w)) w) as [b ->].
  destruct (Z.ltb_spec (env_status (w_tick w)) 0) as [Hlt|_]; [done|].
  apply wpx_bind, wpx_lift, wp_modify, wpx_lift, wp_bind, wp_call.
  set (w1 := set_w_fwmark _ _). destruct (deliver_alarm_flag (S (w_tick w1)) w1) as [b' ->]. apply wp_modify.
  split; [exact Hok|done].
Qed.

Lemma total_main_prepare cfg : TotalX (fun _ => True) (main_prepare cfg).
Proof.
  assert (forall f, Total (fun _ => True) (modify f)) as Hm by (intros f w _; by do 2 eexists).
  unfold main_prepare, set_ipdetect_fwmark, tumgrd_runner_install_watchdog, succeeds. apply _.
Qed.

#[local] Instance good_main_cleanup l : Respects keeps_good (main_cleanup l).
Proof.
  assert (Respects keeps_good tumgrd_db_close) as Hc by (intros w [] w' [= <-]; by intros ?).
  unfold main_cleanup, tumgrd_ubus_cleanup, ubus_call, uloop_timeout_cancel. apply _.
Qed.

Lemma main_ends long_bits uci opts positional evs w :
  env_ok (S (w_tick w)) = true -> table_good (migrated w) -> Forall event_strings evs ->
  exists rc w', main long_bits uci opts positional evs w = Some (rc, w') /\
    (rc = 0%Z -> forall cfg, parse_args long_bits opts positional config_init = inr cfg -> table_good (w_rows w')).
Proof.
  intros Hok Hg Hevs. unfold main. cbv zeta. set (l0 := mkMain _ false).
  assert (forall l w1, exists w2, main_cleanup l w1 = Some (tt, w2) /\ keeps_good w1 w2) as Hcl.
  { intros l w1. destruct (total_main_cleanup (fun _ => True) l _ _ _ w1 I) as ([] & w2 & Hrun & _).
    exists w2. split; [done|]. exact (good_main_cleanup l w1 tt w2 Hrun). }
  destruct (parse_args _ _ _ _) as [e|cfg].
  { destruct (0 <? e)%Z; [by do 2 eexists|]. destruct (Hcl l0 w) as (w1 & Hrun & _).
    unfold bind, M_bind. rewrite Hrun. by do 2 eexists. }
  destruct (total_main_prepare cfg l0 w I) as ([r l1] & w1 & Hprep & _).
  pose proof (wp_elim _ _ _ _ _ (wpx_prepare cfg l0 w Hok) Hprep) as Hr. cbn [fst snd] in Hr.
  assert (main_body uci cfg evs l0 w = match r with
    | inl e => Some ((inl e, l1), w1) | inr _ => main_serve uci cfg evs l1 w1 end) as Hbody.
  { cbv beta iota delta [main_body bind X_bind M_bind]. rewrite Hprep. by destruct r. }
  unfold bind, M_bind. rewrite Hbody. destruct r as [e|[]]; cbn [fst snd].
  { destruct (Hcl l1 w1) as (w2 & Hrun & _). rewrite Hrun. do 2 eexists. split; [reflexivity|]. cbn. lia. }
  destruct Hr as [Hw1 Hmig]. destruct (total_serve uci cfg evs l1 w1 Hw1) as ([r2 l2] & w2 & Hserve & _).
  assert (table_good (migrated w1)) as Hg1 by by rewrite Hmig.
  pose proof (wp_elim _ _ _ _ _ (wpx_serve_good uci cfg evs l1 w1 Hg1 Hevs) Hserve) as Hgood. cbn [fst snd] in Hgood.
  destruct (Hcl l2 w2) as (w3 & Hrun & Hkeep). rewrite Hserve. cbn [fst snd]. rewrite Hrun.
  do 2 eexists. split; [reflexivity|]. intros H0 _ _. destruct r2 as [e|[]]; [cbn in H0; lia|]. by apply Hkeep.
Qed.
End Main.

(** The levels that [--help] names are accepted, but [trace] is accepted too and
    not named. *)
Theorem usage_omits_trace :
  Forall (fun l : string => strstr (usage "tumgrd") l <> None /\ parse_log_level l <> None) ["debug"; "info"; "warn"; "error"] /\
  strstr (usage "tumgrd") "trace" = None /\ parse_log_level "trace" = Some LOG_TRACE.
Proof. split; [repeat constructor; by vm_compute|by split; vm_compute]. Qed.

(** ** Properties of a whole run *)
Section MainProperties.
Context `{E : Env} {Run : Exec} `{!ExecLaws Run}.

(** C12: once the deadline for children can be installed, that is if [sigaction]
    succeeds, the daemon never gets stuck: on any command line and whatever
    arrives until the signal, [main] returns; it then holds no connection, no
    object, no handler and no timer, and the database is closed; and when a run
    with a valid command line returns 0 the table keeps its constraints and its
    rotations can be resumed. It starts with a table, of this release or of an
    earlier one, that is well formed once it is migrated. Servers may stay silent
    and children may hang; it is enough that the kernel takes the timeouts of a
    socket, that a killed child can be reaped, that /dev/urandom does not block,
    and that no call is interrupted for ever ([Responsive]). *)
Theorem main_returns_and_gives_back `{!Responsive} long_bits uci opts positional evs w :
  env_ok (S (w_tick w)) = true -> table_good (migrated w) -> Forall event_strings evs ->
  bus_after (w_trace w) = Some bus_idle -> w_conn w = false ->
  exists rc w', main long_bits uci opts positional evs w = Some (rc, w') /\
    bus_after (w_trace w') = Some bus_idle /\ w_conn w' = false /\
    (rc = 0%Z -> forall cfg, parse_args long_bits opts positional config_init = inr cfg -> table_good (w_rows w')).
Proof.
  intros Hok Hg Hevs Hb Hc. destruct (main_ends long_bits uci opts positional evs w Hok Hg Hevs) as (rc & w' & Hrun & Hgood).
  destruct (wp_elim _ _ _ _ _ (wp_main long_bits uci opts positional evs w Hb Hc) Hrun) as [Hb' Hc'].
  by exists rc, w'.
Qed.
End MainProperties.

(** ** Runs in a concrete environment *)
Definition started_world : world :=
  set_w_trace [EvTimer PeriodicTimer 60000; EvUbus "add_object"; EvUbus "connect"] rotating_world.

Lemma started_serving : serving started_world.
Proof. split; [done|]. split; [split; [exact rotating_invariant|exact rotating_fits]|]. by exists false, false. Qed.

(** A check server that takes the connection and the request and never
    answers. *)
Definition silent_env : Env :=
  let q := online_env now0 in
  @mkEnv (@env_fuel q) (@env_time q) (@env_alarm q) (@env_ok q) (@env_read q) (@env_urandom q) (@env_write q)
    (@env_waitpid q) (@env_pid q) (@env_mkdir q) (@env_getaddrinfo q) (@env_connect q) (@env_timeo q)
    (@env_sockname q) (@env_send q) (fun _ => SHang) (@env_uci q) (@env_status q) (@env_environ q).

Lemma silent_responsive : @Responsive silent_env (@supervised_exec silent_env).
Proof.
  split.
  - apply supervised_exec_returns. apply prompt_responsive; [cbn; lia|done|by exists 4096%Z|by eexists].
  - split; [discriminate|]. intros t. exists 0. split; [cbn; lia|discriminate].
  - split; intros t; exists 0; (split; [cbn; lia|discriminate]).
  - done.
Qed.

Lemma daemon_keeps_serving_witness : exists w,
  rtc (@loop_step silent_env (@supervised_exec silent_env) true sample_config) started_world w /\
  started_world <> w /\ serving w.
Proof.
  destruct (@dispatch_serving silent_env (@supervised_exec silent_env) _ silent_responsive
    true sample_config (TimerExpired PeriodicTimer) started_world I eq_refl started_serving) as (w & Hrun & _).
  assert (@loop_step silent_env (@supervised_exec silent_env) true sample_config started_world w) as Hstep.
  { apply (loop_deliver _ _ _ _ (TimerExpired PeriodicTimer)); [exact I|reflexivity|exact Hrun]. }
  exists w. split; [by apply rtc_once|]. split; [intros <-; vm_compute in Hrun; discriminate|].
  exact (proj1 (@daemon_keeps_serving silent_env (@supervised_exec silent_env) _ silent_responsive
    true sample_config started_world w started_serving (rtc_once _ _ Hstep))).
Defined.

Lemma event_loop_returns_witness : exists w',
  @uloop_run (online_env now0) (@supervised_exec (online_env now0)) true sample_config
    [TimerExpired PeriodicTimer; Call MStatus; NetEvent None] started_world = Some (tt, w') /\ serving w'.
Proof.
  destruct (@event_loop_returns (online_env now0) (@supervised_exec (online_env now0)) _ (online_responsive now0)
    true sample_config [TimerExpired PeriodicTimer; Call MStatus; NetEvent None] started_world started_serving) as (w' & Hrun & Hs & _).
  - by repeat constructor.
  - exists w'. split; [exact Hrun|exact Hs].
Defined.

(** A process that has just been started, on an empty file. *)
Definition first_world : world := set_w_cols None (set_w_conn false (set_w_usable false new_world)).

Lemma first_table_good : table_good (migrated first_world).
Proof. split; [exact new_world_invariant|constructor]. Qed.

Definition sample_events : list loop_event :=
  [Call (MRegister sample_request); TimerExpired StartupTimer; TimerExpired PeriodicTimer; Call MStatus].

Lemma sample_events_strings : Forall event_strings sample_events.
Proof.
  repeat constructor; intros ? [= <-]; by repeat constructor.
Qed.

(** A whole run: a node is registered, reconciled by both timers, and listed. *)
Example a_whole_run :
  match @main (online_env now0) (@supervised_exec (online_env now0)) 32 true [OptInterval (literal "30")] false sample_events first_world with
  | Some (rc, w') => rc = 0%Z /\ map (fun r => c_status r) (w_rows w') = [Some TUMGRD_STATUS_ACTIVE] /\
      length (replies (w_trace w')) = 2 /\ w_conn w' = false
  | None => False
  end.
Proof. vm_compute. split_and!; reflexivity. Qed.

Lemma main_returns_and_gives_back_witness : exists rc w',
  @main (online_env now0) (@supervised_exec (online_env now0)) 32 true [OptInterval (literal "30")] false sample_events first_world
    = Some (rc, w') /\ w_conn w' = false.
Proof.
  destruct (@main_returns_and_gives_back (online_env now0) (@supervised_exec (online_env now0)) _ (online_responsive now0)
    32 true [OptInterval (literal "30")] false sample_events first_world eq_refl first_table_good sample_events_strings eq_refl eq_refl)
    as (rc & w' & Hrun & _ & Hc & _).
  exists rc, w'. split; [exact Hrun|exact Hc].
Defined.

(** libubus refuses the object with a positive status, as it does when an
    object of that name is on the bus already. *)
Definition object_refused_env : Env :=
  let q := ready_env in
  @mkEnv (@env_fuel q) (@env_time q) (@env_alarm q) (@env_ok q) (@env_read q) (@env_urandom q) (@env_write q)
    (@env_waitpid q) (@env_pid q) (@env_mkdir q) (@env_getaddrinfo q) (@env_connect q) (@env_timeo q)
    (@env_sockname q) (@env_send q) (@env_recv q) (@env_uci q)
    (fun t => if decide (t = 0) then 0%Z else 2%Z) (@env_environ q).

(** When libubus refuses the object with a positive status,
    [tumgrd_ubus_init] releases the connection and returns that status, which
    [main] does not take for a failure: it enters the loop with no object and
    no timer, so that nothing that arrives is answered and no pass is ever
    made, and in the end it returns 0. *)
Theorem bus_failure_is_ignored :
  exists w1 w', @tumgrd_ubus_init object_refused_env config_init (mkUbus false false false) (set_w_tick 1 first_world)
      = Some ((2%Z, mkUbus false false false), w1) /\
    bus_after (w_trace w1) = Some bus_idle /\
    @main object_refused_env (@supervised_exec object_refused_env) 32 true [] false sample_events first_world = Some (0%Z, w') /\
    replies (w_trace w') = [] /\ w_rows w' = [] /\ commands (w_trace w') = [].
Proof.
  do 2 eexists. split; [vm_compute; reflexivity|]. split; [vm_compute; reflexivity|]. split; [vm_compute; reflexivity|].
  split_and!; vm_compute; reflexivity.
Qed.
