(* ===== verification/TruncationSpec.v ===== *)
(** * TruncationSpec: names that do not fit their arrays

    The uid of a request is looked up as it was sent and stored as it fits its
    array, so that a node with a longer uid can be made but not found again. *)

From S2P Require Import Prelude CLib Types World Logic Helper Db DbSpec Exec ExecSpec Runner IpDetect IpDetectSpec Reconcile ReconcileSpec ReconcileProps UbusIf UbusSpec Registry RegisterSpec MethodsSpec UbusProps Daemon DaemonSpec.

(** A key whose uid does not fit names no row. *)
Lemma long_uid_absent w k : table_good (w_rows w) -> SZ_UID <= length (k_uid k) -> store w !! k = None.
Proof.
  intros [[Hok _] Hfit] Hlen. destruct (store w !! k) as [r|] eqn:Hr; [|done].
  destruct (proj1 (key_fits_dom _ Hok) Hfit k) as [[_ Hu] _]; [by exists r|lia].
Qed.

Lemma same_desired_some w w' k : table_ok (w_rows w) -> same_desired w w' -> is_Some (store w !! k) -> is_Some (store w' !! k).
Proof.
  intros Hok Hd [r Hr]. destruct (Hd Hok) as [_ Heq]. apply (f_equal (fun m => m !! k)) in Heq. cbv beta in Heq.
  rewrite !lookup_fmap, Hr in Heq. by destruct (store w' !! k).
Qed.

Section Truncation.
Context `{E : Env} {Run : Exec} `{!ExecLaws Run}.
Implicit Types (w : world).

(** A node is reported as created, and there is a row under this key. *)
Definition created_as (k : key) (st : ubus_status) (w w' : world) : Prop :=
  st = UBUS_STATUS_OK -> exists msg, replies_between [msg] w w' /\ text_of "action" msg = literal "created" /\
    is_Some (store w' !! k).

Lemma wp_apply_created cfg sl n w w0 :
  db_invariant (w_rows w) -> rotation_ok (row_of_node n true) -> no_replies w0 w ->
  wp (register_apply cfg true sl n) (fun st w' => created_as (node_key n) st w0 w') w.
Proof.
  intros [Hok Hrot] Hop Hr0. apply wp_bind. eapply wp_mono.
  { apply wp_and; [by apply upsert_spec|]. apply wp_and; [by apply (run_op_invariant (OpUpsert n sl))|wp_frame no_replies]. }
  intros rc w1 [(Hok1 & t1 & t2 & Hup) [Hinv1 Hr1]]. cbv zeta in Hup. destruct (Z.eqb_spec rc 0) as [->|]; cbn [negb].
  2:{ apply wp_ret. intros Hst. discriminate Hst. }
  assert (is_Some (store w1 !! node_key n)) as Hsome.
  { destruct Hup as [(_ & _ & Hs)|(? & _)]; [|done]. rewrite Hs, lookup_insert_eq. by eexists. }
  apply wp_bind. eapply wp_mono.
  { apply wp_and; [wp_frame same_desired|apply wp_and; [wp_frame keeps_invariant|wp_frame no_replies]]. }
  intros [rc n'] w2 [Hd2 [Hi2 Hr2]]. apply wp_bind. eapply wp_mono; [by apply wp_refetch, Hi2|]. intros n2 w3 H3.
  pose proof (calm_unchanged _ _ H3) as (Hrows3 & _ & Hr3).
  apply wp_bind, wp_emit, wp_ret. intros _. eexists. split.
  - apply replied. transitivity w; [done|]. transitivity w1; [done|]. by transitivity w2.
  - split; [by destruct (rc =? 0)%Z|]. cbn [w_rows set_w_trace]. rewrite Hrows3. by apply (same_desired_some w1).
Qed.

(** The key of the row that a request with a long uid makes. *)
Definition truncated_key (h : cstr) (p : Z) (u v : cstr) : key :=
  mkKey (snprintf_s SZ_TEXT h) p (snprintf_s SZ_UID u) (snprintf_s SZ_IP_VERSION v).

Lemma wp_long_register cfg tb u h p c s v w :
  table_good (w_rows w) -> request_text tb -> SZ_UID <= length u ->
  wp (register_node cfg tb (mkKey h p u v) c s) (fun st w' => created_as (truncated_key h p u v) st w w') w.
Proof.
  intros Hg Hx Hlen. assert (forall st w', st <> UBUS_STATUS_OK -> created_as (truncated_key h p u v) st w w') as Hrefuse by (intros ? ? ? ?; done).
  apply wp_bind. eapply wp_mono; [apply (wp_register_start cfg (mkKey h p u v)), Hg|].
  intros start w1 [H1 Hstart]. pose proof (calm_unchanged _ _ H1) as (Hrows1 & _ & Hr1).
  destruct start as [[n0 created]|]; [|by apply wp_ret, Hrefuse].
  rewrite (long_uid_absent w (mkKey h p u v) Hg Hlen) in Hstart.
  destruct created; [|by destruct Hstart as (r & t & ? & _)]. cbn [k_host k_port k_uid k_version].
  apply wp_bind. eapply wp_mono; [apply wp_register_key|].
  intros keyed w2 [(Hrows2 & _ & Hr2) Hkeyed]. destruct keyed as [n1|]; [|by apply wp_ret, Hrefuse]. specialize (Hkeyed n1 eq_refl).
  destruct (override_xor _ _) as [n2|] eqn:Hov; [|by apply wp_ret, Hrefuse].
  destruct (override_lifetime _ _ _) as [[n3 sl]|] eqn:Hl; [|by apply wp_ret, Hrefuse].
  assert (continues None n3) as Hcont by (by eapply register_continues; [by apply request_text_key| | | |]).
  pose proof (register_keeps_key cfg w1 w2 tb u h s p c v true n0 n1 n2 n3 sl Hkeyed Hov Hl) as Hk.
  unfold truncated_key. rewrite <- Hk. apply wp_apply_created.
  - rewrite Hrows2, Hrows1. apply Hg.
  - by eapply (continues_op_ok None).
  - by transitivity w1.
Qed.

Lemma wp_handle_long_register cfg tb u w :
  table_good (w_rows w) -> request_text tb -> reg_uid tb = Some u -> SZ_UID <= length u ->
  wp (handle_register cfg tb) (fun st w' => exists k, k_uid k = snprintf_s SZ_UID u /\ created_as k st w w') w.
Proof.
  intros Hg Hx Hu Hlen. unfold handle_register. rewrite Hu.
  assert (wp (mret UBUS_STATUS_INVALID_ARGUMENT) (fun st w' => exists k, k_uid k = snprintf_s SZ_UID u /\ created_as k st w w') w) as Hrefuse.
  { apply wp_ret. by exists (mkKey [] 0 (snprintf_s SZ_UID u) []). }
  destruct (reg_server_host tb) as [h|]; [|done]. destruct (reg_server_port tb) as [p|]; [|done].
  destruct (reg_client_port tb) as [c|]; [|done]. destruct (reg_psk tb) as [s|]; [|done].
  destruct (negb _); [done|]. destruct (bad_port _); [done|]. destruct (bad_port _); [done|].
  destruct (get_normalized_ip_version _) as [v|]; [|done].
  eapply wp_mono; [by apply wp_long_register|]. intros st w' H. by exists (truncated_key h (int32 p) u v).
Qed.

(** The node cannot be named. *)
Lemma wp_long_deregister tb u w :
  table_good (w_rows w) -> req_uid tb = Some u -> SZ_UID <= length u ->
  wp (handle_deregister tb) (fun st w' => w_rows w' = w_rows w /\
    (st = UBUS_STATUS_OK -> exists msg, replies_between [msg] w w' /\ text_of "status" msg = literal "not_found")) w.
Proof.
  intros Hg Hu Hlen. eapply wp_mono; [apply wp_handle_deregister; apply Hg|].
  intros st w' (_ & [[Hst (Hrows & _)]|(-> & k & msg & Hk & Hm & Hend)]); [by split|].
  assert (store w !! k = None) as Hnone.
  { apply long_uid_absent; [done|]. unfold requested_key in Hk. rewrite Hu in Hk.
    destruct (req_server_host tb) as [h|]; [|done]. destruct (req_server_port tb) as [p|]; [|done].
    destruct (get_normalized_ip_version (req_ip_version tb)) as [v|]; [|done]. by injection Hk as <-. }
  destruct Hend as [(_ & Hrows & _ & Ht)|(r & t & Hr & _)]; [|congruence].
  split; [exact Hrows|]. intros _. by exists msg.
Qed.
End Truncation.

Section Property.
Context `{E : Env} {Run : Exec} `{!ExecLaws Run} `{!Responsive}.

(** C40: a node whose uid is longer than its array is lost. Whatever the state of
    a good table and whatever the environment does, given [Responsive], a request
    with such a uid that is answered OK is answered with the action "created",
    even if it was sent before, and leaves a row under the first 127 bytes of the
    uid; and a request to deregister a node by that uid that follows changes no
    row: if it is answered OK, the answer is "not_found". *)
Theorem long_uid_is_lost cfg tb u w :
  watched w -> table_good (w_rows w) -> request_strings tb -> reg_uid tb = Some u -> SZ_UID <= length u ->
  exists st w', handle_register cfg tb w = Some (st, w') /\
    (st = UBUS_STATUS_OK -> exists k msg, replies_between [msg] w w' /\ text_of "action" msg = literal "created" /\
       k_uid k = take 127 u /\ is_Some (store w' !! k)) /\
    forall name, req_uid name = Some u ->
      exists st2 w2, handle_deregister name w' = Some (st2, w2) /\ w_rows w2 = w_rows w' /\
        (st2 = UBUS_STATUS_OK -> exists msg, replies_between [msg] w' w2 /\ text_of "status" msg = literal "not_found").
Proof.
  intros Hw Hg Hs Hu Hlen. destruct (total w (Total := total_handle_register cfg tb) Hw) as (st & w' & Hrun & Hw').
  exists st, w'. split; [done|]. split.
  - destruct Hs as (_ & _ & Hx).
    destruct (wp_elim _ _ _ _ _ (wp_handle_long_register cfg tb u w Hg Hx Hu Hlen) Hrun) as (k & Hk & Hc).
    intros Hst. destruct (Hc Hst) as (msg & Hm & Ha & Hr). by exists k, msg.
  - intros name Hn. assert (table_good (w_rows w')) as Hg' by exact (good_handle_register cfg tb Hs w st w' Hrun Hg).
    exact (total_wp watched _ _ w' Hw' (wp_long_deregister name u w' Hg' Hn Hlen)).
Qed.
End Property.

(** *** The hypotheses can be met *)
Definition long_uid : cstr := repeat "a"%char 130.
Definition long_request : register_request :=
  mkRegister (Some long_uid) (Some (literal "vpn.example")) (Some 443%Z) (Some 5000%Z) (Some (literal "secret"))
    None None None None (Some (literal "4")) None None.

Lemma long_request_strings : request_strings long_request.
Proof.
  assert (forall s, forallb (fun c => negb (bool_decide (c = NUL))) s = true -> nonul s) as Htext.
  { intros s Hs. apply forallb_Forall in Hs. eapply Forall_impl; [exact Hs|]. cbn. intros c Hc ->. done. }
  split; [|split].
  1-2: intros ? [= <-]; by apply Htext.
  repeat (apply Forall_cons; split); try done; intros ? [= <-]; by apply Htext.
Qed.

Lemma new_world_good : table_good (w_rows new_world).
Proof. split; [exact new_world_invariant|constructor]. Qed.

(** The request is answered OK there. *)
Example long_request_is_answered :
  option_map fst (@handle_register (online_env now0) (@supervised_exec (online_env now0)) sample_config long_request new_world)
    = Some UBUS_STATUS_OK.
Proof. vm_compute. reflexivity. Qed.

Lemma long_uid_is_lost_witness : exists w' k,
  @handle_register (online_env now0) (@supervised_exec (online_env now0)) sample_config long_request new_world = Some (UBUS_STATUS_OK, w') /\
  k_uid k = take 127 long_uid /\ is_Some (store w' !! k).
Proof.
  destruct (@long_uid_is_lost (online_env now0) (@supervised_exec (online_env now0)) _ (online_responsive now0)
    sample_config long_request long_uid new_world eq_refl new_world_good long_request_strings eq_refl) as (st & w' & Hrun & Hok & _).
  - apply Nat.leb_le. vm_compute. reflexivity.
  - pose proof long_request_is_answered as Hst. rewrite Hrun in Hst. injection Hst as ->.
    destruct (Hok eq_refl) as (k & msg & _ & _ & Hk & Hr). exists w', k. split; [exact Hrun|]. split; [exact Hk|exact Hr].
Defined.
