(* ===== verification/ServiceSpec.v ===== *)
(** * ServiceSpec: the daemon as a registry

    Seen from the bus the daemon is a registry: calls are answered from it, two
    of them change it, and everything else that happens leaves it alone.  The
    event loop refines the transition system that says so, with the replies as
    the observations. *)

From S2P Require Import Prelude CLib Types World Logic Helper Db DbSpec Exec ExecSpec Runner IpDetect IpDetectSpec Reconcile ReconcileSpec ReconcileProps UbusIf UbusSpec Registry RegisterSpec MethodsSpec UbusProps Daemon DaemonSpec.

(** ** The specification *)

(** One event, the replies that are sent for it, and the registry before and
    after it. *)
Inductive registry_step (cfg : config) : loop_event -> list (list blob) -> registry -> registry -> Prop :=
| step_registered tb k msg R :
    admissible tb k ->
    text_of "action" msg = match R !! k with Some _ => literal "updated" | None => literal "created" end ->
    registry_step cfg (Call (MRegister tb)) [msg] R (<[k := register_on cfg (R !! k) tb]> R)
| step_removed tb k msg R :
    requested_key tb = Some k -> is_Some (R !! k) -> flag_of "db_deleted" msg = 1%Z ->
    registry_step cfg (Call (MDeregister tb)) [msg] R (delete k R)
| step_kept tb k msg R :
    requested_key tb = Some k -> is_Some (R !! k) -> text_of "status" msg = literal "error" ->
    registry_step cfg (Call (MDeregister tb)) [msg] R R
| step_absent tb k msg R :
    requested_key tb = Some k -> R !! k = None -> text_of "status" msg = literal "not_found" ->
    registry_step cfg (Call (MDeregister tb)) [msg] R R
| step_refreshed_all tb msg R :
    blobmsg_get_bool_default (ref_all tb) false = true -> text_of "scope" msg = literal "all" ->
    registry_step cfg (Call (MRefresh tb)) [msg] R R
| step_refreshed tb k msg R :
    blobmsg_get_bool_default (ref_all tb) false = false -> requested_key (ref_node tb) = Some k ->
    (text_of "status" msg = literal "not_found" <-> R !! k = None) ->
    registry_step cfg (Call (MRefresh tb)) [msg] R R
| step_listed m nodes R :
    m = MStatus \/ m = MDump -> (fun n => (node_key n, node_registration n)) <$> nodes ≡ₚ map_to_list R ->
    registry_step cfg (Call m)
      [[BStr "status" "ok"; BU32 "count" (uint32 (Z.of_nat (size R))); BArray "nodes" (add_node_brief <$> nodes)]] R R
| step_refused m R : registry_step cfg (Call m) [] R R
| step_unseen ev R : (forall m, ev <> Call m) -> registry_step cfg ev [] R R.

(** A run: the events in order, all their replies, and the registry. *)
Inductive registry_run (cfg : config) : list loop_event -> list (list blob) -> registry -> registry -> Prop :=
| run_nil R : registry_run cfg [] [] R R
| run_cons ev evs msgs msgs' R R1 R2 :
    registry_step cfg ev msgs R R1 -> registry_run cfg evs msgs' R1 R2 -> registry_run cfg (ev :: evs) (msgs ++ msgs') R R2.

(** The names in a request fit, and its strings are strings of C. *)
Definition event_fits (ev : loop_event) : Prop := match ev with Call (MRegister tb) => request_fits tb | _ => True end.

Lemma event_fits_strings ev : event_fits ev -> event_strings ev.
Proof.
  destruct ev as [[tb| | | |]| |]; try done. intros (Hu & Hh & Ht).
  split; [intros u Hu'; by apply Hu|]. split; [intros h Hh'; by apply Hh|done].
Qed.

(** ** The answers to status and dump *)
Lemma read_rows_registry `{E : Env} rows nodes :
  Forall key_fits rows -> read_rows rows nodes ->
  (fun n => (node_key n, node_registration n)) <$> nodes = (fun r => (row_key r, row_registration r)) <$> rows.
Proof.
  intros Hfit. induction 1 as [|r n rows nodes (t & ->) _ IH]; [done|]. apply Forall_cons in Hfit as [Hr Hfit].
  by rewrite !fmap_cons, IH, read_row_key by done.
Qed.

Lemma registry_list t : table_ok t -> (fun r => (row_key r, row_registration r)) <$> t ≡ₚ map_to_list (row_registration <$> to_map t).
Proof.
  intros [Hnd _]. rewrite map_to_list_fmap. unfold to_map. rewrite map_to_list_to_map.
  - rewrite <- list_fmap_compose. reflexivity.
  - by rewrite <- list_fmap_compose.
Qed.

Lemma registry_size t : table_ok t -> size (row_registration <$> to_map t) = length t.
Proof.
  intros Hok. rewrite <- length_map_to_list, <- (Permutation_length (registry_list t Hok)). apply length_fmap.
Qed.

(** ** The refinement *)
#[export] Instance no_replies_fired t : Allows no_replies (EvTimerFired t).
Proof. intros w. by exists [EvTimerFired t]. Qed.
#[export] Instance no_replies_timer t ms : Allows no_replies (EvTimer t ms).
Proof. intros w. by exists [EvTimer t ms]. Qed.

Section Service.
Context `{E : Env} {Run : Exec} `{!ExecLaws Run}.
Implicit Types (w : world).

(** What one event comes to. *)
Definition refined (cfg : config) (ev : loop_event) (w w' : world) : Prop :=
  exists msgs, replies_between msgs w w' /\ registry_step cfg ev msgs (registry_of w) (registry_of w').

Lemma refined_call cfg m w (Q : ubus_status -> world -> Prop) :
  wp (call_method cfg m) Q w -> (forall st w', Q st w' -> refined cfg (Call m) w w') ->
  wp (call_method cfg m;; mret tt) (fun _ w' => refined cfg (Call m) w w') w.
Proof. intros H HQ. apply wp_bind. eapply wp_mono; [exact H|]. intros st w' Hst. by apply wp_ret, (HQ st). Qed.

(** A call that is refused, and an event that nobody sees. *)
Lemma refined_refused cfg m w w' : unchanged w w' -> refined cfg (Call m) w w'.
Proof. intros (Hrows & _ & Hr). exists []. rewrite Hrows. split; [done|constructor]. Qed.

Lemma refined_unseen cfg ev (m : M unit) w :
  (forall c, ev <> Call c) -> table_ok (w_rows w) -> Respects same_desired m -> Respects no_replies m ->
  wp m (fun _ w' => refined cfg ev w w') w.
Proof.
  intros Hev Hok Hd Hr. eapply wp_mono; [apply wp_and; [by apply (wp_respects same_desired)|by apply (wp_respects no_replies)]|].
  intros ? w' [Hd' Hr']. exists []. split; [done|]. rewrite (desired_registry _ _ (proj2 (Hd' Hok))). by constructor.
Qed.

Lemma wp_dispatch_refined uci cfg ev w :
  table_good (w_rows w) -> lifetime_ok (default_lifetime cfg) -> event_fits ev ->
  wp (dispatch uci cfg ev) (fun _ w' => refined cfg ev w w') w.
Proof.
  intros [Hinv Hfit] Hcfg Hev. pose proof (proj1 Hinv) as Hok.
  assert (forall m, m = MStatus \/ m = MDump -> wp handle_status (fun _ w' => refined cfg (Call m) w w') w) as Hstatus.
  { intros m Hm. eapply wp_mono; [apply wp_handle_status|].
    intros st w' [(_ & Hu & _)|(-> & Hrows & _ & nodes & Hread & Hmsg)]; [by apply refined_refused|].
    eexists. split; [exact Hmsg|]. rewrite Hrows, <- (registry_size _ Hok). apply step_listed; [done|].
    rewrite (read_rows_registry (select_ordered (w_rows w)) nodes); [|by unfold select_ordered; rewrite merge_sort_Permutation|done].
    rewrite <- registry_list by done. unfold select_ordered. by rewrite merge_sort_Permutation. }
  destruct ev as [[tb|tb|tb| |]|msg|[]]; cbn [dispatch call_method].
  - apply (refined_call cfg (MRegister tb) w _ (wp_handle_register cfg tb w Hinv Hev Hcfg)).
    intros st w' [_ [[_ Hu]|(_ & n & Hadm & _ & _ & msg & n' & r & Hm & Ha & Hreg & _)]]; [by apply refined_refused|].
    exists [msg]. split; [done|]. rewrite Hreg. apply step_registered; [done|]. rewrite lookup_fmap, Ha. by destruct (store w !! _).
  - apply (refined_call cfg (MDeregister tb) w _ (wp_handle_deregister tb w Hok Hfit)).
    intros st w' [_ [[_ Hu]|(_ & k & msg & Hk & Hm & Hres)]]; [by apply refined_refused|]. exists [msg]. split; [done|].
    destruct Hres as [(Hnone & Hrows & _ & Ht)|(r & t & Hr & _ & _ & _ & _ & _ & _ & _ & _ & _ & _ & _ & _ & [(Hf & Hs & _)|(_ & Hs & Ht & _)])].
    + rewrite Hrows. apply (step_absent cfg tb k); [done|by rewrite lookup_fmap, Hnone|done].
    + rewrite Hs, fmap_delete. apply step_removed; [done|by rewrite lookup_fmap, Hr|done].
    + rewrite Hs. apply (step_kept cfg tb k); [done|by rewrite lookup_fmap, Hr|done].
  - apply (refined_call cfg (MRefresh tb) w _ (wp_handle_refresh cfg tb w Hinv)).
    intros st w' (_ & Hd & [[_ Hu]|(_ & msg & Hm & Hsays)]); [by apply refined_refused|]. exists [msg]. split; [done|].
    rewrite (desired_registry _ _ (proj2 (Hd Hok))). unfold refresh_says in Hsays.
    destruct (blobmsg_get_bool_default (ref_all tb) false) eqn:Hall; [by apply step_refreshed_all|].
    destruct Hsays as (k & Hk & Ht). apply (step_refreshed cfg tb k); [done|done|]. rewrite Ht, lookup_fmap. by destruct (store w !! k).
  - apply (refined_call cfg MStatus w _ (Hstatus MStatus (or_introl eq_refl))). auto.
  - apply (refined_call cfg MDump w _ (Hstatus MDump (or_intror eq_refl))). auto.
  - apply refined_unseen; [done|done|..]; unfold net_event_cb, check_wan_interface; apply _.
  - apply refined_unseen; [done|done|..]; unfold startup_reconcile_timer_cb; apply _.
  - apply refined_unseen; [done|done|..]; unfold periodic_reconcile_timer_cb, uloop_timeout_set; apply _.
Qed.

Context `{!Responsive}.

(** C2: the event loop refines the registry. Whatever calls, network events and
    timers arrive, in whatever order and whatever fails, the loop comes back to a
    state in which it can serve; the replies that were sent are those of a run of
    the registry over the same events, from what was registered at the start to
    what is registered now. So the set of nodes and what is asked for each of them
    change only by the answered calls of register and deregister, and status lists
    them. The uid and the host of a request to register must fit their arrays
    (otherwise see [TruncationSpec]), and the default lifetime must be in range;
    the other texts of a request are registered cut to their arrays. *)
Theorem loop_refines_registry uci cfg evs w :
  serving w -> lifetime_ok (default_lifetime cfg) -> Forall event_fits evs ->
  exists w' msgs, uloop_run uci cfg evs w = Some (tt, w') /\ serving w' /\ replies_between msgs w w' /\
    registry_run cfg evs msgs (registry_of w) (registry_of w').
Proof.
  intros Hs Hcfg Hevs.
  destruct (serving_run_ind uci cfg event_fits (fun evs w w' => exists msgs, replies_between msgs w w' /\
    registry_run cfg evs msgs (registry_of w) (registry_of w')) event_fits_strings) with (evs := evs) (w := w)
    as (w' & Hrun & Hs' & msgs & Hm & Hsim); [..|done|done|by exists w', msgs].
  - intros w1. exists []. split; [by exists []|constructor].
  - intros ev evs' w1 w2 w3 Hs1 Hev Hstep (msgs' & Hm' & Hrun').
    assert (refined cfg ev w1 w2) as (msgs & Hm & Hreg).
    { destruct Hstep as [[_ Hrun]| ->]; [exact (wp_elim _ _ _ _ _ (wp_dispatch_refined uci cfg ev w1 (proj1 (proj2 Hs1)) Hcfg Hev) Hrun)|].
      exists []. split; [by exists []|]. destruct ev as [m| |]; constructor; done. }
    exists (msgs ++ msgs'). split; [by eapply replies_between_app|by econstructor].
Qed.
End Service.

(** ** A run in a concrete environment *)

(** A registration, a pass of the timer, and a call of status. *)
Definition sample_run : list loop_event := [Call (MRegister sample_request); TimerExpired PeriodicTimer; Call MStatus].

Lemma loop_refines_registry_witness : exists w' msgs,
  @uloop_run (online_env now0) (@supervised_exec (online_env now0)) true sample_config sample_run started_world = Some (tt, w') /\
  registry_run sample_config sample_run msgs (registry_of started_world) (registry_of w') /\
  length (replies (w_trace w')) = 2 /\ size (store w') = S (size (store started_world)).
Proof.
  destruct (@loop_refines_registry (online_env now0) (@supervised_exec (online_env now0)) _ (online_responsive now0)
    true sample_config sample_run started_world started_serving (or_introl eq_refl)) as (w' & msgs & Hrun & _ & _ & Hsim).
  - constructor; [exact sample_request_fits|by repeat constructor].
  - exists w', msgs. split; [exact Hrun|]. split; [exact Hsim|].
    vm_compute in Hrun. injection Hrun as <-. by split; vm_compute.
Defined.
