(* ===== verification/ReplySpec.v ===== *)
(** * ReplySpec: the types of the replies

    The reply to each method has a record type: its attributes come in a fixed
    order, some may be missing, and each has a type of libubox or is one of a
    few words.  Whatever the file, the commands and the network do, a reply
    has the type of the method it answers. *)

From S2P Require Import Prelude CLib Types World Logic Helper Db DbSpec Exec ExecSpec Runner IpDetect IpDetectSpec Reconcile ReconcileSpec ReconcileProps UbusIf UbusSpec RegisterSpec MethodsSpec UbusProps Daemon DaemonSpec.

(** ** Types *)
Inductive ty :=
| TStr
| TWord (words : list cstr)
| TFlag
| TU32
| TU64
| TTables (fields : list (cstr * bool * ty)).

(** A name, whether the attribute may be missing, and its type. *)
Abbreviation field := (cstr * bool * ty)%type.
Abbreviation required name t := (name : cstr, false, t).
Abbreviation optional name t := (name : cstr, true, t).
Definition field_name (f : field) : cstr := f.1.1.

Inductive has_type : blob -> field -> Prop :=
| ty_str name o v : has_type (BStr name v) (name, o, TStr)
| ty_word name o words v : v ∈ words -> has_type (BStr name v) (name, o, TWord words)
| ty_flag name o v : v = 0%Z \/ v = 1%Z -> has_type (BU8 name v) (name, o, TFlag)
| ty_u32 name o v : (0 <= v < 2 ^ 32)%Z -> has_type (BU32 name v) (name, o, TU32)
| ty_u64 name o v : (0 <= v < 2 ^ 64)%Z -> has_type (BU64 name v) (name, o, TU64)
| ty_tables name o fields elems : Forall (fun msg => typed msg fields) elems -> has_type (BArray name elems) (name, o, TTables fields)
with typed : list blob -> list field -> Prop :=
| typed_nil : typed [] []
| typed_there b msg f fields : has_type b f -> typed msg fields -> typed (b :: msg) (f :: fields)
| typed_missing msg name t fields : typed msg fields -> typed msg (optional name t :: fields).

Lemma typed_app msg1 msg2 fs1 fs2 : typed msg1 fs1 -> typed msg2 fs2 -> typed (msg1 ++ msg2) (fs1 ++ fs2).
Proof. intros H1 H2. induction H1; cbn [app]; [done|by constructor..]. Qed.

Lemma has_type_name b f : has_type b f -> blob_name b = field_name f.
Proof. by destruct 1. Qed.

(** A reply of a type whose names are distinct has no attribute twice. *)
Lemma typed_names msg fs : typed msg fs -> (blob_name <$> msg) `sublist_of` (field_name <$> fs).
Proof.
  induction 1 as [|b msg f fs Hb _ IH|msg name t fs _ IH]; [done|rewrite !fmap_cons, (has_type_name _ _ Hb); by constructor|by constructor].
Qed.

(** ** The types of the methods *)

(** What is said of a node. *)
Definition node_type : list field :=
  [required "uid" TStr; required "server_host" TStr; required "server_port" TU32; required "psk" TStr; required "client_port" TU32] ++
  [optional "description" TStr] ++ [optional "client_comment" TStr] ++ [optional "ip_check_url" TStr] ++ [optional "ip_version" TStr] ++
  [required "current_ip" TStr; required "node_status" TStr; required "created_at" TU64; required "last_updated" TU64] ++
  [optional "memlimit" TU32] ++ [optional "xor" TStr] ++ [required "lifetime" TU64] ++ [optional "expires_at" TU64] ++
  [optional "rotation_state" TU32] ++ [optional "xor_key_pending" TStr].

Definition words (l : list string) : ty := TWord (literal <$> l).

Definition register_type : list field :=
  [required "status" (words ["ok"; "stored_but_apply_failed"]); required "action" (words ["created"; "updated"]);
   required "applied" TFlag] ++ node_type.

Definition deregister_type : list field :=
  [required "status" (words ["error"; "deleted"; "deleted_with_cleanup_errors"]); optional "message" TStr;
   required "server_deleted" TFlag; required "client_deleted" TFlag; required "db_deleted" TFlag] ++ node_type.

Definition not_found_type : list field := [required "status" (words ["not_found"]); optional "message" TStr].

Definition refresh_all_type : list field :=
  [required "status" (words ["ok"; "partial_error"]); required "scope" (words ["all"]); required "force" TFlag].

Definition refresh_type : list field :=
  [required "status" (words ["ok"; "error"]); required "scope" (words ["one"]); required "force" TFlag; required "note" TStr] ++ node_type.

Definition status_type : list field :=
  [required "status" (words ["ok"]); required "count" TU32; required "nodes" (TTables node_type)].

(** The types that a reply to a method can have. *)
Definition reply_types (m : method_call) : list (list field) :=
  match m with
  | MRegister _ => [register_type]
  | MDeregister _ => [deregister_type; not_found_type]
  | MRefresh _ => [refresh_all_type; refresh_type; not_found_type]
  | MStatus | MDump => [status_type]
  end.

Definition reply_typed (m : method_call) (msg : list blob) : Prop := Exists (typed msg) (reply_types m).

Lemma reply_typed_names m msg : reply_typed m msg -> NoDup (blob_name <$> msg).
Proof.
  intros (fs & Hin & Ht)%Exists_exists. eapply sublist_NoDup; [|by apply typed_names].
  assert (Forall (fun fs => NoDup (field_name <$> fs)) (reply_types m)) as Hall.
  { destruct m; apply (bool_decide_unpack _); by vm_compute. }
  rewrite Forall_forall in Hall. by apply Hall.
Qed.

(** The replies to a sequence of events: one at most to each call, of the type
    of its method, and none to anything else. *)
Inductive answers : list loop_event -> list (list blob) -> Prop :=
| answers_nil : answers [] []
| answers_call m evs msg msgs : reply_typed m msg -> answers evs msgs -> answers (Call m :: evs) (msg :: msgs)
| answers_none ev evs msgs : answers evs msgs -> answers (ev :: evs) msgs.

(** ** The parts of the replies *)
Create HintDb typing.

Lemma typed_optional name v : typed (add_optional name v) [optional name TStr].
Proof. destruct v; repeat constructor. Qed.

Lemma typed_if name t (c : bool) b : has_type b (optional name t) -> typed (if c then [] else [b]) [optional name t].
Proof. destruct c; repeat constructor. done. Qed.
Lemma typed_if' name t (c : bool) b : has_type b (optional name t) -> typed (if c then [b] else []) [optional name t].
Proof. destruct c; repeat constructor. done. Qed.

Lemma uint32_range z : (0 <= uint32 z < 2 ^ 32)%Z.
Proof. apply Z.mod_pos_bound. lia. Qed.
Lemma uint64_range z : (0 <= uint64 z < 2 ^ 64)%Z.
Proof. apply Z.mod_pos_bound. lia. Qed.
Lemma flag_range (c : bool) : (if c then 1 else 0)%Z = 0%Z \/ (if c then 1 else 0)%Z = 1%Z.
Proof. destruct c; auto. Qed.

#[export] Hint Resolve uint32_range uint64_range flag_range typed_optional typed_if typed_if' : typing.
#[export] Hint Constructors has_type typed : typing.

Lemma node_typed n : typed (add_node_brief n) node_type.
Proof.
  unfold add_node_brief, node_type.
  repeat (apply typed_app; [eauto 8 with typing|]).
  destruct (rotation_state n =? _)%Z; [repeat constructor|]. apply typed_app; eauto 8 with typing.
Qed.

(** ** Handlers that answer

    A handler says one thing and returns OK, or says nothing. *)
Class Answers (P : list blob -> Prop) {E : Env} (m : M ubus_status) : Prop :=
  answers_with w : wp m (fun st w' =>
    if decide (st = UBUS_STATUS_OK) then exists msg, replies_between [msg] w w' /\ P msg else no_replies w w') w.

Section Answers.
Context {E : Env} (P : list blob -> Prop).

#[export] Instance answers_refuse st : TCEq (bool_decide (st = UBUS_STATUS_OK)) false -> Answers P (mret st).
Proof. intros Hst%TCEq_eq%bool_decide_eq_false w. apply wp_ret. by rewrite decide_False. Qed.

#[export] Instance answers_bind {A} (m : M A) (f : A -> M ubus_status) :
  Respects no_replies m -> (forall a, Answers P (f a)) -> Answers P (bind m f) | 2.
Proof.
  intros Hm Hf w. apply wp_bind. eapply wp_mono; [by apply (wp_respects no_replies)|]. intros a w1 H1.
  eapply wp_mono; [apply Hf|]. intros st w2. cbv beta. destruct (decide (st = _)).
  - intros (msg & H2 & HP). exists msg. split; [|done]. exact (replies_between_app [] [msg] _ _ _ H1 H2).
  - intros H2. by transitivity w1.
Qed.

Lemma answers_reply msg : P msg -> Answers P (ubus_send_reply msg;; mret UBUS_STATUS_OK).
Proof. intros HP w. apply wp_bind, wp_emit, wp_ret. rewrite decide_True by done. exists msg. split; [|done]. by exists [EvReply msg]. Qed.
End Answers.

#[export] Hint Extern 2 (Answers _ (match ?x with _ => _ end)) => destruct x eqn:? : typeclass_instances.

(** A reply that is one of the types of the method. *)
Lemma reply_typed_intro m msg fs : typed msg fs -> fs ∈ reply_types m -> reply_typed m msg.
Proof. intros Ht Hin. apply Exists_exists. by exists fs. Qed.

(** The conditions in a reply are split; its words are looked up; what is said
    of a node has its type. *)
Ltac typed_reply :=
  repeat match goal with |- context [if ?c then _ else _] => destruct c end;
  cbn [app]; unfold register_type, deregister_type, refresh_type, refresh_all_type, status_type, not_found_type;
  cbn [app]; repeat first
    [ apply node_typed
    | apply typed_nil
    | apply typed_there; [first [apply ty_word, (bool_decide_unpack _); by vm_compute | by auto with typing]|]
    | apply typed_missing ].

Ltac answer fs := apply answers_reply, (reply_typed_intro _ _ fs); [typed_reply|cbn; set_solver].

Section HandlersAnswer.
Context `{E : Env} {Run : Exec} `{!ExecLaws Run}.

#[export] Instance answers_register cfg tb : Answers (reply_typed (MRegister tb)) (handle_register cfg tb).
Proof.
  assert (forall created n sl, Answers (reply_typed (MRegister tb)) (register_apply cfg created sl n)).
  { intros. unfold register_apply, refetch. 
    apply answers_bind; [apply _|]. intros rc. destruct (negb _); [apply _|]. 
    apply answers_bind; [apply _|]. intros r. apply answers_bind; [apply _|]. intros n'. answer register_type. }
  unfold handle_register, register_node, register_start, register_key, time. apply _.
Qed.

#[export] Instance answers_deregister tb : Answers (reply_typed (MDeregister tb)) (handle_deregister tb).
Proof.
  unfold handle_deregister. destruct (requested_key tb) as [k|]; [|apply _].
  unfold resolve_node, reply_simple. apply answers_bind; [apply _|]. intros [rc n]. cbn [fst snd].
  destruct (rc =? 1)%Z; [answer not_found_type|]. destruct (negb _); [apply _|]. unfold deregister_node. cbv zeta.
  do 3 (apply answers_bind; [apply _|]; intros ?). answer deregister_type.
Qed.

#[export] Instance answers_refresh cfg tb : Answers (reply_typed (MRefresh tb)) (handle_refresh cfg tb).
Proof.
  unfold handle_refresh, refresh_all, refresh_node, resolve_node, refetch. cbv zeta.
  destruct (blobmsg_get_bool_default (ref_all tb) false).
  { apply answers_bind; [apply _|]. intros rc. answer refresh_all_type. }
  destruct (requested_key _) as [k|]; [|apply _]. apply answers_bind; [apply _|]. intros [rc n]. cbn [fst snd].
  destruct (rc =? 1)%Z; [answer not_found_type|]. destruct (negb _); [apply _|].
  do 2 (apply answers_bind; [apply _|]; intros ?). answer refresh_type.
Qed.

Lemma tables_typed nodes : has_type (BArray "nodes" (add_node_brief <$> nodes)) (required "nodes" (TTables node_type)).
Proof. apply ty_tables, Forall_fmap, Forall_true. apply node_typed. Qed.
#[local] Hint Resolve tables_typed : typing.

#[export] Instance answers_status m : reply_types m = [status_type] -> Answers (reply_typed m) handle_status.
Proof.
  intros Hm. unfold handle_status. apply answers_bind; [apply _|]. intros [rc nodes]. cbn [fst snd].
  destruct (negb _); [apply _|]. apply answers_reply, (reply_typed_intro _ _ status_type); [typed_reply|rewrite Hm; set_solver].
Qed.
End HandlersAnswer.

(** ** Events and their answers *)
Section LoopAnswers.
Context `{E : Env} {Run : Exec} `{!ExecLaws Run}.
Implicit Types (w : world).

(** What one event says. *)
Definition answered_by (ev : loop_event) (w w' : world) : Prop :=
  no_replies w w' \/ exists m msg, ev = Call m /\ replies_between [msg] w w' /\ reply_typed m msg.

Lemma wp_dispatch_answers uci cfg ev w : wp (dispatch uci cfg ev) (fun _ w' => answered_by ev w w') w.
Proof.
  assert (forall m (h : M ubus_status), Answers (reply_typed m) h -> wp (h;; mret tt) (fun _ w' => answered_by (Call m) w w') w) as Hcall.
  { intros m h Hh. apply wp_bind. eapply wp_mono; [apply Hh|]. intros st w1. cbv beta.
    destruct (decide (st = _)); [intros (msg & Hm & Ht); apply wp_ret; right; by exists m, msg|intros; apply wp_ret; by left]. }
  assert (forall (m : M unit), Respects no_replies m -> wp m (fun _ w' => answered_by ev w w') w) as Hsilent.
  { intros m Hm. eapply wp_mono; [by apply (wp_respects no_replies)|]. intros; by left. }
  assert (forall t, Allows no_replies (EvTimerFired t)) as Hf by (intros t w0; by exists [EvTimerFired t]).
  assert (forall t ms, Allows no_replies (EvTimer t ms)) as Ht by (intros t ms w0; by exists [EvTimer t ms]).
  destruct ev as [[tb|tb|tb| |]|msg|[]]; cbn [dispatch call_method].
  1-3: apply Hcall, _.
  1-2: by apply Hcall, answers_status.
  all: apply Hsilent; unfold net_event_cb, check_wan_interface, startup_reconcile_timer_cb, periodic_reconcile_timer_cb, uloop_timeout_set; apply _.
Qed.

Context `{!Responsive}.

Lemma answers_names evs msgs : answers evs msgs -> Forall (fun msg => NoDup (blob_name <$> msg)) msgs.
Proof. induction 1; [done|constructor; [by eapply reply_typed_names|done]|done]. Qed.

(** C16: the replies are well typed.  Whatever arrives at the running daemon
    before the signal, the replies it sends are at most one to each call, in
    the order of the calls, and none to anything else; each has the type of the
    method it answers: every attribute that is required is there, with the type
    of libubox and the range, or the words, that belong to its name, and no
    other attribute is, and none is there twice. *)
Theorem replies_are_well_typed uci cfg evs w :
  serving w -> Forall event_strings evs ->
  exists w' msgs, uloop_run uci cfg evs w = Some (tt, w') /\ replies_between msgs w w' /\
    answers evs msgs /\ Forall (fun msg => NoDup (blob_name <$> msg)) msgs.
Proof.
  intros Hs Hevs.
  destruct (serving_run_ind uci cfg event_strings (fun evs w w' => exists msgs, replies_between msgs w w' /\ answers evs msgs))
    with (evs := evs) (w := w) as (w' & Hrun & _ & msgs & Hm & Ha); [done|..|done|done|].
  - intros w1. exists []. split; [by exists []|constructor].
  - intros ev evs' w1 w2 w3 _ _ Hstep (msgs & Hm & Ha).
    assert (answered_by ev w1 w2) as [Hno|(m & msg & -> & Hmsg & Ht)].
    { destruct Hstep as [[_ Hrun]| ->]; [exact (wp_elim _ _ _ _ _ (wp_dispatch_answers uci cfg ev w1) Hrun)|left; by exists []]. }
    + exists msgs. split; [exact (replies_between_app [] msgs _ _ _ Hno Hm)|by constructor].
    + exists (msg :: msgs). split; [exact (replies_between_app [msg] msgs _ _ _ Hmsg Hm)|by constructor].
  - exists w', msgs. split; [done|]. split; [done|]. split; [done|by eapply answers_names].
Qed.
End LoopAnswers.

(** A run with two replies in a concrete environment. *)
Lemma replies_are_well_typed_witness : exists w' msgs,
  @uloop_run (online_env now0) (@supervised_exec (online_env now0)) true sample_config sample_events started_world = Some (tt, w') /\
  answers sample_events msgs /\ length (replies (w_trace w')) = 2.
Proof.
  destruct (@replies_are_well_typed (online_env now0) (@supervised_exec (online_env now0)) _ (online_responsive now0)
    true sample_config sample_events started_world started_serving sample_events_strings) as (w' & msgs & Hrun & _ & Ha & _).
  exists w', msgs. split; [exact Hrun|]. split; [exact Ha|]. vm_compute in Hrun. injection Hrun as <-. by vm_compute.
Defined.
