(* ===== verification/QuietSpec.v ===== *)
(** * QuietSpec: a daemon with nothing to do does nothing

    When every node is applied at the address that its check server reports, no
    rotation is left and no lifetime is over, then the periodic passes, and
    whatever asks for no more than they do, run no command and write nothing.
    This is what keeps the servers and the flash of the router from being
    worn by a timer that fires every minute. *)

From S2P Require Import Prelude CLib Types World Logic Helper Db DbSpec Exec ExecSpec Runner IpDetect IpDetectSpec Reconcile ReconcileSpec ReconcileProps RetrySpec HealthSpec ConvergeSpec UbusIf UbusSpec Registry RegisterSpec MethodsSpec UbusProps Daemon DaemonSpec.

(** Nothing is written and no command is run. *)
Definition rests : relation world := fun w w' => same_db w w' /\ no_commands w w' /\ later w w'.

#[export] Instance rests_silent : Silent rests.
Proof.
  split; [split|].
  - intros w. unfold rests. split_and!; reflexivity.
  - intros w1 w2 w3 (? & ? & ?) (? & ? & ?). split_and!; by etransitivity.
  - intros w n b Hn. split_and!; by apply silent_call.
Qed.
#[export] Instance rests_fd_silent : FdSilent rests.
Proof. intros w s. split_and!; apply fd_silent. Qed.

Section Quiet.
Context `{E : Env}.
Implicit Types (w : world).

(** From the call number [t0] on nothing is to be done for a node: no rotation
    is left, no clock says that its lifetime is over, and the check server
    reports the address that it was applied at. *)
Record quiet_node (n : node) (t0 : nat) : Prop := {
  quiet_not_due t : ~ overdue (env_time t) n;
  quiet_address out w : t0 <= w_tick w ->
    wp (detect_public_ip (pick_ip_check_url n) (ip_version n) out 64) (fun r _ => r.1 = 0%Z /\ up_to_date n r.2) w
}.

(** Nor for any row, as it is read. *)
Definition quiet (w : world) : Prop := Forall (fun r => forall t, quiet_node (read_row (env_time t) r) (w_tick w)) (w_rows w).

Lemma quiet_rests w w' : quiet w -> rests w w' -> quiet w'.
Proof.
  intros Hq ((_ & _ & Hrows) & _ & Hl). unfold quiet. rewrite Hrows. eapply Forall_impl; [exact Hq|].
  intros r Hr t. destruct (Hr t) as [Hdue Haddr]. split; [done|]. intros out w0 Hw0. apply Haddr. unfold later in Hl. lia.
Qed.

Lemma quiet_lookup w k r t : table_ok (w_rows w) -> quiet w -> store w !! k = Some r -> quiet_node (read_row (env_time t) r) (w_tick w).
Proof. intros Hok Hq [Hin _]%to_map_lookup; [|apply Hok]. unfold quiet in Hq. rewrite Forall_forall in Hq. by apply Hq. Qed.

Context {Run : Exec} `{!ExecLaws Run}.

(** *** A pass *)
Lemma wpx_not_due cfg now QE (Q : unit -> reconcile_locals -> world -> Prop) l w :
  ~ overdue now (r_node l) -> Q tt l w -> wpx (settle_rotation cfg now) QE Q l w.
Proof.
  intros Hdue HQ. assert (rotation_state (r_node l) = TUMGRD_ROTATION_NONE) as H0.
  { destruct (decide (rotation_state (r_node l) = TUMGRD_ROTATION_NONE)); [done|]. destruct Hdue. by left. }
  apply wpx_settle_resume; [by left|]. apply wpx_bind, wpx_local. rewrite H0. cbv zeta. cbn [Z.eqb TUMGRD_ROTATION_NONE TUMGRD_ROTATION_PENDING_LOCAL_RECOVERY TUMGRD_ROTATION_PENDING_REMOTE].
  unfold overdue in Hdue. destruct (Z.ltb_spec now TUMGRD_MIN_SANE_TIME); [by apply wpx_ret|].
  destruct (Z.ltb_spec 0 (lifetime (r_node l))); cbn [andb]; [|by apply wpx_ret].
  destruct (Z.eqb_spec (last_applied_at (r_node l)) 0); [destruct Hdue; right; split_and!; [done..|by left]|].
  destruct (Z.leb_spec (lifetime (r_node l)) (now - last_applied_at (r_node l))); [destruct Hdue; right; split_and!; [done..|by right]|].
  by apply wpx_ret.
Qed.

Lemma up_to_date_needs_nothing n ip : up_to_date n ip -> node_needs_apply n false ip = false.
Proof.
  intros (Hip & He & Hs). unfold node_needs_apply. rewrite Hip. cbn [orb negb].
  unfold streq, strcmp_eq. by rewrite !bool_decide_eq_false_2.
Qed.

Lemma wp_quiet_pass cfg n t0 w :
  quiet_node n t0 -> t0 <= w_tick w ->
  wp (tumgrd_reconcile_one cfg n false) (fun r w' => r = (0%Z, n) /\ rests w w') w.
Proof.
  intros [Hdue Haddr] Ht. apply wp_bind, wp_time. intros w1 H1. apply wp_bind, wp_wpx.
  apply wpx_bind, wpx_not_due; [apply Hdue|]. apply wpx_bind, wpx_bind, wpx_local, wpx_bind, wpx_lift.
  assert (rests w w1) as Hr1 by (apply (calm_respects _ _ _ H1)).
  eapply wp_mono; [apply wp_and; [apply Haddr|apply wp_and; [wp_frame same_db|apply wp_and; [wp_frame no_commands|wp_frame later]]]|].
  { destruct Hr1 as (_ & _ & Hl). unfold later in Hl. lia. }
  intros [rc ip] w2 [[Hrc Hup] [Hdb [Hn Hl]]]. cbn [fst snd] in *. subst rc.
  apply wpx_bind, wpx_assign. cbn [Z.ltb Z.compare fst snd]. apply wpx_ret. cbn [r_node force set_detected_ip].
  rewrite up_to_date_needs_nothing by done. apply wpx_ret, wp_ret. split; [done|]. transitivity w1; [done|by split_and!].
Qed.

Lemma wp_quiet_nodes cfg nodes t0 w :
  Forall (fun n => quiet_node n t0) nodes -> t0 <= w_tick w ->
  wp (reconcile_nodes cfg false nodes) (fun failed w' => failed = 0 /\ rests w w') w.
Proof.
  revert w. induction nodes as [|n nodes IH]; intros w Hq Ht; cbn [reconcile_nodes]; [by apply wp_ret; split|].
  apply Forall_cons in Hq as [Hn Hq]. apply wp_bind. eapply wp_mono; [by apply (wp_quiet_pass cfg n t0)|].
  intros r w1 [-> H1]. apply wp_bind. pose proof H1 as (_ & _ & Hl). unfold later in Hl.
  eapply wp_mono; [apply IH; [done|lia]|]. intros failed w2 [-> H2]. apply wp_ret. split; [done|by transitivity w1].
Qed.

Lemma wp_quiet_all cfg w :
  quiet w -> wp (tumgrd_reconcile_all cfg false) (fun rc w' => rests w w' /\ (rc = 0%Z \/ sql_fault w w')) w.
Proof.
  intros Hq. apply wp_bind. eapply wp_mono; [apply list_spec|]. intros [rc nodes] w1 [H1 Hlist]. cbn [fst snd] in *.
  assert (rests w w1) as Hr1 by (apply (calm_respects _ _ _ H1)).
  destruct Hlist as [[-> Hread]|(Hneg & _ & Hf)].
  2:{ destruct (Z.ltb_spec rc 0); [|lia]. apply wp_ret. split; [done|by right]. }
  cbn [Z.ltb Z.compare]. apply wp_bind. eapply wp_mono; [apply (wp_quiet_nodes cfg nodes (w_tick w))|].
  - assert (Forall (fun r => forall t, quiet_node (read_row (env_time t) r) (w_tick w)) (select_ordered (w_rows w))) as Hqs.
    { unfold select_ordered. by rewrite merge_sort_Permutation. }
    clear -Hread Hqs. induction Hread as [|r n rows nodes (t & ->) _ IH]; [done|]. apply Forall_cons in Hqs as [Hr Hqs]. auto.
  - destruct Hr1 as (_ & _ & Hl). exact Hl.
  - intros failed w2 [-> H2]. apply wp_ret. split; [by transitivity w1|by left].
Qed.

(** *** What asks for no more *)

(** An event that forces nothing and changes nothing that is asked for. *)
Definition quiet_event (ev : loop_event) : Prop :=
  match ev with
  | TimerExpired PeriodicTimer | Call MStatus | Call MDump => True
  | Call (MRefresh tb) => blobmsg_get_bool_default (ref_force tb) false = false
  | _ => False
  end.

Lemma rests_reply msg w w' : rests w w' -> rests w (set_w_trace (EvReply msg :: w_trace w') w').
Proof. intros (Hdb & Hn & Hl). split_and!; [exact Hdb|by apply commands_replied|exact Hl]. Qed.

Lemma wp_quiet_refresh cfg tb w :
  table_ok (w_rows w) -> quiet w -> blobmsg_get_bool_default (ref_force tb) false = false ->
  wp (handle_refresh cfg tb) (fun _ w' => rests w w') w.
Proof.
  intros Hok Hq Hf. unfold handle_refresh. cbv zeta. rewrite Hf. destruct (blobmsg_get_bool_default (ref_all tb) false).
  { apply wp_bind. eapply wp_mono; [by apply wp_quiet_all|]. intros rc w1 [H1 _]. by apply wp_bind, wp_emit, wp_ret, rests_reply. }
  destruct (requested_key _) as [k|]; [|by apply wp_ret]. apply wp_bind. eapply wp_mono; [by apply wp_resolve_node|].
  intros [rc n] w1 [H1 Hres]. cbn [fst snd] in *. assert (rests w w1) as Hr1 by (apply (calm_respects _ _ _ H1)).
  destruct (rc =? 1)%Z; [by apply wp_bind, wp_emit, wp_ret, rests_reply|].
  destruct Hres as [(-> & r & t & Hr & ->)|[(-> & _)|(-> & _)]]; [cbn [Z.eqb negb]|by apply wp_ret..].
  apply wp_bind. eapply wp_mono.
  { apply (wp_quiet_pass cfg _ (w_tick w)); [by eapply quiet_lookup|apply Hr1]. }
  intros [rc n'] w2 [_ H2]. apply wp_bind. eapply wp_mono; [apply wp_refetch|].
  { pose proof Hr1 as ((_ & _ & Hrows1) & _). pose proof H2 as ((_ & _ & Hrows2) & _). congruence. }
  intros n2 w3 H3. apply wp_bind, wp_emit, wp_ret, rests_reply. transitivity w1; [done|]. transitivity w2; [done|].
  apply (calm_respects _ _ _ H3).
Qed.

Lemma wp_quiet_event uci cfg ev w :
  table_ok (w_rows w) -> quiet w -> quiet_event ev -> wp (dispatch uci cfg ev) (fun _ w' => rests w w') w.
Proof.
  intros Hok Hq Hev.
  assert (wp handle_status (fun _ w' => rests w w') w) as Hstatus.
  { eapply wp_mono; [apply wp_and; [wp_frame same_db|apply wp_and; [apply wp_handle_status|wp_frame later]]|].
    intros st w' (Hdb & Hst & Hl). split_and!; [done| |done]. by destruct Hst as [(_ & (_ & Hn & _) & _)|(_ & _ & Hn & _)]. }
  destruct ev as [[]|msg|[]]; try done; cbn [dispatch call_method].
  - apply wp_bind. eapply wp_mono; [by apply wp_quiet_refresh|]. intros st w1 H1. by apply wp_ret.
  - apply wp_bind. eapply wp_mono; [exact Hstatus|]. intros st w1 H1. by apply wp_ret.
  - apply wp_bind. eapply wp_mono; [exact Hstatus|]. intros st w1 H1. by apply wp_ret.
  - apply wp_bind, wp_emit, wp_bind. set (w1 := set_w_trace _ _).
    assert (rests w w1) as H1 by (split_and!; [done|by exists [EvTimerFired PeriodicTimer]|unfold later; done]).
    eapply wp_mono; [apply wp_quiet_all; by eapply quiet_rests|]. intros rc w2 [H2 _]. apply wp_emit.
    transitivity w2; [by transitivity w1|]. split_and!; [done|by eexists [_]|unfold later; done].
Qed.

Context `{!Responsive}.

(** C5: a daemon with nothing to do does nothing.  If no node has a rotation or
    a lifetime that is over, and the check servers report the addresses that
    the nodes were applied at, then however often the periodic timer expires,
    and whatever calls of status, dump and refresh without force arrive in
    between, no command is run and no row is written; the daemon stays ready
    for the next one. *)
Theorem quiet_daemon_rests uci cfg evs w :
  serving w -> quiet w -> Forall quiet_event evs ->
  exists w', uloop_run uci cfg evs w = Some (tt, w') /\ serving w' /\ quiet w' /\
    w_rows w' = w_rows w /\ commands_between [] w w'.
Proof.
  intros Hs Hq Hevs.
  destruct (serving_run_ind uci cfg quiet_event (fun _ w w' => quiet w -> rests w w')) with (evs := evs) (w := w)
    as (w' & Hrun & Hs' & Hr); [by intros [[]| |[]]|done| |done|done|].
  - intros ev evs' w1 w2 w3 (_ & [Hinv _] & _) Hev Hstep Hrest Hq1.
    assert (rests w1 w2) as H12.
    { destruct Hstep as [[_ Hrun]| ->]; [exact (wp_elim _ _ _ _ _ (wp_quiet_event uci cfg ev w1 (proj1 Hinv) Hq1 Hev) Hrun)|done]. }
    transitivity w2; [done|]. apply Hrest. by eapply quiet_rests.
  - specialize (Hr Hq). pose proof Hr as ((_ & _ & Hrows) & Hn & _). exists w'. split_and!; [done|done|by eapply quiet_rests|done|exact Hn].
Qed.
End Quiet.

(** ** How the daemon comes to rest *)
Section Settle.
Context `{E : Env} {Run : Exec} `{!ExecLaws Run}.
Implicit Types (w : world).

#[export] Instance overdue_dec now n : Decision (overdue now n).
Proof. unfold overdue. apply _. Defined.

(** No lifetime ends while the clock is watched: it can be believed, its
    readings are less than the lifetime of the row and at most a day apart, and
    they agree on whether the row is due. *)
Record clock_stands (r : row) : Prop := {
  stands_sane t : (TUMGRD_MIN_SANE_TIME <= env_time t)%Z;
  stands_apart t t' : (env_time t' - env_time t < lifetime (read_row (env_time t) r) /\ env_time t' - env_time t <= 86400)%Z;
  stands_agree t u t' u' : overdue (env_time t) (read_row (env_time u) r) -> overdue (env_time t') (read_row (env_time u') r)
}.

(** A row in a healthy system whose address is [ip] from the call number [t0]
    on, and which has no lifetime, or none that ends. *)
Record tended (ip : cstr) (t0 : nat) (r : row) : Prop := {
  tended_healthy t : Healthy (read_row (env_time t) r) t0;
  tended_fits : text_fits SZ_CURRENT_IP ip;
  tended_address t out w : t0 <= w_tick w ->
    wp (detect_public_ip (pick_ip_check_url (read_row (env_time t) r)) (ip_version (read_row (env_time t) r)) out 64)
      (fun x _ => x.1 = 0%Z -> x.2 = ip) w;
  tended_clock : (forall t, lifetime (read_row (env_time t) r) = 0%Z) \/ clock_stands r
}.

Lemma tended_finds ip t0 r t out w :
  tended ip t0 r -> t0 <= w_tick w ->
  wp (detect_public_ip (pick_ip_check_url (read_row (env_time t) r)) (ip_version (read_row (env_time t) r)) out 64)
    (fun x _ => x.1 = 0%Z /\ x.2 = ip) w.
Proof.
  intros Hr Ht. eapply wp_mono; [apply wp_and; [by apply (tended_address _ _ _ Hr)|]|].
  - by apply (wp_detects _ t0 (Healthy0 := tended_healthy _ _ _ Hr t)).
  - intros x w' [Hip [Hrc _]]. auto.
Qed.

(** The row [r] of a node that needs nothing any more; [r0] is the row from
    which the pass began. *)
Definition at_rest (ip : cstr) (r : row) : Prop :=
  c_rotation_state r = Some TUMGRD_ROTATION_NONE /\ c_status r = Some TUMGRD_STATUS_ACTIVE /\ c_current_ip r = Some ip.
Definition settles (t0 : nat) (r0 r : row) : Prop := exists ip t u,
  tended ip t0 r0 /\ at_rest ip r /\ stamped r0 (read_row (env_time u) r0) (env_time t) r.

Lemma each_pass_settles cfg t0 : each_pass cfg true (fun r => exists ip, tended ip t0 r) (settles t0) t0.
Proof.
  intros n r0 w [ip Hn] Ht Hinv Hready Hr0 Hread. pose proof Hread as [t Hr].
  assert (rotation_view r0 n) as Hv by (rewrite Hr; apply read_row_view).
  assert (store w = <[node_key n := r0]> (store w)) as Hm by by rewrite insert_id.
  eapply wp_mono.
  { apply wp_and; [apply (wp_node_converges cfg n true r0 w); [done..|]|].
    - apply (healthy_for (read_row (env_time t) r0) _ t0); [done|by rewrite Hr..|by apply (tended_healthy _ _ _ Hn)].
    - by apply (reconcile_one_spec (store w) cfg n true r0 w (proj1 Hinv)). }
  intros [rc n'] w' [(Hrc & Hk & Hsound & Hconv) (_ & _ & Hres)]. cbn [fst snd] in *. subst rc.
  split; [done|]. split; [done|]. split; [done|].
  destruct Hconv as (r & Hs & Hvr & Hz & _). exists r. split; [done|]. split; [done|].
  inversion Hres as [? ? [=]|ip' _ (out & wa & wb & Ha & _ & Hrun) _ _ (r' & Hs' & _ & Hact & Hip & _ & Hst)|? ? ? Hneg]; [|lia].
  assert (r' = r) as -> by (pose proof (f_equal (lookup (node_key n')) Hs') as Hl; rewrite Hs, !lookup_insert_eq in Hl; congruence).
  unfold later in Ha. rewrite Hr in Hrun. assert (ip' = ip) as ->.
  { apply (wp_elim _ _ _ _ _ (tended_finds ip t0 r0 t out wa Hn ltac:(lia)) Hrun). }
  exists ip, (w_tick w), t. split; [done|]. split; [by split_and!|]. rewrite <- Hr. apply Hst.
  by eapply (invariant_settled w _ r0).
Qed.

(** What was asked for is all that the rest of the story depends on. *)
Lemma settled_not_overdue t0 r0 r t t' :
  desired r = desired r0 -> settles t0 r0 r -> ~ overdue (env_time t') (read_row (env_time t) r).
Proof.
  intros Hd (ip & now & u & Hn & (Hz & _) & Hdue & Hnot). intros [Hst|(Hsane & Hl & Hover)].
  { unfold read_row in Hst. cbn [rotation_state] in Hst. by rewrite Hz in Hst. }
  assert (c_lifetime r = c_lifetime r0) as Hlife by by injection Hd.
  assert (forall x, lifetime (read_row x r) = lifetime (read_row (env_time t) r0)) as Hsame.
  { intros x. unfold read_row. cbn [lifetime]. by rewrite Hlife. }
  destruct (tended_clock _ _ _ Hn) as [H0|[Hs Ha Hagree]]; [rewrite Hsame, H0 in Hl; lia|].
  destruct (decide (overdue (env_time now) (read_row (env_time u) r0))) as [Ho|Ho].
  - specialize (Hdue Ho). unfold applied_time in Hdue. rewrite (proj2 (Z.leb_le _ _) (Hs now)) in Hdue.
    specialize (Hs now). pose proof (Ha now t') as [Hnow _]. pose proof (Ha t now) as [_ Hday]. rewrite Hsame in Hover.
    assert (lifetime (read_row (env_time now) r0) = lifetime (read_row (env_time t) r0)) as Heq by done.
    assert (last_applied_at (read_row (env_time t) r) = env_time now) as Hlast.
    { unfold read_row. cbn [last_applied_at]. rewrite Hdue. cbn [column_int64 default from_option id].
      unfold TUMGRD_MIN_SANE_TIME in *. by rewrite !decide_False by lia. }
    rewrite Hlast in Hover. unfold TUMGRD_MIN_SANE_TIME in *. lia.
  - specialize (Hnot Ho). apply Ho. apply (Hagree t' t). right. rewrite Hsame in Hl, Hover. split_and!; [done..|].
    unfold read_row in Hover |- *. cbn [last_applied_at lifetime] in *. by rewrite Hnot in Hover.
Qed.

Lemma settles_quiet t0 t1 r0 r t : desired r = desired r0 -> settles t0 r0 r -> t0 <= t1 -> quiet_node (read_row (env_time t) r) t1.
Proof.
  intros Hd Hset Ht. split; [intros t'; by eapply settled_not_overdue|].
  intros out w Hw. destruct Hset as (ip & _ & _ & Hn & (_ & Hact & Hip) & _).
  assert (c_ip_version r = c_ip_version r0 /\ c_ip_check_url r = c_ip_check_url r0) as (Hver & Hurl).
  { unfold desired, row_key in Hd. by split; congruence. }
  assert (pick_ip_check_url (read_row (env_time t) r) = pick_ip_check_url (read_row (env_time t) r0) /\
    ip_version (read_row (env_time t) r) = ip_version (read_row (env_time t) r0)) as [-> ->].
  { unfold pick_ip_check_url, read_row. cbn [ip_check_url ip_version]. by rewrite Hurl, Hver. }
  eapply wp_mono; [apply (tended_finds ip t0 _ _ _ _ Hn); lia|]. intros [rc ip'] w1 [-> ->]. split; [done|].
  pose proof (tended_fits _ _ _ Hn) as Hfit.
  unfold up_to_date, read_row. cbn [current_ip status fst snd]. rewrite Hip, Hact, column_text_id by done.
  split; [apply streqcase_refl|]. by split.
Qed.

Context `{!Responsive}.

(** C4: one forced pass, as the timer makes after a start, brings the daemon to
    rest.  Take a well-formed table whose keys fit their arrays, in a healthy
    system in which from now on every call to the kernel and the engine succeeds,
    and the address that is detected for each node stays the same; where a node
    has a lifetime, let it not end while the clock is watched
    ([clock_stands]).  Then the pass over all
    nodes returns 0 and leaves a table for which nothing is to be done, with
    what was asked for in every row as it was, whatever rotations and failures
    the table was left in: the pass ends the rotations, and gives every node
    that was due the time from which its lifetime counts again. *)
Theorem forced_pass_brings_rest cfg w :
  watched w -> db_invariant (w_rows w) -> db_ready w -> Forall key_fits (w_rows w) ->
  (forall t, w_tick w <= t -> env_ok t = true) ->
  Forall (fun r => exists ip, tended ip (w_tick w) r) (w_rows w) ->
  exists w', tumgrd_reconcile_all cfg true w = Some (0%Z, w') /\ quiet w' /\ db_invariant (w_rows w') /\
    desired <$> store w' = desired <$> store w.
Proof.
  intros Hw Hinv Hready Hfit Hcalls Hall.
  pose proof (wp_all_each cfg true _ _ w (each_pass_settles cfg (w_tick w)) Hinv Hready Hfit Hcalls Hall) as Hrest.
  destruct (total_wp watched (tumgrd_reconcile_all cfg true) _ w Hw (wp_and _ _ _ _ Hrest (wp_respects later _ w)))
    as (rc & w' & Hrun & [-> Hrows] & Hlat).
  pose proof (keeps_reconcile_all cfg true w _ w' Hrun Hinv) as Hinv'.
  destruct (desired_reconcile_all cfg true w _ w' Hrun (proj1 Hinv)) as [_ Hd].
  exists w'. split_and!; [done| |done|done].
  apply to_map_forall; [apply Hinv'|]. intros k r' Hr'. pose proof (f_equal (lookup k) Hd) as Hk. rewrite !lookup_fmap, Hr' in Hk.
  destruct (store w !! k) as [r|] eqn:Hr; [|done]. apply (inj Some) in Hk.
  destruct (Hrows k r Hr) as (r1 & Hr1 & Hset). assert (r1 = r') as -> by congruence.
  intros t. by apply (settles_quiet (w_tick w) _ r).
Qed.
End Settle.

(** ** A quiet daemon in a concrete environment *)

(** One node, applied at the address that the check server reports. *)
Definition applied_row : row :=
  set_c_status (Some TUMGRD_STATUS_ACTIVE) (set_c_current_ip (Some (literal "203.0.113.7")) (row_of_node (filled 1 1 sample_node) true)).
Definition quiet_world : world :=
  set_w_trace [EvTimer PeriodicTimer 60000; EvUbus "add_object"; EvUbus "connect"] (world_with (mkColumns true true true true) [applied_row]).

Lemma quiet_serving : serving quiet_world.
Proof.
  split; [done|]. split; [|by exists false, false]. split.
  - split; [split; apply (bool_decide_eq_true_1 _); vm_compute; reflexivity|]. apply Forall_singleton. by left.
  - apply Forall_singleton. unfold key_fits, text_fits, int_fits; cbn; split_and!; try lia; by repeat constructor.
Qed.

Lemma applied_quiet t : @quiet_node healthy_env (read_row t applied_row) 0.
Proof.
  split.
  - intros t'. intros [Hst|(_ & Hl & _)]; [by vm_compute in Hst|by vm_compute in Hl].
  - intros out w Hw.
    assert (@Healthy healthy_env working_exec (read_row t applied_row) 0) as Hh.
    { apply (@healthy_for healthy_env working_exec rotating_node _ 0 0); [lia|vm_compute; reflexivity..|exact healthy_system]. }
    apply (@wp_finds healthy_env working_exec (read_row t applied_row) 0 Hh (fun r => up_to_date (read_row t applied_row) r.2));
      [done|done|exact Hw| |by intros ip H6; vm_compute in H6].
    intros w1 _. eapply wp_mono; [apply healthy_receives|]. intros r w2 ->. eexists _, _. split; [reflexivity|].
    split; [vm_compute; reflexivity|]. intros o. split; [vm_compute; reflexivity|].
    split; [vm_compute; reflexivity|]. by split.
Qed.

Lemma quiet_daemon_rests_witness : exists w',
  @uloop_run healthy_env working_exec true sample_config [TimerExpired PeriodicTimer; Call MStatus; TimerExpired PeriodicTimer]
    quiet_world = Some (tt, w') /\ w_rows w' = w_rows quiet_world /\ commands_between [] quiet_world w'.
Proof.
  destruct (@quiet_daemon_rests healthy_env working_exec working_exec_laws healthy_responsive true sample_config
    [TimerExpired PeriodicTimer; Call MStatus; TimerExpired PeriodicTimer] quiet_world quiet_serving)
    as (w' & Hrun & _ & _ & Hrows & Hc).
  - apply Forall_singleton. intros t. exact (applied_quiet (@env_time healthy_env t)).
  - by repeat constructor.
  - exists w'. split; [exact Hrun|]. split; [exact Hrows|exact Hc].
Defined.

(** The table with a rotation and a failure, each with a lifetime of an hour:
    the one is due, the other was applied a minute ago. *)
Definition leased (applied : Z) (r : row) : row := set_c_lifetime (Some 3600%Z) (set_c_last_applied_at (Some applied) r).
Definition leased_world : world :=
  world_with (mkColumns true true true true) [leased 0 sample_rotating; leased (now0 - 60) failed_row].

Lemma leased_ok a r : rotation_ok r -> rotation_ok (leased a r).
Proof. done. Qed.
Lemma leased_fits a r : key_fits r -> key_fits (leased a r).
Proof. done. Qed.

Lemma leased_invariant : db_invariant (w_rows leased_world).
Proof.
  split; [split; apply (bool_decide_eq_true_1 _); vm_compute; reflexivity|].
  destruct troubled_invariant as [_ Hrot]. apply Forall_cons in Hrot as [H1 [H2 _]%Forall_cons].
  apply Forall_cons. split; [exact (leased_ok _ _ H1)|apply Forall_singleton; exact (leased_ok _ _ H2)].
Qed.

Lemma leased_keys_fit : Forall key_fits (w_rows leased_world).
Proof.
  pose proof troubled_keys_fit as Hfit. apply Forall_cons in Hfit as [H1 [H2 _]%Forall_cons].
  apply Forall_cons. split; [exact (leased_fits _ _ H1)|apply Forall_singleton; exact (leased_fits _ _ H2)].
Qed.

Lemma leased_ready : db_ready leased_world.
Proof. split; [done|]. by eexists. Qed.

Lemma address_fits : text_fits SZ_CURRENT_IP (literal "203.0.113.7").
Proof. split; [by repeat constructor|vm_compute; lia]. Qed.

Lemma check_server_says url version out w :
  url = pick_ip_check_url rotating_node -> version = ip_version rotating_node ->
  wp (@detect_public_ip healthy_env url version out 64) (fun x _ => x.1 = 0%Z -> x.2 = literal "203.0.113.7") w.
Proof.
  intros Hu Hv. eapply wp_mono.
  { apply (@wp_finds healthy_env working_exec rotating_node 0 healthy_system (fun x => x.2 = literal "203.0.113.7"));
      [exact Hu|exact Hv|unfold since; lia| |by intros ip H6; rewrite Hv in H6; vm_compute in H6].
    intros w1 _. eapply wp_mono; [apply healthy_receives|]. intros r w2 ->. eexists _, _. split; [reflexivity|].
    split; [vm_compute; reflexivity|]. intros o. rewrite Hv. split; vm_compute; reflexivity. }
  by intros x w' [_ Hip] _.
Qed.

Lemma leased_tended : Forall (fun r => exists ip, @tended healthy_env working_exec ip 0 r) (w_rows leased_world).
Proof.
  assert (forall r, (forall t, ip_version (read_row t r) = ip_version rotating_node) ->
    (forall t, pick_ip_check_url (read_row t r) = pick_ip_check_url rotating_node) ->
    lifetime (read_row now0 r) = 3600%Z -> exists ip, @tended healthy_env working_exec ip 0 r) as Htended.
  { intros r Hv Hu Hl. exists (literal "203.0.113.7"). split.
    - intros t. apply (@healthy_for healthy_env working_exec rotating_node _ 0 0); [lia|by rewrite Hv|by rewrite Hu|exact healthy_system].
    - exact address_fits.
    - intros t out w _. by apply check_server_says.
    - right. split; [done| |done]. intros t t'. change (env_time t) with now0. change (env_time t') with now0. rewrite Hl. lia. }
  apply Forall_cons. split; [|apply Forall_singleton]; apply Htended; intros; vm_compute; reflexivity.
Qed.

(** The pass ends the rotation, which starts the hour of the one anew, and
    leaves that of the other. *)
Example hours_go_on :
  match @tumgrd_reconcile_all healthy_env working_exec sample_config true leased_world with
  | Some (rc, w') => rc = 0%Z /\ c_last_applied_at <$> w_rows w' = [Some now0; Some (now0 - 60)%Z]
  | None => False
  end.
Proof. vm_compute. by split. Qed.

Lemma forced_pass_brings_rest_witness : exists w',
  @tumgrd_reconcile_all healthy_env working_exec sample_config true leased_world = Some (0%Z, w') /\ @quiet healthy_env w'.
Proof.
  destruct (@forced_pass_brings_rest healthy_env working_exec working_exec_laws healthy_responsive sample_config
    leased_world eq_refl leased_invariant leased_ready leased_keys_fit (fun _ _ => eq_refl) leased_tended)
    as (w' & Hrun & Hq & _).
  exists w'. split; [exact Hrun|exact Hq].
Defined.
